(* ===== verification/_CoqProject ===== *)
-Q . S2P
Prelude.v
Errors.v
Effects.v
Expected.v
ExpectedLaws.v
CompletionQueue.v
QueueThread.v
Environment.v
FutureUtils.v
FutureStorage.v
StorageRace.v
StoragePtr.v
Future.v
FutureLaws.v
FutureChain.v
FuturePromise.v
FutureJoin.v
FutureTyping.v
FutureSafety.v
FutureClient.v
FutureTypeSafety.v
StreamStorage.v
StreamLaws.v
StreamRace.v
Conformance.v
Grpc.v
CallHandler.v
ServerStreaming.v
ServerStreamingLaws.v
ClientStreaming.v
ClientStreamingLaws.v
BidirStreaming.v
BidirLaws.v
Listener.v
HandlerHeap.v
UnaryServer.v
FunctionTraits.v
ServiceConfig.v
Server.v
ServerLaws.v
Client.v
ClientUnary.v
ClientReader.v
ClientWriter.v
ClientWriterLaws.v
ClientBidir.v
ClientBidirLaws.v
Reflection.v
ReflectionLaws.v
Plugin.v
PluginLaws.v
EndToEnd.v
EndToEndBidir.v
StreamingServers.v
