(* ===== verification/Prelude.v ===== *)
(** * easy_grpc: a verification library

    easy_grpc wraps the C core of gRPC in C++ futures; it builds on the library
    variadic_future, which is part of the repository.  This development models both
    in Rocq, from the C++ under src/, and proves what makes them correct.  All
    paths below are relative to src/, and to
    variadic_future/include/var_future/ where they start with "impl/".

    ** How C++ is modelled

    - Effects.v is the monad in which bodies are written: a computation on an
      explicit state returns, throws a C++ exception, or crashes (a failed assert, a
      null dereference, a mutex locked twice, a use after free, a read of a member
      that was never initialised, an exception that leaves a noexcept function:
      [noexcept], around exec and the destructors that call a program's handlers).
      The state is kept in every case.
    - Errors.v has the exceptions (include/easy_grpc/error.h) and expected<T>, as a
      value or an exception.  Expected.v has the class behind it as it is written
      (include/nonstd/expected.hpp, and its copy in variadic_future/): objects in a
      store, with a union whose members are constructed and destroyed by hand, and
      what their copies, moves and swaps do ([CppObject]).  ExpectedLaws.v: for
      types that move without throwing ([NothrowMove]) programs over these objects
      refine programs over a sum, which is what Errors.v assumes; and what goes
      wrong for others, and in expected<void, E>.
    - Objects that are shared live in heaps and are known by their address;
      templates become Section variables; virtual functions and concepts become
      classes: [FutureHandler] (FutureStorage.v) is what a storage asks of the
      handler attached to it, [Serializer] (Grpc.v) what a message type provides,
      [WellTyped] (FutureTyping.v) what futures ask of the program's callbacks,
      [HandlerType] and [HandlerLaws] (Listener.v) what a listener asks of a call
      handler, [CallKind] (HandlerHeap.v) what tells one kind of handlers from
      another, [Transport] (EndToEnd.v) what two ends of a call ask of the core.
    - Code that runs in several threads is cut at its accesses to shared memory, or
      at its critical sections, and every interleaving is considered: by schedules
      in StorageRace.v and StreamRace.v, by a step relation in QueueThread.v, by
      sequences of events everywhere else, where a mutex or the order of the
      completions of a queue makes the events atomic.
    - Machine integers keep their width where the code depends on it: the 64-bit
      tags of CompletionQueue.v, the state bytes of FutureStorage.v and
      StreamStorage.v, the 8-bit reference counts of StoragePtr.v.
    - The gRPC core, protobuf and the program that uses the library are parameters.
      The core accepts at least the batches its documentation allows
      ([batch_allowed], [grpc_accepts_allowed] in Grpc.v) and completes them with
      the arguments given to the events of each model; every such hypothesis is
      met by a concrete core in a witness.

    ** The parts

    variadic_future:
    - FutureUtils.v (impl/utils.h): the tuples a future carries; conversions and
      round trips.
    - FutureStorage.v (impl/storage_decl.h, impl/storage_impl.h): the state shared by
      promise and future refines a one-shot cell.  StorageRace.v: producer against
      consumer, every interleaving calls the handler once with the result.
      StoragePtr.v: the counted pointer that owns it, and where it fails.
    - Future.v (future.h, impl/future.h, then.h, then_expect.h,
      then_finally_expect.h, promise.h, join.h, async.h): handlers, work queues and
      the operations of futures on a heap.  FutureLaws.v, FutureChain.v (a chain of
      then computes a reference pipeline), FuturePromise.v (a promise settles
      once), FutureJoin.v (join waits for all, in every interleaving).  Type
      soundness: FutureTyping.v (types of the heap, and who owns the right to give
      a result or to attach a handler), FutureSafety.v (what is run keeps both, as
      triples), FutureClient.v (programs and their typing rules) and
      FutureTypeSafety.v (a well-typed program runs to its end without a crash).
    - StreamStorage.v (stream_future.h, impl/stream/): streams.  StreamLaws.v: what is
      pushed is delivered, in order, wherever the consumer attaches.
      StreamRace.v: the same when producer and consumer are two threads.
    - Conformance.v runs the models on the unit tests of variadic_future/tests/: each
      evaluates to what the test requires.

    Core objects:
    - Environment.v (environment.h, environment.cpp); CompletionQueue.v and
      QueueThread.v (completion_queue.h, completion_queue.cpp): tags, the worker's
      loop, and the thread's life next to the destructor.
    - Grpc.v: operations, batches, buffers, serialization (serialize.h,
      ext_protobuf/serialize.h), and the state every call has in common.

    Server (include/easy_grpc/server/, src/easy_grpc/server/):
    - CallHandler.v (methods/call_handler.h, unary.h), ServerStreaming.v,
      ClientStreaming.v, BidirStreaming.v: the four kinds of handlers, with
      ServerStreamingLaws.v, ClientStreamingLaws.v and BidirLaws.v: as the program,
      the two streams and the completions interleave, messages travel in order and
      what was taken is released once; and the interleavings in which this fails.
    - Listener.v (methods/listener.h, method.h) against the class [HandlerType].
      HandlerHeap.v gives the instance for a heap of handlers of any kind that has
      [CallKind]: calls arrive, things happen to calls that are there, and the server
      shuts down, in any order, and every call goes as it would go alone.
      UnaryServer.v and StreamingServers.v apply it to the four kinds of handlers,
      and state what a whole method of a running server does.
    - FunctionTraits.v (function_traits.h): what the templates see of a callback's
      type.  ServiceConfig.v (service_config.h, service_impl.h, service.h,
      config.cpp): how that type selects a handler.  Server.v
      (server.h, server.cpp) and ServerLaws.v: the calls that start and stop a
      server, in order; ownership under moves.

    Client (include/easy_grpc/client/, src/easy_grpc/client/):
    - Client.v (channel.h, unsecure_channel.cpp, method_stub.h); ClientUnary.v,
      ClientReader.v, ClientWriter.v, ClientBidir.v: the four kinds of calls of
      stub_impl.h.  ClientWriterLaws.v; ClientBidirLaws.v, where the session refines
      a small machine.
    - EndToEnd.v puts client and server together: unary calls, streams of replies
      and streams of requests.  EndToEndBidir.v: bidirectional calls.

    Reflection.v and ReflectionLaws.v (src/easy_grpc_reflection/): what the
    reflection service answers, and that its traversal of file dependencies ends.
    Plugin.v and PluginLaws.v (protoc_plugin/main.cpp): the text the generator
    writes, and that it selects the right handlers.

    ** Names

    A definition is named after the member function or type it models, with the
    class in front where two classes share the name: [Server_streaming_push] is
    Server_streaming_call_handler::push.  Each file says which source it models.
    What the program may do next, and what the core may report, are the
    constructors of an event type ([ss_event], [bidir_event], [reader_event], ...);
    a [legal] predicate says which sequences respect the interfaces.

    ** Where the code fails

    Some interleavings that the interfaces allow make the code fail.  The theorems
    about what calls do exclude them, in their [legal] predicate or their machine,
    and each has a theorem that shows what happens in it:
    - a server that replies before a stream of requests has ended
      ([client_streaming_early_reply_use_after_free]), or whose status completes
      before it has ([bidir_early_close_use_after_free]): the handler is deleted with
      a receive in flight;
    - replies, or requests, that end before the metadata was exchanged with none
      written: the end is never sent ([bidir_streaming_early_end_lost] at the server,
      [client_bidir_early_end_lost] at the client);
    - the end of the replies received while the client's half-close is in flight:
      the status is asked for twice ([client_bidir_double_finish]).

    ** Fuel

    Only four functions take fuel.  Futures (Future.v) run handlers that finish other
    futures: their theorems compute how much is enough (two units per future of a
    chain, plus three; eight units per call of a whole program, plus three) and
    prove a result for it.  The traversal of reflection takes
    more units than there are file names that can be reached, and
    [reflection_sends_file_with_dependencies] shows that it then ends.  [tokenize]
    takes the length of its string, and [to_hex] the eight digits of an [int]:
    both give a result for every input.

    ** What is not modelled

    - The gRPC core, protobuf, the C++ library, and the vendored asio
      (variadic_future/examples/include/), which only the examples use: other
      people's code.  Where the library relies on them, a hypothesis says so.
    - Of expected.hpp, what is compiled for other versions of its proposal
      ([nsel_P0323R] is 7 here).
    - Memory orders: the model of the races is sequentially consistent.
    - Exceptions of the program's own moves, copies and allocators, but in
      Expected.v.
    - Text that is only printed for debugging (std::cout, std::cerr,
      EASY_GRPC_TRACE, DebugString).
    - main of the plugin, which hands the generator to protobuf; the examples and
      the benchmarks; of the tests, those that need allocators, threads or sockets. *)

From stdpp Require Export base tactics option list strings.
From Stdlib Require Export ZArith Lia.

(** ** Automation shared by every component *)

Create HintDb egrpc.

(** Case analysis on the scrutinee of a [match] in the goal or in a hypothesis,
    keeping the equation. *)
Ltac case_on t :=
  let E := fresh "E" in destruct t eqn:E.

Ltac split_match_goal :=
  match goal with
  | |- context [match ?x with _ => _ end] => case_on x
  end.

(** Solve leftover goals of a case analysis. *)
Ltac crush :=
  repeat (simplify_eq/= || split_match_goal || case_decide);
  try done; eauto with egrpc; try lia.

(** ** Lists *)

Lemma last_snoc_inv {A} (l : list A) (x : A) :
  last l = Some x → ∃ l', l = l' ++ [x].
Proof.
  revert x. induction l as [|y l IH] using rev_ind; intros x H; [done|].
  rewrite last_snoc in H. simplify_eq. by exists l.
Qed.

Lemma drop_S_cons {A} (l : list A) (i : nat) (x : A) :
  l !! i = Some x → drop i l = x :: drop (S i) l.
Proof. intros H. by rewrite (drop_S l x i). Qed.

(** Number of elements of a list that satisfy a boolean test. *)
Definition countb {A} (f : A → bool) (l : list A) : nat :=
  length (List.filter f l).

Lemma countb_nil {A} (f : A → bool) : countb f [] = 0.
Proof. done. Qed.

Lemma countb_cons {A} (f : A → bool) x l :
  countb f (x :: l) = (if f x then 1 else 0) + countb f l.
Proof. unfold countb. simpl. by destruct (f x). Qed.

Lemma countb_app {A} (f : A → bool) l1 l2 :
  countb f (l1 ++ l2) = countb f l1 + countb f l2.
Proof. unfold countb. by rewrite List.filter_app, length_app. Qed.

Lemma countb_snoc {A} (f : A → bool) l x :
  countb f (l ++ [x]) = countb f l + (if f x then 1 else 0).
Proof. rewrite countb_app, countb_cons, countb_nil. lia. Qed.

Lemma countb_perm {A} (f : A → bool) l1 l2 : l1 ≡ₚ l2 → countb f l1 = countb f l2.
Proof.
  induction 1 as [|x l1 l2 _ IH|x y l|l1 l2 l3 _ IH1 _ IH2];
    rewrite ?countb_cons, ?IH; [done|done|lia|congruence].
Qed.

Lemma countb_fmap {A B} (f : B → bool) (g : A → B) l : countb f (g <$> l) = countb (λ x, f (g x)) l.
Proof. induction l as [|x l IH]; [done|]. rewrite fmap_cons, !countb_cons, IH. done. Qed.

Lemma countb_true {A} (l : list A) : countb (λ _, true) l = length l.
Proof. induction l as [|x l IH]; [done|]. rewrite countb_cons, IH. done. Qed.

Lemma bind_perm {A B} (f : A → list B) l1 l2 : l1 ≡ₚ l2 → l1 ≫= f ≡ₚ l2 ≫= f.
Proof. by intros ->. Qed.

Create Rewrite HintDb egrpc_list.
#[export] Hint Rewrite @countb_nil @countb_cons @countb_app @countb_snoc
  @app_nil_r : egrpc_list.

Lemma countb_le {A} (f : A → bool) l : countb f l ≤ length l.
Proof.
  induction l as [|x l IH]; [done|]. rewrite countb_cons. simpl. destruct (f x); lia.
Qed.

Lemma countb_ext {A} (f g : A → bool) (xs : list A) :
  (∀ x, x ∈ xs → f x = g x) → countb f xs = countb g xs.
Proof.
  induction xs as [|x xs IH]; intros H; [done|]. rewrite !countb_cons, IH.
  - by rewrite (H x) by (constructor).
  - intros y Hy. apply H. by constructor.
Qed.

Lemma countb_seq_flip (f g : nat → bool) n i :
  i < n → f i = false → g i = true → (∀ j, j ≠ i → g j = f j) →
  countb g (seq 0 n) = S (countb f (seq 0 n)).
Proof.
  intros Hi Hf Hg Hfg.
  replace n with (i + S (n - S i)) by lia. rewrite seq_app, !countb_app. simpl.
  rewrite !countb_cons, Hf, Hg.
  rewrite (countb_ext g f (seq 0 i)), (countb_ext g f (seq (S i) _)); [lia| |];
    intros x Hx; apply Hfg; apply elem_of_seq in Hx; lia.
Qed.

Lemma countb_all (f : nat → bool) n :
  countb f (seq 0 n) = n ↔ ∀ i, i < n → f i = true.
Proof.
  induction n as [|n IH]; [split; [lia|done]|].
  rewrite seq_S, countb_snoc. simpl.
  pose proof (countb_le f (seq 0 n)) as Hle. rewrite length_seq in Hle.
  split.
  - intros H i Hi. destruct (f n) eqn:Hfn; [|lia].
    destruct (decide (i = n)) as [->|]; [done|]. apply IH; lia.
  - intros H. rewrite (H n) by lia. rewrite (proj2 IH); [lia|]. intros i Hi. apply H. lia.
Qed.

Lemma forallb_ext_in {A} (f g : A → bool) (xs : list A) :
  (∀ x, x ∈ xs → f x = g x) → forallb f xs = forallb g xs.
Proof.
  induction xs as [|x xs IH]; intros H; [done|]. simpl.
  rewrite IH, (H x); [done|constructor|]. intros y Hy. apply H. by constructor.
Qed.
