(* ===== verification/Errors.v ===== *)
(** Errors: the status codes, the C++ exceptions the library throws and catches
    (include/easy_grpc/error.h) and [expected<T>]
    (variadic_future/include/var_future/config.h). *)

From S2P Require Import Prelude.

(** The status codes error.h names, with [GRPC_STATUS_OK]. *)
Inductive grpc_status_code :=
| GRPC_STATUS_OK
| GRPC_STATUS_CANCELLED
| GRPC_STATUS_UNKNOWN
| GRPC_STATUS_INVALID_ARGUMENT
| GRPC_STATUS_DEADLINE_EXCEEDED
| GRPC_STATUS_NOT_FOUND
| GRPC_STATUS_ALREADY_EXISTS
| GRPC_STATUS_PERMISSION_DENIED
| GRPC_STATUS_UNAUTHENTICATED
| GRPC_STATUS_RESOURCE_EXHAUSTED
| GRPC_STATUS_FAILED_PRECONDITION
| GRPC_STATUS_ABORTED
| GRPC_STATUS_OUT_OF_RANGE
| GRPC_STATUS_UNIMPLEMENTED
| GRPC_STATUS_INTERNAL
| GRPC_STATUS_UNAVAILABLE
| GRPC_STATUS_DATA_LOSS.

#[export] Instance grpc_status_code_eq_dec : EqDecision grpc_status_code.
Proof. solve_decision. Defined.

(** What a [std::exception_ptr] of this program can hold: an [Rpc_error], any
    other [std::exception] (only its [what()] is observed), or something else
    that was thrown. *)
Inductive exn :=
| Rpc_error (code : grpc_status_code) (what : string)
| Std_exception (what : string)
| Other_exception.

#[export] Instance exn_eq_dec : EqDecision exn.
Proof. solve_decision. Defined.

(** [Rpc_error::code], for the exceptions that have one. *)
Definition Rpc_error_code (e : exn) : option grpc_status_code :=
  match e with Rpc_error c _ => Some c | _ => None end.

(** [struct Unfullfilled_promise : std::logic_error]. *)
Definition Unfullfilled_promise : exn := Std_exception "Unfullfilled_promise".

Definition error_cancelled (what : string) := Rpc_error GRPC_STATUS_CANCELLED what.
Definition error_unknown (what : string) := Rpc_error GRPC_STATUS_UNKNOWN what.
Definition error_invalid_argument (what : string) :=
  Rpc_error GRPC_STATUS_INVALID_ARGUMENT what.
Definition error_deadline_exceeded (what : string) :=
  Rpc_error GRPC_STATUS_DEADLINE_EXCEEDED what.
Definition error_not_found (what : string) := Rpc_error GRPC_STATUS_NOT_FOUND what.
Definition error_already_exists (what : string) :=
  Rpc_error GRPC_STATUS_ALREADY_EXISTS what.
Definition error_permission_denied (what : string) :=
  Rpc_error GRPC_STATUS_PERMISSION_DENIED what.
Definition error_unauthenticated (what : string) :=
  Rpc_error GRPC_STATUS_UNAUTHENTICATED what.
Definition error_resource_exhausted (what : string) :=
  Rpc_error GRPC_STATUS_RESOURCE_EXHAUSTED what.
Definition error_failed_precondition (what : string) :=
  Rpc_error GRPC_STATUS_FAILED_PRECONDITION what.
Definition error_aborted (what : string) := Rpc_error GRPC_STATUS_ABORTED what.
Definition error_out_of_range (what : string) :=
  Rpc_error GRPC_STATUS_OUT_OF_RANGE what.
Definition error_unimplemented (what : string) :=
  Rpc_error GRPC_STATUS_UNIMPLEMENTED what.
Definition error_internal (what : string) := Rpc_error GRPC_STATUS_INTERNAL what.
Definition error_unavailable (what : string) :=
  Rpc_error GRPC_STATUS_UNAVAILABLE what.
Definition error_data_loss (what : string) := Rpc_error GRPC_STATUS_DATA_LOSS what.

(** [aom::expected<T>]: a value or the exception that replaces it. *)
Inductive expected (A : Type) :=
| Val (a : A)
| Err (e : exn).
Arguments Val {A} a.
Arguments Err {A} e.

#[export] Instance expected_eq_dec {A} `{EqDecision A} : EqDecision (expected A).
Proof. solve_decision. Defined.

Definition has_value {A} (x : expected A) : bool :=
  match x with Val _ => true | Err _ => false end.

#[export] Instance expected_ret : MRet expected := @Val.
#[export] Instance expected_bind : MBind expected := λ A B f x,
  match x with Val a => f a | Err e => Err e end.

Lemma expected_bind_assoc {A B C} (x : expected A) (f : A → expected B)
  (g : B → expected C) : (x ≫= f) ≫= g = x ≫= (λ a, f a ≫= g).
Proof. by destruct x. Qed.
