(* ===== verification/Effects.v ===== *)
(** Effects: the state-and-exception monad in which the C++ bodies are written.
    A computation returns a value, throws a C++ exception, or crashes (a failed
    [assert], a null dereference, a mutex locked twice by its owner, an exception
    that leaves a [noexcept] function); the state
    it leaves is kept in every case, as C++ keeps it. *)

From S2P Require Import Prelude Errors.

Inductive crash :=
| Assertion_failed
| Null_dereference
| Deadlock
| Use_after_free
| Uninitialised_read
| Terminate
| Out_of_fuel.

Inductive outcome (A : Type) :=
| Ret (a : A)
| Throw (e : exn)
| Crash (why : crash).
Arguments Ret {A} a.
Arguments Throw {A} e.
Arguments Crash {A} why.

Definition M (S A : Type) : Type := S → outcome A * S.

#[export] Instance M_ret S : MRet (M S) := λ A a s, (Ret a, s).
#[export] Instance M_bind S : MBind (M S) := λ A B f m s,
  match m s with
  | (Ret a, s') => f a s'
  | (Throw e, s') => (Throw e, s')
  | (Crash c, s') => (Crash c, s')
  end.

Section Operations.
Context {S : Type}.

Definition throw {A} (e : exn) : M S A := λ s, (Throw e, s).
Definition crash_with {A} (c : crash) : M S A := λ s, (Crash c, s).
Definition get_state : M S S := λ s, (Ret s, s).
Definition put_state (s : S) : M S unit := λ _, (Ret tt, s).
Definition modify (f : S → S) : M S unit := λ s, (Ret tt, f s).
Definition gets {A} (f : S → A) : M S A := λ s, (Ret (f s), s).

(** [assert(b)], as in a build without [NDEBUG]. *)
Definition massert (b : bool) : M S unit :=
  if b then mret tt else crash_with Assertion_failed.

Definition when (b : bool) (m : M S unit) : M S unit :=
  if b then m else mret tt.

(** [try { m } catch (...) { h }]: a crash is not an exception. *)
Definition try_catch {A} (m : M S A) (h : exn → M S A) : M S A := λ s,
  match m s with
  | (Throw e, s') => h e s'
  | r => r
  end.

(** The body of a [noexcept] function, such as a destructor: an exception that leaves it
    ends the program. *)
Definition noexcept {A} (m : M S A) : M S A := try_catch m (λ _, crash_with Terminate).

(** Run [m] once for each element, in order. *)
Fixpoint for_each_in {A} (m : A → M S unit) (l : list A) : M S unit :=
  match l with
  | [] => mret tt
  | x :: l => m x ;; for_each_in m l
  end.
End Operations.

(** Run a computation on a part of a larger state. *)
Definition zoom {S T A} (get : S → T) (set : T → S → S) (m : M T A) : M S A :=
  λ s, match m (get s) with (r, t) => (r, set t s) end.

(** Two computations that agree on every state. *)
Definition meq {S A} (m1 m2 : M S A) : Prop := ∀ s, m1 s = m2 s.

Declare Scope effects_scope.
Delimit Scope effects_scope with effects.
Infix "≈" := meq (at level 70, no associativity) : effects_scope.
Open Scope effects_scope.

#[export] Instance meq_equiv S A : Equivalence (@meq S A).
Proof.
  split.
  - by intros m s.
  - intros m1 m2 H s. by rewrite H.
  - intros m1 m2 m3 H1 H2 s. by rewrite H1.
Qed.

#[export] Instance mbind_proper S A B :
  Proper (pointwise_relation A (@meq S B) ==> @meq S A ==> @meq S B) mbind.
Proof.
  intros f g Hfg m1 m2 Hm s. unfold mbind, M_bind. rewrite (Hm s).
  destruct (m2 s) as [[a|e|c] s']; [apply Hfg|done|done].
Qed.

#[export] Instance try_catch_proper S A :
  Proper (@meq S A ==> pointwise_relation exn (@meq S A) ==> @meq S A) try_catch.
Proof.
  intros m1 m2 Hm h1 h2 Hh s. unfold try_catch. rewrite (Hm s).
  destruct (m2 s) as [[a|e|c] s']; try apply Hh; done.
Qed.

Lemma mret_bind {S A B} (a : A) (f : A → M S B) : mret a ≫= f ≈ f a.
Proof. done. Qed.

Lemma mbind_ret {S A} (m : M S A) : m ≫= mret ≈ m.
Proof.
  intros s. unfold mbind, M_bind, mret, M_ret.
  by destruct (m s) as [[a|e|c] s'].
Qed.

Lemma mbind_assoc {S A B C} (m : M S A) (f : A → M S B) (g : B → M S C) :
  (m ≫= f) ≫= g ≈ m ≫= (λ a, f a ≫= g).
Proof.
  intros s. unfold mbind, M_bind. by destruct (m s) as [[a|e|c] s'].
Qed.

Lemma for_each_in_fmap {S A B} (m : B → M S unit) (f : A → B) l :
  for_each_in m (f <$> l) = for_each_in (λ x, m (f x)) l.
Proof. induction l as [|x l IH]; [done|]. cbn [fmap list_fmap for_each_in]. by rewrite IH. Qed.

Lemma for_each_in_app {S A} (m : A → M S unit) l1 l2 :
  for_each_in m (l1 ++ l2) ≈ (for_each_in m l1 ;; for_each_in m l2).
Proof.
  induction l1 as [|x l1 IH]; simpl; [done|].
  intros s. unfold mbind, M_bind. by destruct (m x s) as [[[]|e|c] s'].
Qed.

(** Unfold the monad's operations on a concrete state. *)
Ltac munfold :=
  unfold mbind, M_bind, mret, M_ret, throw, crash_with, get_state, put_state,
    modify, gets, massert, when, noexcept, try_catch, zoom in *.

(** [runs m s s'] : [m] returns normally from [s], leaving [s']. *)
Definition runs {S A} (m : M S A) (s : S) (a : A) (s' : S) : Prop :=
  m s = (Ret a, s').

Lemma runs_bind {S A B} (m : M S A) (f : A → M S B) s a s' b s'' :
  runs m s a s' → runs (f a) s' b s'' → runs (m ≫= f) s b s''.
Proof. unfold runs, mbind, M_bind. by intros -> ->. Qed.

Lemma runs_bind_inv {S A B} (m : M S A) (f : A → M S B) s b s'' :
  runs (m ≫= f) s b s'' → ∃ a s', runs m s a s' ∧ runs (f a) s' b s''.
Proof.
  unfold runs, mbind, M_bind.
  destruct (m s) as [[a|e|c] s']; intros H; [eauto|done|done].
Qed.

Lemma runs_bind_assoc {S A B C} (m : M S A) (f : A → M S B) (g : B → M S C) s b s' c s'' :
  runs (m ≫= f) s b s' → runs (g b) s' c s'' → runs (m ≫= λ a, f a ≫= g) s c s''.
Proof.
  intros Hm Hg. pose proof (runs_bind _ g _ _ _ _ _ Hm Hg) as Hr.
  unfold runs in *. by rewrite (mbind_assoc m f g s) in Hr.
Qed.
