(* ===== verification/Expected.v ===== *)
(** nonstd::expected (include/nonstd/expected.hpp, and its copy in
    variadic_future/include/nonstd/), the type behind [expected<T>]: a flag and a union in
    which objects are constructed and destroyed by hand.  The parts that are compiled:
    [nsel_P0323R] is 7. *)

From S2P Require Import Prelude Errors Effects.

(** ** The types [expected] is instantiated with *)

(** What a class type provides: a copy, a move, with what it leaves in its source, and
    [std::swap]; each may throw. *)
Class CppObject (T : Type) := {
  copy_ctor : T → expected T;
  move_ctor : T → expected T * T;
  std_swap : T → T → expected unit * (T * T)
}.

(** A type whose moves and swaps do what they say and do not throw. *)
Class NothrowMove (T : Type) `{!CppObject T} := {
  moved_from : T → T;
  move_ctor_moves x : move_ctor x = (Val x, moved_from x);
  std_swap_swaps x y : std_swap x y = (Val tt, (y, x))
}.

(** [error_traits<E>::rethrow]: what [value()] throws for an error. *)
Class ErrorTraits (E : Type) := { rethrow : E → exn }.

(** The primary template throws [bad_expected_access<E>]. *)
Definition bad_expected_access_traits (E : Type) : ErrorTraits E :=
  {| rethrow _ := Std_exception "bad_expected_access" |}.

(** The error of [aom::expected<T>] is a [std::exception_ptr]. *)
#[export] Instance exception_ptr_traits : ErrorTraits exn := {| rethrow e := e |}.

(** ** [unexpected_type<E>] *)

Record unexpected_type (E : Type) := Unexpected { m_error : E }.
Arguments Unexpected {E} _.
Arguments m_error {E} _.

(** [make_unexpected]. *)
Definition make_unexpected {E} `{!CppObject E} (e : E) : expected (unexpected_type E) :=
  e ← copy_ctor e; Val (Unexpected e).

(** From an [unexpected_type<E2>]. *)
Definition unexpected_convert {E E2} (convert : E2 → expected E) (error : unexpected_type E2) :
  expected (unexpected_type E) :=
  e ← convert (m_error error); Val (Unexpected e).

Definition unexpected_swap {E} `{!CppObject E} (x y : unexpected_type E) :
  expected unit * (unexpected_type E * unexpected_type E) :=
  let '(r, (a, b)) := std_swap (m_error x) (m_error y) in (r, (Unexpected a, Unexpected b)).

(** [operator=(unexpected_type<E2> const&)]: a temporary, converted from the other's
    error, is swapped with [*this]. *)
Definition unexpected_assign {E E2} `{!CppObject E} (convert : E2 → expected E)
  (this : unexpected_type E) (other : unexpected_type E2) : expected unit * unexpected_type E :=
  match convert (m_error other) with
  | Err e => (Err e, this)
  | Val t => let '(r, (_, b)) := unexpected_swap (Unexpected t) this in (r, b)
  end.

Definition unexpected_eq {E E2} (eq : E → E2 → bool) (x : unexpected_type E)
  (y : unexpected_type E2) : bool := eq (m_error x) (m_error y).

(** ** [storage_t<T, E>] and the objects *)

(** The union: nothing is alive in it, or one of its members. *)
Inductive storage_t (T E : Type) :=
| Raw
| Alive_value (m_value : T)
| Alive_error (m_error : E).
Arguments Raw {T E}.
Arguments Alive_value {T E} _.
Arguments Alive_error {T E} _.

Record expected_obj (T E : Type) := ExpectedObj {
  has_value_ : bool;
  contained : storage_t T E
}.
Arguments ExpectedObj {T E} _ _.
Arguments has_value_ {T E} _.
Arguments contained {T E} _.

(** The objects of the program, by address, and how many [T]s and [E]s lost their storage
    without having been destroyed.  Temporaries are at the end of the list. *)
Record store (T E : Type) := Store {
  objects : list (option (expected_obj T E));
  leaked : nat
}.
Arguments Store {T E} _ _.
Arguments objects {T E} _.
Arguments leaked {T E} _.

Section Storage.
Context {T E : Type} `{!CppObject T, !CppObject E}.
Local Abbreviation world := (store T E).
Local Abbreviation object := (expected_obj T E).

Definition alive_in (s : storage_t T E) : nat := match s with Raw => 0 | _ => 1 end.

Definition get_object (i : nat) : M world object := λ w,
  match objects w !! i with
  | Some (Some o) => (Ret o, w)
  | _ => (Crash Use_after_free, w)
  end.
Definition put_object (i : nat) (o : object) : M world unit :=
  modify (λ w, Store (<[i := Some o]> (objects w)) (leaked w)).

Definition lift {A} (r : expected A) : M world A :=
  match r with Val a => mret a | Err e => throw e end.

(** Placement new: the storage is reused, whatever was alive in it. *)
Definition place (i : nat) (s : storage_t T E) : M world unit :=
  o ← get_object i;
  put_object i (ExpectedObj (has_value_ o) s) ;;
  modify (λ w, Store (objects w) (leaked w + alive_in (contained o))).

(** [contained.value()] and [contained.error()], as lvalues. *)
Definition contained_value (i : nat) : M world T :=
  o ← get_object i;
  match contained o with Alive_value v => mret v | _ => crash_with Uninitialised_read end.
Definition contained_error (i : nat) : M world E :=
  o ← get_object i;
  match contained o with Alive_error e => mret e | _ => crash_with Uninitialised_read end.

(** Assigning through such an lvalue. *)
Definition set_contained (i : nat) (s : storage_t T E) : M world unit :=
  o ← get_object i; put_object i (ExpectedObj (has_value_ o) s).

(** An object made by moving from [contained.value()], or from [contained.error()]. *)
Definition move_contained_value (i : nat) : M world T :=
  v ← contained_value i;
  let '(r, rest) := move_ctor v in
  set_contained i (Alive_value rest) ;; lift r.
Definition move_contained_error (i : nat) : M world E :=
  e ← contained_error i;
  let '(r, rest) := move_ctor e in
  set_contained i (Alive_error rest) ;; lift r.

(** [construct_value(value_type const&)] and [construct_value(value_type&&)]. *)
Definition construct_value (i : nat) (e : T) : M world unit :=
  v ← lift (copy_ctor e); place i (Alive_value v).
Definition construct_value_move (i : nat) (e : T) : M world unit :=
  v ← lift (fst (move_ctor e)); place i (Alive_value v).

(** [emplace_value(args...)], where [v] is what [T]'s constructor gives. *)
Definition emplace_value (i : nat) (v : expected T) : M world unit :=
  v ← lift v; place i (Alive_value v).

Definition destruct_value (i : nat) : M world unit :=
  o ← get_object i;
  match contained o with
  | Alive_value _ => put_object i (ExpectedObj (has_value_ o) Raw)
  | _ => crash_with Use_after_free
  end.

Definition construct_error (i : nat) (e : E) : M world unit :=
  e ← lift (copy_ctor e); place i (Alive_error e).
Definition construct_error_move (i : nat) (e : E) : M world unit :=
  e ← lift (fst (move_ctor e)); place i (Alive_error e).
Definition emplace_error (i : nat) (e : expected E) : M world unit :=
  e ← lift e; place i (Alive_error e).

Definition destruct_error (i : nat) : M world unit :=
  o ← get_object i;
  match contained o with
  | Alive_error _ => put_object i (ExpectedObj (has_value_ o) Raw)
  | _ => crash_with Use_after_free
  end.

(** *** Objects *)

Definition expected_has_value (i : nat) : M world bool := o ← get_object i; mret (has_value_ o).

(** The storage of the last object goes away. *)
Definition pop_object (i : nat) : M world unit :=
  o ← get_object i;
  modify (λ w, Store (take i (objects w)) (leaked w + alive_in (contained o))).

(** [: has_value_( has ) { body }]: when the body throws there is no object. *)
Definition new_object (has : bool) (body : nat → M world unit) : M world nat :=
  i ← gets (λ w, length (objects w));
  modify (λ w, Store (objects w ++ [Some (ExpectedObj has Raw)]) (leaked w)) ;;
  try_catch (body i) (λ e, pop_object i ;; throw e) ;;
  mret i.

(** A full expression with a temporary, destroyed at its end and when it throws. *)
Definition with_temporary (destroy : nat → M world unit) (make : M world nat)
  (body : nat → M world unit) : M world unit :=
  t ← make;
  try_catch (body t) (λ e, destroy t ;; pop_object t ;; throw e) ;;
  destroy t ;; pop_object t.

(** The end of a variable's life. *)
Definition destroy_object (destroy : nat → M world unit) (i : nat) : M world unit :=
  destroy i ;;
  o ← get_object i;
  modify (λ w, Store (<[i := None]> (objects w)) (leaked w + alive_in (contained o))).
End Storage.

(** ** [expected<T, E>] *)

Section Expected.
Context {T E : Type} `{!CppObject T, !CppObject E, !ErrorTraits E}.
Local Abbreviation world := (store T E).

(** *** Constructors *)

(** [expected()], of a type whose default is [v]. *)
Definition expected_default (v : T) : M world nat :=
  new_object true (λ this, construct_value_move this v).

Definition expected_copy (other : nat) : M world nat :=
  has ← expected_has_value other;
  new_object has (λ this,
    if (has : bool) then v ← contained_value other; construct_value this v
    else e ← contained_error other; construct_error this e).

Definition expected_move (other : nat) : M world nat :=
  has ← expected_has_value other;
  new_object has (λ this,
    if (has : bool) then v ← move_contained_value other; place this (Alive_value v)
    else e ← move_contained_error other; place this (Alive_error e)).

(** From an [expected<U, G>]: the conversions give a temporary, which is moved. *)
Definition expected_convert {U G} (conv_value : U → expected T) (conv_error : G → expected E)
  (other : expected_obj U G) : M world nat :=
  new_object (has_value_ other) (λ this,
    if has_value_ other then
      match contained other with
      | Alive_value u => v ← lift (conv_value u); construct_value_move this v
      | _ => crash_with Uninitialised_read
      end
    else
      match contained other with
      | Alive_error g => e ← lift (conv_error g); construct_error_move this e
      | _ => crash_with Uninitialised_read
      end).

(** From an [expected<U, G>&&], which keeps what the conversions leave in it. *)
Definition expected_convert_move {U G} (conv_value : U → expected T * U)
  (conv_error : G → expected E * G) (other : expected_obj U G) :
  M world nat * expected_obj U G :=
  if has_value_ other then
    match contained other with
    | Alive_value u =>
        let '(r, u') := conv_value u in
        (new_object true (λ this, v ← lift r; construct_value_move this v),
         ExpectedObj true (Alive_value u'))
    | _ => (crash_with Uninitialised_read, other)
    end
  else
    match contained other with
    | Alive_error g =>
        let '(r, g') := conv_error g in
        (new_object false (λ this, e ← lift r; construct_error_move this e),
         ExpectedObj false (Alive_error g'))
    | _ => (crash_with Uninitialised_read, other)
    end.

(** [expected(value_type const&)] and [expected(U&&)] of a [T]. *)
Definition expected_value (v : T) : M world nat :=
  new_object true (λ this, construct_value this v).
Definition expected_value_move (v : T) : M world nat :=
  new_object true (λ this, construct_value_move this v).

(** [expected(unexpected_type const&)] and [expected(unexpected_type&&)]. *)
Definition expected_error (u : unexpected_type E) : M world nat :=
  new_object false (λ this, construct_error this (m_error u)).
Definition expected_error_move (u : unexpected_type E) : M world nat :=
  new_object false (λ this, construct_error_move this (m_error u)).

(** [expected(in_place, args...)] and [expected(unexpect, args...)]. *)
Definition expected_in_place (v : expected T) : M world nat :=
  new_object true (λ this, emplace_value this v).
Definition expected_unexpect (e : expected E) : M world nat :=
  new_object false (λ this, emplace_error this e).

(** [~expected]. *)
Definition expected_destroy (this : nat) : M world unit :=
  has ← expected_has_value this;
  if (has : bool) then destruct_value this else destruct_error this.

(** *** Observers *)

(** [operator*] and [operator->]. *)
Definition expected_deref (this : nat) : M world T :=
  has ← expected_has_value this; massert has ;; contained_value this.

Definition expected_get_value (this : nat) : M world T :=
  has ← expected_has_value this;
  if (has : bool) then contained_value this
  else e ← contained_error this; throw (rethrow e).

Definition expected_get_error (this : nat) : M world E :=
  has ← expected_has_value this; massert (negb has) ;; contained_error this.

Definition expected_get_unexpected (this : nat) : M world (unexpected_type E) :=
  e ← contained_error this; lift (make_unexpected e).

(** [value_or(v) const&]. *)
Definition expected_value_or (this : nat) (v : T) : M world T :=
  has ← expected_has_value this;
  if (has : bool) then x ← contained_value this; lift (copy_ctor x) else mret v.

(** [value_or(v) &&]. *)
Definition expected_value_or_move (this : nat) (v : T) : M world T :=
  has ← expected_has_value this;
  if (has : bool) then move_contained_value this else mret v.

(** [has_exception<Ex>()], where [derived] tells whether the error's type derives from [Ex]. *)
Definition expected_has_exception (derived : bool) (this : nat) : M world bool :=
  has ← expected_has_value this; mret (negb has && derived).

(** *** [swap] and assignment *)

(** The third branch of [swap]: [*this] holds a value and [other] an error. *)
Definition swap_value_error (this other : nat) : M world unit :=
  expected_get_error other ;;
  t ← move_contained_error other;
  destruct_error other ;;
  v ← move_contained_value this;
  place other (Alive_value v) ;;
  destruct_value this ;;
  construct_error_move this t ;;
  o1 ← get_object this;
  o2 ← get_object other;
  put_object this (ExpectedObj (has_value_ o2) (contained o1)) ;;
  o2 ← get_object other;
  put_object other (ExpectedObj (has_value_ o1) (contained o2)).

(** The last branch is [other.swap( *this )], which takes the third. *)
Definition expected_swap (this other : nat) : M world unit :=
  b1 ← expected_has_value this;
  b2 ← expected_has_value other;
  match b1, b2 with
  | true, true =>
      x ← contained_value this;
      y ← contained_value other;
      let '(r, (x', y')) := std_swap x y in
      set_contained this (Alive_value x') ;; set_contained other (Alive_value y') ;; lift r
  | false, false =>
      x ← contained_error this;
      y ← contained_error other;
      let '(r, (x', y')) := std_swap x y in
      set_contained this (Alive_error x') ;; set_contained other (Alive_error y') ;; lift r
  | true, false => swap_value_error this other
  | false, true => swap_value_error other this
  end.

(** [expected(...).swap( *this )]. *)
Definition swap_temporary (make : M world nat) (this : nat) : M world unit :=
  with_temporary expected_destroy make (λ t, expected_swap t this).

Definition expected_assign (this other : nat) : M world unit :=
  swap_temporary (expected_copy other) this.
Definition expected_assign_move (this other : nat) : M world unit :=
  swap_temporary (expected_move other) this.
(** From a [T]: [operator=(U&&)] requires [std::is_same<T, std::decay<U>>], which compares [T]
    with the trait itself and never holds, so that the overload is never chosen.  The [T] is
    converted by [expected(U&&)] and the temporary is assigned by [operator=(expected&&)]. *)
Definition expected_assign_value (this : nat) (v : T) : M world unit :=
  with_temporary expected_destroy (expected_value_move v) (expected_assign_move this).
Definition expected_assign_unexpected (this : nat) (u : unexpected_type E) : M world unit :=
  swap_temporary (expected_unexpect (copy_ctor (m_error u))) this.
Definition expected_assign_unexpected_move (this : nat) (u : unexpected_type E) : M world unit :=
  swap_temporary (expected_unexpect (fst (move_ctor (m_error u)))) this.

(** [emplace(args...)] returns [value()]. *)
Definition expected_emplace (this : nat) (v : expected T) : M world T :=
  swap_temporary (expected_in_place v) this ;; expected_get_value this.

(** *** Comparisons, [std::hash] *)

Definition expected_eq (eq_value : T → T → bool) (eq_error : E → E → bool) (x y : nat) :
  M world bool :=
  bx ← expected_has_value x;
  by_ ← expected_has_value y;
  if negb (Bool.eqb bx by_) then mret false
  else if negb bx then
    a ← expected_get_error x; b ← expected_get_error y; mret (eq_error a b)
  else a ← expected_deref x; b ← expected_deref y; mret (eq_value a b).

Definition expected_neq eq_value eq_error (x y : nat) : M world bool :=
  b ← expected_eq eq_value eq_error x y; mret (negb b).

(** With a value, and with an [unexpected_type]. *)
Definition expected_eq_value (eq_value : T → T → bool) (x : nat) (v : T) : M world bool :=
  bx ← expected_has_value x;
  if (bx : bool) then a ← expected_deref x; mret (eq_value a v) else mret false.
Definition expected_neq_value (neq_value : T → T → bool) (x : nat) (v : T) : M world bool :=
  bx ← expected_has_value x;
  if (bx : bool) then a ← expected_deref x; mret (neq_value a v) else mret true.
Definition expected_eq_unexpected (eq_error : E → E → bool) (x : nat) (u : unexpected_type E) :
  M world bool :=
  bx ← expected_has_value x;
  if negb bx then g ← expected_get_unexpected x; mret (unexpected_eq eq_error g u)
  else mret false.

Definition expected_hash (hash : T → nat) (x : nat) : M world nat :=
  bx ← expected_has_value x;
  if (bx : bool) then a ← expected_deref x; mret (hash a) else mret 0.
End Expected.

(** ** [expected<void, E>] *)

Section Void.
Context {E : Type} `{!CppObject E, !ErrorTraits E}.
(** [storage_t<void, E>] has one member. *)
Local Abbreviation world := (store Empty_set E).

Definition void_default : M world nat := new_object true (λ _, mret tt).

Definition void_copy (other : nat) : M world nat :=
  has ← expected_has_value other;
  new_object has (λ this,
    if (has : bool) then mret tt else e ← contained_error other; construct_error this e).

Definition void_move (other : nat) : M world nat :=
  has ← expected_has_value other;
  new_object has (λ this,
    if (has : bool) then mret tt else e ← move_contained_error other; place this (Alive_error e)).

Definition void_error (u : unexpected_type E) : M world nat :=
  new_object false (λ this, construct_error this (m_error u)).
Definition void_error_move (u : unexpected_type E) : M world nat :=
  new_object false (λ this, construct_error_move this (m_error u)).
Definition void_unexpect (e : expected E) : M world nat :=
  new_object false (λ this, emplace_error this e).

Definition void_destroy (this : nat) : M world unit :=
  has ← expected_has_value this; when (negb has) (destruct_error this).

(** The second branch of [swap]: the error of [other] moves to [*this]. *)
Definition void_swap_value_error (this other : nat) : M world unit :=
  has ← expected_has_value other;
  massert (negb has) ;;
  e ← move_contained_error other;
  place this (Alive_error e) ;;
  o1 ← get_object this;
  o2 ← get_object other;
  put_object this (ExpectedObj (has_value_ o2) (contained o1)) ;;
  o2 ← get_object other;
  put_object other (ExpectedObj (has_value_ o1) (contained o2)).

Definition void_swap (this other : nat) : M world unit :=
  b1 ← expected_has_value this;
  b2 ← expected_has_value other;
  match b1, b2 with
  | false, false =>
      x ← contained_error this;
      y ← contained_error other;
      let '(r, (x', y')) := std_swap x y in
      set_contained this (Alive_error x') ;; set_contained other (Alive_error y') ;; lift r
  | true, false => void_swap_value_error this other
  | false, true => void_swap_value_error other this
  | true, true => mret tt
  end.

Definition void_swap_temporary (make : M world nat) (this : nat) : M world unit :=
  with_temporary void_destroy make (λ t, void_swap t this).

Definition void_assign (this other : nat) : M world unit :=
  void_swap_temporary (void_copy other) this.
Definition void_assign_move (this other : nat) : M world unit :=
  void_swap_temporary (void_move other) this.
Definition void_emplace (this : nat) : M world unit := void_swap_temporary void_default this.

Definition void_get_value (this : nat) : M world unit :=
  has ← expected_has_value this;
  when (negb has) (e ← contained_error this; throw (rethrow e)).
Definition void_get_error (this : nat) : M world E :=
  has ← expected_has_value this; massert (negb has) ;; contained_error this.

Definition void_eq (eq_error : E → E → bool) (x y : nat) : M world bool :=
  bx ← expected_has_value x;
  by_ ← expected_has_value y;
  if negb (Bool.eqb bx by_) then mret false
  else if negb bx then
    a ← void_get_error x; b ← void_get_error y; mret (eq_error a b)
  else mret true.
End Void.
