(* ===== verification/ExpectedLaws.v ===== *)
(** The laws of [Expected.v]: for types that move and swap without throwing, the objects
    behave as values of the sum [T + E], and every object that was constructed is destroyed
    once; what a throwing move and the [void] specialisation do instead. *)

From S2P Require Import Prelude Errors Effects Expected.

(** The object at an address of a list of objects, some of which were just written. *)
Local Ltac lookup_object :=
  first
    [ eassumption
    | rewrite list_lookup_insert_eq
        by (rewrite ?length_insert; eauto using lookup_lt_Some);
      reflexivity
    | rewrite list_lookup_insert_ne by congruence; lookup_object ].

(** ** One step on a store *)

Section Steps.
Context {T E : Type} `{!CppObject T, !CppObject E, !ErrorTraits E}.
Implicit Types (objs : list (option (expected_obj T E))) (s : storage_t T E).

Lemma get_object_steps objs n i o :
  objs !! i = Some (Some o) → get_object i (Store objs n) = (Ret o, Store objs n).
Proof. intros H. unfold get_object. simpl. by rewrite H. Qed.

Local Ltac step_object H := unfold mbind, M_bind; rewrite (get_object_steps _ _ _ _ H).

Lemma expected_has_value_steps objs n i b s :
  objs !! i = Some (Some (ExpectedObj b s)) →
  expected_has_value i (Store objs n) = (Ret b, Store objs n).
Proof.
  intros H. unfold expected_has_value. by step_object H.
Qed.

Lemma place_steps objs n i b s s' :
  objs !! i = Some (Some (ExpectedObj b s)) →
  place i s' (Store objs n) =
    (Ret tt, Store (<[i := Some (ExpectedObj b s')]> objs) (n + alive_in s)).
Proof.
  intros H. unfold place. by step_object H.
Qed.

Lemma set_contained_steps objs n i b s s' :
  objs !! i = Some (Some (ExpectedObj b s)) →
  set_contained i s' (Store objs n) = (Ret tt, Store (<[i := Some (ExpectedObj b s')]> objs) n).
Proof.
  intros H. unfold set_contained. by step_object H.
Qed.

Lemma put_object_steps objs n i o :
  put_object i o (Store objs n) = (Ret tt, Store (<[i := Some o]> objs) n).
Proof. done. Qed.

Lemma contained_value_steps objs n i b v :
  objs !! i = Some (Some (ExpectedObj b (Alive_value v))) →
  contained_value i (Store objs n) = (Ret v, Store objs n).
Proof.
  intros H. unfold contained_value. by step_object H.
Qed.

Lemma contained_error_steps objs n i b e :
  objs !! i = Some (Some (ExpectedObj b (Alive_error e))) →
  contained_error i (Store objs n) = (Ret e, Store objs n).
Proof.
  intros H. unfold contained_error. by step_object H.
Qed.

Lemma move_contained_value_steps objs n i b v :
  objs !! i = Some (Some (ExpectedObj b (Alive_value v))) →
  move_contained_value i (Store objs n) =
    (match fst (move_ctor v) with Val x => Ret x | Err e => Throw e end,
     Store (<[i := Some (ExpectedObj b (Alive_value (snd (move_ctor v))))]> objs) n).
Proof.
  intros H. unfold move_contained_value, mbind, M_bind.
  rewrite (contained_value_steps _ _ _ _ _ H). destruct (move_ctor v) as [r rest].
  rewrite (set_contained_steps _ _ _ _ _ _ H). by destruct r.
Qed.

Lemma move_contained_error_steps objs n i b e :
  objs !! i = Some (Some (ExpectedObj b (Alive_error e))) →
  move_contained_error i (Store objs n) =
    (match fst (move_ctor e) with Val x => Ret x | Err x => Throw x end,
     Store (<[i := Some (ExpectedObj b (Alive_error (snd (move_ctor e))))]> objs) n).
Proof.
  intros H. unfold move_contained_error, mbind, M_bind.
  rewrite (contained_error_steps _ _ _ _ _ H). destruct (move_ctor e) as [r rest].
  rewrite (set_contained_steps _ _ _ _ _ _ H). by destruct r.
Qed.

Lemma destruct_value_steps objs n i b v :
  objs !! i = Some (Some (ExpectedObj b (Alive_value v))) →
  destruct_value i (Store objs n) = (Ret tt, Store (<[i := Some (ExpectedObj b Raw)]> objs) n).
Proof.
  intros H. unfold destruct_value. by step_object H.
Qed.

Lemma destruct_error_steps objs n i b e :
  objs !! i = Some (Some (ExpectedObj b (Alive_error e))) →
  destruct_error i (Store objs n) = (Ret tt, Store (<[i := Some (ExpectedObj b Raw)]> objs) n).
Proof.
  intros H. unfold destruct_error. by step_object H.
Qed.

Lemma get_error_steps objs n i e :
  objs !! i = Some (Some (ExpectedObj false (Alive_error e))) →
  expected_get_error i (Store objs n) = (Ret e, Store objs n).
Proof.
  intros H. unfold expected_get_error, mbind, M_bind.
  rewrite (expected_has_value_steps _ _ _ _ _ H). simpl.
  by rewrite (contained_error_steps _ _ _ _ _ H).
Qed.

(** A dead member cannot be destroyed. *)
Lemma destroy_empty_crashes objs n i b :
  objs !! i = Some (Some (ExpectedObj b Raw)) →
  expected_destroy i (Store objs n) = (Crash Use_after_free, Store objs n).
Proof.
  intros H. unfold expected_destroy, destruct_value, destruct_error, mbind, M_bind.
  rewrite (expected_has_value_steps _ _ _ _ _ H).
  destruct b; by rewrite (get_object_steps _ _ _ _ H).
Qed.

Lemma construct_error_move_steps {H : NothrowMove E} objs n i b s e :
  objs !! i = Some (Some (ExpectedObj b s)) →
  construct_error_move i e (Store objs n) =
    (Ret tt, Store (<[i := Some (ExpectedObj b (Alive_error e))]> objs) (n + alive_in s)).
Proof.
  intros Ho. unfold construct_error_move, mbind, M_bind. rewrite move_ctor_moves.
  apply (place_steps _ _ _ _ _ _ Ho).
Qed.

(** A new object, whose initialiser changes the others and computes what is placed in it. *)
Lemma new_object_steps objs objs' n has (r : expected (storage_t T E)) body :
  length objs' = length objs →
  body (length objs) (Store (objs ++ [Some (ExpectedObj has Raw)]) n) =
    (s ← lift r; place (length objs) s) (Store (objs' ++ [Some (ExpectedObj has Raw)]) n) →
  new_object has body (Store objs n) =
    match r with
    | Val s => (Ret (length objs), Store (objs' ++ [Some (ExpectedObj has s)]) n)
    | Err e => (Throw e, Store objs' n)
    end.
Proof.
  intros Hl Hb. unfold new_object, gets, modify, mbind, M_bind, try_catch. simpl.
  rewrite Hb, <- Hl.
  assert (Hi : (objs' ++ [Some (ExpectedObj has Raw)]) !! length objs' =
               Some (Some (ExpectedObj (T:=T) (E:=E) has Raw))) by by apply list_lookup_middle.
  destruct r as [s|e]; unfold lift, mret, M_ret, throw, mbind, M_bind.
  - rewrite (place_steps _ _ _ _ _ _ Hi). cbn [alive_in]. rewrite Nat.add_0_r.
    by rewrite insert_app_r_alt, Nat.sub_diag by done.
  - unfold pop_object. step_object Hi.
    cbn. by rewrite Nat.add_0_r, take_app_length.
Qed.
End Steps.

(** ** The specification: variables that hold a [T + E] *)

Section Spec.
Context {T E : Type} `{!CppObject T, !CppObject E, !ErrorTraits E}
  {nothrow_T : NothrowMove T} {nothrow_E : NothrowMove E}.
(** [None] for a variable that was destroyed. *)
Local Abbreviation vars := (list (option (T + E))).

Definition var_get (i : nat) : M vars (T + E) := λ a,
  match a !! i with
  | Some (Some x) => (Ret x, a)
  | _ => (Crash Use_after_free, a)
  end.
Definition var_put (i : nat) (x : option (T + E)) : M vars unit := modify <[i := x]>.
Definition var_new (x : T + E) : M vars nat := λ a, (Ret (length a), a ++ [Some x]).

Definition raise {S A} (r : expected A) : M S A :=
  match r with Val a => mret a | Err e => throw e end.

Definition sum_copy (x : T + E) : expected (T + E) :=
  match x with
  | inl v => v ← copy_ctor v; Val (inl v)
  | inr e => e ← copy_ctor e; Val (inr e)
  end.
Definition sum_moved (x : T + E) : T + E :=
  match x with inl v => inl (moved_from v) | inr e => inr (moved_from e) end.

(** What the initialiser of a new object gives, and what it leaves in the variables. *)
Definition var_copy (i : nat) : M vars (T + E) := x ← var_get i; raise (sum_copy x).
Definition var_move (i : nat) : M vars (T + E) :=
  x ← var_get i; var_put i (Some (sum_moved x)) ;; mret x.
Definition in_place (v : expected T) : expected (T + E) := v ← v; Val (inl v).
Definition unexpect (e : expected E) : expected (T + E) := e ← e; Val (inr e).

Definition var_init (make : M vars (T + E)) : M vars nat := x ← make; var_new x.
Definition var_assign (make : M vars (T + E)) (i : nat) : M vars unit :=
  x ← make; _ ← var_get i; var_put i (Some x).
Definition var_swap (i j : nat) : M vars unit :=
  x ← var_get i; y ← var_get j; var_put i (Some y) ;; var_put j (Some x).

Definition sum_value {S} (x : T + E) : M S T :=
  match x with inl v => mret v | inr e => throw (rethrow e) end.

(** *** Refinement *)

Definition obj_of (x : T + E) : expected_obj T E :=
  match x with
  | inl v => ExpectedObj true (Alive_value v)
  | inr e => ExpectedObj false (Alive_error e)
  end.

Definition slot_of : option (T + E) → option (expected_obj T E) := fmap obj_of.

(** The store that holds these variables, when [n] contents leaked before. *)
Definition concrete (n : nat) (a : vars) : store T E := Store (slot_of <$> a) n.

(** Same outcome and same final state.  A use of a variable that is not alive is undefined
    behaviour, in which the code may do anything. *)
Definition matches {A} (n : nat) (r : outcome A * store T E) (r' : outcome A * vars) : Prop :=
  match r' with
  | (Crash Use_after_free, _) => True
  | (Crash c, _) => fst r = Crash c
  | (o, a) => r = (o, concrete n a)
  end.
Definition refines {A} (m : M (store T E) A) (m' : M vars A) : Prop :=
  ∀ n a, matches n (m (concrete n a)) (m' a).

Lemma refines_ret {A} (x : A) : refines (mret x) (mret x).
Proof. done. Qed.

Lemma refines_bind {A B} (m : M (store T E) A) m' (f : A → M (store T E) B) f' :
  refines m m' → (∀ x, refines (f x) (f' x)) → refines (m ≫= f) (m' ≫= f').
Proof.
  intros Hm Hf n a. specialize (Hm n a). unfold mbind, M_bind.
  destruct (m' a) as [[x|e|c] a']; simpl in Hm |- *.
  - rewrite Hm. apply Hf.
  - by rewrite Hm.
  - destruct (m (concrete n a)) as [[x|e|c'] s]; destruct c; simpl in *; congruence.
Qed.

Lemma refines_try_catch {A} (m : M (store T E) A) m' h h' :
  refines m m' → (∀ e, refines (h e) (h' e)) → refines (try_catch m h) (try_catch m' h').
Proof.
  intros Hm Hh n a. specialize (Hm n a). unfold try_catch.
  destruct (m' a) as [[x|e|c] a']; simpl in Hm |- *.
  - by rewrite Hm.
  - rewrite Hm. apply Hh.
  - destruct (m (concrete n a)) as [[x|e|c'] s]; destruct c; simpl in *; congruence.
Qed.

(** Only the states in which the variable is alive matter. *)
Lemma refines_var_get {A} (m : M (store T E) A) i g :
  (∀ n a x, a !! i = Some (Some x) → matches n (m (concrete n a)) (g x a)) →
  refines m (var_get i ≫= g).
Proof.
  intros H n a. unfold mbind, M_bind, var_get.
  destruct (a !! i) as [[x|]|] eqn:Hi; [|done..]. by apply H.
Qed.

Lemma concrete_lookup n a i x :
  a !! i = Some (Some x) → objects (concrete n a) !! i = Some (Some (obj_of x)).
Proof. intros H. unfold concrete. simpl. by rewrite list_lookup_fmap, H. Qed.

Lemma concrete_insert n a i x :
  Store (<[i := slot_of x]> (objects (concrete n a))) n = concrete n (<[i := x]> a).
Proof. unfold concrete. simpl. by rewrite list_fmap_insert. Qed.

Lemma concrete_app n a x :
  Store (objects (concrete n a) ++ [Some (obj_of x)]) n = concrete n (a ++ [Some x]).
Proof. unfold concrete. simpl. by rewrite fmap_app. Qed.
(** *** [swap] *)

Lemma move_ctor_val {X} `{!CppObject X} {H : NothrowMove X} (x : X) :
  move_ctor x = (Val x, moved_from x).
Proof. apply move_ctor_moves. Qed.

Lemma swap_value_error_steps objs n i j v e :
  objs !! i = Some (Some (obj_of (inl v))) → objs !! j = Some (Some (obj_of (inr e))) →
  swap_value_error i j (Store objs n) =
    (Ret tt, Store (<[j := Some (obj_of (inl v))]> (<[i := Some (obj_of (inr e))]> objs)) n).
Proof.
  intros Hi Hj. assert (Hij : i ≠ j) by (intros <-; by rewrite Hi in Hj). unfold swap_value_error.
  eapply runs_bind; [by eapply get_error_steps|].
  eapply runs_bind.
  { red. erewrite move_contained_error_steps by exact Hj. by rewrite move_ctor_val. }
  eapply runs_bind; [eapply destruct_error_steps; lookup_object|].
  eapply runs_bind.
  { red. erewrite move_contained_value_steps by lookup_object. by rewrite move_ctor_val. }
  eapply runs_bind; [eapply place_steps; lookup_object|].
  eapply runs_bind; [eapply destruct_value_steps; lookup_object|].
  eapply runs_bind; [eapply construct_error_move_steps; lookup_object|].
  eapply runs_bind; [eapply get_object_steps; lookup_object|].
  eapply runs_bind; [eapply get_object_steps; lookup_object|].
  eapply runs_bind; [apply put_object_steps|].
  eapply runs_bind; [eapply get_object_steps; lookup_object|].
  unfold runs. rewrite put_object_steps. simpl. rewrite !Nat.add_0_r. do 2 f_equal.
  apply list_eq. intros k. rewrite !list_lookup_insert, !length_insert.
  repeat case_decide; naive_solver.
Qed.

Lemma expected_swap_steps objs n i j x y :
  objs !! i = Some (Some (obj_of x)) → objs !! j = Some (Some (obj_of y)) →
  expected_swap i j (Store objs n) =
    (Ret tt, Store (<[j := Some (obj_of x)]> (<[i := Some (obj_of y)]> objs)) n).
Proof.
  intros Hi Hj. unfold expected_swap, mbind, M_bind.
  destruct x as [v|e], y as [v'|e']; simpl in Hi, Hj.
  all: rewrite (expected_has_value_steps _ _ _ _ _ Hi), (expected_has_value_steps _ _ _ _ _ Hj).
  - rewrite (contained_value_steps _ _ _ _ _ Hi), (contained_value_steps _ _ _ _ _ Hj).
    rewrite std_swap_swaps, (set_contained_steps _ _ _ _ _ _ Hi).
    by erewrite set_contained_steps by (rewrite list_lookup_insert; case_decide; naive_solver).
  - by apply swap_value_error_steps.
  - rewrite (swap_value_error_steps _ _ _ _ _ _ Hj Hi).
    by rewrite list_insert_insert_ne by (intros ->; naive_solver).
  - rewrite (contained_error_steps _ _ _ _ _ Hi), (contained_error_steps _ _ _ _ _ Hj).
    rewrite std_swap_swaps, (set_contained_steps _ _ _ _ _ _ Hi).
    by erewrite set_contained_steps by (rewrite list_lookup_insert; case_decide; naive_solver).
Qed.

Lemma expected_destroy_steps objs n i x :
  objs !! i = Some (Some (obj_of x)) →
  expected_destroy i (Store objs n) =
    (Ret tt, Store (<[i := Some (ExpectedObj (has_value_ (obj_of x)) Raw)]> objs) n).
Proof.
  intros H. unfold expected_destroy, mbind, M_bind.
  destruct x; simpl in H; rewrite (expected_has_value_steps _ _ _ _ _ H).
  - apply (destruct_value_steps _ _ _ _ _ H).
  - apply (destruct_error_steps _ _ _ _ _ H).
Qed.

(** The temporary takes what the variable held, and is destroyed with it. *)
Lemma swap_temporary_steps make s objs n i x y :
  make s = (Ret (length objs), Store (objs ++ [Some (obj_of x)]) n) →
  objs !! i = Some (Some (obj_of y)) →
  swap_temporary make i s = (Ret tt, Store (<[i := Some (obj_of x)]> objs) n).
Proof.
  intros Hm Hi. pose proof (lookup_lt_Some _ _ _ Hi) as Hl.
  unfold swap_temporary, with_temporary, mbind, M_bind, try_catch. rewrite Hm.
  assert (Ht : (objs ++ [Some (obj_of x)]) !! length objs = Some (Some (obj_of x)))
    by by apply list_lookup_middle.
  assert (Hi' : (objs ++ [Some (obj_of x)]) !! i = Some (Some (obj_of y)))
    by by rewrite lookup_app_l.
  rewrite (expected_swap_steps _ _ _ _ _ _ Ht Hi').
  erewrite expected_destroy_steps
    by (rewrite list_lookup_insert_ne by lia; apply list_lookup_insert_eq;
        rewrite length_app; simpl; lia).
  unfold pop_object, mbind, M_bind.
  erewrite get_object_steps by lookup_object. unfold modify. cbn. rewrite Nat.add_0_r. do 2 f_equal.
  rewrite take_insert_ge by lia. rewrite take_insert_lt by lia.
  by rewrite take_insert_ge, take_app_length by lia.
Qed.

Lemma swap_temporary_throws (make : M (store T E) nat) s i e s' :
  make s = (Throw e, s') → swap_temporary make i s = (Throw e, s').
Proof. intros H. unfold swap_temporary, with_temporary, mbind, M_bind. by rewrite H. Qed.

(** *** Each operation refines its specification *)

Lemma refines_meq {A} (m : M (store T E) A) m1 m2 : m1 ≈ m2 → refines m m2 → refines m m1.
Proof. intros Hm H n a. rewrite (Hm a). apply H. Qed.

Lemma concrete_length n a : length (objects (concrete n a)) = length a.
Proof. apply length_fmap. Qed.

Lemma new_object_matches n a has (r : expected (T + E)) body :
  (∀ x, r = Val x → has_value_ (obj_of x) = has) →
  (let w := Store ((slot_of <$> a) ++ [Some (ExpectedObj has Raw)]) n in
   body (length a) w = (s ← lift (x ← r; Val (contained (obj_of x))); place (length a) s) w) →
  matches n (new_object has body (concrete n a)) (var_init (raise r) a).
Proof.
  intros Hh Hb. unfold concrete.
  rewrite (new_object_steps _ (slot_of <$> a) _ _ (x ← r; Val (contained (obj_of x))))
    by by rewrite ?length_fmap.
  destruct r as [x|e]; [|done]. simpl. rewrite <- (Hh x eq_refl), length_fmap.
  unfold concrete. rewrite fmap_app. by destruct x.
Qed.

Lemma new_object_moved n a a' x body :
  length a' = length a →
  (let has := has_value_ (obj_of x) in
   body (length a) (Store ((slot_of <$> a) ++ [Some (ExpectedObj has Raw)]) n) =
     place (length a) (contained (obj_of x))
       (Store ((slot_of <$> a') ++ [Some (ExpectedObj has Raw)]) n)) →
  new_object (has_value_ (obj_of x)) body (concrete n a) =
    (Ret (length a), concrete n (a' ++ [Some x])).
Proof.
  intros Hl Hb. unfold concrete.
  rewrite (new_object_steps _ (slot_of <$> a') _ _ (Val (contained (obj_of x))));
    rewrite ?length_fmap; [|done|done].
  rewrite fmap_app. by destruct x.
Qed.

Lemma expected_copy_refines i : refines (expected_copy i) (var_init (var_copy i)).
Proof.
  eapply refines_meq; [apply mbind_assoc|]. apply refines_var_get. intros n a x Hi.
  pose proof (concrete_lookup n a i x Hi) as Ho.
  assert (Ho' : ∀ o, ((slot_of <$> a) ++ [o]) !! i = Some (Some (obj_of x)))
    by (intros o; by apply lookup_app_l_Some).
  unfold expected_copy. unfold mbind at 1, M_bind at 1.
  destruct x as [v|e]; simpl in Ho; unfold concrete;
    rewrite (expected_has_value_steps _ _ _ _ _ Ho).
  - apply (new_object_matches n a _ (sum_copy (inl v))); simpl.
    + intros x. by destruct (copy_ctor v); intros [= <-].
    + unfold construct_value, mbind, M_bind. rewrite (contained_value_steps _ _ _ _ _ (Ho' _)).
      by destruct (copy_ctor v).
  - apply (new_object_matches n a _ (sum_copy (inr e))); simpl.
    + intros x. by destruct (copy_ctor e); intros [= <-].
    + unfold construct_error, mbind, M_bind. rewrite (contained_error_steps _ _ _ _ _ (Ho' _)).
      by destruct (copy_ctor e).
Qed.

Lemma expected_move_refines i : refines (expected_move i) (var_init (var_move i)).
Proof.
  eapply refines_meq; [apply mbind_assoc|]. apply refines_var_get. intros n a x Hi.
  pose proof (concrete_lookup n a i x Hi) as Ho.
  pose proof (lookup_lt_Some _ _ _ Hi) as Hl.
  assert (Ho' : ∀ o, ((slot_of <$> a) ++ [o]) !! i = Some (Some (obj_of x)))
    by (intros o; by apply lookup_app_l_Some).
  assert (Hm : expected_move i (concrete n a) =
            (Ret (length a), concrete n (<[i := Some (sum_moved x)]> a ++ [Some x]))).
  { unfold expected_move. unfold mbind at 1, M_bind at 1.
    destruct x as [v|e]; simpl in Ho; unfold concrete at 1;
      rewrite (expected_has_value_steps _ _ _ _ _ Ho).
    - apply (new_object_moved n a _ (inl v)); [apply length_insert|]. unfold mbind, M_bind.
      erewrite move_contained_value_steps by apply Ho'.
      by rewrite move_ctor_val, list_fmap_insert, insert_app_l by by rewrite length_fmap.
    - apply (new_object_moved n a _ (inr e)); [apply length_insert|]. unfold mbind, M_bind.
      erewrite move_contained_error_steps by apply Ho'.
      by rewrite move_ctor_val, list_fmap_insert, insert_app_l by by rewrite length_fmap. }
  rewrite Hm. unfold matches. simpl. by rewrite length_insert.
Qed.

(** A variable is given what the temporary was made with; when the temporary cannot be made
    nothing has changed. *)
Lemma swap_temporary_refines make make' i :
  refines make (var_init make') → refines (swap_temporary make i) (var_assign make' i).
Proof.
  intros Hm n a. specialize (Hm n a). unfold var_init, var_assign, mbind, M_bind in *.
  destruct (make' a) as [[x|e|c] a']; simpl in Hm.
  - rewrite <- concrete_app in Hm. unfold var_get. destruct (a' !! i) as [[y|]|] eqn:Hi; [|done..].
    erewrite swap_temporary_steps; [| by rewrite Hm, concrete_length
                                    | by apply (concrete_lookup n a' i y)].
    unfold matches, var_put, modify, concrete. by rewrite list_fmap_insert.
  - by rewrite (swap_temporary_throws _ _ _ _ _ Hm).
  - unfold swap_temporary, with_temporary, mbind, M_bind.
    destruct (make (concrete n a)) as [[x|e|c'] s]; destruct c; simpl in *; congruence.
Qed.

Lemma expected_swap_refines i j : refines (expected_swap i j) (var_swap i j).
Proof.
  apply refines_var_get. intros n a x Hi. unfold mbind at 1, M_bind at 1, var_get.
  destruct (a !! j) as [[y|]|] eqn:Hj; [|done..].
  pose proof (concrete_lookup n a i x Hi) as Ho. pose proof (concrete_lookup n a j y Hj) as Ho'.
  unfold concrete. rewrite (expected_swap_steps _ _ _ _ _ _ Ho Ho').
  unfold matches, concrete. simpl. by rewrite !list_fmap_insert.
Qed.

Definition var_destroy (i : nat) : M vars unit := _ ← var_get i; var_put i None.

Lemma destroy_refines i : refines (destroy_object expected_destroy i) (var_destroy i).
Proof.
  apply refines_var_get. intros n a x Hi. pose proof (concrete_lookup n a i x Hi) as Ho.
  unfold destroy_object, mbind, M_bind, concrete. rewrite (expected_destroy_steps _ _ _ _ Ho).
  erewrite get_object_steps by lookup_object. unfold modify, matches, concrete. cbn.
  by rewrite Nat.add_0_r, list_insert_insert_eq, list_fmap_insert.
Qed.

(** *** Programs *)

(** What a program can do with its variables. *)
Inductive command :=
| New_default (v : T) | New_value (v : T) | New_value_move (v : T)
| New_error (u : unexpected_type E) | New_error_move (u : unexpected_type E)
| New_in_place (v : expected T) | New_unexpect (e : expected E)
| New_copy (i : nat) | New_move (i : nat)
| Destroy (i : nat)
| Assign (i j : nat) | Assign_move (i j : nat) | Assign_value (i : nat) (v : T)
| Assign_unexpected (i : nat) (u : unexpected_type E)
| Assign_unexpected_move (i : nat) (u : unexpected_type E)
| Emplace (i : nat) (v : expected T)
| Swap (i j : nat)
| Has_value (i : nat) | Deref (i : nat) | Get_value (i : nat) | Get_error (i : nat)
| Get_unexpected (i : nat) | Value_or (i : nat) (v : T) | Value_or_move (i : nat) (v : T)
| Has_exception (derived : bool) (i : nat)
| Eq (i j : nat) | Eq_value (i : nat) (v : T) | Eq_unexpected (i : nat) (u : unexpected_type E)
| Hash (i : nat).

(** What it sees of it. *)
Inductive result :=
| R_unit | R_nat (i : nat) | R_bool (b : bool) | R_value (v : T) | R_error (e : E)
| R_threw (e : exn).

Variables (eq_value : T → T → bool) (eq_error : E → E → bool) (hash : T → nat).

Definition returning {S A} (f : A → result) (m : M S A) : M S result := x ← m; mret (f x).
Local Abbreviation void := (returning (λ _ : unit, R_unit)).

Definition execute (c : command) : M (store T E) result :=
  match c with
  | New_default v => returning R_nat (expected_default v)
  | New_value v => returning R_nat (expected_value v)
  | New_value_move v => returning R_nat (expected_value_move v)
  | New_error u => returning R_nat (expected_error u)
  | New_error_move u => returning R_nat (expected_error_move u)
  | New_in_place v => returning R_nat (expected_in_place v)
  | New_unexpect e => returning R_nat (expected_unexpect e)
  | New_copy i => returning R_nat (expected_copy i)
  | New_move i => returning R_nat (expected_move i)
  | Destroy i => void (destroy_object expected_destroy i)
  | Assign i j => void (expected_assign i j)
  | Assign_move i j => void (expected_assign_move i j)
  | Assign_value i v => void (expected_assign_value i v)
  | Assign_unexpected i u => void (expected_assign_unexpected i u)
  | Assign_unexpected_move i u => void (expected_assign_unexpected_move i u)
  | Emplace i v => returning R_value (expected_emplace i v)
  | Swap i j => void (expected_swap i j)
  | Has_value i => returning R_bool (expected_has_value i)
  | Deref i => returning R_value (expected_deref i)
  | Get_value i => returning R_value (expected_get_value i)
  | Get_error i => returning R_error (expected_get_error i)
  | Get_unexpected i => returning (λ u, R_error (m_error u)) (expected_get_unexpected i)
  | Value_or i v => returning R_value (expected_value_or i v)
  | Value_or_move i v => returning R_value (expected_value_or_move i v)
  | Has_exception derived i => returning R_bool (expected_has_exception derived i)
  | Eq i j => returning R_bool (expected_eq eq_value eq_error i j)
  | Eq_value i v => returning R_bool (expected_eq_value eq_value i v)
  | Eq_unexpected i u => returning R_bool (expected_eq_unexpected eq_error i u)
  | Hash i => returning R_nat (expected_hash hash i)
  end.

(** What the command means for a variable that holds a [T + E]. *)
Definition sum_eq (x y : T + E) : bool :=
  match x, y with
  | inl v, inl v' => eq_value v v'
  | inr e, inr e' => eq_error e e'
  | _, _ => false
  end.

Definition meaning (c : command) : M vars result :=
  let observe i (f : T + E → M vars result) := x ← var_get i; f x in
  let init make := returning R_nat (var_init make) in
  let assign i make := void (var_assign make i) in
  match c with
  | New_default v | New_value_move v => init (mret (inl v))
  | New_value v => init (raise (in_place (copy_ctor v)))
  | New_error u => init (raise (unexpect (copy_ctor (m_error u))))
  | New_error_move u => init (mret (inr (m_error u)))
  | New_in_place v => init (raise (in_place v))
  | New_unexpect e => init (raise (unexpect e))
  | New_copy i => init (var_copy i)
  | New_move i => init (var_move i)
  | Destroy i => void (var_destroy i)
  | Assign i j => assign i (var_copy j)
  | Assign_move i j => assign i (var_move j)
  | Assign_value i v => assign i (mret (inl v))
  | Assign_unexpected i u => assign i (raise (unexpect (copy_ctor (m_error u))))
  | Assign_unexpected_move i u => assign i (mret (inr (m_error u)))
  | Emplace i v =>
      assign i (raise (in_place v)) ;; observe i (λ x, returning R_value (sum_value x))
  | Swap i j => void (var_swap i j)
  | Has_value i => observe i (λ x, mret (R_bool (has_value_ (obj_of x))))
  | Deref i =>
      observe i (λ x, if x is inl v then mret (R_value v) else crash_with Assertion_failed)
  | Get_value i => observe i (λ x, returning R_value (sum_value x))
  | Get_error i =>
      observe i (λ x, if x is inr e then mret (R_error e) else crash_with Assertion_failed)
  | Get_unexpected i =>
      observe i (λ x, if x is inr e then returning R_error (raise (copy_ctor e))
                      else crash_with Uninitialised_read)
  | Value_or i v =>
      observe i (λ x, if x is inl w then returning R_value (raise (copy_ctor w))
                      else mret (R_value v))
  | Value_or_move i v =>
      observe i (λ x, if x is inl w
                      then var_put i (Some (sum_moved x)) ;; mret (R_value w)
                      else mret (R_value v))
  | Has_exception derived i =>
      observe i (λ x, mret (R_bool (negb (has_value_ (obj_of x)) && derived)))
  | Eq i j => observe i (λ x, observe j (λ y, mret (R_bool (sum_eq x y))))
  | Eq_value i v =>
      observe i (λ x, mret (R_bool (if x is inl w then eq_value w v else false)))
  | Eq_unexpected i u =>
      observe i (λ x, if x is inr e
                      then e ← raise (copy_ctor e); mret (R_bool (eq_error e (m_error u)))
                      else mret (R_bool false))
  | Hash i => observe i (λ x, mret (R_nat (if x is inl v then hash v else 0)))
  end.

(** A program goes on after an exception; it keeps what each command gave. *)
Fixpoint program {S} (run : command → M S result) (cs : list command) : M S (list result) :=
  match cs with
  | [] => mret []
  | c :: cs =>
      r ← try_catch (run c) (λ e, mret (R_threw e));
      rs ← program run cs;
      mret (r :: rs)
  end.

(** *** The commands refine their meaning *)

Lemma refines_returning {A} (f : A → result) m m' :
  refines m m' → refines (returning f m) (returning f m').
Proof. intros H. apply refines_bind; [done|]. intros x. apply refines_ret. Qed.

Lemma init_value_refines (r : expected T) body :
  (∀ i, body i ≈ (v ← lift r; place i (Alive_value v))) →
  refines (new_object true body) (var_init (raise (in_place r))).
Proof.
  intros Hb n a. apply new_object_matches; [by destruct r; intros x [= <-]|].
  simpl. rewrite (Hb _ _). by destruct r.
Qed.

Lemma init_error_refines (r : expected E) body :
  (∀ i, body i ≈ (e ← lift r; place i (Alive_error e))) →
  refines (new_object false body) (var_init (raise (unexpect r))).
Proof.
  intros Hb n a. apply new_object_matches; [by destruct r; intros x [= <-]|].
  simpl. rewrite (Hb _ _). by destruct r.
Qed.

(** Evaluation of an observer on the store, once what it looks at is known. *)
Ltac look H :=
  simpl; unfold returning, expected_has_exception, expected_eq, expected_eq_value,
    expected_eq_unexpected, expected_hash,
    expected_value_or, expected_get_unexpected, make_unexpected, expected_get_value,
    expected_get_error, expected_deref, expected_has_value, contained_value, contained_error,
    get_object, lift, raise in *;
  munfold; simpl; repeat (rewrite H; simpl).
Ltac solve_observer :=
  apply refines_var_get; intros n a x Hi;
  pose proof (concrete_lookup n a _ x Hi) as Ho;
  unfold concrete in *; destruct x; simpl in Ho; look Ho; try done; by destruct (copy_ctor _).

Lemma Get_value_refines i :
  refines (expected_get_value i) (x ← var_get i; sum_value x).
Proof. solve_observer. Qed.

Lemma Eq_refines i j : refines (execute (Eq i j)) (meaning (Eq i j)).
Proof.
  apply refines_var_get. intros n a x Hi. unfold mbind, M_bind, var_get.
  destruct (a !! j) as [[y|]|] eqn:Hj; [|done..].
  pose proof (concrete_lookup n a i x Hi) as Ho. pose proof (concrete_lookup n a j y Hj) as Ho'.
  unfold concrete in *. destruct x, y; simpl in Ho, Ho'; simpl; look Ho;
    repeat (first [rewrite Ho | rewrite Ho']; simpl); done.
Qed.

Lemma value_move_refines v : refines (expected_value_move v) (var_init (mret (inl v))).
Proof.
  apply (init_value_refines (Val v)). intros i w. unfold construct_value_move.
  by rewrite move_ctor_val.
Qed.
Lemma error_move_refines u : refines (expected_error_move u) (var_init (mret (inr (m_error u)))).
Proof.
  apply (init_error_refines (Val (m_error u))). intros i w. unfold construct_error_move.
  by rewrite move_ctor_val.
Qed.
Lemma in_place_refines v : refines (expected_in_place v) (var_init (raise (in_place v))).
Proof. by apply init_value_refines. Qed.
Lemma unexpect_refines e : refines (expected_unexpect e) (var_init (raise (unexpect e))).
Proof. by apply init_error_refines. Qed.
Lemma moved_unexpect_refines e :
  refines (expected_unexpect (fst (move_ctor e))) (var_init (mret (inr e))).
Proof. rewrite move_ctor_val. apply (unexpect_refines (Val e)). Qed.

Lemma observer_refines c :
  match c with
  | Has_value _ | Deref _ | Get_value _ | Get_error _ | Get_unexpected _ | Value_or _ _
  | Has_exception _ _ | Eq_value _ _ | Eq_unexpected _ _ | Hash _ => refines (execute c) (meaning c)
  | _ => True
  end.
Proof. destruct c; try done; solve_observer. Qed.

Lemma Emplace_refines i v : refines (execute (Emplace i v)) (meaning (Emplace i v)).
Proof.
  apply refines_meq with
    (returning R_value (var_assign (raise (in_place v)) i ;; x ← var_get i; sum_value x)).
  { intros w. simpl. unfold returning. rewrite (mbind_assoc _ _ _ w). unfold mbind, M_bind.
    destruct (var_assign _ i w) as [[[]|e|c] w']; [|done..]. simpl.
    by destruct (var_get i w') as [[x|e|c] w'']. }
  apply refines_returning, refines_bind.
  - apply swap_temporary_refines, in_place_refines.
  - intros _. apply Get_value_refines.
Qed.

Lemma Value_or_move_refines i v :
  refines (execute (Value_or_move i v)) (meaning (Value_or_move i v)).
Proof.
  apply refines_var_get. intros n a x Hi. pose proof (concrete_lookup n a i x Hi) as Ho.
  simpl. unfold returning, expected_value_or_move, mbind, M_bind.
  destruct x as [w|e]; simpl in Ho; unfold concrete;
    rewrite (expected_has_value_steps _ _ _ _ _ Ho); [|done].
  rewrite (move_contained_value_steps _ _ _ _ _ Ho), move_ctor_val.
  unfold matches, concrete. simpl. by rewrite list_fmap_insert.
Qed.

(** An object made from one of another type holds what the conversion gave. *)
Lemma expected_convert_refines {U G} (conv_value : U → expected T) (conv_error : G → expected E)
  (x : U + G) :
  refines
    (expected_convert conv_value conv_error
       match x with
       | inl u => ExpectedObj true (Alive_value u)
       | inr g => ExpectedObj false (Alive_error g)
       end)
    (var_init (raise match x with
                     | inl u => in_place (conv_value u)
                     | inr g => unexpect (conv_error g)
                     end)).
Proof.
  destruct x as [u|g]; [apply init_value_refines|apply init_error_refines]; intros i w; simpl;
    unfold construct_value_move, construct_error_move, lift, mret, M_ret, mbind, M_bind.
  - destruct (conv_value u); [|done]. by rewrite move_ctor_val.
  - destruct (conv_error g); [|done]. by rewrite move_ctor_val.
Qed.

(** The temporary made of the value is moved from, and destroyed as it is. *)
Lemma assign_value_refines i v :
  refines (expected_assign_value i v) (var_assign (mret (inl v)) i).
Proof.
  apply refines_var_get. intros n a y Hi. pose proof (lookup_lt_Some _ _ _ Hi) as Hl.
  pose proof (value_move_refines v n a) as Hnew.
  pose proof (swap_temporary_refines _ _ i (expected_move_refines (length a)) n
                (a ++ [Some (inl v)])) as Hassign.
  assert (Ht : (a ++ [Some (inl v : T + E)]) !! length a = Some (Some (inl v)))
    by by apply list_lookup_middle.
  unfold var_init, var_assign, var_move, var_get, var_put, modify in Hnew, Hassign.
  unfold mret, M_ret, mbind, M_bind in Hnew, Hassign. simpl in Hnew.
  rewrite Ht in Hassign. rewrite insert_app_r_alt, Nat.sub_diag in Hassign by done.
  rewrite lookup_app_l, Hi in Hassign by done. simpl in Hassign.
  rewrite insert_app_l in Hassign by done.
  unfold expected_assign_value, with_temporary, try_catch, mbind, M_bind. rewrite Hnew.
  unfold expected_assign_move. rewrite Hassign.
  assert (Hlen : length (<[i:=Some (inl v)]> a) = length a) by apply length_insert.
  pose proof (concrete_lookup n (<[i:=Some (inl v)]> a ++ [Some (sum_moved (inl v))]) (length a)
                _ ltac:(by apply list_lookup_middle)) as Hmid.
  unfold concrete in *. simpl in Hmid.
  rewrite (expected_destroy_steps _ _ _ (inl (moved_from v)) Hmid). unfold pop_object.
  erewrite runs_bind; [|eapply get_object_steps, list_lookup_insert_eq, lookup_lt_Some, Hmid|].
  2:{ unfold modify, runs. simpl. reflexivity. }
  simpl. rewrite Nat.add_0_r, take_insert_ge by lia.
  by rewrite fmap_app, take_app_length' by (by rewrite length_fmap).
Qed.

Lemma execute_refines c : refines (execute c) (meaning c).
Proof.
  pose proof (observer_refines c) as Ho. destruct c; try exact Ho; clear Ho.
  all: try apply Eq_refines; try apply Emplace_refines; try apply Value_or_move_refines; apply refines_returning.
  all: try apply assign_value_refines; try apply swap_temporary_refines.
  all: first [ apply value_move_refines | apply error_move_refines | apply in_place_refines
             | apply unexpect_refines | apply moved_unexpect_refines | apply expected_copy_refines
             | apply expected_move_refines | apply destroy_refines | apply expected_swap_refines
             | by apply (init_value_refines (copy_ctor v))
             | by apply (init_error_refines (copy_ctor (m_error u))) ].
Qed.

(** C23: Whatever a program does with its variables - create, copy, move, assign (an object to
    itself too), swap and destroy them, with copies that may throw - it sees what it would see
    of variables that hold a [T + E], and the store is left with exactly the contents of
    these: a failed assignment changes nothing, nothing is used after it was destroyed and
    nothing is leaked. *)
Theorem expected_refines_sum cs : refines (program execute cs) (program meaning cs).
Proof.
  induction cs as [|c cs IH]; [apply refines_ret|]. simpl.
  apply refines_bind; [apply refines_try_catch; [apply execute_refines|]|].
  - intros e. apply refines_ret.
  - intros r. apply refines_bind; [apply IH|]. intros rs. apply refines_ret.
Qed.
End Spec.

(** ** The error type of [aom::expected]: what [Errors.expected] stands for *)

Definition as_expected {A} (x : A + exn) : expected A :=
  match x with inl a => Val a | inr e => Err e end.

Lemma value_throws_stored_exception {T} `{!CppObject T, !CppObject exn}
  {nothrow_T : NothrowMove T} {nothrow_E : NothrowMove exn} i :
  refines (T:=T) (expected_get_value i) (x ← var_get i; raise (as_expected x)).
Proof.
  intros n a. pose proof (Get_value_refines i n a) as H.
  unfold mbind, M_bind in *. by destruct (var_get i a) as [[[v|e]|e|c] a'].
Qed.

(** Copies of an odd number throw. *)
Definition odd_object : CppObject nat := {|
  copy_ctor x := if Nat.odd x then Err (Std_exception "odd") else Val x;
  move_ctor x := (Val x, 0);
  std_swap x y := (Val tt, (y, x))
|}.
Definition odd_nothrow : @NothrowMove nat odd_object.
Proof. by refine (@Build_NothrowMove nat odd_object (λ _, 0) _ _). Defined.

Lemma expected_refines_sum_witness :
  let run := @execute nat nat odd_object odd_object (bad_expected_access_traits nat)
               Nat.eqb Nat.eqb (λ x, x) in
  program run [New_value_move 5; New_error (Unexpected 2); Assign 1 0; Swap 0 1; Get_value 0;
               Assign_move 1 1; Assign 0 0; Emplace 0 (Val 7); Eq 0 1; Assign_value 1 9;
               Destroy 1]
    (Store [] 3) =
  (Ret [R_nat 0; R_nat 1; R_threw (Std_exception "odd"); R_unit;
        R_threw (Std_exception "bad_expected_access"); R_unit; R_unit; R_value 7;
        R_bool false; R_unit; R_unit],
   Store [Some (ExpectedObj true (Alive_value 7)); None] 3).
Proof.
  intros run.
  pose proof (@expected_refines_sum nat nat odd_object odd_object (bad_expected_access_traits nat)
    odd_nothrow odd_nothrow Nat.eqb Nat.eqb (λ x, x)
    [New_value_move 5; New_error (Unexpected 2); Assign 1 0; Swap 0 1; Get_value 0;
     Assign_move 1 1; Assign 0 0; Emplace 0 (Val 7); Eq 0 1; Assign_value 1 9;
               Destroy 1] 3 []) as H.
  vm_compute in H. exact H.
Defined.

(** ** A value whose move throws *)

Section Throwing_move.
Context {T E : Type} `{!CppObject T, !CppObject E} {nothrow_E : NothrowMove E}.

Lemma swap_value_error_throws objs n i j (v : T) (e : E) x :
  objs !! i = Some (Some (ExpectedObj true (Alive_value v))) →
  objs !! j = Some (Some (ExpectedObj false (Alive_error e))) →
  fst (move_ctor v) = Err x →
  ∃ objs', swap_value_error i j (Store objs n) = (Throw x, Store objs' n) ∧
    objs' !! j = Some (Some (ExpectedObj false Raw)).
Proof.
  intros Hi Hj Hx. assert (Hij : i ≠ j) by (intros <-; by rewrite Hi in Hj).
  eexists. split.
  - unfold swap_value_error, mbind, M_bind. rewrite (get_error_steps _ _ _ _ Hj).
    rewrite (move_contained_error_steps _ _ _ _ _ Hj), move_ctor_val. simpl.
    erewrite destruct_error_steps by lookup_object.
    erewrite move_contained_value_steps by lookup_object. by rewrite Hx.
  - lookup_object.
Qed.

(** C39: Swapping a value whose move constructor throws with an error leaves the other object
    with nothing alive in it, so that its destructor destroys an error that is not there.
    Copy assignment, which accepts such a type when the error moves without throwing, does
    so at once, in the destructor of its temporary. *)
Theorem expected_throwing_move_corrupts objs n i j (v : T) (e e' : E) x :
  objs !! i = Some (Some (ExpectedObj true (Alive_value v))) →
  objs !! j = Some (Some (ExpectedObj false (Alive_error e))) →
  fst (move_ctor v) = Err x → copy_ctor e = Val e' →
  (∃ w, expected_swap i j (Store objs n) = (Throw x, w) ∧
        fst (expected_destroy j w) = Crash Use_after_free) ∧
  fst (expected_assign i j (Store objs n)) = Crash Use_after_free.
Proof.
  intros Hi Hj Hx He. split.
  - destruct (swap_value_error_throws _ n _ _ _ _ _ Hi Hj Hx) as (objs' & Hs & Hj').
    eexists. unfold expected_swap, mbind, M_bind.
    rewrite (expected_has_value_steps _ _ _ _ _ Hi), (expected_has_value_steps _ _ _ _ _ Hj), Hs.
    split; [done|]. by rewrite (destroy_empty_crashes _ _ _ _ Hj').
  - set (t := length objs). set (o := objs ++ [Some (ExpectedObj false (Alive_error e'))]).
    assert (Hc : expected_copy j (Store objs n) = (Ret t, Store o n)).
    { unfold expected_copy, mbind, M_bind. rewrite (expected_has_value_steps _ _ _ _ _ Hj).
      apply (new_object_steps objs objs n false (Val (Alive_error e'))); [done|].
      unfold construct_error, mbind, M_bind.
      erewrite contained_error_steps by (by apply lookup_app_l_Some). by rewrite He. }
    assert (Ho : o !! i = Some (Some (ExpectedObj true (Alive_value v))))
      by (by apply lookup_app_l_Some).
    assert (Ht : o !! t = Some (Some (ExpectedObj false (Alive_error e'))))
      by (by apply list_lookup_middle).
    destruct (swap_value_error_throws _ n _ _ _ _ _ Ho Ht Hx) as (objs' & Hs & Ht').
    unfold expected_assign, swap_temporary, with_temporary, try_catch, mbind, M_bind.
    rewrite Hc. unfold expected_swap at 1. unfold mbind at 1 2, M_bind at 1 2.
    rewrite (expected_has_value_steps _ _ _ _ _ Ht), (expected_has_value_steps _ _ _ _ _ Ho), Hs.
    unfold mbind, M_bind. by rewrite (destroy_empty_crashes _ _ _ _ Ht').
Qed.
End Throwing_move.

(** A value that can only be copied: its move throws. *)
Definition unmovable : CppObject nat := {|
  copy_ctor x := Val x;
  move_ctor x := (Err (Std_exception "move"), x);
  std_swap x y := (Err (Std_exception "move"), (x, y))
|}.

Lemma expected_throwing_move_corrupts_witness :
  let objs := [Some (ExpectedObj true (Alive_value 1)); Some (ExpectedObj false (Alive_error 2))] in
  fst (@expected_assign nat nat unmovable odd_object 0 1 (Store objs 0)) = Crash Use_after_free.
Proof.
  intros objs.
  exact (proj2 (@expected_throwing_move_corrupts nat nat unmovable odd_object odd_nothrow objs 0 0 1
    1 2 2 _ eq_refl eq_refl eq_refl eq_refl)).
Defined.

(** ** [expected<void, E>] *)

Section Void.
Context {E : Type} `{!CppObject E} {nothrow_E : NothrowMove E}.

Lemma void_copy_error_steps objs n j (e e' : E) :
  objs !! j = Some (Some (ExpectedObj (T:=Empty_set) false (Alive_error e))) →
  copy_ctor e = Val e' →
  void_copy j (Store objs n) =
    (Ret (length objs), Store (objs ++ [Some (ExpectedObj false (Alive_error e'))]) n).
Proof.
  intros Hj He. unfold void_copy, mbind, M_bind.
  rewrite (expected_has_value_steps _ _ _ _ _ Hj).
  apply (new_object_steps objs objs n false (Val (Alive_error e'))); [done|].
  unfold construct_error, mbind, M_bind.
  erewrite contained_error_steps by (by apply lookup_app_l_Some). by rewrite He.
Qed.

Lemma void_swap_value_error_steps objs n i j (e : E) :
  objs !! i = Some (Some (ExpectedObj (T:=Empty_set) true Raw)) →
  objs !! j = Some (Some (ExpectedObj false (Alive_error e))) →
  void_swap_value_error i j (Store objs n) =
    (Ret tt, Store (<[j := Some (ExpectedObj true (Alive_error (moved_from e)))]>
                     (<[i := Some (ExpectedObj false (Alive_error e))]> objs)) n).
Proof.
  intros Hi Hj. assert (Hij : i ≠ j) by (intros <-; by rewrite Hi in Hj).
  unfold void_swap_value_error.
  eapply runs_bind; [eapply expected_has_value_steps; lookup_object|].
  eapply runs_bind; [done|].
  eapply runs_bind.
  { red. erewrite move_contained_error_steps by exact Hj. by rewrite move_ctor_val. }
  eapply runs_bind; [eapply place_steps; lookup_object|].
  eapply runs_bind; [eapply get_object_steps; lookup_object|].
  eapply runs_bind; [eapply get_object_steps; lookup_object|].
  eapply runs_bind; [apply put_object_steps|].
  eapply runs_bind; [eapply get_object_steps; lookup_object|].
  unfold runs. rewrite put_object_steps. simpl. rewrite Nat.add_0_r. do 2 f_equal.
  apply list_eq. intros k. rewrite !list_lookup_insert, !length_insert.
  repeat case_decide; naive_solver.
Qed.

(** C40: Assigning an error to an [expected<void, E>] that holds none gives it the error, but
    the swap with the temporary moves the error out of the temporary and marks the temporary
    as holding a value: the error that was moved from is never destroyed. *)
Theorem expected_void_assign_leaks objs n i j (e e' : E) :
  objs !! i = Some (Some (ExpectedObj (T:=Empty_set) true Raw)) →
  objs !! j = Some (Some (ExpectedObj false (Alive_error e))) →
  copy_ctor e = Val e' →
  void_assign i j (Store objs n) =
    (Ret tt, Store (<[i := Some (ExpectedObj false (Alive_error e'))]> objs) (S n)).
Proof.
  intros Hi Hj He. pose proof (lookup_lt_Some _ _ _ Hi) as Hl.
  set (o := objs ++ [Some (ExpectedObj false (Alive_error e'))]).
  assert (Ho : o !! i = Some (Some (ExpectedObj true Raw))) by (by apply lookup_app_l_Some).
  assert (Ht : o !! length objs = Some (Some (ExpectedObj false (Alive_error e'))))
    by (by apply list_lookup_middle).
  unfold void_assign, void_swap_temporary, with_temporary, try_catch.
  unfold mbind at 1, M_bind at 1. rewrite (void_copy_error_steps _ _ _ _ _ Hj He). fold o.
  unfold void_swap. unfold mbind, M_bind.
  rewrite (expected_has_value_steps _ _ _ _ _ Ht), (expected_has_value_steps _ _ _ _ _ Ho).
  rewrite (void_swap_value_error_steps _ _ _ _ _ Ho Ht).
  unfold void_destroy, when, pop_object, mbind, M_bind.
  assert (Hl' : length objs < length (<[i := Some (ExpectedObj false (Alive_error e'))]> o))
    by (unfold o; rewrite length_insert, length_app; simpl; lia).
  erewrite expected_has_value_steps by (by apply list_lookup_insert_eq). simpl.
  erewrite get_object_steps by (by apply list_lookup_insert_eq).
  unfold modify, o. simpl. rewrite Nat.add_1_r. do 2 f_equal.
  rewrite take_insert_ge, take_insert_lt by lia. by rewrite take_app_length.
Qed.
End Void.

Lemma expected_void_assign_leaks_witness :
  let objs := [Some (ExpectedObj true Raw); Some (ExpectedObj false (Alive_error 2))] in
  @void_assign nat odd_object 0 1 (Store objs 0) =
    (Ret tt, Store (<[0 := Some (ExpectedObj false (Alive_error 2))]> objs) 1).
Proof.
  intros objs.
  exact (@expected_void_assign_leaks nat odd_object odd_nothrow objs 0 0 1 2 2 eq_refl eq_refl
    eq_refl).
Defined.
