(* ===== verification/CompletionQueue.v ===== *)
(** Completion queues: the tags that carry a callback's address and four flag
    bits, and the worker thread that decodes them and runs the callbacks
    (include/easy_grpc/completion_queue.h, src/easy_grpc/completion_queue.cpp). *)

From stdpp Require Import gmap.
From S2P Require Import Prelude Errors Effects.
Local Open Scope Z_scope.

(** ** Tags: [intptr_t] is 64 bits wide *)

(** [reinterpret_cast<intptr_t>(p)] of an address in [0, 2^64). *)
Definition intptr_of_ptr (p : Z) : Z := if p <? 2 ^ 63 then p else p - 2 ^ 64.

(** [reinterpret_cast<void*>(t)]. *)
Definition ptr_of_intptr (t : Z) : Z := t mod 2 ^ 64.

(** [Completion_callback::completion_tag]; [flags] is the value of the
    [std::bitset<4>]. *)
Definition completion_tag (this flags : Z) : Z :=
  let tag_val := intptr_of_ptr this in
  let tag_val := Z.lor tag_val flags in
  ptr_of_intptr tag_val.

(** How [worker_main] splits a tag: the callback's address and the flags. *)
Definition tag_flags (tag : Z) : Z := Z.land (intptr_of_ptr tag) 15.
Definition tag_completion (tag : Z) : Z :=
  ptr_of_intptr (Z.land (intptr_of_ptr tag) (Z.lnot 15)).

(** [flags.test(i)]. *)
Definition flag_test (flags : Z) (i : Z) : bool := Z.testbit flags i.

(** ** The worker *)

Inductive grpc_event :=
| GRPC_OP_COMPLETE (tag : Z) (success : bool)
| GRPC_QUEUE_SHUTDOWN
| GRPC_QUEUE_TIMEOUT.

Section Worker.
(** The state of the callbacks, the virtual [exec] and the virtual destructor. *)
Context {W : Type}.
Context (exec : Z → bool → Z → M W bool) (delete : Z → M W unit).

(** [exec] is [noexcept]: an exception that leaves it ends the program. *)
Definition exec_noexcept (completion : Z) (success : bool) (flags : Z) : M W bool :=
  noexcept (exec completion success flags).

(** One turn of the loop for a completed operation. *)
Definition worker_dispatch (tag : Z) (success : bool) : M W unit :=
  let flags := tag_flags tag in
  let completion := tag_completion tag in
  kill ← exec_noexcept completion success flags;
  when kill (delete completion).

(** [Completion_queue::worker_main] on the events that
    [grpc_completion_queue_next] returns, in order. [false]: the thread is still
    waiting for the next event. *)
Fixpoint worker_main (events : list grpc_event) : M W bool :=
  match events with
  | [] => mret false
  | GRPC_OP_COMPLETE tag success :: events =>
      worker_dispatch tag success ;; worker_main events
  | ev :: _ =>
      massert (match ev with GRPC_QUEUE_SHUTDOWN => true | _ => false end) ;;
      mret true
  end.
End Worker.

(** ** Lemmas on tags *)

Lemma land_15 (x : Z) : Z.land x 15 = x mod 16.
Proof. change 15 with (Z.ones 4). by rewrite Z.land_ones. Qed.

Lemma land_lnot_15 (x : Z) : Z.land x (Z.lnot 15) = x - x mod 16.
Proof.
  rewrite <-Z.ldiff_land. change 15 with (Z.ones 4).
  rewrite Z.ldiff_ones_r by lia.
  rewrite Z.shiftr_div_pow2, Z.shiftl_mul_pow2 by lia.
  pose proof (Z.div_mod x 16). change (2 ^ 4) with 16. lia.
Qed.

Lemma small_lor (a f : Z) : 0 ≤ a < 16 → 0 ≤ f < 16 → 0 ≤ Z.lor a f < 16.
Proof.
  intros Ha Hf. split; [apply Z.lor_nonneg; lia|].
  assert (Z.lor a f = Z.lor a f mod 2 ^ 4) as ->.
  { rewrite <-Z.land_ones, Z.land_lor_distr_l, !Z.land_ones by lia.
    by rewrite !Z.mod_small by (change (2 ^ 4) with 16; lia). }
  apply Z.mod_pos_bound. lia.
Qed.

(** The low four bits of a disjunction with a 4-bit value. *)
Lemma lor_flags (x f : Z) :
  0 ≤ f < 16 → Z.lor x f = (x - x mod 16) + Z.lor (x mod 16) f.
Proof.
  intros Hf.
  pose proof (small_lor (x mod 16) f (Z.mod_pos_bound x 16 ltac:(lia)) Hf) as Hs.
  assert (Hlow : Z.lor x f mod 16 = Z.lor (x mod 16) f).
  { rewrite <-!land_15, Z.land_lor_distr_l, !land_15.
    by rewrite (Z.mod_small f 16) by lia. }
  assert (Hhigh : Z.lor x f - Z.lor x f mod 16 = x - x mod 16).
  { rewrite <-!land_lnot_15, Z.land_lor_distr_l, (land_lnot_15 f).
    rewrite (Z.mod_small f 16), Z.sub_diag, Z.lor_0_r by lia. done. }
  lia.
Qed.

Lemma intptr_mod_16 (p : Z) : intptr_of_ptr p mod 16 = p mod 16.
Proof.
  unfold intptr_of_ptr. destruct (p <? 2 ^ 63); [done|].
  replace (p - 2 ^ 64) with (p + (- 2 ^ 60) * 16) by lia.
  by rewrite Z.mod_add by lia.
Qed.

Lemma intptr_bounds (p : Z) : 0 ≤ p < 2 ^ 64 → - 2 ^ 63 ≤ intptr_of_ptr p < 2 ^ 63.
Proof. unfold intptr_of_ptr. intros ?. destruct (Z.ltb_spec p (2 ^ 63)); lia. Qed.

Lemma intptr_ptr (t : Z) : - 2 ^ 63 ≤ t < 2 ^ 63 → intptr_of_ptr (ptr_of_intptr t) = t.
Proof.
  intros Ht. unfold ptr_of_intptr, intptr_of_ptr.
  destruct (Z.ltb_spec (t mod 2 ^ 64) (2 ^ 63)) as [Hlt|Hge].
  - destruct (Z.le_gt_cases 0 t).
    + by rewrite Z.mod_small by lia.
    + rewrite <-(Z.mod_add t 1 (2 ^ 64)) in Hlt by lia.
      rewrite Z.mod_small in Hlt by lia. lia.
  - destruct (Z.le_gt_cases 0 t).
    + rewrite Z.mod_small in Hge by lia. lia.
    + rewrite <-(Z.mod_add t 1 (2 ^ 64)) by lia. rewrite Z.mod_small by lia. lia.
Qed.

Lemma ptr_intptr (p : Z) : 0 ≤ p < 2 ^ 64 → ptr_of_intptr (intptr_of_ptr p) = p.
Proof.
  intros Hp. unfold ptr_of_intptr, intptr_of_ptr.
  destruct (Z.ltb_spec p (2 ^ 63)); [by rewrite Z.mod_small|].
  rewrite <-(Z.mod_add _ 1 (2 ^ 64)) by lia. rewrite Z.mod_small by lia. lia.
Qed.

(** The tag stays an [intptr_t], and decoding it yields the address rounded down
    to sixteen and the flags merged with the bits rounded away. *)
Lemma decode_completion_tag (this flags : Z) :
  0 ≤ this < 2 ^ 64 → 0 ≤ flags < 16 →
  intptr_of_ptr (completion_tag this flags) =
    intptr_of_ptr this - this mod 16 + Z.lor (this mod 16) flags.
Proof.
  intros Hp Hf. unfold completion_tag.
  pose proof (intptr_bounds this Hp) as Hb.
  pose proof (Z.mod_pos_bound this 16 ltac:(lia)) as Hm.
  pose proof (small_lor _ _ Hm Hf) as Hs.
  rewrite lor_flags, intptr_mod_16 by done.
  rewrite intptr_ptr; [done|].
  assert (intptr_of_ptr this - this mod 16 = 16 * (intptr_of_ptr this / 16)).
  { pose proof (Z.div_mod (intptr_of_ptr this) 16 ltac:(lia)).
    rewrite intptr_mod_16 in *. lia. }
  split; [|lia].
  assert (- 2 ^ 63 / 16 ≤ intptr_of_ptr this / 16) by (apply Z.div_le_mono; lia).
  change (- 2 ^ 63 / 16) with (- 2 ^ 59) in *. lia.
Qed.

Lemma completion_tag_decode (this flags : Z) :
  0 ≤ this < 2 ^ 64 → this mod 16 = 0 → 0 ≤ flags < 16 →
  tag_completion (completion_tag this flags) = this ∧
  tag_flags (completion_tag this flags) = flags.
Proof.
  intros Haddr Halign Hflags. unfold tag_completion, tag_flags.
  rewrite decode_completion_tag, Halign, Z.lor_0_l, Z.sub_0_r by done.
  rewrite land_lnot_15, land_15.
  assert ((intptr_of_ptr this + flags) mod 16 = flags) as ->.
  { rewrite Zplus_mod, intptr_mod_16, Halign, Z.add_0_l, Z.mod_mod by lia.
    by apply Z.mod_small. }
  split; [|done].
  replace (intptr_of_ptr this + flags - flags) with (intptr_of_ptr this) by lia.
  by apply ptr_intptr.
Qed.

(** C27: the tag of a callback decodes to exactly that callback and those flags
    when the callback's address is a multiple of sixteen, for every address of
    the 64-bit space and every value of the four flags. *)
Theorem completion_tag_roundtrip (this flags : Z)
  (Haddr : 0 ≤ this < 2 ^ 64) (Halign : this mod 16 = 0) (Hflags : 0 ≤ flags < 16) :
  tag_completion (completion_tag this flags) = this ∧
  tag_flags (completion_tag this flags) = flags.
Proof. by apply completion_tag_decode. Qed.

Lemma completion_tag_roundtrip_witness :
  tag_completion (completion_tag 0xFFFF800000001230 9) = 0xFFFF800000001230 ∧
  tag_flags (completion_tag 0xFFFF800000001230 9) = 9.
Proof. apply (completion_tag_roundtrip 0xFFFF800000001230 9); vm_compute; split; congruence. Defined.

(** ** The worker on callbacks that live on the heap *)

Section Callback_heap.
(** What the callbacks decide: whether [exec] returns [true], given every call
    made so far (the last one is the current call). *)
Context (kill : list (Z * bool * Z) → bool).

(** The callbacks that are still allocated, and the calls made to [exec]. *)
Record callback_heap := CallbackHeap {
  live : gset Z;
  calls : list (Z * bool * Z)
}.

(** A virtual call on a deleted callback is a use after free. *)
Definition heap_exec (p : Z) (success : bool) (flags : Z) : M callback_heap bool := λ s,
  if bool_decide (p ∈ live s) then
    let calls' := calls s ++ [(p, success, flags)] in
    (Ret (kill calls'), CallbackHeap (live s) calls')
  else (Crash Use_after_free, s).

Definition heap_delete (p : Z) : M callback_heap unit :=
  modify (λ s, CallbackHeap (live s ∖ {[p]}) (calls s)).

Definition op_complete (c : Z * bool * Z) : grpc_event :=
  GRPC_OP_COMPLETE (completion_tag c.1.1 c.2) c.1.2.

(** A callback whose tag can be decoded. *)
Definition taggable (c : Z * bool * Z) : Prop :=
  0 ≤ c.1.1 < 2 ^ 64 ∧ c.1.1 mod 16 = 0 ∧ 0 ≤ c.2 < 16.

(** The callbacks deleted while [cs] is handled after the calls [before]. *)
Fixpoint killed (before : list (Z * bool * Z)) (cs : list (Z * bool * Z)) : gset Z :=
  match cs with
  | [] => ∅
  | c :: cs =>
      (if kill (before ++ [c]) then {[c.1.1]} else ∅) ∪ killed (before ++ [c]) cs
  end.

Lemma worker_dispatch_taggable (c : Z * bool * Z) (s : callback_heap) :
  taggable c → c.1.1 ∈ live s →
  worker_dispatch heap_exec heap_delete (completion_tag c.1.1 c.2) c.1.2 s =
    (Ret tt, CallbackHeap
       (if kill (calls s ++ [c]) then live s ∖ {[c.1.1]} else live s)
       (calls s ++ [c])).
Proof.
  destruct c as [[p ok] fl]. intros (Hp & Ha & Hf) Hlive. simpl in *.
  destruct (completion_tag_decode p fl Hp Ha Hf) as [Hc Hfl].
  unfold worker_dispatch. rewrite Hc, Hfl.
  unfold exec_noexcept, heap_exec, heap_delete. munfold.
  rewrite bool_decide_true by done.
  by destruct (kill (calls s ++ [(p, ok, fl)])).
Qed.

Lemma worker_main_ops (cs : list (Z * bool * Z)) (rest : list grpc_event) (s : callback_heap) :
  Forall taggable cs →
  (∀ c, c ∈ cs → c.1.1 ∈ live s) →
  (∀ i j ci cj, (i < j)%nat → cs !! i = Some ci → cs !! j = Some cj → ci.1.1 = cj.1.1 →
     kill (calls s ++ take (S i) cs) = false) →
  worker_main heap_exec heap_delete (map op_complete cs ++ rest) s =
  worker_main heap_exec heap_delete rest
    (CallbackHeap (live s ∖ killed (calls s) cs) (calls s ++ cs)).
Proof.
  revert s. induction cs as [|c cs IH]; intros s Htag Hlive Hreuse.
  { simpl. rewrite app_nil_r, difference_empty_L. by destruct s. }
  inversion Htag as [|? ? Hc Hcs]; subst.
  assert (Hcl : c.1.1 ∈ live s) by (apply Hlive; left).
  simpl. munfold. rewrite worker_dispatch_taggable by done. simpl.
  rewrite IH; simpl; [| done | |].
  - f_equal. f_equal; [|by rewrite <-app_assoc].
    destruct (kill (calls s ++ [c])); clear; set_solver.
  - intros c' Hin. destruct (kill (calls s ++ [c])) eqn:Hk; [|apply Hlive; by right].
    apply list_elem_of_lookup in Hin as [j Hj].
    destruct (decide (c.1.1 = c'.1.1)) as [Heq|Hne].
    + assert (kill (calls s ++ [c]) = false); [|congruence].
      by apply (Hreuse 0%nat (S j) c c'); [lia|..].
    + apply list_elem_of_lookup_2 in Hj. set_solver.
  - intros i j ci cj Hij Hi Hj Heq. rewrite <-app_assoc.
    by apply (Hreuse (S i) (S j) ci cj); [lia|..].
Qed.

(** C26: the worker hands every completed operation to the callback and the flags
    its tag was made from, once and in order, deletes exactly the callbacks whose
    [exec] returned true, ignores what follows the shutdown event and returns;
    it never touches a deleted callback, provided no operation of a callback
    completes after the callback asked to be deleted. *)
Theorem worker_main_dispatch (cs : list (Z * bool * Z)) (rest : list grpc_event)
  (s : callback_heap)
  (Htag : Forall taggable cs)
  (Hlive : ∀ c, c ∈ cs → c.1.1 ∈ live s)
  (Hlast : ∀ i j ci cj, (i < j)%nat → cs !! i = Some ci → cs !! j = Some cj →
     ci.1.1 = cj.1.1 → kill (calls s ++ take (S i) cs) = false) :
  worker_main heap_exec heap_delete
    (map op_complete cs ++ GRPC_QUEUE_SHUTDOWN :: rest) s =
  (Ret true, CallbackHeap (live s ∖ killed (calls s) cs) (calls s ++ cs)).
Proof. by rewrite worker_main_ops. Qed.
End Callback_heap.

Lemma worker_main_dispatch_witness :
  worker_main (heap_exec (λ l, Nat.eqb (length l) 2)) heap_delete
    (map op_complete [(32, true, 1); (32, false, 4); (64, true, 0)]
      ++ [GRPC_QUEUE_SHUTDOWN]) (CallbackHeap {[32; 64]} []) =
  (Ret true, CallbackHeap ({[32; 64]} ∖ killed (λ l, Nat.eqb (length l) 2) []
      [(32, true, 1); (32, false, 4); (64, true, 0)])
    [(32, true, 1); (32, false, 4); (64, true, 0)]).
Proof.
  apply (worker_main_dispatch (λ l, Nat.eqb (length l) 2)
           [(32, true, 1); (32, false, 4); (64, true, 0)] []).
  - repeat constructor; vm_compute; congruence.
  - intros c Hc. repeat (apply elem_of_cons in Hc as [->|Hc]; [set_solver|]).
    by apply elem_of_nil in Hc.
  - intros [|[|[|i]]] [|[|[|j]]] ci cj Hij Hi Hj Heq; simplify_eq/=; (done || lia).
Defined.
