(* ===== verification/QueueThread.v ===== *)
(** The life of a completion queue: the thread its constructor starts and its
    destructor joins, next to the thread that destroys it
    (include/easy_grpc/completion_queue.h, src/easy_grpc/completion_queue.cpp). *)

From stdpp Require Import relations.
From S2P Require Import Prelude Errors Effects CompletionQueue.

(** What happens to the core's queue, in order: the calls of the library and the
    events [grpc_completion_queue_next] returns. *)
Inductive queue_event :=
| Q_create
| Q_next (ev : grpc_event)
| Q_shutdown
| Q_destroy.

#[export] Instance grpc_event_eq_dec : EqDecision grpc_event.
Proof. solve_decision. Defined.
#[export] Instance queue_event_eq_dec : EqDecision queue_event.
Proof. solve_decision. Defined.

(** [thread_], and how far [~Completion_queue] has come. *)
Inductive thread_state := Running | Returned | Joined.
Inductive dtor_state := Alive | Joining | Gone.

#[export] Instance thread_state_eq_dec : EqDecision thread_state.
Proof. solve_decision. Defined.
#[export] Instance dtor_state_eq_dec : EqDecision dtor_state.
Proof. solve_decision. Defined.

(** The queue, its thread and the state [W] of the callbacks. *)
Record queue_world (W : Type) := QueueWorld {
  q_log : list queue_event;
  thread_ : thread_state;
  q_dtor : dtor_state;
  q_callbacks : W
}.
Arguments QueueWorld {W} _ _ _ _.
Arguments q_log {W} _.
Arguments thread_ {W} _.
Arguments q_dtor {W} _.
Arguments q_callbacks {W} _.

(** [Completion_queue_set]'s constructor from a range; a queue is known by its
    handle. *)
Definition Completion_queue_set_init (range : list nat) : list nat :=
  fold_left (λ queues_ q, queues_ ++ [q]) range [].

Definition Completion_queue_set_empty (queues_ : list nat) : bool :=
  match queues_ with [] => true | _ => false end.

(** A set keeps the queues of the range, in order and with repetitions. *)
Lemma completion_queue_set_range (range : list nat) :
  Completion_queue_set_init range = range ∧
  (Completion_queue_set_empty (Completion_queue_set_init range) = true ↔ range = []).
Proof.
  assert (Completion_queue_set_init range = range) as ->.
  { assert (∀ acc, fold_left (λ queues_ q, queues_ ++ [q]) range acc = acc ++ range) as H;
      [|apply H].
    induction range as [|q range IH]; intros acc; simpl; [by rewrite app_nil_r|].
    by rewrite IH, <-app_assoc. }
  split; [done|]. by destruct range.
Qed.

Section Queue.
Context {W : Type}.
Context (exec : Z → bool → Z → M W bool) (delete : Z → M W unit).

(** The constructor. *)
Definition Completion_queue_init (cbs : W) : queue_world W :=
  QueueWorld [Q_create] Running Alive cbs.

(** The worker's thread gets [ev] and does one turn of its loop; [None]: the
    thread is not running. *)
Definition worker_turn (ev : grpc_event) (w : queue_world W) :
  option (outcome unit * queue_world W) :=
  match thread_ w with
  | Running =>
      let log := q_log w ++ [Q_next ev] in
      Some match worker_main exec delete [ev] (q_callbacks w) with
           | (Ret returned, cbs) =>
               (Ret tt, QueueWorld log (if returned then Returned else Running) (q_dtor w) cbs)
           | (Throw e, cbs) => (Throw e, QueueWorld log Running (q_dtor w) cbs)
           | (Crash c, cbs) => (Crash c, QueueWorld log Running (q_dtor w) cbs)
           end
  | Returned | Joined => None
  end.

(** [~Completion_queue], up to [thread_.join()]. *)
Definition Completion_queue_destroy_begin (w : queue_world W) : queue_world W :=
  QueueWorld (q_log w ++ [Q_shutdown]) (thread_ w) Joining (q_callbacks w).

(** [thread_.join()] and what follows; [None]: the call blocks. *)
Definition Completion_queue_destroy_end (w : queue_world W) : option (queue_world W) :=
  match thread_ w with
  | Returned => Some (QueueWorld (q_log w ++ [Q_destroy]) Joined Gone (q_callbacks w))
  | Running | Joined => None
  end.

(** ** Interleavings *)

(** The core: whether [next] can return [ev] after [log]. Its documentation:
    the shutdown event comes after a shutdown. *)
Context (core_next : list queue_event → grpc_event → Prop).
Context (core_shutdown : ∀ log, core_next log GRPC_QUEUE_SHUTDOWN → Q_shutdown ∈ log).

Inductive queue_step : queue_world W → queue_world W → Prop :=
| qs_turn w ev w' :
    core_next (q_log w) ev → worker_turn ev w = Some (Ret tt, w') → queue_step w w'
| qs_destroy_begin w :
    q_dtor w = Alive → queue_step w (Completion_queue_destroy_begin w)
| qs_destroy_end w w' :
    q_dtor w = Joining → Completion_queue_destroy_end w = Some w' → queue_step w w'.

(** ** Turns are [worker_main] *)

Lemma worker_main_app (evs : list grpc_event) (ev : grpc_event) (s s' : W) :
  worker_main exec delete evs s = (Ret false, s') →
  worker_main exec delete (evs ++ [ev]) s = worker_main exec delete [ev] s'.
Proof.
  revert s. induction evs as [|[tag ok| |] evs IH]; intros s H.
  - by injection H as ->.
  - change ((worker_dispatch exec delete tag ok ;; worker_main exec delete evs) s =
      (Ret false, s')) in H.
    change ((worker_dispatch exec delete tag ok ;; worker_main exec delete (evs ++ [ev])) s =
      worker_main exec delete [ev] s').
    apply runs_bind_inv in H as (a & s1 & H1 & H2).
    unfold mbind, M_bind. unfold runs in H1. rewrite H1. by apply IH.
  - by injection H.
  - done.
Qed.

(** A turn that does not stop the loop handled a completed operation. *)
Lemma worker_turn_op (ev : grpc_event) (b : bool) (s s' : W) :
  worker_main exec delete [ev] s = (Ret b, s') →
  if b then ev = GRPC_QUEUE_SHUTDOWN else ∃ tag ok, ev = GRPC_OP_COMPLETE tag ok.
Proof.
  destruct ev as [tag ok| |]; intros H; [|by injection H as <-|done].
  change ((worker_dispatch exec delete tag ok ;; mret false) s = (Ret b, s')) in H.
  apply runs_bind_inv in H as (a & s1 & _ & H2). injection H2 as <-. eauto.
Qed.

Definition is_op (ev : grpc_event) : Prop := ∃ tag ok, ev = GRPC_OP_COMPLETE tag ok.

(** ** The invariant *)

#[local] Arguments worker_main : simpl never.

(** The events the worker has handled before and after the shutdown. *)
Definition q_log_shape (w : queue_world W) (before after : list grpc_event) : Prop :=
  q_log w = Q_create :: map Q_next before
    ++ (if decide (q_dtor w = Alive) then [] else Q_shutdown :: map Q_next after)
    ++ (if decide (thread_ w = Running) then [] else [Q_next GRPC_QUEUE_SHUTDOWN])
    ++ (if decide (q_dtor w = Gone) then [Q_destroy] else []).

Definition queue_inv (cbs : W) (w : queue_world W) : Prop :=
  ∃ before after,
    Forall is_op before ∧ Forall is_op after ∧
    q_log_shape w before after ∧
    (q_dtor w = Alive → after = [] ∧ thread_ w = Running) ∧
    (q_dtor w = Gone ↔ thread_ w = Joined) ∧
    worker_main exec delete
      (before ++ after ++ if decide (thread_ w = Running) then [] else [GRPC_QUEUE_SHUTDOWN]) cbs
      = (Ret (bool_decide (thread_ w ≠ Running)), q_callbacks w).

Lemma queue_inv_init (cbs : W) : queue_inv cbs (Completion_queue_init cbs).
Proof. exists [], []. by repeat split. Qed.

Lemma no_shutdown_before (before : list grpc_event) :
  Q_shutdown ∉ Q_create :: map Q_next before.
Proof.
  rewrite elem_of_cons, list_elem_of_fmap. intros [?|(?&?&?)]; done.
Qed.

Lemma queue_inv_turn (cbs : W) (w w' : queue_world W) (ev : grpc_event) :
  queue_inv cbs w → core_next (q_log w) ev → worker_turn ev w = Some (Ret tt, w') →
  queue_inv cbs w'.
Proof.
  intros (before & after & Hb & Ha & Hlog & Halive & Hgone & Hrun) Hnext Hturn.
  destruct w as [log th dt s]. unfold q_log_shape, worker_turn in *. simpl in *.
  destruct th; try done. simpl in *. rewrite app_nil_r in Hrun.
  destruct (worker_main exec delete [ev] s) as [[b|e|c] s'] eqn:Hw; simplify_eq/=.
  pose proof (worker_turn_op _ _ _ _ Hw) as Hev.
  pose proof (worker_main_app _ ev _ _ Hrun) as Happ. rewrite Hw in Happ.
  destruct dt; simpl in *; [| |by destruct Hgone as [Hgone _]; specialize (Hgone eq_refl)].
  - destruct (Halive eq_refl) as [-> _]. rewrite app_nil_r in *.
    destruct b.
    + subst ev. exfalso. apply (no_shutdown_before before), core_shutdown. done.
    + exists (before ++ [ev]), []. unfold q_log_shape. simpl.
      rewrite Forall_app, Forall_singleton, map_app, !app_nil_r. by split_and!.
  - destruct b.
    + subst ev. exists before, after. unfold q_log_shape. simpl. split_and!; try done.
      * f_equal. rewrite app_nil_r, <-app_assoc. done.
      * by rewrite app_assoc.
    + exists before, (after ++ [ev]). unfold q_log_shape. simpl.
      rewrite Forall_app, Forall_singleton, map_app. split_and!; try done.
      * f_equal. rewrite !app_nil_r, <-app_assoc. done.
      * by rewrite app_nil_r, app_assoc.
Qed.

Lemma queue_inv_step (cbs : W) (w w' : queue_world W) :
  queue_inv cbs w → queue_step w w' → queue_inv cbs w'.
Proof.
  intros Hinv Hstep. destruct Hstep as [w1 ev w1' Hnext Hturn|w1 Hdt|w1 w1' Hdt Hend];
    [by eapply queue_inv_turn|..];
    destruct Hinv as (before & after & Hb & Ha & Hlog & Halive & Hgone & Hrun);
    destruct w1 as [log th dt s]; unfold q_log_shape in *; simpl in *; subst dt.
  - destruct (Halive eq_refl) as [-> ->]. exists before, []. unfold q_log_shape.
    simpl in *. rewrite Hlog. split_and!; try done. by rewrite app_nil_r.
  - unfold Completion_queue_destroy_end in Hend. simpl in Hend.
    destruct th; simplify_eq/=. exists before, after. unfold q_log_shape. simpl.
    split_and!; try done. rewrite <-app_assoc. simpl. by rewrite <-app_assoc.
Qed.

Lemma queue_inv_reachable (cbs : W) (w : queue_world W) :
  rtc queue_step (Completion_queue_init cbs) w → queue_inv cbs w.
Proof.
  revert w. apply rtc_ind_r; [apply queue_inv_init|].
  intros w1 w2 _ Hstep Hinv. by eapply queue_inv_step.
Qed.

Lemma queue_step_worker_returned (w : queue_world W) :
  q_dtor w = Joining → thread_ w = Returned →
  ∃ w', rtc queue_step w w' ∧ q_dtor w' = Gone.
Proof.
  destruct w as [log th dt s]. simpl. intros -> ->.
  exists (QueueWorld (log ++ [Q_destroy]) Joined Gone s). split; [|done].
  by apply rtc_once, qs_destroy_end.
Qed.

(** Once the core has the shutdown event to give, the destructor ends. *)
Lemma queue_step_drained (cbs : W) (w : queue_world W) :
  queue_inv cbs w → q_dtor w = Joining → core_next (q_log w) GRPC_QUEUE_SHUTDOWN →
  ∃ w', rtc queue_step w w' ∧ q_dtor w' = Gone.
Proof.
  intros (_ & _ & _ & _ & _ & _ & Hgone & _) Hdt Hnext.
  destruct (thread_ w) eqn:Hth; [|by apply queue_step_worker_returned|].
  2: { destruct Hgone as [_ Hgone]. specialize (Hgone eq_refl). congruence. }
  destruct w as [log th dt s]. simpl in *. subst.
  destruct (queue_step_worker_returned
    (QueueWorld (log ++ [Q_next GRPC_QUEUE_SHUTDOWN]) Returned Joining s)) as (w' & Hw' & Hg);
    [done..|].
  exists w'. split; [|done]. eapply rtc_l; [|done].
  by apply (qs_turn _ GRPC_QUEUE_SHUTDOWN).
Qed.

(** C25: whatever the interleaving of the worker's turns with the destruction of its
    queue, the whole is one run of [worker_main] on the events received: once
    destroyed, the queue was shut down, then drained, and only then destroyed, the
    worker having handled every event before; nothing happens afterwards; and as
    soon as the core has the shutdown event to give, the destructor can finish. *)
Theorem queue_destroyed_after_drained (cbs : W) (w : queue_world W)
  (Hreach : rtc queue_step (Completion_queue_init cbs) w) :
  (q_dtor w = Gone →
     (∃ before after,
        q_log w = Q_create :: map Q_next before ++ Q_shutdown :: map Q_next after
                    ++ [Q_next GRPC_QUEUE_SHUTDOWN; Q_destroy] ∧
        Forall is_op (before ++ after) ∧
        worker_main exec delete (before ++ after ++ [GRPC_QUEUE_SHUTDOWN]) cbs =
          (Ret true, q_callbacks w)) ∧
     ∀ w', ¬ queue_step w w') ∧
  (q_dtor w = Joining → core_next (q_log w) GRPC_QUEUE_SHUTDOWN →
     ∃ w', rtc queue_step w w' ∧ q_dtor w' = Gone).
Proof.
  apply queue_inv_reachable in Hreach. split; [|by eapply queue_step_drained].
  destruct Hreach as (before & after & Hb & Ha & Hlog & _ & Hgone & Hrun).
  intros Hdt. assert (Hth : thread_ w = Joined) by tauto. unfold q_log_shape in Hlog.
  rewrite Hdt, Hth in Hlog. rewrite Hth in Hrun. split.
  - exists before, after. split_and!; [done|by apply Forall_app|done].
  - intros w' Hstep. destruct Hstep; unfold worker_turn in *; rewrite ?Hth in *; congruence.
Qed.
End Queue.

(** A core that gives any completed operation at any time, and the shutdown event
    after a shutdown. *)
Definition eager_core (log : list queue_event) (ev : grpc_event) : Prop :=
  match ev with
  | GRPC_OP_COMPLETE _ _ => True
  | GRPC_QUEUE_SHUTDOWN => Q_shutdown ∈ log
  | GRPC_QUEUE_TIMEOUT => False
  end.

(** One callback, at address 32, that is done with its second operation; the
    second one completes while the destructor waits. *)
Lemma queue_destroyed_after_drained_witness :
  let exec := heap_exec (λ l, Nat.eqb (length l) 2) in
  let op1 := op_complete (32, true, 1)%Z in
  let op2 := op_complete (32, false, 2)%Z in
  let cbs := CallbackHeap {[32%Z]} [] in
  let cbs' := CallbackHeap ({[32%Z]} ∖ {[32%Z]}) [(32, true, 1); (32, false, 2)]%Z in
  let w := QueueWorld [Q_create; Q_next op1; Q_shutdown; Q_next op2;
                       Q_next GRPC_QUEUE_SHUTDOWN; Q_destroy] Joined Gone cbs' in
  ∃ before after,
    q_log w = Q_create :: map Q_next before ++ Q_shutdown :: map Q_next after
                ++ [Q_next GRPC_QUEUE_SHUTDOWN; Q_destroy] ∧
    Forall is_op (before ++ after) ∧
    worker_main exec heap_delete (before ++ after ++ [GRPC_QUEUE_SHUTDOWN]) cbs = (Ret true, cbs').
Proof.
  intros exec op1 op2 cbs cbs' w.
  refine (proj1 (proj1 (queue_destroyed_after_drained exec heap_delete eager_core (λ _ h, h)
    cbs w _) eq_refl)).
  eapply rtc_l; [by apply (qs_turn _ _ _ _ op1)|].
  eapply rtc_l; [by apply qs_destroy_begin|].
  eapply rtc_l; [by apply (qs_turn _ _ _ _ op2)|].
  eapply rtc_l.
  { apply (qs_turn _ _ _ _ GRPC_QUEUE_SHUTDOWN); [|done]. simpl. set_solver. }
  by apply rtc_once, qs_destroy_end.
Defined.
