(* ===== verification/Environment.v ===== *)
(** The environment of the library: one object at a time holds the gRPC core
    (include/easy_grpc/environment.h, src/easy_grpc/environment.cpp). *)

From S2P Require Import Prelude Errors Effects.

Inductive env_call := grpc_init | grpc_shutdown.

(** [singleton], and the calls to the core. *)
Record env_world := EnvWorld {
  singleton : option nat;
  env_calls : list env_call
}.

(** [NDEBUG]: whether [assert] is compiled away. *)
Section Environment.
Context (NDEBUG : bool).

Definition env_assert (b : bool) : M env_world unit :=
  if NDEBUG then mret tt else massert b.

Definition Environment_init (this : nat) : M env_world unit :=
  w ← get_state;
  env_assert (bool_decide (singleton w = None)) ;;
  modify (λ w, EnvWorld (Some this) (env_calls w)) ;;
  modify (λ w, EnvWorld (singleton w) (env_calls w ++ [grpc_init])).

Definition Environment_destroy (this : nat) : M env_world unit :=
  w ← get_state;
  when (bool_decide (singleton w = Some this))
    (modify (λ w, EnvWorld None (env_calls w)) ;;
     modify (λ w, EnvWorld (singleton w) (env_calls w ++ [grpc_shutdown]))).

Definition Environment_is_valid : M env_world bool :=
  gets (λ w, bool_decide (singleton w ≠ None)).

(** [easy_grpc_validation_enabled] is [true]. *)
Definition Environment_assert_valid : M env_world unit :=
  b ← Environment_is_valid; env_assert b.
End Environment.

(** The life of the environments of a program. *)
Inductive env_op := Env_new (this : nat) | Env_delete (this : nat).

Definition env_step (NDEBUG : bool) (o : env_op) : M env_world unit :=
  match o with
  | Env_new this => Environment_init NDEBUG this
  | Env_delete this => Environment_destroy this
  end.

(** [n] times the core's life. *)
Fixpoint core_lives (n : nat) : list env_call :=
  match n with 0 => [] | S n => core_lives n ++ [grpc_init; grpc_shutdown] end.

(** The core has been started and stopped alternately, and it is up exactly while
    some environment is valid. *)
Definition env_balanced (w : env_world) : Prop :=
  ∃ n, env_calls w = core_lives n ++ match singleton w with
                                     | Some _ => [grpc_init]
                                     | None => []
                                     end.

Lemma env_step_balanced (o : env_op) (w w' : env_world) :
  env_balanced w → env_step false o w = (Ret tt, w') → env_balanced w'.
Proof.
  intros [n Hn] H. destruct w as [[x|] cs], o as [y|y]; simpl in *; subst cs;
    cbv [Environment_init Environment_destroy env_assert when massert] in H; munfold; simpl in H;
    repeat case_bool_decide; simplify_eq/=.
  all: first [by exists n | exists n; simpl; by rewrite app_nil_r
             | exists (S n); simpl; by rewrite app_nil_r, <-app_assoc].
Qed.

(** In a program that constructs one environment at a time the core is started
    and stopped alternately, and a valid environment means a core that is up; a
    second environment asserts. *)
Theorem environment_balances_core (ops : list env_op) (w : env_world)
  (Hrun : for_each_in (env_step false) ops (EnvWorld None []) = (Ret tt, w)) :
  env_balanced w ∧
  (∀ this, singleton w ≠ None →
     (env_step false (Env_new this) w).1 = Crash Assertion_failed).
Proof.
  split.
  - revert Hrun. assert (Hw : env_balanced (EnvWorld None [])) by by exists 0.
    revert Hw. generalize (EnvWorld None []). induction ops as [|o ops IH]; intros w0 Hw0 H.
    + injection H as <-. done.
    + apply runs_bind_inv in H as ([] & w1 & H1 & H2).
      apply (IH w1); [by eapply env_step_balanced|done].
  - intros this Hs. cbv [env_step Environment_init env_assert]. munfold.
    by rewrite bool_decide_false.
Qed.

Lemma environment_balances_core_witness :
  env_balanced (EnvWorld (Some 2) [grpc_init; grpc_shutdown; grpc_init]).
Proof.
  apply (environment_balances_core [Env_new 1; Env_delete 1; Env_new 2] _ eq_refl).
Defined.

(** In a build without assertions a second environment takes the core over: the
    first one's destructor does nothing and the core is started twice and stopped
    once. *)
Lemma environment_ndebug_unbalanced :
  for_each_in (env_step true) [Env_new 1; Env_new 2; Env_delete 2; Env_delete 1]
    (EnvWorld None []) =
  (Ret tt, EnvWorld None [grpc_init; grpc_init; grpc_shutdown]).
Proof. reflexivity. Qed.
