(* ===== verification/FutureUtils.v ===== *)
(** The tuples a [Future<Ts...>] moves around
    (variadic_future/include/var_future/impl/utils.h): the fullfillment tuple,
    which has no component for a [void] field, the finishing tuple, which has one
    [expected] per field, and the conversions between them. *)

From S2P Require Import Prelude Errors.

(** A field of [Ts...]: [void], or a type whose values are carried. *)
Inductive field := Fvoid | Fval.

#[export] Instance field_eq_dec : EqDecision field.
Proof. solve_decision. Defined.

(** What [value_type] is: [void], one type, or a tuple of [n] types. *)
Inductive value_shape := Shape_void | Shape_single | Shape_tuple (n : nat).

(** [fullfill_type_t<Ts...>]: the values of the non-[void] fields, in order. *)
Abbreviation fullfill_type V := (list V) (only parsing).

(** One [expected<T>]: the content of a [void] field is [None]. *)
Abbreviation finish_elt V := (expected (option V)) (only parsing).

(** [finish_type_t<Ts...>]. *)
Abbreviation finish_type V := (list (expected (option V))) (only parsing).

Section Tuples.
(** The values the non-[void] fields carry. *)
Context {V : Type}.

(** The number of components of [fullfill_type V_t<Ts...>]. *)
Fixpoint fullfill_size (Ts : list field) : nat :=
  match Ts with
  | [] => 0
  | Fvoid :: Ts => fullfill_size Ts
  | Fval :: Ts => S (fullfill_size Ts)
  end.

(** [future_value_type_t<Ts...>] with [fullfill_to_value]. *)
Definition future_value_type (Ts : list field) : value_shape :=
  match Ts with
  | [Fvoid] => Shape_void
  | [Fval] => Shape_single
  | _ =>
      match fullfill_size Ts with
      | 0 => Shape_void
      | 1 => Shape_single
      | n => Shape_tuple n
      end
  end.

(** [get_first_error(vals...)]. *)
Fixpoint get_first_error (vals : finish_type V) : option exn :=
  match vals with
  | [] => None
  | Err e :: _ => Some e
  | Val _ :: rest => get_first_error rest
  end.

(** [finish_to_fullfill<i>(src)]; [None] when the assertion on a component
    fails. *)
Fixpoint finish_to_fullfill (i : nat) (src : finish_type V) : option (fullfill_type V) :=
  match src !! i with
  | Some (Val None) =>
      match i with 0 => Some [] | S i' => finish_to_fullfill i' src end
  | Some (Val (Some v)) =>
      match i with
      | 0 => Some [v]
      | S i' => (λ vs, vs ++ [v]) <$> finish_to_fullfill i' src
      end
  | _ => None
  end.

(** [fullfill_to_finish<i, j, Result_t>(src)], where [rest] holds the fields of
    [Result_t] from [i] on. *)
Fixpoint fullfill_to_finish (rest : list field) (j : nat) (src : fullfill_type V) :
  finish_type V :=
  match rest with
  | [] => []
  | Fvoid :: rest => Val None :: fullfill_to_finish rest j src
  | Fval :: rest =>
      match src !! j with
      | Some v => Val (Some v) :: fullfill_to_finish rest (S j) src
      | None => []
      end
  end.

(** [fail_to_expect<i, T>(src)], where [rest] holds the fields of [T] from [i] on. *)
Fixpoint fail_to_expect (rest : list field) (src : exn) : finish_type V :=
  match rest with
  | [] => []
  | _ :: rest => Err src :: fail_to_expect rest src
  end.

(** *** Typing *)

(** The component has the type the field prescribes. *)
Definition elt_ok (t : field) (x : finish_elt V) : bool :=
  match t, x with
  | _, Err _ => true
  | Fvoid, Val None => true
  | Fval, Val (Some _) => true
  | _, _ => false
  end.

Definition finish_ok (Ts : list field) (f : finish_type V) : Prop :=
  Forall2 (λ t x, elt_ok t x = true) Ts f.

Definition fullfill_ok (Ts : list field) (v : fullfill_type V) : Prop :=
  length v = fullfill_size Ts.

(** *** Lemmas *)

Lemma fail_to_expect_ok Ts e : finish_ok Ts (fail_to_expect Ts e).
Proof. induction Ts as [|t Ts IH]; simpl; constructor; by destruct t. Qed.

Lemma get_first_error_fail Ts e :
  Ts ≠ [] → get_first_error (fail_to_expect Ts e) = Some e.
Proof. by destruct Ts as [|[] Ts]. Qed.

(** The conversion reads [src] from [j] on only. *)
Lemma fullfill_to_finish_cons Ts j v src :
  fullfill_to_finish Ts (S j) (v :: src) = fullfill_to_finish Ts j src.
Proof.
  revert j. induction Ts as [|t Ts IH]; intros j; [done|].
  destruct t; cbn [fullfill_to_finish]; [by rewrite IH|].
  change ((v :: src) !! S j) with (src !! j). by destruct (src !! j); rewrite ?IH.
Qed.

Lemma fullfill_to_finish_val Ts v src :
  fullfill_to_finish (Fval :: Ts) 0 (v :: src) =
  Val (Some v) :: fullfill_to_finish Ts 0 src.
Proof. simpl. by rewrite fullfill_to_finish_cons. Qed.

Lemma fullfill_to_finish_ok Ts v :
  fullfill_ok Ts v → finish_ok Ts (fullfill_to_finish Ts 0 v).
Proof.
  unfold fullfill_ok. revert v. induction Ts as [|[] Ts IH]; intros v Hv.
  - constructor.
  - constructor; [done|by apply IH].
  - destruct v as [|x v]; [done|]. rewrite fullfill_to_finish_val.
    constructor; [done|]. apply IH. by simplify_eq/=.
Qed.

Lemma get_first_error_fullfill Ts j v :
  get_first_error (fullfill_to_finish Ts j v) = None.
Proof.
  revert j. induction Ts as [|t Ts IH]; intros j; [done|]. destruct t; simpl; [apply IH|].
  destruct (v !! j); [apply IH|done].
Qed.

Lemma get_first_error_None f :
  get_first_error f = None ↔ Forall (λ x, has_value x = true) f.
Proof.
  induction f as [|x f IH]; [by split|destruct x as [x|e]]; simpl.
  - rewrite IH. split; intros H; [by constructor|by inversion H].
  - split; intros H; [done|by inversion H].
Qed.

Lemma get_first_error_Some f e :
  get_first_error f = Some e ↔
  ∃ i, f !! i = Some (Err e) ∧
       ∀ j x, j < i → f !! j = Some x → has_value x = true.
Proof.
  induction f as [|x f IH]; [|destruct x as [x|e']]; simpl.
  - split; [done|]. by intros (i & H & _).
  - rewrite IH. split.
    + intros (i & Hi & Hlt). exists (S i). split; [done|].
      intros [|j] y Hj Hy; [by simplify_eq/=|]. by apply (Hlt j); [lia|].
    + intros ([|i] & Hi & Hlt); [done|]. exists i. split; [done|].
      intros j y Hj Hy. by apply (Hlt (S j)); [lia|].
  - split.
    + intros [= ->]. exists 0. split; [done|]. lia.
    + intros ([|i] & Hi & Hlt); [by simplify_eq/=|].
      by specialize (Hlt 0 (Err e') ltac:(lia) eq_refl).
Qed.

(** Only the components up to [i] matter. *)
Lemma finish_to_fullfill_app i f g :
  i < length f → finish_to_fullfill i (f ++ g) = finish_to_fullfill i f.
Proof.
  induction i as [|i IH]; intros Hi; simpl; rewrite lookup_app_l by lia; [done|].
  destruct (f !! S i) as [[[v|]|e]|]; [|apply IH; lia|done|done].
  by rewrite IH by lia.
Qed.

(** The values of an all-successful finishing tuple, in order. *)
Fixpoint values_of (f : finish_type V) : fullfill_type V :=
  match f with
  | [] => []
  | Val (Some v) :: f => v :: values_of f
  | _ :: f => values_of f
  end.

Lemma values_of_app f g : values_of (f ++ g) = values_of f ++ values_of g.
Proof. induction f as [|x f IH]; [done|]. destruct x as [[v|]|e]; simpl; congruence. Qed.

Lemma finish_to_fullfill_values f :
  f ≠ [] → get_first_error f = None →
  finish_to_fullfill (length f - 1) f = Some (values_of f).
Proof.
  induction f as [|x f IH] using rev_ind; intros Hne Herr; [done|].
  apply get_first_error_None, Forall_app in Herr as [Hf Hx].
  apply get_first_error_None in Hf.
  apply Forall_inv in Hx. destruct x as [o|e]; [|done].
  rewrite length_app, values_of_app. simpl. rewrite Nat.add_sub.
  destruct f as [|y f]; [by destruct o|].
  specialize (IH ltac:(done) Hf).
  replace (length (y :: f) - 1) with (length f) in IH by (simpl; lia).
  change (length (y :: f)) with (S (length f)).
  cbn [finish_to_fullfill]. rewrite lookup_app_r by (simpl; lia).
  replace (S (length f) - length (y :: f)) with 0 by (simpl; lia).
  change ([Val o] !! 0) with (Some (Val o)).
  rewrite finish_to_fullfill_app, IH by (simpl; lia).
  destruct o as [v|]; [done|]. by rewrite app_nil_r.
Qed.

Lemma values_of_fullfill Ts v :
  fullfill_ok Ts v → values_of (fullfill_to_finish Ts 0 v) = v.
Proof.
  unfold fullfill_ok. revert v.
  induction Ts as [|t Ts IH]; intros v Hv; [by destruct v|destruct t].
  - simpl. by apply IH.
  - destruct v as [|x v]; [done|]. rewrite fullfill_to_finish_val. simpl.
    f_equal. apply IH. by simplify_eq/=.
Qed.

Lemma fullfill_of_values Ts f :
  finish_ok Ts f → get_first_error f = None →
  fullfill_to_finish Ts 0 (values_of f) = f ∧ fullfill_ok Ts (values_of f).
Proof.
  unfold fullfill_ok. intros Hok. induction Hok as [|t x Ts f Hx Hok IH]; [done|].
  intros Herr. destruct x as [o|e]; [|done]. destruct (IH Herr) as [IH1 IH2].
  destruct t, o as [v|]; try done.
  - simpl. by rewrite IH1, IH2.
  - change (values_of (Val (Some v) :: f)) with (v :: values_of f).
    rewrite fullfill_to_finish_val, IH1. simpl. by rewrite IH2.
Qed.
End Tuples.

(** C28: converting a well-typed fullfillment tuple to the finishing tuple and
    back gives the same tuple; conversely a well-typed finishing tuple converts
    to a fullfillment tuple exactly when no component is an error, and converting
    that tuple again gives back the finishing tuple. *)
Theorem finish_fullfill_roundtrip {V} (Ts : list field) (HTs : Ts ≠ []) :
  (∀ v : fullfill_type V, fullfill_ok Ts v →
     finish_to_fullfill (length Ts - 1) (fullfill_to_finish Ts 0 v) = Some v) ∧
  (∀ f : finish_type V, finish_ok Ts f → get_first_error f = None →
     ∃ v, finish_to_fullfill (length Ts - 1) f = Some v ∧
          fullfill_ok Ts v ∧ fullfill_to_finish Ts 0 v = f).
Proof.
  split.
  - intros v Hv. pose proof (fullfill_to_finish_ok Ts v Hv) as Hok.
    rewrite (Forall2_length _ _ _ Hok).
    rewrite finish_to_fullfill_values, values_of_fullfill; [done|done| |].
    + by destruct Hok.
    + apply get_first_error_fullfill.
  - intros f Hok Herr. destruct (fullfill_of_values Ts f Hok Herr) as [H1 H2].
    exists (values_of f). rewrite (Forall2_length _ _ _ Hok).
    rewrite finish_to_fullfill_values; [done| |done]. by destruct Hok.
Qed.

Lemma finish_fullfill_roundtrip_witness :
  [Fval; Fvoid; Fval] ≠ [] ∧
  finish_to_fullfill 2 (fullfill_to_finish [Fval; Fvoid; Fval] 0 [7; 9]) = Some [7; 9].
Proof.
  split; [done|].
  apply (finish_fullfill_roundtrip (V:=nat) [Fval; Fvoid; Fval] ltac:(done)).
  reflexivity.
Defined.
