(* ===== verification/FutureStorage.v ===== *)
(** The state shared by a [Promise] and a [Future]
    (variadic_future/include/var_future/impl/storage_decl.h and storage_impl.h).
    Each operation of [Future_storage] ends, at most, with one call to the
    handler, so it is written as a function that returns that call.  An abstract
    one-shot cell states what the storage promises; a refinement theorem shows
    that the state bits implement it. *)

From S2P Require Import Prelude Errors Effects FutureUtils.

Definition Future_storage_state_ready_bit : Z := 1.
Definition Future_storage_state_finished_bit : Z := 2.

(** [state & bit] *)
Definition has_bit (state bit : Z) : bool := negb (Z.land state bit =? 0)%Z.

(** A call to one of the two virtual functions of [Future_handler_iface]. *)
Inductive handler_call (V : Type) :=
| Call_fullfill (v : fullfill_type V)
| Call_finish (f : finish_type V).
Arguments Call_fullfill {V} v.
Arguments Call_finish {V} f.

(** [Future_storage<Alloc, Ts...>]; [finished_] is a union member that holds no
    value before it is constructed. *)
Record future_storage (V H : Type) := FutureStorage {
  callback_ : option H;
  finished_ : option (finish_type V);
  state_ : Z
}.
Arguments FutureStorage {V H} _ _ _.
Arguments callback_ {V H} _.
Arguments finished_ {V H} _.
Arguments state_ {V H} _.

Section Storage.
Context {V H : Type}.
Local Abbreviation storage := (future_storage V H).

Definition set_callback (h : H) (s : storage) : storage :=
  FutureStorage (Some h) (finished_ s) (state_ s).
Definition set_finished (f : finish_type V) (s : storage) : storage :=
  FutureStorage (callback_ s) (Some f) (state_ s).
(** [state_.fetch_or(bit)] *)
Definition fetch_or (bit : Z) : M storage Z := λ s,
  (Ret (state_ s), FutureStorage (callback_ s) (finished_ s) (Z.lor (state_ s) bit)).

(** [cb_data_.callback_->...]: the handler, which must be there. *)
Definition callback_deref : M storage H := λ s,
  match callback_ s with
  | Some h => (Ret h, s)
  | None => (Crash Null_dereference, s)
  end.

Definition finished_read : M storage (finish_type V) := λ s,
  match finished_ s with
  | Some f => (Ret f, s)
  | None => (Crash Null_dereference, s)
  end.

(** A storage as [Storage_ptr::allocate] constructs it. *)
Definition Future_storage_init : storage := FutureStorage None None 0.

(** [Future_storage::fullfill(fullfill_type&&)]. *)
Definition Future_storage_fullfill (Ts : list field) (v : fullfill_type V) :
  M storage (option (H * handler_call V)) :=
  prev_state ← gets state_;
  if has_bit prev_state Future_storage_state_ready_bit then
    h ← callback_deref;
    mret (Some (h, Call_fullfill v))
  else
    modify (set_finished (fullfill_to_finish Ts 0 v)) ;;
    prev_state ← fetch_or Future_storage_state_finished_bit;
    if has_bit prev_state Future_storage_state_ready_bit then
      h ← callback_deref;
      f ← finished_read;
      mret (Some (h, Call_finish f))
    else mret None.

(** [Future_storage::finish(finish_type&&)]. *)
Definition Future_storage_finish (f : finish_type V) :
  M storage (option (H * handler_call V)) :=
  prev_state ← gets state_;
  if has_bit prev_state Future_storage_state_ready_bit then
    h ← callback_deref;
    mret (Some (h, Call_finish f))
  else
    modify (set_finished f) ;;
    prev_state ← fetch_or Future_storage_state_finished_bit;
    if has_bit prev_state Future_storage_state_ready_bit then
      h ← callback_deref;
      f ← finished_read;
      mret (Some (h, Call_finish f))
    else mret None.

(** [Future_storage::fail(fail_type&&)]. *)
Definition Future_storage_fail (Ts : list field) (e : exn) :
  M storage (option (H * handler_call V)) :=
  prev_state ← gets state_;
  if has_bit prev_state Future_storage_state_ready_bit then
    h ← callback_deref;
    mret (Some (h, Call_finish (fail_to_expect Ts e)))
  else
    modify (set_finished (fail_to_expect Ts e)) ;;
    prev_state ← fetch_or Future_storage_state_finished_bit;
    if has_bit prev_state Future_storage_state_ready_bit then
      h ← callback_deref;
      mret (Some (h, Call_finish (fail_to_expect Ts e)))
    else mret None.

(** [Future_storage::set_handler], with the handler it constructs. *)
Definition Future_storage_set_handler (h : H) :
  M storage (option (H * handler_call V)) :=
  callback ← gets callback_;
  massert (match callback with None => true | Some _ => false end) ;;
  modify (set_callback h) ;;
  prev_state ← fetch_or Future_storage_state_ready_bit;
  if has_bit prev_state Future_storage_state_finished_bit then
    h ← callback_deref;
    f ← finished_read;
    mret (Some (h, Call_finish f))
  else mret None.

(** [Future_storage::~Future_storage]: the handler and the value it destroys. *)
Definition Future_storage_destroy : M storage (option H * option (finish_type V)) :=
  state ← gets state_;
  h ← (if has_bit state Future_storage_state_ready_bit then
         h ← gets callback_;
         massert (match h with Some _ => true | None => false end) ;;
         mret h
       else mret None);
  f ← (if has_bit state Future_storage_state_finished_bit then
         f ← finished_read; mret (Some f)
       else mret None);
  mret (h, f).

(** ** The abstract cell *)

(** What a future is to its users: nothing yet, a result with no handler, a
    handler with no result, or done. *)
Inductive cell :=
| Cell_empty
| Cell_finished (f : finish_type V)
| Cell_attached (h : H)
| Cell_fired (h : H) (f : finish_type V).

(** Giving the cell its result, and attaching its handler; the output is the
    handler to run and the result to run it on. *)
Definition cell_finish (f : finish_type V) (c : cell) :
  option (cell * option (H * finish_type V)) :=
  match c with
  | Cell_empty => Some (Cell_finished f, None)
  | Cell_attached h => Some (Cell_fired h f, Some (h, f))
  | _ => None
  end.

Definition cell_attach (h : H) (c : cell) :
  option (cell * option (H * finish_type V)) :=
  match c with
  | Cell_empty => Some (Cell_attached h, None)
  | Cell_finished f => Some (Cell_fired h f, Some (h, f))
  | _ => None
  end.

(** The storages that implement a cell. *)
Definition implements (s : storage) (c : cell) : Prop :=
  match c with
  | Cell_empty => callback_ s = None ∧ state_ s = 0%Z
  | Cell_finished f => callback_ s = None ∧ finished_ s = Some f ∧ state_ s = 2%Z
  | Cell_attached h => callback_ s = Some h ∧ state_ s = 1%Z
  | Cell_fired h f => callback_ s = Some h ∧ (state_ s = 1%Z ∨ state_ s = 3%Z)
  end.

(** The result a handler call delivers. *)
Definition call_result (Ts : list field) (c : handler_call V) : finish_type V :=
  match c with
  | Call_fullfill v => fullfill_to_finish Ts 0 v
  | Call_finish f => f
  end.

Definition call_output (Ts : list field) (o : option (H * handler_call V)) :
  option (H * finish_type V) :=
  (λ hc, (hc.1, call_result Ts hc.2)) <$> o.

(** [m] is a step of the cell: it succeeds, its call delivers what the cell
    outputs, and the storages stay related. *)
Definition simulates (Ts : list field)
  (m : M storage (option (H * handler_call V)))
  (step : cell → option (cell * option (H * finish_type V))) : Prop :=
  ∀ s c c' out, implements s c → step c = Some (c', out) →
  ∃ o s', m s = (Ret o, s') ∧ implements s' c' ∧ call_output Ts o = out.

(** ** Lemmas *)

Ltac unfold_storage :=
  unfold Future_storage_fullfill, Future_storage_finish, Future_storage_fail,
    Future_storage_set_handler, callback_deref, finished_read, fetch_or,
    set_finished, set_callback in *; munfold.

Ltac solve_simulation :=
  intros [cb fi st] c c' out Hi Hstep;
  destruct c; simpl in *; simplify_eq; destruct_and?; simplify_eq/=;
  unfold_storage; simpl; (eexists _, _; split; [reflexivity|]; simpl; auto).

Lemma fullfill_simulates Ts v :
  simulates Ts (Future_storage_fullfill Ts v) (cell_finish (fullfill_to_finish Ts 0 v)).
Proof. solve_simulation. Qed.

Lemma finish_simulates Ts f :
  simulates Ts (Future_storage_finish f) (cell_finish f).
Proof. solve_simulation. Qed.

Lemma fail_simulates Ts e :
  simulates Ts (Future_storage_fail Ts e) (cell_finish (fail_to_expect Ts e)).
Proof. solve_simulation. Qed.

Lemma set_handler_simulates Ts h :
  simulates Ts (Future_storage_set_handler h) (cell_attach h).
Proof. solve_simulation. Qed.

Lemma init_implements : implements Future_storage_init Cell_empty.
Proof. by split. Qed.

(** One operation of a client on the storage, as a computation and as a step of
    the cell. *)
Inductive storage_op :=
| Op_fullfill (v : fullfill_type V)
| Op_finish (f : finish_type V)
| Op_fail (e : exn)
| Op_set_handler (h : H).

Definition run_op (Ts : list field) (op : storage_op) :
  M storage (option (H * handler_call V)) :=
  match op with
  | Op_fullfill v => Future_storage_fullfill Ts v
  | Op_finish f => Future_storage_finish f
  | Op_fail e => Future_storage_fail Ts e
  | Op_set_handler h => Future_storage_set_handler h
  end.

Definition cell_op (Ts : list field) (op : storage_op) :
  cell → option (cell * option (H * finish_type V)) :=
  match op with
  | Op_fullfill v => cell_finish (fullfill_to_finish Ts 0 v)
  | Op_finish f => cell_finish f
  | Op_fail e => cell_finish (fail_to_expect Ts e)
  | Op_set_handler h => cell_attach h
  end.

(** Run a list of operations, collecting what the handler is called with. *)
Fixpoint run_ops (Ts : list field) (ops : list storage_op) :
  M storage (list (H * finish_type V)) :=
  match ops with
  | [] => mret []
  | op :: ops =>
      o ← run_op Ts op;
      rest ← run_ops Ts ops;
      mret (option_list (call_output Ts o) ++ rest)
  end.

Fixpoint cell_ops (Ts : list field) (ops : list storage_op) (c : cell) :
  option (cell * list (H * finish_type V)) :=
  match ops with
  | [] => Some (c, [])
  | op :: ops =>
      '(c', out) ← cell_op Ts op c;
      '(c'', rest) ← cell_ops Ts ops c';
      Some (c'', option_list out ++ rest)
  end.

Lemma run_op_simulates Ts op : simulates Ts (run_op Ts op) (cell_op Ts op).
Proof.
  destruct op; [apply fullfill_simulates|apply finish_simulates|
                apply fail_simulates|apply set_handler_simulates].
Qed.

Lemma run_ops_simulates Ts ops s c c' outs :
  implements s c → cell_ops Ts ops c = Some (c', outs) →
  ∃ s', run_ops Ts ops s = (Ret outs, s') ∧ implements s' c'.
Proof.
  revert s c outs. induction ops as [|op ops IH]; intros s c outs Hi Hrun; simpl in *.
  { simplify_eq. by exists s. }
  destruct (cell_op Ts op c) as [[c1 out]|] eqn:Hop; [|done]. simpl in Hrun.
  destruct (cell_ops Ts ops c1) as [[c2 rest]|] eqn:Hops; [|done].
  simpl in Hrun. simplify_eq.
  destruct (run_op_simulates Ts op s c c1 out Hi Hop) as (o & s1 & Hm & Hi1 & Hout).
  destruct (IH s1 c1 rest Hi1 Hops) as (s2 & Hm2 & Hi2).
  exists s2. unfold mbind, M_bind. rewrite Hm, Hm2. by rewrite Hout.
Qed.
End Storage.
Arguments cell : clear implicits.
Arguments storage_op : clear implicits.

(** C24: [Future_storage] refines the one-shot cell: for every sequence of
    fullfill, finish, fail and set_handler calls that gives the cell at most one
    result and at most one handler, started on a fresh storage, no call fails an
    assertion or dereferences a null handler, and the handler is called exactly
    when, and with exactly the result, the cell says. *)
Theorem future_storage_refines_cell {V H} (Ts : list field) (ops : list (storage_op V H))
  (c : cell V H) (outs : list (H * finish_type V))
  (Hcell : cell_ops Ts ops Cell_empty = Some (c, outs)) :
  ∃ s, run_ops Ts ops Future_storage_init = (Ret outs, s) ∧ implements s c.
Proof. apply (run_ops_simulates Ts ops _ _ _ _ init_implements Hcell). Qed.

Lemma future_storage_refines_cell_witness :
  ∃ s, run_ops [Fval; Fvoid] [Op_fullfill [5]; Op_set_handler true] Future_storage_init
       = (Ret [(true, [Val (Some 5); Val None])], s) ∧
       implements s (Cell_fired true [Val (Some 5); Val None]).
Proof.
  apply (future_storage_refines_cell (V:=nat) (H:=bool) [Fval; Fvoid]
           [Op_fullfill [5]; Op_set_handler true]).
  reflexivity.
Defined.

(** ** What a handler promises to the storage *)

(** A class of handlers: its two virtual functions act on a world [W], and
    calling [fullfill] is calling [finish] on the converted tuple.  The storage
    may therefore use either, which it does depending on which side of the race
    wins. *)
Class FutureHandler (V H W : Type) := {
  handler_fields : H → list field;
  handler_fullfill : H → fullfill_type V → M W unit;
  handler_finish : H → finish_type V → M W unit;
  handler_fullfill_finish : ∀ h v, fullfill_ok (handler_fields h) v →
    handler_fullfill h v ≈
    handler_finish h (fullfill_to_finish (handler_fields h) 0 v)
}.

Section Calls.
Context {V H W : Type} `{!FutureHandler V H W}.

Definition run_call (h : H) (c : handler_call V) : M W unit :=
  match c with
  | Call_fullfill v => handler_fullfill h v
  | Call_finish f => handler_finish h f
  end.

Lemma run_call_result h c :
  (∀ v, c = Call_fullfill v → fullfill_ok (handler_fields h) v) →
  run_call h c ≈ handler_finish h (call_result (handler_fields h) c).
Proof.
  destruct c as [v|f]; simpl; [|done]. intros Hok.
  by apply handler_fullfill_finish, Hok.
Qed.
End Calls.
