(* ===== verification/StorageRace.v ===== *)
(** The race inside [Future_storage]: one thread finishes the future while
    another attaches the handler (storage_impl.h).  Each thread is cut at its
    accesses to the shared memory, and every interleaving is considered. *)

From S2P Require Import Prelude Errors Effects FutureUtils FutureStorage.

Section Race.
Context {V H : Type}.
Context (Ts : list field) (h : H).

(** What the producing thread calls. *)
Inductive producer_op :=
| Producer_fullfill (v : fullfill_type V)
| Producer_finish (f : finish_type V)
| Producer_fail (e : exn).

Context (op : producer_op).

(** The call made when the handler is already there, the value constructed in
    [finished_], and the value passed after losing the race. *)
Definition producer_call : handler_call V :=
  match op with
  | Producer_fullfill v => Call_fullfill v
  | Producer_finish f => Call_finish f
  | Producer_fail e => Call_finish (fail_to_expect Ts e)
  end.

Definition producer_value : finish_type V :=
  match op with
  | Producer_fullfill v => fullfill_to_finish Ts 0 v
  | Producer_finish f => f
  | Producer_fail e => fail_to_expect Ts e
  end.

(** Where the producer stands: before [state_.load()], at the first test, before
    [fetch_or], at the second test, or returned (with the value its [fetch_or]
    saw, if it got that far). *)
Inductive producer_pc :=
| P_load
| P_branch (prev_state : Z)
| P_fetch_or
| P_recheck (prev_state : Z)
| P_return (prev_state : option Z).

(** Where [set_handler] stands: before storing the handler, before [fetch_or],
    at the test, or returned. *)
Inductive consumer_pc :=
| C_store
| C_fetch_or
| C_test (prev_state : Z)
| C_return (prev_state : Z).

Record race := Race {
  memory : future_storage V H;
  producer : producer_pc;
  consumer : consumer_pc;
  fired : list (H * handler_call V);
  fault : bool
}.

Definition race_init : race := Race Future_storage_init P_load C_store [] false.

(** A virtual call through [cb_data_.callback_], a fault when it is null. *)
Definition invoke (r : race) (c : handler_call V) : list (H * handler_call V) * bool :=
  match callback_ (memory r) with
  | Some h => (fired r ++ [(h, c)], fault r)
  | None => (fired r, true)
  end.

(** [callback_->finish(std::move(finished_))]. *)
Definition invoke_finished (r : race) : list (H * handler_call V) * bool :=
  match finished_ (memory r) with
  | Some f => invoke r (Call_finish f)
  | None => (fired r, true)
  end.

(** The call a producer makes at its second test: [fail] converts the error
    again, the others read [finished_]. *)
Definition invoke_recheck (r : race) : list (H * handler_call V) * bool :=
  match op with
  | Producer_fail e => invoke r (Call_finish (fail_to_expect Ts e))
  | _ => invoke_finished r
  end.

(** One step of the thread in [fullfill], [finish] or [fail]. *)
Definition step_producer (r : race) : race :=
  let m := memory r in
  match producer r with
  | P_load => Race m (P_branch (state_ m)) (consumer r) (fired r) (fault r)
  | P_branch prev =>
      if has_bit prev Future_storage_state_ready_bit then
        let '(l, b) := invoke r producer_call in
        Race m (P_return None) (consumer r) l b
      else
        Race (set_finished producer_value m) P_fetch_or (consumer r) (fired r) (fault r)
  | P_fetch_or =>
      Race (FutureStorage (callback_ m) (finished_ m)
              (Z.lor (state_ m) Future_storage_state_finished_bit))
        (P_recheck (state_ m)) (consumer r) (fired r) (fault r)
  | P_recheck prev =>
      if has_bit prev Future_storage_state_ready_bit then
        let '(l, b) := invoke_recheck r in
        Race m (P_return (Some prev)) (consumer r) l b
      else Race m (P_return (Some prev)) (consumer r) (fired r) (fault r)
  | P_return _ => r
  end.

(** One step of the thread in [set_handler]. *)
Definition step_consumer (r : race) : race :=
  let m := memory r in
  match consumer r with
  | C_store =>
      match callback_ m with
      | None => Race (set_callback h m) (producer r) C_fetch_or (fired r) (fault r)
      | Some _ => Race m (producer r) C_fetch_or (fired r) true
      end
  | C_fetch_or =>
      Race (FutureStorage (callback_ m) (finished_ m)
              (Z.lor (state_ m) Future_storage_state_ready_bit))
        (producer r) (C_test (state_ m)) (fired r) (fault r)
  | C_test prev =>
      if has_bit prev Future_storage_state_finished_bit then
        let '(l, b) := invoke_finished r in
        Race m (producer r) (C_return prev) l b
      else Race m (producer r) (C_return prev) (fired r) (fault r)
  | C_return _ => r
  end.

(** A schedule says whose turn it is: [true] for the producer. *)
Definition run_schedule (sched : list bool) (r : race) : race :=
  fold_left (λ r (p : bool), if p then step_producer r else step_consumer r) sched r.

(** *** The invariant *)

(** The state byte, from which bits were set. *)
Definition bits (ready finished : bool) : Z :=
  Z.lor (if ready then 1 else 0) (if finished then 2 else 0).

Definition c_published (r : race) : bool :=
  match consumer r with C_test _ | C_return _ => true | _ => false end.

Definition p_published (r : race) : bool :=
  match producer r with P_recheck _ | P_return (Some _) => true | _ => false end.

(** The producer saw the handler: at its first test, or at its second. *)
Definition p_saw (r : race) : bool :=
  match producer r with
  | P_branch prev | P_recheck prev | P_return (Some prev) =>
      has_bit prev Future_storage_state_ready_bit
  | P_return None => true
  | _ => false
  end.

Definition p_fired (r : race) : list (H * handler_call V) :=
  match producer r with
  | P_return None => [(h, producer_call)]
  | P_return (Some prev) =>
      if has_bit prev Future_storage_state_ready_bit
      then [(h, Call_finish producer_value)] else []
  | _ => []
  end.

Definition c_fired (r : race) : list (H * handler_call V) :=
  match consumer r with
  | C_return prev =>
      if has_bit prev Future_storage_state_finished_bit
      then [(h, Call_finish producer_value)] else []
  | _ => []
  end.

Record race_inv (r : race) : Prop := {
  inv_fault : fault r = false;
  inv_state : state_ (memory r) = bits (c_published r) (p_published r);
  inv_callback : callback_ (memory r) =
    match consumer r with C_store => None | _ => Some h end;
  inv_finished : match producer r with
    | P_fetch_or | P_recheck _ | P_return (Some _) =>
        finished_ (memory r) = Some producer_value
    | _ => True
    end;
  inv_p_prev : match producer r with
    | P_branch prev | P_recheck prev | P_return (Some prev) =>
        prev = bits (p_saw r) false ∧ (p_saw r = true → c_published r = true)
    | P_return None => c_published r = true
    | _ => True
    end;
  inv_c_prev : match consumer r with
    | C_test prev | C_return prev =>
        prev = bits false (p_published r && negb (p_saw r))
    | _ => True
    end;
  inv_fired : fired r = p_fired r ++ c_fired r
}.

Lemma race_inv_init : race_inv race_init.
Proof. by constructor. Qed.

(** Expand the invariant's vocabulary on concrete program counters. *)
Ltac race_unfold :=
  unfold p_saw, c_published, p_published, p_fired, c_fired, invoke_recheck,
    invoke_finished, invoke in *; simpl in *.

Ltac race_finish :=
  repeat match goal with
  | E : has_bit ?x ?b = _ |- context [has_bit ?x ?b] => rewrite E
  | E : has_bit ?x ?b = _, E' : context [has_bit ?x ?b] |- _ =>
      lazymatch type of E' with has_bit _ _ = _ => fail | _ => rewrite E in E' end
  | E : finished_ _ = _ |- _ => rewrite E
  | E : true = true → _ |- _ => specialize (E eq_refl)
  end; simpl in *; subst; try done.

Lemma race_inv_producer r : race_inv r → race_inv (step_producer r).
Proof.
  destruct r as [[cb fi st] p c l fl].
  intros [Hf Hs Hc Hfi Hp Hcp Hl]; race_unfold; subst.
  unfold step_producer; simpl.
  destruct p as [|prev| |prev|[prev|]]; simpl in *;
    lazymatch type of Hp with _ ∧ _ => destruct Hp as [Hprev Hpc] | _ => idtac end;
    try destruct (has_bit prev Future_storage_state_ready_bit) eqn:Hb;
    constructor; race_unfold; unfold producer_value in *;
    destruct c; race_finish; destruct op; race_finish.
Qed.

Lemma race_inv_consumer r : race_inv r → race_inv (step_consumer r).
Proof.
  destruct r as [[cb fi st] p c l fl].
  intros [Hf Hs Hc Hfi Hp Hcp Hl]; race_unfold; subst.
  unfold step_consumer; simpl.
  destruct p as [|pv| |pv|[pv|]]; simpl in *;
    lazymatch type of Hp with _ ∧ _ => destruct Hp as [Hprev Hpc] | _ => idtac end;
    try destruct (has_bit pv Future_storage_state_ready_bit) eqn:Hb;
    destruct c as [| |prev|prev]; simpl in *;
    try destruct (has_bit prev Future_storage_state_finished_bit) eqn:Hbc;
    constructor; race_unfold; race_finish.
Qed.

Lemma run_schedule_inv sched r : race_inv r → race_inv (run_schedule sched r).
Proof.
  revert r. induction sched as [|b sched IH]; intros r Hr; [done|].
  apply IH. destruct b; [by apply race_inv_producer|by apply race_inv_consumer].
Qed.

(** The calls made once a thread has returned. *)
Definition producer_done (r : race) : bool :=
  match producer r with P_return _ => true | _ => false end.
Definition consumer_done (r : race) : bool :=
  match consumer r with C_return _ => true | _ => false end.

Lemma race_inv_at_most_once r : race_inv r → length (fired r) ≤ 1.
Proof.
  intros [_ _ _ _ Hp Hc ->]. destruct r as [m p c l f]; race_unfold.
  destruct p as [|pv| |pv|[pv|]], c as [| |cv|cv]; simpl in *; try lia;
    repeat case_match; simpl in *; try lia; destruct_and?; simplify_eq; done.
Qed.

Lemma race_inv_done r :
  race_inv r → producer_done r = true → consumer_done r = true →
  ∃ c, fired r = [(h, c)] ∧ call_result Ts c = producer_value.
Proof.
  intros [_ _ _ _ Hp Hc ->]. destruct r as [m p c l f]; race_unfold.
  unfold producer_done, consumer_done; simpl. intros Hpd Hcd.
  destruct p as [| | | |[pv|]], c as [| | |cv]; try done; simpl in *.
  - destruct Hp as [_ _]. subst cv. destruct (has_bit pv _) eqn:Hb; simpl;
      eexists; (split; [reflexivity|done]).
  - subst. eexists. split; [reflexivity|].
    unfold producer_call, producer_value. by destruct op.
Qed.

(** *** Termination: the turns each thread still needs *)

Definition producer_left (r : race) : nat :=
  match producer r with
  | P_load => 4 | P_branch _ => 3 | P_fetch_or => 2 | P_recheck _ => 1 | P_return _ => 0
  end.
Definition consumer_left (r : race) : nat :=
  match consumer r with
  | C_store => 3 | C_fetch_or => 2 | C_test _ => 1 | C_return _ => 0
  end.

Lemma step_producer_left r :
  producer_left (step_producer r) ≤ pred (producer_left r) ∧
  consumer_left (step_producer r) = consumer_left r.
Proof.
  destruct r as [m p c l f]. unfold step_producer, producer_left, consumer_left.
  destruct p; simpl; try destruct (has_bit _ _); try destruct (invoke _ _);
    try destruct (invoke_recheck _); simpl; lia.
Qed.

Lemma step_consumer_left r :
  consumer_left (step_consumer r) ≤ pred (consumer_left r) ∧
  producer_left (step_consumer r) = producer_left r.
Proof.
  destruct r as [m p c l f]. unfold step_consumer, producer_left, consumer_left.
  destruct c; simpl; try destruct (callback_ m); try destruct (has_bit _ _);
    try destruct (invoke_finished _); simpl; lia.
Qed.

Lemma run_schedule_left sched r :
  producer_left (run_schedule sched r) ≤ producer_left r - countb id sched ∧
  consumer_left (run_schedule sched r) ≤ consumer_left r - countb negb sched.
Proof.
  revert r. unfold run_schedule. induction sched as [|b sched IH]; intros r; simpl.
  { rewrite !countb_nil. lia. }
  rewrite !countb_cons. destruct b; simpl.
  - pose proof (step_producer_left r). specialize (IH (step_producer r)). lia.
  - pose proof (step_consumer_left r). specialize (IH (step_consumer r)). lia.
Qed.

Lemma producer_left_done r : producer_left r = 0 → producer_done r = true.
Proof. unfold producer_left, producer_done. by destruct (producer r). Qed.
Lemma consumer_left_done r : consumer_left r = 0 → consumer_done r = true.
Proof. unfold consumer_left, consumer_done. by destruct (consumer r). Qed.
End Race.
Arguments producer_op : clear implicits.

(** In every interleaving of the thread that fullfills, finishes or fails a
    future with the thread that attaches the handler, no null handler and no
    unconstructed value is used, and the handler is called at most once. *)
Theorem storage_race_safe {V H} (Ts : list field) (h : H) (op : producer_op V)
  (sched : list bool) :
  let r := run_schedule Ts h op sched race_init in
  fault r = false ∧ length (fired r) ≤ 1.
Proof.
  pose proof (run_schedule_inv Ts h op sched _ (race_inv_init Ts h op)) as Hinv.
  split; [apply Hinv|by eapply race_inv_at_most_once].
Qed.

(** C17: when both threads have had the turns they need (four for the producer,
    three for the consumer, in any order), both calls have returned and the
    handler was called exactly once, with the producer's result. *)
Theorem storage_race_exactly_once {V H} (Ts : list field) (h : H) (op : producer_op V)
  (sched : list bool)
  (Hproducer : 4 ≤ countb id sched) (Hconsumer : 3 ≤ countb negb sched) :
  let r := run_schedule Ts h op sched race_init in
  producer_done r = true ∧ consumer_done r = true ∧
  ∃ c, fired r = [(h, c)] ∧ call_result Ts c = producer_value Ts op.
Proof.
  pose proof (run_schedule_inv Ts h op sched _ (race_inv_init Ts h op)) as Hinv.
  destruct (run_schedule_left Ts h op sched race_init) as [Hp Hc].
  unfold producer_left at 2 in Hp. unfold consumer_left at 2 in Hc. simpl in Hp, Hc.
  assert (Hpd : producer_done (run_schedule Ts h op sched race_init) = true)
    by (apply producer_left_done; lia).
  assert (Hcd : consumer_done (run_schedule Ts h op sched race_init) = true)
    by (apply consumer_left_done; lia).
  split; [done|split; [done|]]. by eapply race_inv_done.
Qed.

Lemma storage_race_exactly_once_witness :
  let r := run_schedule [Fval] tt (Producer_fullfill [3])
             [true; false; true; false; true; false; true] race_init in
  producer_done r = true ∧ consumer_done r = true ∧
  ∃ c, fired r = [(tt, c)] ∧ call_result [Fval] c = [Val (Some 3)].
Proof.
  apply (storage_race_exactly_once [Fval] tt (Producer_fullfill [3])
           [true; false; true; false; true; false; true]); vm_compute; lia.
Defined.
