(* ===== verification/StoragePtr.v ===== *)
(** [Storage_ptr], the reference-counted pointer that owns the shared states
    (variadic_future/include/var_future/impl/storage_decl.h), on a heap of
    objects with an 8-bit count. *)

From stdpp Require Import gmap.
From S2P Require Import Prelude Errors Effects.

(** The objects that are allocated, with their [ref_count_]; the [Storage_ptr]
    variables of the program, by number, with their [ptr_] ([None] for null, and
    for a variable that does not exist yet or is destroyed); the next address. *)
Record ptr_heap := PtrHeap {
  objects : gmap nat Z;
  pointers : list (option nat);
  next_object : nat
}.

Definition set_objects (o : gmap nat Z) (s : ptr_heap) : ptr_heap :=
  PtrHeap o (pointers s) (next_object s).

(** [ptr_] of variable [p], and its assignment. *)
Definition get_ptr (p : nat) : M ptr_heap (option nat) :=
  gets (λ s, mjoin (pointers s !! p)).
Definition set_ptr (p : nat) (o : option nat) : M ptr_heap unit :=
  modify (λ s, PtrHeap (objects s) (<[p := o]> (pointers s)) (next_object s)).

(** [std::atomic<std::uint8_t>] arithmetic. *)
Definition uint8_add (x d : Z) : Z := ((x + d) mod 256)%Z.

(** [ptr_->ref_count_.fetch_add(1)]. *)
Definition Storage_ptr_inc (l : nat) : M ptr_heap unit := λ s,
  match objects s !! l with
  | Some r => (Ret tt, set_objects (<[l := uint8_add r 1]> (objects s)) s)
  | None => (Crash Use_after_free, s)
  end.

(** [fetch_sub(1)], and the destruction of the object when it was the last
    reference. *)
Definition Storage_ptr_dec (l : nat) : M ptr_heap unit := λ s,
  match objects s !! l with
  | None => (Crash Use_after_free, s)
  | Some r =>
      if (r =? 1)%Z then (Ret tt, set_objects (delete l (objects s)) s)
      else (Ret tt, set_objects (<[l := uint8_add r (-1)]> (objects s)) s)
  end.

(** [Storage_ptr::clear]: drop one reference; [ptr_] keeps its value. *)
Definition Storage_ptr_clear (p : nat) : M ptr_heap unit :=
  o ← get_ptr p;
  match o with None => mret tt | Some l => Storage_ptr_dec l end.

(** [Storage_ptr(const Storage_ptr& rhs)]. *)
Definition Storage_ptr_copy (p rhs : nat) : M ptr_heap unit :=
  o ← get_ptr rhs;
  set_ptr p o ;;
  match o with None => mret tt | Some l => Storage_ptr_inc l end.

(** [Storage_ptr(Storage_ptr&& rhs)]. *)
Definition Storage_ptr_move (p rhs : nat) : M ptr_heap unit :=
  o ← get_ptr rhs;
  set_ptr p o ;;
  set_ptr rhs None.

(** [operator=(const Storage_ptr& rhs)]. *)
Definition Storage_ptr_assign_copy (p rhs : nat) : M ptr_heap unit :=
  o ← get_ptr rhs;
  set_ptr p o ;;
  match o with None => mret tt | Some l => Storage_ptr_inc l end.

(** [operator=(Storage_ptr&& rhs)]. *)
Definition Storage_ptr_assign_move (p rhs : nat) : M ptr_heap unit :=
  Storage_ptr_clear p ;;
  o ← get_ptr rhs;
  set_ptr p o ;;
  set_ptr rhs None.

Definition Storage_ptr_reset (p : nat) : M ptr_heap unit :=
  Storage_ptr_clear p ;; set_ptr p None.

(** [~Storage_ptr]: the variable is gone afterwards. *)
Definition Storage_ptr_destroy (p : nat) : M ptr_heap unit :=
  Storage_ptr_clear p ;; set_ptr p None.

(** [Storage_ptr::allocate], when the allocation succeeds. *)
Definition Storage_ptr_allocate (p : nat) : M ptr_heap unit :=
  Storage_ptr_clear p ;;
  l ← gets next_object;
  modify (λ s, PtrHeap (<[l := 0%Z]> (objects s)) (pointers s) (S l)) ;;
  set_ptr p (Some l) ;;
  Storage_ptr_inc l.

(** A program is a sequence of these operations. *)
Inductive ptr_op :=
| Copy (p rhs : nat)
| Move (p rhs : nat)
| Assign_copy (p rhs : nat)
| Assign_move (p rhs : nat)
| Clear_reset (p : nat)
| Destroy (p : nat)
| Allocate (p : nat).

Definition run_ptr_op (op : ptr_op) : M ptr_heap unit :=
  match op with
  | Copy p rhs => Storage_ptr_copy p rhs
  | Move p rhs => Storage_ptr_move p rhs
  | Assign_copy p rhs => Storage_ptr_assign_copy p rhs
  | Assign_move p rhs => Storage_ptr_assign_move p rhs
  | Clear_reset p => Storage_ptr_reset p
  | Destroy p => Storage_ptr_destroy p
  | Allocate p => Storage_ptr_allocate p
  end.

Definition run_ptr_ops (ops : list ptr_op) : M ptr_heap unit :=
  for_each_in run_ptr_op ops.

(** A program with [n] pointer variables, none of which exists yet. *)
Definition ptr_init (n : nat) : ptr_heap := PtrHeap ∅ (replicate n None) 0.

(** [p] holds no reference. *)
Definition is_null (s : ptr_heap) (p : nat) : bool :=
  bool_decide (mjoin (pointers s !! p) = None).

(** The operation names variables of the program; a constructor runs on a
    variable that does not exist yet, and copy assignment on a null one. *)
Definition op_valid (op : ptr_op) (s : ptr_heap) : bool :=
  let n := length (pointers s) in
  match op with
  | Copy p rhs | Move p rhs | Assign_copy p rhs =>
      bool_decide (p < n) && bool_decide (rhs < n) && bool_decide (p ≠ rhs) && is_null s p
  | Assign_move p rhs => bool_decide (p < n) && bool_decide (rhs < n)
  | Clear_reset p | Destroy p | Allocate p => bool_decide (p < n)
  end.

(** Every operation of the list is valid when its turn comes. *)
Fixpoint ops_valid (ops : list ptr_op) (s : ptr_heap) : bool :=
  match ops with
  | [] => true
  | op :: ops => op_valid op s && ops_valid ops (run_ptr_op op s).2
  end.

(** How many variables point to [l]. *)
Definition refs (l : nat) (s : ptr_heap) : nat :=
  countb (λ o, bool_decide (o = Some l)) (pointers s).

(** The counts are right, nothing dangles and nothing leaks. *)
Record ptr_inv (s : ptr_heap) : Prop := {
  ptr_counted : ∀ l r, objects s !! l = Some r → r = Z.of_nat (refs l s) ∧ 0 < refs l s;
  ptr_alive : ∀ p l, pointers s !! p = Some (Some l) → is_Some (objects s !! l);
  ptr_fresh : ∀ l r, objects s !! l = Some r → l < next_object s
}.

(** ** Counting *)

Lemma countb_insert {A} (f : A → bool) (l : list A) (i : nat) (x y : A) :
  l !! i = Some x →
  countb f (<[i := y]> l) + Nat.b2n (f x) = countb f l + Nat.b2n (f y).
Proof.
  revert i. induction l as [|z l IH]; intros [|i] Hi; simpl in *; simplify_eq.
  - rewrite !countb_cons. destruct (f x), (f y); simpl; lia.
  - rewrite !countb_cons. specialize (IH i Hi). lia.
Qed.

Lemma countb_le_length {A} (f : A → bool) (l : list A) : countb f l ≤ length l.
Proof.
  induction l as [|x l IH]; [done|]. rewrite countb_cons. simpl.
  destruct (f x); lia.
Qed.

Lemma countb_pos {A} (f : A → bool) (l : list A) (i : nat) (x : A) :
  l !! i = Some x → f x = true → 0 < countb f l.
Proof.
  revert i. induction l as [|y l IH]; intros [|i] Hi Hf; simpl in *; simplify_eq;
    rewrite countb_cons.
  - rewrite Hf. lia.
  - specialize (IH i Hi Hf). lia.
Qed.

Lemma countb_pos_inv {A} (f : A → bool) (l : list A) :
  0 < countb f l → ∃ i x, l !! i = Some x ∧ f x = true.
Proof.
  induction l as [|y l IH]; [rewrite countb_nil; lia|]. rewrite countb_cons.
  destruct (f y) eqn:Hy; intros H.
  - by exists 0, y.
  - destruct IH as (i & x & Hi & Hx); [simpl in H; lia|]. by exists (S i), x.
Qed.

(** ** The effect of each operation on the invariant *)

(** The invariant, except that [l] may have no reference yet. *)
Record ptr_inv_at (l0 : nat) (s : ptr_heap) : Prop := {
  at_counted : ∀ l r, objects s !! l = Some r →
    r = Z.of_nat (refs l s) ∧ (l ≠ l0 → 0 < refs l s);
  at_alive : ∀ p l, pointers s !! p = Some (Some l) → is_Some (objects s !! l);
  at_fresh : ∀ l r, objects s !! l = Some r → l < next_object s
}.

Lemma ptr_inv_weaken l0 s : ptr_inv s → ptr_inv_at l0 s.
Proof. intros [H1 H2 H3]. split; [|done|done]. intros l r Hl.
  destruct (H1 l r Hl). auto. Qed.

Lemma refs_insert l p o o' s :
  pointers s !! p = Some o →
  countb (λ o, bool_decide (o = Some l)) (<[p := o']> (pointers s))
    + Nat.b2n (bool_decide (o = Some l)) =
  refs l s + Nat.b2n (bool_decide (o' = Some l)).
Proof. intros Hp. by apply (countb_insert (λ o, bool_decide (o = Some l))). Qed.

(** Dropping the reference held by [p]. *)
(** Dropping pointer [p] to [l]: one fewer refers to [l], and who still refers to a
    storage refers to one that lives. *)
Lemma drop_refs s p l l' :
  pointers s !! p = Some (Some l) →
  countb (λ o, bool_decide (o = Some l')) (<[p := None]> (pointers s)) +
    Nat.b2n (bool_decide (l = l')) = refs l' s.
Proof.
  intros Ho. pose proof (refs_insert l' p (Some l) None s Ho) as E.
  rewrite (bool_decide_ext (Some l = Some l') (l = l')) in E by (split; congruence).
  rewrite (bool_decide_false (None = Some l')) in E by done. simpl in E. lia.
Qed.

Lemma drop_alive s p l r p' l' :
  ptr_inv s → pointers s !! p = Some (Some l) → objects s !! l = Some r →
  <[p := None]> (pointers s) !! p' = Some (Some l') →
  is_Some (objects s !! l') ∧ (l' = l → r ≠ 1%Z).
Proof.
  intros Hinv Ho Hr Hp'. assert (p < length (pointers s)) as Hp by (by eapply lookup_lt_Some).
  destruct (decide (p' = p)) as [->|Hne].
  { rewrite list_lookup_insert_eq in Hp' by done. by simplify_eq. }
  split; [rewrite list_lookup_insert_ne in Hp' by done; by eapply ptr_alive|].
  intros -> ->. destruct (ptr_counted s Hinv l _ Hr) as [Hcnt _].
  pose proof (drop_refs s p l l Ho) as Hrefs. rewrite bool_decide_true in Hrefs by done.
  pose proof (countb_pos (λ o, bool_decide (o = Some l)) _ _ _ Hp'
                (bool_decide_eq_true_2 _ eq_refl)).
  simpl in Hrefs. lia.
Qed.

Lemma reset_inv s p :
  ptr_inv s → p < length (pointers s) → length (pointers s) < 256 →
  ∃ objs, Storage_ptr_reset p s =
    (Ret tt, PtrHeap objs (<[p := None]> (pointers s)) (next_object s)) ∧
  ptr_inv (PtrHeap objs (<[p := None]> (pointers s)) (next_object s)).
Proof.
  intros Hinv Hp Hlen. destruct (lookup_lt_is_Some_2 _ _ Hp) as [o Ho].
  unfold Storage_ptr_reset, Storage_ptr_clear, get_ptr, set_ptr. munfold.
  rewrite Ho. simpl. destruct o as [l|].
  2:{ exists (objects s). split; [done|].
      rewrite list_insert_id by done. by destruct s. }
  destruct (ptr_alive s Hinv p l Ho) as [r Hr].
  destruct (ptr_counted s Hinv l r Hr) as [Hcnt Hpos].
  unfold Storage_ptr_dec. rewrite Hr.
  pose proof (λ l', drop_refs s p l l' Ho) as Hrefs.
  pose proof (λ p' l', drop_alive s p l r p' l' Hinv Ho Hr) as Halive.
  destruct (Z.eqb_spec r 1) as [Hr1|Hr1].
  - exists (delete l (objects s)). split; [done|]. split; simpl.
    + intros l' r' Hl'. apply lookup_delete_Some in Hl' as [Hne Hl'].
      destruct (ptr_counted s Hinv l' r' Hl'). specialize (Hrefs l').
      rewrite bool_decide_false in Hrefs by done. unfold refs in *; simpl in *. lia.
    + intros p' l' Hp'. destruct (Halive p' l' Hp') as [Hl' Hx].
      rewrite lookup_delete_ne; [done|]. intros ->. by apply Hx.
    + intros l' r' Hl'. apply lookup_delete_Some in Hl' as [_ Hl'].
      by eapply ptr_fresh.
  - exists (<[l := uint8_add r (-1)]> (objects s)). split; [done|]. split; simpl.
    + intros l' r' Hl'. specialize (Hrefs l').
      apply lookup_insert_Some in Hl' as [[<- <-]|[Hne Hl']].
      * rewrite bool_decide_true in Hrefs by done. simpl in Hrefs.
        pose proof (countb_le_length (λ o, bool_decide (o = Some l)) (pointers s)).
        unfold refs, uint8_add in *; simpl in *. rewrite Z.mod_small by lia. lia.
      * destruct (ptr_counted s Hinv l' r' Hl').
        rewrite bool_decide_false in Hrefs by done. unfold refs in *; simpl in *. lia.
    + intros p' l' Hp'. destruct (Halive p' l' Hp') as [Hl' _].
      apply lookup_insert_is_Some. destruct (decide (l = l')); auto.
    + intros l' r' Hl'. apply lookup_insert_Some in Hl' as [[<- _]|[_ Hl']];
        by eapply ptr_fresh.
Qed.

(** Storing a reference to [l] in the null variable [p]. *)
Lemma acquire_inv s p l r :
  ptr_inv_at l s → pointers s !! p = Some None → objects s !! l = Some r →
  length (pointers s) < 256 →
  ∃ objs, (set_ptr p (Some l) ;; Storage_ptr_inc l) s =
    (Ret tt, PtrHeap objs (<[p := Some l]> (pointers s)) (next_object s)) ∧
  ptr_inv (PtrHeap objs (<[p := Some l]> (pointers s)) (next_object s)).
Proof.
  intros [Hcnt Halive Hfresh] Hp Hl Hlen. unfold set_ptr, Storage_ptr_inc. munfold.
  simpl. rewrite Hl. exists (<[l := uint8_add r 1]> (objects s)). split; [done|].
  assert (Hrefs : ∀ l', countb (λ o, bool_decide (o = Some l')) (<[p := Some l]> (pointers s))
      = refs l' s + Nat.b2n (bool_decide (l = l'))).
  { intros l'. pose proof (refs_insert l' p None (Some l) s Hp) as E.
    rewrite (bool_decide_ext (Some l = Some l') (l = l')) in E by (split; congruence).
    rewrite (bool_decide_false (None = Some l')) in E by done. simpl in E. lia. }
  split; simpl.
  - intros l' r' Hl'. specialize (Hrefs l').
    apply lookup_insert_Some in Hl' as [[<- <-]|[Hne Hl']].
    + destruct (Hcnt l r Hl) as [-> _]. rewrite bool_decide_true in Hrefs by done.
      pose proof (countb_le_length (λ o, bool_decide (o = Some l)) (<[p := Some l]> (pointers s))).
      rewrite length_insert in *. unfold refs, uint8_add in *; simpl in *.
      rewrite Z.mod_small by lia. lia.
    + destruct (Hcnt l' r' Hl') as [-> Hpos]. specialize (Hpos ltac:(done)).
      rewrite bool_decide_false in Hrefs by done. unfold refs in *; simpl in *. lia.
  - intros p' l' Hp'. apply lookup_insert_is_Some.
    destruct (decide (l = l')) as [|Hne]; [by left|right; split; [done|]].
    apply list_lookup_insert_Some in Hp' as [(? & ? & ?)|[? Hp']]; [by simplify_eq|].
    by eapply Halive.
  - intros l' r' Hl'. apply lookup_insert_Some in Hl' as [[<- _]|[_ Hl']];
      by eapply Hfresh.
Qed.

(** Moving the reference of [rhs] to the null variable [p]. *)
Lemma transfer_inv s p rhs :
  ptr_inv s → pointers s !! p = Some None → rhs < length (pointers s) → p ≠ rhs →
  ∃ o, pointers s !! rhs = Some o ∧
  Storage_ptr_move p rhs s =
    (Ret tt, PtrHeap (objects s) (<[rhs := None]> (<[p := o]> (pointers s)))
               (next_object s)) ∧
  ptr_inv (PtrHeap (objects s) (<[rhs := None]> (<[p := o]> (pointers s)))
             (next_object s)).
Proof.
  intros [Hcnt Halive Hfresh] Hp Hrhs Hne.
  destruct (lookup_lt_is_Some_2 _ _ Hrhs) as [o Ho]. exists o. split; [done|].
  unfold Storage_ptr_move, get_ptr, set_ptr. munfold. rewrite Ho. simpl.
  split; [done|].
  assert (Hrefs : ∀ l', countb (λ o, bool_decide (o = Some l'))
      (<[rhs := None]> (<[p := o]> (pointers s))) = refs l' s).
  { intros l'. pose proof (refs_insert l' p None o s Hp) as E1.
    assert (Ho' : (<[p := o]> (pointers s)) !! rhs = Some o)
      by by rewrite list_lookup_insert_ne.
    pose proof (countb_insert (λ o, bool_decide (o = Some l')) _ _ _ None Ho') as E2.
    rewrite (bool_decide_false (None = Some l')) in * by done. simpl in *. lia. }
  split; simpl.
  - intros l' r' Hl'. unfold refs at 1 2. simpl. rewrite Hrefs. by apply Hcnt.
  - intros p' l' Hp'. apply list_lookup_insert_Some in Hp' as [(? & ? & ?)|[? Hp']]; [done|].
    apply list_lookup_insert_Some in Hp' as [(? & ? & ?)|[? Hp']];
      [subst; by eapply Halive|by eapply Halive].
  - done.
Qed.

Lemma copy_inv s p rhs :
  ptr_inv s → pointers s !! p = Some None → rhs < length (pointers s) →
  length (pointers s) < 256 →
  ∃ s', Storage_ptr_copy p rhs s = (Ret tt, s') ∧ ptr_inv s' ∧
        length (pointers s') = length (pointers s).
Proof.
  intros Hinv Hp Hrhs Hlen. destruct (lookup_lt_is_Some_2 _ _ Hrhs) as [o Ho].
  unfold Storage_ptr_copy. unfold get_ptr, gets. unfold mbind at 1, M_bind at 1.
  rewrite Ho. simpl. destruct o as [l|].
  - destruct (ptr_alive s Hinv rhs l Ho) as [r Hr].
    destruct (acquire_inv s p l r (ptr_inv_weaken l s Hinv) Hp Hr Hlen)
      as (objs & Hrun & Hinv').
    eexists. split; [exact Hrun|]. split; [done|]. simpl. by rewrite length_insert.
  - exists s. unfold set_ptr. munfold. rewrite list_insert_id by done.
    by destruct s.
Qed.

Lemma allocate_inv s p :
  ptr_inv s → p < length (pointers s) → length (pointers s) < 256 →
  ∃ s', Storage_ptr_allocate p s = (Ret tt, s') ∧ ptr_inv s' ∧
        length (pointers s') = length (pointers s).
Proof.
  intros Hinv Hp Hlen.
  destruct (reset_inv s p Hinv Hp Hlen) as (objs & Hreset & Hinv1).
  set (s1 := PtrHeap objs (<[p := None]> (pointers s)) (next_object s)) in *.
  unfold Storage_ptr_reset in Hreset. unfold Storage_ptr_allocate.
  unfold mbind, M_bind in Hreset |- *.
  destruct (Storage_ptr_clear p s) as [[[]|e|c] s0] eqn:Hclear; [|done|done].
  unfold set_ptr, modify in Hreset. injection Hreset as Ho Hpt Hn.
  unfold gets, modify. simpl.
  set (l := next_object s).
  set (s2 := PtrHeap (<[l := 0%Z]> objs) (<[p := None]> (pointers s)) (S l)).
  assert (Hnone : objs !! l = None).
  { destruct (objs !! l) as [r|] eqn:Hl; [|done].
    pose proof (ptr_fresh s1 Hinv1 l r Hl). simpl in *. lia. }
  assert (Hat : ptr_inv_at l s2).
  { split; simpl.
    - intros l' r' Hl'. apply lookup_insert_Some in Hl' as [[<- <-]|[Hne Hl']].
      + split; [|done].
        destruct (decide (refs l s2 = 0)) as [->|Hpos]; [done|exfalso].
        destruct (countb_pos_inv (λ o, bool_decide (o = Some l)) (pointers s2))
          as (q & o & Hq & Hb); [unfold refs in *; lia|].
        apply bool_decide_eq_true in Hb as ->.
        destruct (ptr_alive s1 Hinv1 q l Hq) as [r Hr]. simpl in Hr. congruence.
      + destruct (ptr_counted s1 Hinv1 l' r' Hl'). done.
    - intros q l' Hq. apply lookup_insert_is_Some.
      destruct (decide (l = l')); [by left|right; split; [done|]].
      by eapply (ptr_alive s1 Hinv1).
    - intros l' r' Hl'. apply lookup_insert_Some in Hl' as [[<- _]|[_ Hl']]; [lia|].
      pose proof (ptr_fresh s1 Hinv1 l' r' Hl'). simpl in *. lia. }
  destruct (acquire_inv s2 p l 0%Z Hat) as (objs' & Hrun & Hinv2); simpl.
  { by rewrite list_lookup_insert_eq. }
  { by rewrite lookup_insert_eq. }
  { by rewrite length_insert. }
  eexists. split; [|split; [exact Hinv2|simpl; by rewrite !length_insert]].
  rewrite <-Hrun. unfold set_ptr, Storage_ptr_inc. munfold. simpl.
  by rewrite Ho, Hn, <-Hpt, list_insert_insert_eq.
Qed.

Lemma assign_move_inv s p rhs :
  ptr_inv s → p < length (pointers s) → rhs < length (pointers s) →
  length (pointers s) < 256 →
  ∃ s', Storage_ptr_assign_move p rhs s = (Ret tt, s') ∧ ptr_inv s' ∧
        length (pointers s') = length (pointers s).
Proof.
  intros Hinv Hp Hrhs Hlen.
  destruct (reset_inv s p Hinv Hp Hlen) as (objs & Hreset & Hinv1).
  set (s1 := PtrHeap objs (<[p := None]> (pointers s)) (next_object s)) in *.
  unfold Storage_ptr_reset, mbind, M_bind in Hreset.
  unfold Storage_ptr_assign_move. unfold mbind at 1, M_bind at 1.
  destruct (Storage_ptr_clear p s) as [[[]|e|c] s0] eqn:Hclear; [|done|done].
  unfold set_ptr, modify in Hreset. injection Hreset as Ho Hpt Hn.
  assert (Hl0 : length (pointers s0) = length (pointers s)).
  { apply (f_equal length) in Hpt. by rewrite !length_insert in Hpt. }
  destruct (decide (p = rhs)) as [->|Hne].
  - exists s1. unfold get_ptr, set_ptr. munfold. simpl.
    rewrite list_insert_insert_eq, Hpt, Ho, Hn. split; [done|]. split; [done|].
    simpl. by rewrite length_insert.
  - destruct (transfer_inv s1 p rhs Hinv1) as (o & Hrhs1 & Hmove & Hinv2); simpl;
      [by rewrite list_lookup_insert_eq|by rewrite length_insert|done|].
    eexists. split; [|split; [exact Hinv2|simpl; by rewrite !length_insert]].
    rewrite <-Hmove. unfold Storage_ptr_move, get_ptr, set_ptr. munfold. simpl.
    rewrite (list_lookup_insert_ne (pointers s)) by done.
    assert (pointers s0 !! rhs = pointers s !! rhs) as ->.
    { apply (f_equal (lookup rhs)) in Hpt. by rewrite !list_lookup_insert_ne in Hpt. }
    by rewrite Ho, Hn, <-Hpt, list_insert_insert_eq.
Qed.

Lemma is_null_lookup s p :
  p < length (pointers s) → is_null s p = true → pointers s !! p = Some None.
Proof.
  intros Hp H. apply bool_decide_eq_true in H.
  destruct (lookup_lt_is_Some_2 _ _ Hp) as [o Ho]. rewrite Ho in *. by simpl in H; subst.
Qed.

(** A valid operation succeeds and keeps the invariant. *)
Lemma run_ptr_op_inv op s :
  ptr_inv s → length (pointers s) < 256 → op_valid op s = true →
  ∃ s', run_ptr_op op s = (Ret tt, s') ∧ ptr_inv s' ∧
        length (pointers s') = length (pointers s).
Proof.
  intros Hinv Hlen Hok.
  destruct op as [p rhs|p rhs|p rhs|p rhs|p|p|p]; simpl in Hok;
    repeat (apply andb_true_iff in Hok as [Hok ?]);
    repeat match goal with H : bool_decide _ = true |- _ => apply bool_decide_eq_true in H end.
  - apply copy_inv; auto using is_null_lookup.
  - destruct (transfer_inv s p rhs Hinv) as (o & _ & Hmove & Hinv');
      auto using is_null_lookup.
    eexists. split; [exact Hmove|]. split; [done|]. simpl. by rewrite !length_insert.
  - apply copy_inv; auto using is_null_lookup.
  - by apply assign_move_inv.
  - destruct (reset_inv s p Hinv Hok Hlen) as (objs & Hreset & Hinv').
    eexists. split; [exact Hreset|]. split; [done|]. simpl. by rewrite length_insert.
  - destruct (reset_inv s p Hinv Hok Hlen) as (objs & Hreset & Hinv').
    eexists. split; [exact Hreset|]. split; [done|]. simpl. by rewrite length_insert.
  - by apply allocate_inv.
Qed.

Lemma run_ptr_ops_inv ops s :
  ptr_inv s → length (pointers s) < 256 → ops_valid ops s = true →
  ∃ s', run_ptr_ops ops s = (Ret tt, s') ∧ ptr_inv s'.
Proof.
  revert s. induction ops as [|op ops IH]; intros s Hinv Hlen Hok; [by exists s|].
  simpl in Hok. apply andb_true_iff in Hok as [Hop Hops].
  destruct (run_ptr_op_inv op s Hinv Hlen Hop) as (s1 & Hrun & Hinv1 & Hl1).
  rewrite Hrun in Hops. simpl in Hops. rewrite <-Hl1 in Hlen.
  destruct (IH s1 Hinv1 Hlen Hops) as (s2 & Hrun2 & Hinv2).
  exists s2. split; [|done]. unfold run_ptr_ops in *. simpl. unfold mbind, M_bind.
  by rewrite Hrun.
Qed.

Lemma ptr_init_inv n : ptr_inv (ptr_init n).
Proof.
  split; simpl.
  - intros l r H. by rewrite lookup_empty in H.
  - intros p l H. apply lookup_replicate in H as [H _]. done.
  - intros l r H. by rewrite lookup_empty in H.
Qed.

(** C29: in a program with fewer than 256 [Storage_ptr] variables that assigns by
    copy only to null ones, no operation uses a destroyed object, the count of
    every object is the number of variables that point to it, and an object is
    allocated exactly as long as one does. *)
Theorem storage_ptr_sound (n : nat) (ops : list ptr_op)
  (Hn : n < 256) (Hvalid : ops_valid ops (ptr_init n) = true) :
  ∃ s, run_ptr_ops ops (ptr_init n) = (Ret tt, s) ∧
    (∀ l r, objects s !! l = Some r → r = Z.of_nat (refs l s)) ∧
    (∀ l, is_Some (objects s !! l) ↔ ∃ p, pointers s !! p = Some (Some l)).
Proof.
  destruct (run_ptr_ops_inv ops (ptr_init n)) as (s & Hrun & Hinv);
    [apply ptr_init_inv|simpl; by rewrite length_replicate|done|].
  exists s. split; [done|]. split.
  - intros l r Hl. by destruct (ptr_counted s Hinv l r Hl).
  - intros l. split.
    + intros [r Hl]. destruct (ptr_counted s Hinv l r Hl) as [_ Hpos].
      destruct (countb_pos_inv _ _ Hpos) as (p & o & Hp & Ho).
      apply bool_decide_eq_true in Ho as ->. by exists p.
    + intros [p Hp]. by apply (ptr_alive s Hinv p).
Qed.

Lemma storage_ptr_sound_witness :
  ∃ s, run_ptr_ops [Allocate 0; Copy 1 0; Move 2 1; Destroy 0; Assign_move 3 2]
         (ptr_init 4) = (Ret tt, s) ∧
    (∀ l r, objects s !! l = Some r → r = Z.of_nat (refs l s)) ∧
    (∀ l, is_Some (objects s !! l) ↔ ∃ p, pointers s !! p = Some (Some l)).
Proof.
  apply (storage_ptr_sound 4 [Allocate 0; Copy 1 0; Move 2 1; Destroy 0; Assign_move 3 2]);
    [lia|by vm_compute].
Defined.

(** One object, held by the first [k] of [S n] variables. *)
Definition shared (n k : nat) : ptr_heap :=
  PtrHeap {[ 0 := (Z.of_nat k mod 256)%Z ]} (replicate k (Some 0) ++ replicate (S n - k) None) 1.

Lemma share_step n k :
  1 ≤ k ≤ n → run_ptr_op (Copy k 0) (shared n k) = (Ret tt, shared n (S k)).
Proof.
  intros Hk. unfold shared. destruct k as [|k]; [lia|].
  replace (S n - S k) with (S (S n - S (S k))) by lia.
  assert (Hset : <[S k:=Some 0]> (replicate (S k) (Some 0) ++ replicate (S (S n - S (S k))) None) =
                 replicate (S (S k)) (Some 0) ++ replicate (S n - S (S k)) None).
  { rewrite (insert_app_r_alt _ _ (S k)) by (by rewrite length_replicate).
    rewrite length_replicate, Nat.sub_diag, (replicate_S_end (S k)), <- app_assoc. done. }
  unfold run_ptr_op, Storage_ptr_copy, get_ptr, set_ptr, Storage_ptr_inc, uint8_add. munfold.
  cbn [pointers objects next_object replicate app lookup list_lookup mjoin option_join].
  change (Some 0 :: replicate k (Some 0)) with (replicate (S k) (Some 0)) in *.
  rewrite lookup_singleton_eq. unfold set_objects. simpl objects. simpl pointers.
  rewrite insert_singleton_eq, Z.add_mod_idemp_l by lia.
  simpl in Hset. simpl. rewrite Hset. by replace (Z.of_nat (S k) + 1)%Z with (Z.of_nat (S (S k))) by lia.
Qed.

Lemma shared_lookup n k p :
  k ≤ S n → pointers (shared n k) !! p = if decide (p < k) then Some (Some 0) else
                                         if decide (p < S n) then Some None else None.
Proof.
  intros Hk. unfold shared. cbn [pointers]. case_decide.
  - by rewrite lookup_app_l, lookup_replicate_2 by (by rewrite ?length_replicate).
  - rewrite lookup_app_r, length_replicate by (rewrite length_replicate; lia). case_decide.
    + apply lookup_replicate_2. lia.
    + apply lookup_ge_None_2. rewrite length_replicate. lia.
Qed.

Lemma share_runs n m : ∀ k,
  1 ≤ k → k + m = S n →
  run_ptr_ops (map (λ p, Copy p 0) (seq k m)) (shared n k) = (Ret tt, shared n (S n)) ∧
  ops_valid (map (λ p, Copy p 0) (seq k m)) (shared n k) = true.
Proof.
  induction m as [|m IH]; intros k Hk Hm.
  { by replace (S n) with k by lia. }
  destruct (IH (S k)) as [Hrun Hval]; [lia..|]. pose proof (share_step n k ltac:(lia)) as Hs.
  unfold run_ptr_ops in *. cbn [seq map for_each_in ops_valid]. unfold mbind, M_bind.
  rewrite Hs. split; [exact Hrun|]. cbn [snd]. rewrite Hval, andb_true_r.
  unfold op_valid, is_null. rewrite shared_lookup by lia.
  assert (length (pointers (shared n k)) = S n) as ->.
  { unfold shared. cbn [pointers]. rewrite length_app, !length_replicate. lia. }
  rewrite decide_False, decide_True by lia.
  by rewrite !bool_decide_true by (done || lia).
Qed.

Lemma refs_shared n : refs 0 (shared n (S n)) = S n.
Proof.
  unfold refs, shared. cbn [pointers]. rewrite Nat.sub_diag, app_nil_r.
  induction (S n) as [|k IH]; [done|]. cbn [replicate]. by rewrite countb_cons, IH.
Qed.

(** C34: the count is one byte.  Any number of valid copies of a pointer leaves the number
    of pointers modulo 256 in it; so that destroying any one of them, when this is 1, and
    only then, destroys the object, whatever the number of pointers that are left, and using
    any of these uses a destroyed object. *)
Theorem ref_count_wraps_around (n p q : nat) (Hp : p ≤ n) (Hq : q ≤ n) (Hpq : p ≠ q) :
  let ops := Allocate 0 :: map (λ k, Copy k 0) (seq 1 n) in
  ops_valid ops (ptr_init (S n)) = true ∧
  ∃ s s', run_ptr_ops ops (ptr_init (S n)) = (Ret tt, s) ∧
    refs 0 s = S n ∧ objects s !! 0 = Some (Z.of_nat (S n) mod 256)%Z ∧
    run_ptr_op (Destroy p) s = (Ret tt, s') ∧ refs 0 s' = n ∧
    (objects s' !! 0 = None ↔ (Z.of_nat (S n) mod 256 = 1)%Z) ∧
    ((Z.of_nat (S n) mod 256 = 1)%Z →
     ∀ op, op = Destroy q ∨ op = Clear_reset q → fst (run_ptr_op op s') = Crash Use_after_free).
Proof.
  intros ops. destruct (share_runs n n 1) as [Hrun Hval]; [lia..|].
  assert (run_ptr_op (Allocate 0) (ptr_init (S n)) = (Ret tt, shared n 1)) as Hall.
  { unfold shared. simpl. by rewrite Nat.sub_0_r. }
  split.
  { subst ops. cbn [ops_valid]. rewrite Hall. cbn [snd]. by rewrite Hval. }
  set (z := (Z.of_nat (S n) mod 256)%Z).
  set (ps := <[p := None]> (pointers (shared n (S n)))).
  exists (shared n (S n)),
    (PtrHeap (if (z =? 1)%Z then ∅ else {[ 0 := uint8_add z (-1) ]}) ps 1).
  assert (∀ i, i ≤ n → pointers (shared n (S n)) !! i = Some (Some 0)) as Hptr.
  { intros i Hi. by rewrite shared_lookup, decide_True by lia. }
  split; [|split; [apply refs_shared|split; [apply lookup_singleton_eq|]]].
  { unfold run_ptr_ops, ops in *. cbn [for_each_in]. unfold mbind, M_bind. by rewrite Hall. }
  split; [|split; [|split]].
  - unfold run_ptr_op, Storage_ptr_destroy, Storage_ptr_clear, get_ptr, set_ptr, Storage_ptr_dec.
    munfold. rewrite (Hptr p Hp). cbn [mjoin option_join shared objects].
    rewrite lookup_singleton_eq. fold z. destruct (z =? 1)%Z; cbn.
    + by rewrite delete_singleton_eq.
    + by rewrite insert_singleton_eq.
  - pose proof (countb_insert (λ o, bool_decide (o = Some 0)) _ p _ None (Hptr p Hp)) as Hc.
    pose proof (refs_shared n) as Hr. unfold refs in *. cbn [pointers]. fold ps in Hc.
    rewrite Hr in Hc. simpl in Hc. lia.
  - cbn [objects]. destruct (Z.eqb_spec z 1); [by rewrite lookup_empty|].
    by rewrite lookup_singleton_eq.
  - intros Hz op Hop. fold z in Hz.
    assert (pointers (PtrHeap (if (z =? 1)%Z then ∅ else {[ 0 := uint8_add z (-1) ]}) ps 1) !! q =
            Some (Some 0)) as Hl by (simpl; unfold ps; rewrite list_lookup_insert_ne by done; auto).
    destruct Hop as [-> | ->]; unfold run_ptr_op, Storage_ptr_destroy, Storage_ptr_reset,
      Storage_ptr_clear, get_ptr, Storage_ptr_dec; munfold; rewrite Hl, Hz; done.
Qed.

Lemma ref_count_wraps_around_witness :
  let ops := Allocate 0 :: map (λ k, Copy k 0) (seq 1 256) in
  ∃ s s', run_ptr_ops ops (ptr_init 257) = (Ret tt, s) ∧
    run_ptr_op (Destroy 3) s = (Ret tt, s') ∧ refs 0 s' = 256 ∧ objects s' !! 0 = None.
Proof.
  destruct (ref_count_wraps_around 256 3 5) as (_ & s & s' & Hs & _ & _ & Hs' & Hr & Hn & _);
    [lia..|].
  exists s, s'. split; [exact Hs|]. split; [exact Hs'|]. split; [exact Hr|]. by apply Hn.
Defined.

(** Copy assignment over a variable that owns another object leaks that
    object: it stays allocated although no variable points to it. *)
Theorem assign_copy_leaks :
  let r := run_ptr_ops [Allocate 0; Allocate 1; Assign_copy 0 1] (ptr_init 2) in
  r.1 = Ret tt ∧ objects r.2 !! 0 = Some 1%Z ∧ refs 0 r.2 = 0.
Proof. by vm_compute. Qed.
