(* ===== verification/Future.v ===== *)
(** Futures and promises: the handlers that [then], [then_expect] and [finally]
    attach, the work queues they post to, [Promise], [join], [async], [flatten]
    and [std_future] (variadic_future/include/var_future/impl/then.h,
    then_expect.h, then_finally_expect.h, future.h, promise.h, join.h, async.h).

    Shared states live in a heap; handlers refer to them by address, as the C++
    handlers do through [Storage_ptr].  A callback is either code of the program
    that uses the library, or one of the lambdas the library itself attaches.
    A handler that runs may finish another future, whose handler runs in turn:
    the functions are tied together by a fuel argument. *)

From stdpp Require Import gmap.
From S2P Require Import Prelude Errors Effects FutureUtils FutureStorage.

Section Futures.
(** The values futures carry, and the state of the program's own callbacks. *)
Context {V U : Type}.

(** What a chaining callback returns: nothing, a value, an [expected], another
    future, or [segmented(...)]. *)
Inductive cb_result :=
| Cb_void
| Cb_value (v : V)
| Cb_expected (e : finish_elt V)
| Cb_future (f : nat)
| Cb_segmented (vs : list V).

(** The arguments of a callback: values, or one [expected] per field. *)
Inductive cb_args :=
| Args_values (v : fullfill_type V)
| Args_expected (f : finish_type V).

(** The program's callbacks, by number; each acts on the program's state. *)
Context (user_code : nat → cb_args → M U cb_result).

(** The components of a value that is itself a [std::tuple]. *)
Context (tuple_elements : V → list V).

(** How [std_future] reads the results. *)
Inductive std_mode := Std_all_voids | Std_single | Std_tuple.

Inductive callback :=
| Cb_user (id : nat)
| Cb_forward (self : nat)              (* storage_impl.h: [self->finish(...)] *)
| Cb_landing (landing : nat) (id : nat)  (* join.h: bind_landing *)
| Cb_flatten (storage : nat)
| Cb_std (promise : nat) (mode : std_mode).

Inductive queue := Immediate_queue | Queue (id : nat).

(** The three handlers, with the fields [Ts...] of the future they are attached
    to; [Handler_moved] is a handler whose [dst_] and [cb_] were moved out. *)
Inductive handler :=
| Future_then_handler (Ts : list field) (q : queue) (dst : nat) (cb : callback)
| Future_then_expect_handler (Ts : list field) (q : queue) (dst : nat) (cb : callback)
| Future_finally_handler (Ts : list field) (q : queue) (cb : callback)
| Handler_moved.

(** The closures given to [enqueue]. *)
Inductive task :=
| Task_then (cb : callback) (dst : nat) (v : fullfill_type V)
| Task_then_fail (dst : nat) (e : exn)
| Task_then_expect (cb : callback) (dst : nat) (f : finish_type V)
| Task_finally (cb : callback) (f : finish_type V)
| Task_async (cb : callback) (res : nat).

(** [struct Landing]: the results so far, how many arrived, the joined future. *)
Record landing := Landing {
  landing_ : list (finish_elt V);
  fullfilled_ : nat;
  landing_dst : nat
}.

Record world := World {
  storages : gmap nat (list field * future_storage V handler);
  landings : gmap nat landing;
  std_promises : gmap nat (option (expected (fullfill_type V)));
  queues : gmap nat (list task);
  user_state : U;
  next_loc : nat
}.

Definition set_storages x (w : world) :=
  World x (landings w) (std_promises w) (queues w) (user_state w) (next_loc w).
Definition set_landings x (w : world) :=
  World (storages w) x (std_promises w) (queues w) (user_state w) (next_loc w).
Definition set_std_promises x (w : world) :=
  World (storages w) (landings w) x (queues w) (user_state w) (next_loc w).
Definition set_queues x (w : world) :=
  World (storages w) (landings w) (std_promises w) x (user_state w) (next_loc w).
Definition set_user_state x (w : world) :=
  World (storages w) (landings w) (std_promises w) (queues w) x (next_loc w).

(** Run an operation of [Future_storage] on the storage at [l]. *)
Definition on_storage {A} (l : nat)
  (m : list field → M (future_storage V handler) A) : M world A := λ w,
  match storages w !! l with
  | None => (Crash Use_after_free, w)
  | Some (Ts, st) =>
      let '(r, st') := m Ts st in (r, set_storages (<[l := (Ts, st')]> (storages w)) w)
  end.

(** [Storage_ptr::allocate]: a fresh storage for a [Future<Ts...>]. *)
Definition allocate (Ts : list field) : M world nat := λ w,
  (Ret (next_loc w),
   World (<[next_loc w := (Ts, Future_storage_init)]> (storages w)) (landings w)
     (std_promises w) (queues w) (user_state w) (S (next_loc w))).

(** What can be run: an operation on a storage, or a closure. *)
Inductive action :=
| Act_fullfill (l : nat) (v : fullfill_type V)
| Act_fullfill_future (l : nat) (f : nat)
| Act_finish (l : nat) (f : finish_type V)
| Act_fail (l : nat) (e : exn)
| Act_set_handler (l : nat) (h : handler)
| Act_task (t : task).

Section Bodies.
(** Running a nested action. *)
Context (self : action → M world unit).

(** [detail::enqueue]. *)
Definition enqueue (q : queue) (t : task) : M world unit :=
  match q with
  | Immediate_queue => self (Act_task t)
  | Queue id =>
      modify (λ w, set_queues (<[id := default [] (queues w !! id) ++ [t]]> (queues w)) w)
  end.

(** [Landing::ping]. *)
Definition Landing_ping (l : nat) : M world unit := λ w,
  match landings w !! l with
  | None => (Crash Use_after_free, w)
  | Some ld =>
      let n := S (fullfilled_ ld) in
      let w' := set_landings
                  (<[l := Landing (landing_ ld) n (landing_dst ld)]> (landings w)) w in
      if n =? length (landing_ ld) then self (Act_finish (landing_dst ld) (landing_ ld)) w'
      else (Ret tt, w')
  end.

(** [*value_landing = std::move(e)]. *)
Definition store_landing (l id : nat) (e : finish_elt V) : M world unit := λ w,
  match landings w !! l with
  | None => (Crash Use_after_free, w)
  | Some ld =>
      (Ret tt, set_landings
         (<[l := Landing (<[id := e]> (landing_ ld)) (fullfilled_ ld) (landing_dst ld)]>
            (landings w)) w)
  end.

Definition set_std_promise (p : nat) (r : expected (fullfill_type V)) : M world unit :=
  modify (λ w, set_std_promises (<[p := Some r]> (std_promises w)) w).

(** The lambdas of [std_future]. *)
Definition std_future_callback (p : nat) (mode : std_mode) (vals : finish_type V) :
  M world unit :=
  match mode with
  | Std_all_voids =>
      match get_first_error vals with
      | Some err => set_std_promise p (Err err)
      | None => set_std_promise p (Val [])
      end
  | Std_single =>
      match vals with
      | [Val (Some v)] => set_std_promise p (Val [v])
      | [Err e] => set_std_promise p (Err e)
      | _ => crash_with Assertion_failed
      end
  | Std_tuple =>
      match get_first_error vals with
      | Some err => set_std_promise p (Err err)
      | None => set_std_promise p (Val (values_of vals))
      end
  end.

(** [std::apply(cb, args)]. *)
Definition apply_callback (cb : callback) (args : cb_args) : M world cb_result :=
  match cb, args with
  | Cb_user id, _ => zoom user_state set_user_state (user_code id args)
  | Cb_forward dst, Args_expected f => self (Act_finish dst f) ;; mret Cb_void
  | Cb_landing l id, Args_expected [e] =>
      store_landing l id e ;; Landing_ping l ;; mret Cb_void
  | Cb_flatten dst, Args_expected [Val (Some t)] =>
      self (Act_finish dst ((λ v, Val (Some v)) <$> tuple_elements t)) ;; mret Cb_void
  | Cb_flatten dst, Args_expected [Err e] => self (Act_fail dst e) ;; mret Cb_void
  | Cb_std p mode, Args_expected f => std_future_callback p mode f ;; mret Cb_void
  | _, _ => crash_with Assertion_failed
  end.

(** [dst->fullfill(r)], or [dst->finish(r)] for an [expected]. *)
Definition deliver (dst : nat) (r : cb_result) : M world unit :=
  match r with
  | Cb_void => self (Act_fullfill dst [])
  | Cb_value v => self (Act_fullfill dst [v])
  | Cb_expected e => self (Act_finish dst [e])
  | Cb_future f => self (Act_fullfill_future dst f)
  | Cb_segmented vs => self (Act_fullfill dst vs)
  end.

Definition run_task (t : task) : M world unit :=
  match t with
  | Task_then cb dst v =>
      try_catch (r ← apply_callback cb (Args_values v); deliver dst r)
        (λ e, self (Act_fail dst e))
  | Task_then_fail dst e => self (Act_fail dst e)
  | Task_then_expect cb dst f =>
      try_catch (r ← apply_callback cb (Args_expected f); deliver dst r)
        (λ e, self (Act_fail dst e))
  | Task_finally cb f => apply_callback cb (Args_expected f) ;; mret tt
  | Task_async cb res =>
      try_catch
        (r ← apply_callback cb (Args_values []);
         match r with
         | Cb_value _ | Cb_future _ | Cb_segmented _ => deliver res r
         (* [res->fullfill()] and [res->fullfill(expected)] have no overload. *)
         | Cb_void | Cb_expected _ => crash_with Assertion_failed
         end)
        (λ e, self (Act_fail res e))
  end.

(** *** The handlers *)

Definition then_do_fullfill (q : queue) (v : fullfill_type V) (dst : nat)
  (cb : callback) : M world unit :=
  enqueue q (Task_then cb dst v).

Definition then_do_fail (q : queue) (e : exn) (dst : nat) : M world unit :=
  enqueue q (Task_then_fail dst e).

Definition then_do_finish (q : queue) (f : finish_type V) (dst : nat)
  (cb : callback) : M world unit :=
  match get_first_error f with
  | Some err => then_do_fail q err dst
  | None =>
      match finish_to_fullfill (length f - 1) f with
      | Some cb_args => then_do_fullfill q cb_args dst cb
      | None => crash_with Assertion_failed
      end
  end.

Definition then_expect_do_finish (q : queue) (f : finish_type V) (dst : nat)
  (cb : callback) : M world unit :=
  enqueue q (Task_then_expect cb dst f).

Definition then_expect_do_fullfill (Ts : list field) (q : queue) (v : fullfill_type V)
  (dst : nat) (cb : callback) : M world unit :=
  then_expect_do_finish q (fullfill_to_finish Ts 0 v) dst cb.

Definition finally_do_finish (q : queue) (f : finish_type V) (cb : callback) :
  M world unit :=
  enqueue q (Task_finally cb f).

Definition finally_do_fullfill (Ts : list field) (q : queue) (v : fullfill_type V)
  (cb : callback) : M world unit :=
  finally_do_finish q (fullfill_to_finish Ts 0 v) cb.

(** The virtual functions of [Future_handler_iface]. *)
Definition heap_handler_fields (h : handler) : list field :=
  match h with
  | Future_then_handler Ts _ _ _ | Future_then_expect_handler Ts _ _ _
  | Future_finally_handler Ts _ _ => Ts
  | Handler_moved => []
  end.

Definition heap_handler_fullfill (h : handler) (v : fullfill_type V) : M world unit :=
  match h with
  | Future_then_handler Ts q dst cb => then_do_fullfill q v dst cb
  | Future_then_expect_handler Ts q dst cb => then_expect_do_fullfill Ts q v dst cb
  | Future_finally_handler Ts q cb => finally_do_fullfill Ts q v cb
  | Handler_moved => crash_with Null_dereference
  end.

Definition heap_handler_finish (h : handler) (f : finish_type V) : M world unit :=
  match h with
  | Future_then_handler Ts q dst cb => then_do_finish q f dst cb
  | Future_then_expect_handler Ts q dst cb => then_expect_do_finish q f dst cb
  | Future_finally_handler Ts q cb => finally_do_finish q f cb
  | Handler_moved => crash_with Null_dereference
  end.

(** Make the call a storage operation ends with; the handler's members are moved
    out by it. *)
Definition call_handler (l : nat) (o : option (handler * handler_call V)) :
  M world unit :=
  match o with
  | None => mret tt
  | Some (h, c) =>
      on_storage l (λ _, modify (set_callback Handler_moved)) ;;
      match c with
      | Call_fullfill v => heap_handler_fullfill h v
      | Call_finish f => heap_handler_finish h f
      end
  end.

Definition run_action (a : action) : M world unit :=
  match a with
  | Act_fullfill l v =>
      o ← on_storage l (λ Ts, Future_storage_fullfill Ts v); call_handler l o
  | Act_fullfill_future l f =>
      Ts ← on_storage f (λ Ts, mret Ts);
      self (Act_set_handler f (Future_finally_handler Ts Immediate_queue (Cb_forward l)))
  | Act_finish l f =>
      o ← on_storage l (λ _, Future_storage_finish f); call_handler l o
  | Act_fail l e =>
      o ← on_storage l (λ Ts, Future_storage_fail Ts e); call_handler l o
  | Act_set_handler l h =>
      o ← on_storage l (λ _, Future_storage_set_handler h); call_handler l o
  | Act_task t => run_task t
  end.
End Bodies.

(** The whole library, with nesting depth [fuel]. *)
Fixpoint run (fuel : nat) (a : action) : M world unit :=
  match fuel with
  | 0 => crash_with Out_of_fuel
  | S fuel => run_action (run fuel) a
  end.

(** ** The interface of [Future] and [Promise] *)

Section Interface.
Context (fuel : nat).

Definition future_fields (fut : nat) : M world (list field) :=
  on_storage fut (λ Ts, mret Ts).

(** [Basic_future::then]; [Rs] are the fields of the future for the callback's
    result type ([Storage_for_cb_result_t]). *)
Definition Basic_future_then (fut : nat) (q : queue) (cb : callback) (Rs : list field) :
  M world nat :=
  result ← allocate Rs;
  Ts ← future_fields fut;
  run fuel (Act_set_handler fut (Future_then_handler Ts q result cb)) ;;
  mret result.

Definition Basic_future_then_expect (fut : nat) (q : queue) (cb : callback)
  (Rs : list field) : M world nat :=
  result ← allocate Rs;
  Ts ← future_fields fut;
  run fuel (Act_set_handler fut (Future_then_expect_handler Ts q result cb)) ;;
  mret result.

Definition Basic_future_finally (fut : nat) (q : queue) (cb : callback) : M world unit :=
  Ts ← future_fields fut;
  run fuel (Act_set_handler fut (Future_finally_handler Ts q cb)).

(** [Basic_future::std_future]: the number of the [std::promise]. *)
Definition Basic_future_std_future (fut : nat) : M world nat :=
  Ts ← future_fields fut;
  p ← gets next_loc;
  modify (λ w, World (storages w) (landings w) (<[p := None]> (std_promises w))
                 (queues w) (user_state w) (S p)) ;;
  Basic_future_finally fut Immediate_queue
    (Cb_std p (if forallb (λ t, bool_decide (t = Fvoid)) Ts then Std_all_voids
               else if length Ts =? 1 then Std_single else Std_tuple)) ;;
  mret p.

(** [Basic_future::get], where waiting on the [std::future] is left to the
    caller: the promise's current content, [None] when it would block. *)
Definition Basic_future_get (fut : nat) : M world (option (expected (fullfill_type V))) :=
  p ← Basic_future_std_future fut;
  gets (λ w, mjoin (std_promises w !! p)).

Definition flatten (rhs : nat) (Rs : list field) : M world nat :=
  storage ← allocate Rs;
  Basic_future_finally rhs Immediate_queue (Cb_flatten storage) ;;
  mret storage.

(** [async(q, cb)]. *)
Definition async (q : queue) (cb : callback) (Rs : list field) : M world nat :=
  res ← allocate Rs;
  enqueue (run fuel) q (Task_async cb res) ;;
  mret res.

(** [detail::bind_landing<id>(l, futs...)]. *)
Fixpoint bind_landing (id : nat) (l : nat) (futs : list nat) : M world unit :=
  match futs with
  | [] => mret tt
  | front :: futs =>
      Basic_future_finally front Immediate_queue (Cb_landing l id) ;;
      bind_landing (S id) l futs
  end.

(** The value an [expected<T>] is constructed with: [T()]. *)
Context (value_init : V).
Definition expected_init (t : field) : finish_elt V :=
  match t with Fvoid => Val None | Fval => Val (Some value_init) end.

(** [decay_future_t<FutT>] of a future with one field. *)
Definition decay_future (Ts : list field) : field :=
  match Ts with [t] => t | _ => Fval end.

(** [join(futs...)]: the landing and the joined future it makes first... *)
Definition join_begin (futs : list nat) : M world (nat * nat) :=
  Tss ← gets (λ w, (λ f, (default ([], Future_storage_init) (storages w !! f)).1) <$> futs);
  let Ts := decay_future <$> (Tss : list (list field)) in
  l ← gets next_loc;
  modify (λ w, World (storages w)
    (<[l := Landing (expected_init <$> Ts) 0 (S l)]> (landings w))
    (std_promises w) (queues w) (user_state w) (S l)) ;;
  dst ← allocate Ts;
  mret (l, dst).

(** ... and the whole function. *)
Definition join (futs : list nat) : M world nat :=
  '(l, dst) ← join_begin futs;
  bind_landing 0 l futs ;;
  mret dst.

(** *** Promise *)

Record promise := Promise {
  future_created_ : bool;
  value_assigned_ : bool;
  storage_ : option nat
}.

Definition Basic_promise_init (Ts : list field) : M world promise :=
  l ← allocate Ts; mret (Promise false false (Some l)).

Definition Basic_promise_get_future (p : promise) : M world (promise * option nat) :=
  massert (negb (future_created_ p)) ;;
  mret (Promise true (value_assigned_ p) (storage_ p), storage_ p).

(** [assert(storage_ && !value_assigned_)] and the storage. *)
Definition promise_storage (p : promise) : M world nat :=
  massert (match storage_ p with Some _ => negb (value_assigned_ p) | None => false end) ;;
  match storage_ p with Some l => mret l | None => crash_with Null_dereference end.

(** [value_assigned_ = true; if (future_created_) storage_.reset();] *)
Definition promise_assigned (p : promise) : promise :=
  Promise (future_created_ p) true (if future_created_ p then None else storage_ p).

Definition Basic_promise_finish (f : finish_type V) (p : promise) : M world promise :=
  l ← promise_storage p;
  run fuel (Act_finish l f) ;;
  mret (promise_assigned p).

Definition Basic_promise_set_value (v : fullfill_type V) (p : promise) : M world promise :=
  l ← promise_storage p;
  run fuel (Act_fullfill l v) ;;
  mret (promise_assigned p).

Definition Basic_promise_set_exception (e : exn) (p : promise) : M world promise :=
  l ← promise_storage p;
  run fuel (Act_fail l e) ;;
  mret (promise_assigned p).

(** [operator bool]: whether the promise holds a storage. *)
Definition Basic_promise_bool (p : promise) : bool :=
  match storage_ p with Some _ => true | None => false end.

(** [~Basic_promise], a destructor, so [noexcept]. *)
Definition Basic_promise_destroy (p : promise) : M world unit :=
  match storage_ p with
  | Some l =>
      if value_assigned_ p then mret tt else noexcept (run fuel (Act_fail l Unfullfilled_promise))
  | None => mret tt
  end.
End Interface.
End Futures.

Arguments cb_result : clear implicits.
Arguments cb_args : clear implicits.
Arguments task : clear implicits.
Arguments landing : clear implicits.
Arguments world : clear implicits.
Arguments action : clear implicits.
