(* ===== verification/FutureLaws.v ===== *)
(** Laws of the futures of Future.v: what one operation on a storage of the heap
    does in each of its states, the handlers as an instance of the interface of
    FutureStorage.v, and the life of a promise. *)

From stdpp Require Import gmap.
From S2P Require Import Prelude Errors Effects FutureUtils FutureStorage Future.

Section Laws.
Context {V U : Type}.
Context (user_code : nat → cb_args V → M U (cb_result V)).
Context (tuple_elements : V → list V).

Local Abbreviation world := (world V U).
Local Abbreviation action := (action V).
Local Abbreviation run := (run user_code tuple_elements).

(** *** Storages in the heap *)

(** The shapes a storage of the heap takes. *)
Definition pending : future_storage V handler := FutureStorage None None 0.
Definition attached (h : handler) : future_storage V handler :=
  FutureStorage (Some h) None 1.
Definition finished (f : finish_type V) : future_storage V handler :=
  FutureStorage None (Some f) 2.
Definition fired (f : finish_type V) : future_storage V handler :=
  FutureStorage (Some Handler_moved) (Some f) 3.

Definition set_storage (l : nat) (x : list field * future_storage V handler)
  (w : world) : world := set_storages (<[l := x]> (storages w)) w.

(** The actions that give the storage [l], whose fields are [Ts], the result [f]. *)
Inductive gives (l : nat) (Ts : list field) : action → finish_type V → Prop :=
| gives_fullfill v : fullfill_ok Ts v →
    gives l Ts (Act_fullfill l v) (fullfill_to_finish Ts 0 v)
| gives_finish f : finish_ok Ts f → gives l Ts (Act_finish l f) f
| gives_fail e : gives l Ts (Act_fail l e) (fail_to_expect Ts e).

Lemma gives_ok l Ts a f : gives l Ts a f → finish_ok Ts f.
Proof.
  destruct 1; [by apply fullfill_to_finish_ok|done|apply fail_to_expect_ok].
Qed.

Lemma set_storage_twice l x y w :
  set_storage l x (set_storage l y w) = set_storage l x w.
Proof. unfold set_storage, set_storages. simpl. by rewrite insert_insert_eq. Qed.

Ltac on_heap Hl :=
  unfold attached, pending, finished, fired in *;
  cbn [run run_action]; unfold call_handler, on_storage,
    Future_storage_fullfill, Future_storage_finish, Future_storage_fail,
    Future_storage_set_handler, callback_deref, finished_read, fetch_or,
    set_storage, set_storages; munfold; simpl; rewrite Hl; simpl;
  rewrite ?lookup_insert_eq; simpl; rewrite ?insert_insert_eq.

(** A result arrives before the handler: it is stored. *)
Lemma give_pending n l Ts a f w :
  gives l Ts a f → storages w !! l = Some (Ts, pending) →
  run (S n) a w = (Ret tt, set_storage l (Ts, finished f) w).
Proof. intros [v|g|e] Hl; by on_heap Hl. Qed.

(** A result arrives after the handler: it is handed over, unstored. *)
Lemma finish_attached n l Ts h f w :
  storages w !! l = Some (Ts, attached h) →
  run (S n) (Act_finish l f) w =
  heap_handler_finish (run n) h f (set_storage l (Ts, attached Handler_moved) w).
Proof. intros Hl; by on_heap Hl. Qed.

Lemma fail_attached n l Ts h e w :
  storages w !! l = Some (Ts, attached h) →
  run (S n) (Act_fail l e) w =
  heap_handler_finish (run n) h (fail_to_expect Ts e)
    (set_storage l (Ts, attached Handler_moved) w).
Proof. intros Hl; by on_heap Hl. Qed.

Lemma fullfill_attached n l Ts h v w :
  storages w !! l = Some (Ts, attached h) →
  run (S n) (Act_fullfill l v) w =
  heap_handler_fullfill (run n) h v (set_storage l (Ts, attached Handler_moved) w).
Proof. intros Hl; by on_heap Hl. Qed.

(** The handler arrives first, or after the result. *)
Lemma set_handler_pending n l Ts h w :
  storages w !! l = Some (Ts, pending) →
  run (S n) (Act_set_handler l h) w = (Ret tt, set_storage l (Ts, attached h) w).
Proof. intros Hl; by on_heap Hl. Qed.

Lemma set_handler_finished n l Ts h f w :
  storages w !! l = Some (Ts, finished f) →
  run (S n) (Act_set_handler l h) w =
  heap_handler_finish (run n) h f (set_storage l (Ts, fired f) w).
Proof. intros Hl; by on_heap Hl. Qed.

(** *** The handlers implement the storage's interface *)

(** Calling [fullfill] on a handler is calling [finish] on the converted tuple:
    [then] converts back and forth, the others convert once. *)
Lemma heap_handler_law (self : action → M world unit) h v :
  heap_handler_fields h ≠ [] → fullfill_ok (heap_handler_fields h) v →
  heap_handler_fullfill self h v ≈
  heap_handler_finish self h (fullfill_to_finish (heap_handler_fields h) 0 v).
Proof.
  destruct h as [Ts q dst cb|Ts q dst cb|Ts q cb|]; simpl; intros HTs Hv s; try done.
  unfold then_do_finish. rewrite get_first_error_fullfill.
  rewrite finish_to_fullfill_values, values_of_fullfill; try done.
  - intros Hnil. pose proof (Forall2_length _ _ _ (fullfill_to_finish_ok Ts v Hv)) as Hlen.
    rewrite Hnil in Hlen. by destruct Ts.
  - apply get_first_error_fullfill.
Qed.

(** The handlers attached to futures with at least one field
    ([static_assert(sizeof...(Ts) >= 1)]). *)
Definition fielded_handler : Type := { h : handler | bool_decide (heap_handler_fields h ≠ []) }.

Program Definition heap_future_handler (self : action → M world unit) :
  FutureHandler V fielded_handler world := {|
  handler_fields h := heap_handler_fields (`h);
  handler_fullfill h v := heap_handler_fullfill self (`h) v;
  handler_finish h f := heap_handler_finish self (`h) f
|}.
Next Obligation.
  intros self [h Hh] v Hv.
  exact (heap_handler_law self h v (bool_decide_unpack _ Hh) Hv).
Qed.

(** Whichever way the result is given, an attached handler's [finish] gets it. *)
Lemma give_attached n l Ts a f h w :
  gives l Ts a f → heap_handler_fields h = Ts → Ts ≠ [] →
  storages w !! l = Some (Ts, attached h) →
  run (S n) a w =
  heap_handler_finish (run n) h f (set_storage l (Ts, attached Handler_moved) w).
Proof.
  intros [v Hv|g Hg|e] Hh HTs Hl.
  - rewrite (fullfill_attached _ _ _ _ _ _ Hl). subst Ts. by apply heap_handler_law.
  - by apply finish_attached.
  - by apply fail_attached.
Qed.

(** [then]'s handler, on the error and on the success path. *)
Lemma then_finish_error (self : action → M world unit) Ts q dst cb f e :
  get_first_error f = Some e →
  heap_handler_finish self (Future_then_handler Ts q dst cb) f =
  enqueue self q (Task_then_fail dst e).
Proof. simpl. unfold then_do_finish. by intros ->. Qed.

Lemma then_finish_values (self : action → M world unit) Ts q dst cb f :
  f ≠ [] → get_first_error f = None →
  heap_handler_finish self (Future_then_handler Ts q dst cb) f =
  enqueue self q (Task_then cb dst (values_of f)).
Proof.
  intros Hne He. simpl. unfold then_do_finish. rewrite He.
  by rewrite finish_to_fullfill_values.
Qed.
End Laws.
