(* ===== verification/FutureChain.v ===== *)
(** Chains of [then] on futures, and the life of a promise.  A chain of callbacks
    on the immediate queue is compared with a reference pipeline that knows
    nothing of storages, handlers or the order in which they meet. *)

From stdpp Require Import gmap.
From S2P Require Import Prelude Errors Effects FutureUtils FutureStorage Future FutureLaws.

Section Chain.
Context {V U : Type}.
Context (user_code : nat → cb_args V → M U (cb_result V)).
Context (tuple_elements : V → list V).

Local Abbreviation world := (world V U).
Local Abbreviation action := (action V).
Local Abbreviation run := (run user_code tuple_elements).

(** ** The reference pipeline *)

(** What a future for [Rs] holds after a callback returned [r]; [None] when [r]
    does not have the type the future was made for, or is itself a future. *)
Definition cb_result_finish (Rs : list field) (r : cb_result V) :
  option (finish_type V) :=
  match r, Rs with
  | Cb_void, [Fvoid] => Some [Val None]
  | Cb_value v, [Fval] => Some [Val (Some v)]
  | Cb_expected e, [t] => if elt_ok t e then Some [e] else None
  | Cb_segmented vs, _ =>
      if decide (length vs = fullfill_size Rs) then Some (fullfill_to_finish Rs 0 vs)
      else None
  | _, _ => None
  end.

(** A stage: an error passes by; a value goes through the callback. *)
Definition then_stage (id : nat) (Rs : list field) (f : finish_type V) :
  M U (finish_type V) :=
  match get_first_error f with
  | Some e => mret (fail_to_expect Rs e)
  | None => λ u,
      match user_code id (Args_values (values_of f)) u with
      | (Ret r, u') =>
          match cb_result_finish Rs r with
          | Some g => (Ret g, u')
          | None => (Crash Assertion_failed, u')
          end
      | (Throw e, u') => (Ret (fail_to_expect Rs e), u')
      | (Crash c, u') => (Crash c, u')
      end
  end.

Fixpoint pipeline (stages : list (nat * list field)) (f : finish_type V) :
  M U (finish_type V) :=
  match stages with
  | [] => mret f
  | (id, Rs) :: stages => g ← then_stage id Rs f; pipeline stages g
  end.

(** Attaching the stages to a future, one [then] after the other. *)
Fixpoint then_chain (fuel : nat) (fut : nat) (stages : list (nat * list field)) :
  M world nat :=
  match stages with
  | [] => mret fut
  | (id, Rs) :: stages =>
      r ← Basic_future_then user_code tuple_elements fuel fut Immediate_queue
            (Cb_user id) Rs;
      then_chain fuel r stages
  end.

(** ** One stage *)

Lemma cb_result_gives Rs r g l :
  cb_result_finish Rs r = Some g →
  ∃ a, gives l Rs a g ∧ ∀ self : action → M world unit, deliver self l r = self a.
Proof.
  destruct r as [|v|e|f|vs]; simpl.
  - destruct Rs as [|[] [|]]; intros; simplify_eq.
    exists (Act_fullfill l []). split; [|done].
    by apply (gives_fullfill l [Fvoid] []).
  - destruct Rs as [|[] [|]]; intros; simplify_eq.
    exists (Act_fullfill l [v]). split; [|done].
    by apply (gives_fullfill l [Fval] [v]).
  - destruct Rs as [|t [|]]; intros; simplify_eq.
    destruct (elt_ok t e) eqn:He; simplify_eq.
    exists (Act_finish l [e]). split; [|done]. constructor. by constructor.
  - by destruct Rs.
  - case_decide as Hlen; intros H; [|by destruct Rs].
    assert (g = fullfill_to_finish Rs 0 vs) as ->.
    { destruct Rs; simpl in *; congruence. }
    exists (Act_fullfill l vs). split; [|done]. by constructor.
Qed.

(** What a [then] handler does when it gets [f], if giving the next storage its
    result always succeeds: it runs the stage, and the next action. *)
Lemma then_handler_stage n Ts l id Rs f w g u :
  f ≠ [] → then_stage id Rs f (user_state w) = (Ret g, u) →
  (∀ a, gives l Rs a g → ∃ w', run n a (set_user_state u w) = (Ret tt, w')) →
  ∃ a, gives l Rs a g ∧
    heap_handler_finish (run (S n)) (Future_then_handler Ts Immediate_queue l (Cb_user id)) f w
    = run n a (set_user_state u w).
Proof.
  unfold then_stage. intros Hne Hst Hnt.
  assert (w = set_user_state (user_state w) w) as Hw by by destruct w.
  destruct (get_first_error f) as [e|] eqn:He.
  { exists (Act_fail l e). rewrite then_finish_error with (e:=e) by done.
    unfold mret, M_ret in Hst. simplify_eq. rewrite <- Hw. split; [constructor|done]. }
  rewrite then_finish_values by done. simpl.
  unfold try_catch, mbind, M_bind, zoom. simpl.
  destruct (user_code id (Args_values (values_of f)) (user_state w)) as [[r|e|c] u'].
  - destruct (cb_result_finish Rs r) as [g'|] eqn:Hr; simplify_eq.
    destruct (cb_result_gives Rs r g l Hr) as (a & Ha & Hdel).
    exists a. split; [done|]. rewrite Hdel.
    by destruct (Hnt a Ha) as (w' & ->).
  - simplify_eq. exists (Act_fail l e). by split; [constructor|].
  - done.
Qed.

(** ** The whole chain *)

(** The storages from [l] on are linked by [then] handlers that run [stages]; the
    last has no handler yet.  Later storages have larger addresses. *)
Inductive linked (w : world) : nat → list field → list (nat * list field) → nat →
  list field → Prop :=
| linked_end l Ts :
    storages w !! l = Some (Ts, pending) → linked w l Ts [] l Ts
| linked_then l Ts id l' Rs stages last Ls :
    storages w !! l =
      Some (Ts, attached (Future_then_handler Ts Immediate_queue l' (Cb_user id))) →
    l < l' → Rs ≠ [] → linked w l' Rs stages last Ls →
    linked w l Ts ((id, Rs) :: stages) last Ls.

Lemma linked_agree w w' l Ts stages last Ls :
  (∀ x, l ≤ x → storages w' !! x = storages w !! x) →
  linked w l Ts stages last Ls → linked w' l Ts stages last Ls.
Proof.
  intros Hx Hl. induction Hl as [l Ts Hl|l Ts id l' Rs stages last Ls Hl Hlt HRs _ IH].
  - apply linked_end. by rewrite Hx.
  - apply linked_then with l'; [by rewrite Hx|done|done|].
    apply IH. intros x Hle. apply Hx. lia.
Qed.

Lemma finish_ok_nonempty Ts f : Ts ≠ [] → finish_ok Ts f → f ≠ ([] : finish_type V).
Proof. intros HTs Hok ->. by inversion Hok; subst. Qed.

Lemma linked_last_ge w l Ts stages last Ls : linked w l Ts stages last Ls → l ≤ last.
Proof. induction 1; lia. Qed.

(** The program's callbacks never throw out of a chain: giving a linked storage a
    result returns normally whenever the pipeline does. *)
Lemma give_linked stages : ∀ n w l Ts last Ls a f g u,
  linked w l Ts stages last Ls → Ts ≠ [] → gives l Ts a f →
  pipeline stages f (user_state w) = (Ret g, u) →
  ∃ w', run (S (2 * length stages + n)) a w = (Ret tt, w') ∧
    user_state w' = u ∧ storages w' !! last = Some (Ls, finished g) ∧
    next_loc w' = next_loc w.
Proof.
  induction stages as [|[id Rs] stages IH]; intros n w l Ts last Ls a f g u Hl HTs Ha Hp.
  - inversion Hl; subst. eexists. rewrite (give_pending _ _ _ _ _ _ _ _ Ha H).
    split; [done|]. unfold pipeline, mret, M_ret in Hp. simplify_eq/=.
    by rewrite lookup_insert_eq.
  - inversion Hl as [|? ? ? l' ? ? ? ? Hat Hlt HRs Hl']; subst.
    simpl in Hp. unfold mbind, M_bind in Hp.
    destruct (then_stage id Rs f (user_state w)) as [[g1|e|c] u1] eqn:Hst; [|done|done].
    set (w1 := set_storage l (Ts, attached Handler_moved) w).
    assert (Hl1 : linked (set_user_state u1 w1) l' Rs stages last Ls).
    { revert Hl'. apply linked_agree. intros x Hx. simpl.
      by rewrite lookup_insert_ne by lia. }
    pose proof (λ a Ha, IH n _ _ _ _ _ a _ _ _ Hl1 HRs Ha Hp) as IH1.
    replace (2 * length ((id, Rs) :: stages) + n) with (S (S (2 * length stages + n)))
      by (simpl; lia).
    rewrite (give_attached _ _ _ _ Ts _ _
      (Future_then_handler Ts Immediate_queue l' (Cb_user id)) _ Ha eq_refl HTs Hat).
    fold w1.
    destruct (then_handler_stage (S (2 * length stages + n)) Ts l' id Rs f w1 g1 u1)
      as (a' & Ha' & ->); [exact (finish_ok_nonempty Ts f HTs (gives_ok _ _ _ _ Ha))|done| |].
    + intros a' Ha'. destruct (IH1 a' Ha') as (w' & -> & _). by exists w'.
    + destruct (IH1 a' Ha') as (w' & Hrun & Hu & Hlast & Hloc). by exists w'.
Qed.

(** ** Attaching a chain *)

Definition set_next_loc n (w : world) : world :=
  World (storages w) (landings w) (std_promises w) (queues w) (user_state w) n.

(** [then] allocates the next future, then attaches the handler. *)
Lemma Basic_future_then_unfold fuel fut q cb Rs Ts st w :
  storages w !! fut = Some (Ts, st) → fut < next_loc w →
  let w1 := set_next_loc (S (next_loc w)) (set_storage (next_loc w) (Rs, pending) w) in
  Basic_future_then user_code tuple_elements fuel fut q cb Rs w =
  match run fuel (Act_set_handler fut (Future_then_handler Ts q (next_loc w) cb)) w1 with
  | (Ret _, w2) => (Ret (next_loc w), w2)
  | (Throw e, w2) => (Throw e, w2)
  | (Crash c, w2) => (Crash c, w2)
  end.
Proof.
  intros Hf Hlt. unfold Basic_future_then, allocate, future_fields, on_storage.
  unfold mbind, M_bind, mret, M_ret. simpl. rewrite lookup_insert_ne by lia.
  rewrite Hf. unfold set_storages. simpl. rewrite (insert_id _ fut (Ts, st)); [done|].
  rewrite lookup_insert_ne by lia. done.
Qed.

Lemma linked_snoc w l Ts pre last Ls id Rs l' :
  linked w l Ts pre last Ls → last < l' → Rs ≠ [] →
  linked (set_storage last (Ls, attached (Future_then_handler Ls Immediate_queue l' (Cb_user id)))
           (set_storage l' (Rs, pending) w))
    l Ts (pre ++ [(id, Rs)]) l' Rs.
Proof.
  intros Hl. induction Hl as [l Ts Hl|l Ts id0 l0 Rs0 stages last Ls Hl Hlt HRs0 Hl0 IH];
    intros Hlast HRs; simpl.
  - apply linked_then with l'; [|done|done|].
    + simpl. by rewrite lookup_insert_eq.
    + apply linked_end. simpl. rewrite lookup_insert_ne by lia. by rewrite lookup_insert_eq.
  - apply linked_last_ge in Hl0. apply linked_then with l0; [|done|done|by apply IH].
    simpl. rewrite !lookup_insert_ne by lia. done.
Qed.

Lemma then_chain_linked stages : ∀ fuel w l Ts pre last Ls,
  linked w l Ts pre last Ls → last < next_loc w →
  Forall (λ s, s.2 ≠ []) stages →
  ∃ r w' Rs, then_chain (S fuel) last stages w = (Ret r, w') ∧
    linked w' l Ts (pre ++ stages) r Rs ∧ r < next_loc w' ∧ user_state w' = user_state w.
Proof.
  induction stages as [|[id Rs] stages IH]; intros fuel w l Ts pre last Ls Hl Hlt Hok.
  { exists last, w, Ls. by rewrite app_nil_r. }
  apply Forall_cons in Hok as [HRs Hok]. simpl in HRs.
  assert (storages w !! last = Some (Ls, pending)) as Hlast.
  { clear -Hl. by induction Hl. }
  cbn [then_chain]. unfold mbind at 1, M_bind at 1.
  rewrite (Basic_future_then_unfold _ _ _ _ _ _ _ _ Hlast Hlt).
  rewrite (set_handler_pending _ _ _ _ Ls) by (simpl; by rewrite lookup_insert_ne by lia).
  set (w1 := set_storage last _ (set_next_loc _ _)).
  assert (linked w1 l Ts (pre ++ [(id, Rs)]) (next_loc w) Rs) as Hl1.
  { eapply linked_agree; [|by apply (linked_snoc w l Ts pre last Ls id Rs (next_loc w))].
    done. }
  destruct (IH fuel w1 l Ts _ _ _ Hl1 ltac:(simpl; lia) Hok)
    as (r & w' & Rs' & Hrun & Hl' & Hlt' & Hu).
  rewrite <- app_assoc in Hl'. by exists r, w', Rs'.
Qed.

(** The same on a future that already has its result: every [then] runs its
    callback at once. *)
Lemma then_chain_finished stages : ∀ n w l Ts f g u,
  storages w !! l = Some (Ts, finished f) → l < next_loc w → f ≠ [] →
  Forall (λ s, s.2 ≠ []) stages →
  pipeline stages f (user_state w) = (Ret g, u) →
  ∃ r w' Rs, then_chain (S (S (S n))) l stages w = (Ret r, w') ∧
    user_state w' = u ∧ storages w' !! r = Some (Rs, finished g).
Proof.
  induction stages as [|[id Rs] stages IH]; intros n w l Ts f g u Hl Hlt Hf Hok Hp.
  { exists l, w, Ts. unfold pipeline, mret, M_ret in Hp. by simplify_eq. }
  apply Forall_cons in Hok as [HRs Hok]. simpl in HRs, Hp. unfold mbind, M_bind in Hp.
  destruct (then_stage id Rs f (user_state w)) as [[g1|e|c] u1] eqn:Hst; [|done|done].
  cbn [then_chain]. unfold mbind at 1, M_bind at 1.
  rewrite (Basic_future_then_unfold _ _ _ _ _ _ _ _ Hl Hlt).
  rewrite (set_handler_finished _ _ _ _ Ts _ f)
    by (simpl; by rewrite lookup_insert_ne by lia).
  set (w1 := set_storage l _ (set_next_loc _ _)).
  assert (storages (set_user_state u1 w1) !! next_loc w = Some (Rs, pending)) as Hnew.
  { simpl. rewrite lookup_insert_ne by lia. by rewrite lookup_insert_eq. }
  destruct (then_handler_stage (S n) Ts (next_loc w) id Rs f w1 g1 u1)
    as (a & Ha & ->); [done|done| |].
  { intros a Ha. eexists. apply (give_pending _ _ _ _ _ _ _ _ Ha Hnew). }
  rewrite (give_pending _ _ _ _ _ _ _ _ Ha Hnew).
  eapply IH; [simpl; by rewrite lookup_insert_eq|simpl; lia| |done|done].
  exact (finish_ok_nonempty Rs g1 HRs (gives_ok _ _ _ _ Ha)).
Qed.

Lemma pipeline_app before after f :
  pipeline (before ++ after) f ≈ (g ← pipeline before f; pipeline after g).
Proof.
  revert f. induction before as [|[id Rs] before IH]; intros f u; [done|]. simpl.
  unfold mbind, M_bind. destruct (then_stage id Rs f u) as [[g|e|c] u1]; [|done|done].
  rewrite (IH g u1). unfold mbind, M_bind. done.
Qed.

Lemma pipeline_ok stages f u g u' :
  f ≠ [] → Forall (λ s, s.2 ≠ []) stages → pipeline stages f u = (Ret g, u') → g ≠ [].
Proof.
  revert f u. induction stages as [|[id Rs] stages IH]; intros f u Hf Hok Hp.
  { unfold pipeline, mret, M_ret in Hp. by simplify_eq. }
  apply Forall_cons in Hok as [HRs Hok]. simpl in HRs, Hp. unfold mbind, M_bind in Hp.
  destruct (then_stage id Rs f u) as [[g1|e|c] u1] eqn:Hst; [|done|done].
  apply (IH g1 u1); [|done|done]. clear Hp IH. unfold then_stage in Hst.
  destruct (get_first_error f).
  { unfold mret, M_ret in Hst. simplify_eq. by destruct Rs. }
  destruct (user_code id _ u) as [[r|e|c] u2]; [|simplify_eq; by destruct Rs|done].
  destruct (cb_result_finish Rs r) as [g2|] eqn:Hr; simplify_eq.
  destruct (cb_result_gives Rs r g1 0 Hr) as (a & Ha & _).
  exact (finish_ok_nonempty Rs g1 HRs (gives_ok _ _ _ _ Ha)).
Qed.
End Chain.

(** C1: a chain of [then] on the immediate queue computes the reference pipeline:
    whether the stages are attached before the future gets its result, after, or
    partly before and partly after, every callback runs at most once, in order,
    on the values of the previous stage; an error, thrown or returned, passes the
    remaining callbacks by; and the last future ends with the pipeline's result.
    Twice as many nested calls as there are stages are enough. *)
Theorem then_chain_computes_pipeline {V U} (user_code : nat → cb_args V → M U (cb_result V))
  (tuple_elements : V → list V) (fuel : nat) (w : world V U) (l : nat) (Ts : list field)
  (a : action V) (f g : finish_type V) (u : U) (before after : list (nat * list field))
  (HTs : Ts ≠ []) (Hfields : Forall (λ s, s.2 ≠ []) (before ++ after))
  (Hl : storages w !! l = Some (Ts, pending)) (Hnext : l < next_loc w)
  (Ha : gives l Ts a f) (Hp : pipeline user_code (before ++ after) f (user_state w) = (Ret g, u))
  (Hfuel : 2 * length before + 3 ≤ fuel) :
  ∃ r w' Rs,
    (m ← then_chain user_code tuple_elements fuel l before;
     run user_code tuple_elements fuel a ;;
     then_chain user_code tuple_elements fuel m after) w = (Ret r, w') ∧
    user_state w' = u ∧ storages w' !! r = Some (Rs, finished g).
Proof.
  apply Forall_app in Hfields as [Hb Haf].
  rewrite (pipeline_app _ before after f (user_state w)) in Hp. unfold mbind, M_bind in Hp.
  destruct (pipeline user_code before f (user_state w)) as [[g1|e|c] u1] eqn:Hpb;
    [|done|done].
  assert (∃ n, fuel = S (2 * length before + S (S n))) as [n ->].
  { exists (fuel - 2 * length before - 3). lia. }
  destruct (then_chain_linked user_code tuple_elements before
              (2 * length before + S (S n)) w l Ts [] l Ts)
    as (m & w1 & Rs & Hrun1 & Hl1 & Hlt1 & Hu1); [by apply linked_end|done|done|].
  simpl in Hl1. rewrite <- Hu1 in Hpb.
  destruct (give_linked user_code tuple_elements before (S (S n)) _ _ _ _ _ _ _ _ _
              Hl1 HTs Ha Hpb) as (w2 & Hrun2 & Hu2 & Hm2 & Hnext2).
  unfold mbind, M_bind. rewrite Hrun1, Hrun2.
  replace (S (2 * length before + S (S n))) with (S (S (S (2 * length before + n)))) by lia.
  eapply then_chain_finished; [done|lia| |done|by rewrite Hu2].
  eapply pipeline_ok; [|exact Hb|exact Hpb].
  exact (finish_ok_nonempty Ts f HTs (gives_ok _ _ _ _ Ha)).
Qed.

(** Two callbacks on [1]: the first adds one, the second records what it gets and
    throws; the third is not run. *)
Definition demo_code (id : nat) (args : cb_args nat) : M (list nat) (cb_result nat) := λ u,
  match id, args with
  | 0, Args_values [v] => (Ret (Cb_value (S v)), u)
  | 1, Args_values [v] => (Throw (error_internal "bad"), u ++ [v])
  | _, _ => (Ret Cb_void, u ++ [100])
  end.

Definition demo_world (x : future_storage nat handler) : world nat (list nat) :=
  World {[0 := ([Fval], x)]} ∅ ∅ ∅ [] 1.

Lemma then_chain_computes_pipeline_witness :
  ∃ r w' Rs,
    (m ← then_chain demo_code (λ v, [v]) 5 0 [(0, [Fval])];
     run demo_code (λ v, [v]) 5 (Act_fullfill 0 [1]) ;;
     then_chain demo_code (λ v, [v]) 5 m [(1, [Fval]); (2, [Fvoid])])
      (demo_world pending) = (Ret r, w') ∧
    user_state w' = [2] ∧
    storages w' !! r = Some (Rs, finished [Err (error_internal "bad")]).
Proof.
  apply (then_chain_computes_pipeline demo_code (λ v, [v]) 5 (demo_world pending) 0 [Fval]
           (Act_fullfill 0 [1]) [Val (Some 1)]).
  - done.
  - repeat constructor; done.
  - reflexivity.
  - simpl; lia.
  - by apply (gives_fullfill 0 [Fval] [1]).
  - reflexivity.
  - simpl; lia.
Defined.
