(* ===== verification/FuturePromise.v ===== *)
(** The life of a [Promise]: whatever its owner does with it, its future gets one
    result, and a promise that is dropped gives [Unfullfilled_promise]. *)

From stdpp Require Import gmap.
From S2P Require Import Prelude Errors Effects FutureUtils FutureStorage Future FutureLaws.

Section Promise.
Context {V U : Type}.
Context (user_code : nat → cb_args V → M U (cb_result V)).
Context (tuple_elements : V → list V).

Local Abbreviation world := (world V U).
Local Abbreviation run := (run user_code tuple_elements).

(** What the owner of a promise can call. *)
Inductive promise_op :=
| P_get_future
| P_finish (f : finish_type V)
| P_set_value (v : fullfill_type V)
| P_set_exception (e : exn).

Definition run_promise_op (fuel : nat) (op : promise_op) (p : promise) :
  M world promise :=
  match op with
  | P_get_future => '(p', _) ← Basic_promise_get_future p; mret p'
  | P_finish f => Basic_promise_finish user_code tuple_elements fuel f p
  | P_set_value v => Basic_promise_set_value user_code tuple_elements fuel v p
  | P_set_exception e => Basic_promise_set_exception user_code tuple_elements fuel e p
  end.

Fixpoint run_promise_ops (fuel : nat) (ops : list promise_op) (p : promise) :
  M world promise :=
  match ops with
  | [] => mret p
  | op :: ops => p' ← run_promise_op fuel op p; run_promise_ops fuel ops p'
  end.

(** Create a promise, use it, destroy it. *)
Definition promise_life (fuel : nat) (Ts : list field) (ops : list promise_op) :
  M world unit :=
  p ← Basic_promise_init Ts;
  p' ← run_promise_ops fuel ops p;
  Basic_promise_destroy user_code tuple_elements fuel p'.

(** The result an operation assigns. *)
Definition assigns (Ts : list field) (op : promise_op) : option (finish_type V) :=
  match op with
  | P_get_future => None
  | P_finish f => Some f
  | P_set_value v => Some (fullfill_to_finish Ts 0 v)
  | P_set_exception e => Some (fail_to_expect Ts e)
  end.

Definition is_get_future (op : promise_op) : bool :=
  match op with P_get_future => true | _ => false end.

Definition op_typed (Ts : list field) (op : promise_op) : Prop :=
  match op with
  | P_finish f => finish_ok Ts f
  | P_set_value v => fullfill_ok Ts v
  | _ => True
  end.

Lemma assign_op fuel l Ts op r p w :
  storages w !! l = Some (Ts, pending) → op_typed Ts op → assigns Ts op = Some r →
  value_assigned_ p = false → storage_ p = Some l →
  run_promise_op (S fuel) op p w = (Ret (promise_assigned p), set_storage l (Ts, finished r) w).
Proof.
  intros Hl Hty Has Hva Hst.
  assert (∃ a, gives l Ts a r ∧ ∀ n,
    run_promise_op n op p w =
    (l ← promise_storage p; run n a ;; mret (promise_assigned p)) w) as (a & Ha & ->).
  { destruct op as [|f|v|e]; simpl in *; simplify_eq.
    - exists (Act_finish l r). split; [by constructor|]. intros n.
      unfold Basic_promise_finish, promise_storage. rewrite Hst, Hva. done.
    - exists (Act_fullfill l v). split; [by constructor|]. intros n.
      unfold Basic_promise_set_value, promise_storage. rewrite Hst, Hva. done.
    - exists (Act_fail l e). split; [by constructor|]. intros n.
      unfold Basic_promise_set_exception, promise_storage. rewrite Hst, Hva. done. }
  pose proof (give_pending user_code tuple_elements fuel _ _ _ _ _ Ha Hl) as Hrun.
  unfold promise_storage. rewrite Hst, Hva. unfold mbind, M_bind, massert, mret, M_ret.
  cbn [negb]. by rewrite Hrun.
Qed.

Lemma assign_twice fuel Ts op r p w :
  assigns Ts op = Some r → value_assigned_ p = true →
  run_promise_op fuel op p w = (Crash Assertion_failed, w).
Proof.
  destruct op; intros Has Hva; [done| | |];
    unfold run_promise_op, Basic_promise_finish, Basic_promise_set_value,
      Basic_promise_set_exception, promise_storage; rewrite Hva;
    by destruct (storage_ p).
Qed.

(** The first result of a list of operations, and whether the asserts hold: at
    most one result and at most one future. *)
Definition first_result (Ts : list field) (ops : list promise_op) :
  option (finish_type V) := head (omap (assigns Ts) ops).

Definition ops_legal (Ts : list field) (created assigned : bool)
  (ops : list promise_op) : bool :=
  ((if created then 1 else 0) + countb is_get_future ops <=? 1) &&
  ((if assigned then 1 else 0) + length (omap (assigns Ts) ops) <=? 1).

Definition settled (l : nat) (Ts : list field) (r : finish_type V) (w : world) : Prop :=
  storages w !! l = Some (Ts, finished r).

(** Running the operations, then destroying the promise. *)
Definition rest_of_life (fuel : nat) (ops : list promise_op) (p : promise) :
  M world unit :=
  p' ← run_promise_ops fuel ops p;
  Basic_promise_destroy user_code tuple_elements fuel p'.

Lemma rest_of_life_cons fuel op ops p :
  rest_of_life fuel (op :: ops) p ≈
  (p' ← run_promise_op fuel op p; rest_of_life fuel ops p').
Proof. intros w. unfold rest_of_life. simpl. apply mbind_assoc. Qed.

(** After the result was assigned. *)
Lemma rest_of_life_assigned fuel Ts ops : ∀ p w,
  value_assigned_ p = true →
  rest_of_life fuel ops p w =
  if ops_legal Ts (future_created_ p) true ops then (Ret tt, w)
  else (Crash Assertion_failed, w).
Proof.
  induction ops as [|op ops IH]; intros p w Hva.
  - unfold rest_of_life, Basic_promise_destroy. simpl. munfold. rewrite Hva.
    destruct (storage_ p); by destruct (future_created_ p).
  - rewrite rest_of_life_cons. unfold mbind, M_bind, ops_legal.
    rewrite countb_cons. simpl. destruct (assigns Ts op) as [r|] eqn:Has.
    + rewrite (assign_twice _ Ts _ r) by done. simpl. by rewrite andb_false_r.
    + destruct op; try done. simpl. unfold Basic_promise_get_future.
      destruct (future_created_ p) eqn:Hc; [done|]. simpl.
      munfold. rewrite IH by done. done.
Qed.

(** Before. *)
Lemma rest_of_life_unassigned fuel l Ts ops : ∀ p w,
  Forall (op_typed Ts) ops → storages w !! l = Some (Ts, pending) →
  value_assigned_ p = false → storage_ p = Some l →
  let '(o, w') := rest_of_life (S fuel) ops p w in
  if ops_legal Ts (future_created_ p) false ops then
    o = Ret tt ∧
    settled l Ts (default (fail_to_expect Ts Unfullfilled_promise) (first_result Ts ops)) w'
  else o = Crash Assertion_failed.
Proof.
  induction ops as [|op ops IH]; intros p w Hty Hl Hva Hst.
  - assert (ops_legal Ts (future_created_ p) false [] = true) as -> by
      by destruct (future_created_ p).
    unfold rest_of_life, Basic_promise_destroy. simpl run_promise_ops. munfold.
    rewrite Hst, Hva.
    rewrite (give_pending _ _ _ _ _ _ _ _ (gives_fail l Ts Unfullfilled_promise) Hl).
    split; [done|]. unfold settled. simpl. by rewrite lookup_insert_eq.
  - apply Forall_cons in Hty as [Hop Hty].
    pose proof (rest_of_life_cons (S fuel) op ops p w) as ->.
    unfold mbind, M_bind, ops_legal, first_result. rewrite countb_cons. simpl.
    destruct (assigns Ts op) as [r|] eqn:Has.
    + rewrite (assign_op fuel l Ts op r p w) by done.
      rewrite (rest_of_life_assigned _ Ts) by done.
      assert (is_get_future op = false) as -> by by destruct op.
      unfold ops_legal. simpl. destruct (_ && _); [|done].
      split; [done|]. unfold settled. simpl. by rewrite lookup_insert_eq.
    + destruct op; try done. simpl. unfold Basic_promise_get_future.
      destruct (future_created_ p) eqn:Hc; [done|]. simpl. munfold.
      specialize (IH (Promise true (value_assigned_ p) (storage_ p)) w Hty Hl Hva Hst).
      simpl in IH. unfold first_result, ops_legal in IH. simpl in IH. apply IH.
Qed.
End Promise.

(** C19: over the life of a promise, when its owner obtains at most one future and
    assigns at most one result, nothing asserts and the future's storage ends
    with exactly that result, or with [Unfullfilled_promise] in every field when
    none was assigned before the promise was destroyed; otherwise an [assert]
    stops the program. *)
Theorem promise_settles_once {V U} (user_code : nat → cb_args V → M U (cb_result V))
  (tuple_elements : V → list V) (fuel : nat) (Ts : list field)
  (ops : list promise_op) (w : world V U) (Hty : Forall (op_typed Ts) ops) :
  let '(o, w') := promise_life user_code tuple_elements (S fuel) Ts ops w in
  if ops_legal Ts false false ops then
    o = Ret tt ∧ settled (next_loc w) Ts
      (default (fail_to_expect Ts Unfullfilled_promise) (first_result Ts ops)) w'
  else o = Crash Assertion_failed.
Proof.
  unfold promise_life, Basic_promise_init, allocate.
  unfold mbind at 1 2, M_bind at 1 2. unfold mret, M_ret.
  apply (rest_of_life_unassigned _ _ _ (next_loc w)); simpl; try done.
  by rewrite lookup_insert_eq.
Qed.

Lemma promise_settles_once_witness :
  Forall (op_typed [Fval; Fvoid]) [P_get_future; P_set_value [3]] ∧
  let '(o, w') :=
    promise_life (V:=nat) (U:=unit) (λ _ _ u, (Ret Cb_void, u)) (λ v, [v]) 1 [Fval; Fvoid]
      [P_get_future; P_set_value [3]] (World ∅ ∅ ∅ ∅ tt 0) in
  o = Ret tt ∧ settled 0 [Fval; Fvoid] [Val (Some 3); Val None] w'.
Proof.
  assert (Forall (op_typed [Fval; Fvoid]) [P_get_future; P_set_value [3]]) as Hty
    by (repeat constructor).
  split; [exact Hty|].
  exact (promise_settles_once (V:=nat) (U:=unit) (λ _ _ u, (Ret Cb_void, u)) (λ v, [v]) 0
           [Fval; Fvoid] [P_get_future; P_set_value [3]] (World ∅ ∅ ∅ ∅ tt 0) Hty).
Defined.
