(* ===== verification/FutureJoin.v ===== *)
(** [join]: the joined future is finished by the last of its children, with every
    child's result in its own position, whatever the order in which the children
    finish and whatever the interleaving with the attachment of the handlers. *)

From stdpp Require Import gmap.
From S2P Require Import Prelude Errors Effects FutureUtils FutureStorage Future FutureLaws.

Section Join.
Context {V U : Type}.
Context (user_code : nat → cb_args V → M U (cb_result V)).
Context (tuple_elements : V → list V).
Context (value_init : V).

Local Abbreviation world := (world V U).
Local Abbreviation action := (action V).
Local Abbreviation run := (run user_code tuple_elements).

(** The children: their addresses, their fields, and the results they get. *)
Context (futs : list nat) (ts : list field) (es : list (finish_elt V)).

(** The landing, and the address of the joined future. *)
Context (l dl : nat).

(** What happens to the children: [join] attaches the next handler, or somebody
    finishes child [i]. *)
Inductive join_event := Bind | Complete (i : nat) (a : action).

Fixpoint run_join (fuel : nat) (evs : list join_event) (bound : nat) : M world unit :=
  match evs with
  | [] => mret tt
  | Bind :: evs =>
      match futs !! bound with
      | Some f =>
          Basic_future_finally user_code tuple_elements fuel f Immediate_queue
            (Cb_landing l bound) ;;
          run_join fuel evs (S bound)
      | None => crash_with Assertion_failed
      end
  | Complete _ a :: evs => run fuel a ;; run_join fuel evs bound
  end.

(** Child [i] has its handler and its result. *)
Definition arrived (bound : nat) (D : nat → bool) (i : nat) : bool := (i <? bound) && D i.

Definition child_storage (bound : nat) (D : nat → bool) (i : nat) (t : field)
  (e : finish_elt V) (st : future_storage V handler) : Prop :=
  if D i then
    if i <? bound then callback_ st = Some Handler_moved else st = finished [e]
  else
    if i <? bound then
      st = attached (Future_finally_handler [t] Immediate_queue (Cb_landing l i))
    else st = pending.

(** How many children have arrived. *)
Definition arrivals (bound : nat) (D : nat → bool) : nat :=
  countb (arrived bound D) (seq 0 (length futs)).

Record join_inv (bound : nat) (D : nat → bool) (w : world) : Prop := {
  inv_child : ∀ i f t e, futs !! i = Some f → ts !! i = Some t → es !! i = Some e →
    ∃ st, storages w !! f = Some ([t], st) ∧ child_storage bound D i t e st;
  inv_landing : ∃ ls, landings w !! l = Some (Landing ls (arrivals bound D) dl) ∧
    length ls = length futs ∧
    ∀ i e, arrived bound D i = true → es !! i = Some e → ls !! i = Some e;
  inv_dst : storages w !! dl =
    Some (ts, if arrivals bound D =? length futs then finished es else pending)
}.

(** The children are distinct futures of one field, other than the joined one. *)
Record join_shape : Prop := {
  shape_ts : length ts = length futs;
  shape_es : length es = length futs;
  shape_ok : Forall2 (λ t e, elt_ok t e = true) ts es;
  shape_nodup : NoDup futs;
  shape_dst : dl ∉ futs
}.
Context (Hshape : join_shape).

Lemma child_data i f :
  futs !! i = Some f → ∃ t e, ts !! i = Some t ∧ es !! i = Some e ∧ elt_ok t e = true.
Proof.
  intros Hf. destruct Hshape as [Hts Hes Hok _ _].
  destruct (lookup_lt_is_Some_2 ts i) as [t Ht].
  { rewrite Hts. by eapply lookup_lt_Some. }
  destruct (lookup_lt_is_Some_2 es i) as [e He].
  { rewrite Hes. by eapply lookup_lt_Some. }
  exists t, e. split; [done|]. split; [done|]. exact (Forall2_lookup_lr _ _ _ _ _ _ Hok Ht He).
Qed.

(** *** A child arrives *)

Local Arguments Nat.eqb : simpl never.

(** The handler of child [i] stores the result, counts it, and finishes the joined
    future when it is the last. *)
Lemma arrive fuel bound D bound' D' i f t e w :
  futs !! i = Some f → ts !! i = Some t → es !! i = Some e →
  (∃ ls, landings w !! l = Some (Landing ls (arrivals bound D) dl) ∧
    length ls = length futs ∧
    ∀ j x, arrived bound D j = true → es !! j = Some x → ls !! j = Some x) →
  storages w !! dl = Some (ts, if arrivals bound D =? length futs then finished es else pending) →
  arrived bound D i = false → arrived bound' D' i = true →
  (∀ j, j ≠ i → arrived bound' D' j = arrived bound D j) →
  ∃ w', heap_handler_finish (run (S (S fuel)))
          (Future_finally_handler [t] Immediate_queue (Cb_landing l i)) [e] w = (Ret tt, w') ∧
    (∃ ls, landings w' !! l = Some (Landing ls (arrivals bound' D') dl) ∧
      length ls = length futs ∧
      ∀ j x, arrived bound' D' j = true → es !! j = Some x → ls !! j = Some x) ∧
    storages w' !! dl =
      Some (ts, if arrivals bound' D' =? length futs then finished es else pending) ∧
    ∀ x, x ≠ dl → storages w' !! x = storages w !! x.
Proof.
  intros Hf Ht He (ls & Hls & Hlen & Hslots) Hdst Hno Hyes Hother.
  assert (i < length futs) as Hi by (by eapply lookup_lt_Some).
  assert (arrivals bound' D' = S (arrivals bound D)) as Hcount
    by (by apply countb_seq_flip with i).
  assert (∀ j x, arrived bound' D' j = true → es !! j = Some x → <[i:=e]> ls !! j = Some x)
    as Hslots'.
  { intros j x Hj Hx. destruct (decide (j = i)) as [->|Hne].
    - rewrite list_lookup_insert_eq by (rewrite Hlen; lia). congruence.
    - rewrite list_lookup_insert_ne by done. apply Hslots; [|done]. by rewrite <- Hother. }
  assert (arrivals bound D < length futs) as Hlt.
  { destruct (decide (arrivals bound D = length futs)) as [Hall|Hne].
    - apply countb_all with (i:=i) in Hall; [congruence|done].
    - pose proof (countb_le (arrived bound D) (seq 0 (length futs))) as Hle.
      rewrite length_seq in Hle. unfold arrivals in *. lia. }
  apply Nat.lt_neq, Nat.eqb_neq in Hlt. rewrite Hlt in Hdst.
  remember (S fuel) as m eqn:Hm.
  simpl. unfold finally_do_finish, enqueue. cbn [run run_action run_task apply_callback].
  unfold store_landing, Landing_ping. munfold. rewrite Hls. simpl. rewrite lookup_insert_eq.
  cbn [fullfilled_ landing_ landing_dst].
  rewrite insert_insert_eq, length_insert, Hlen, <- Hcount.
  destruct (arrivals bound' D' =? length futs) eqn:Hend.
  - assert (<[i:=e]> ls = es) as ->.
    { apply list_eq_same_length with (length futs);
        [destruct Hshape; lia|by rewrite length_insert|].
      intros j x y Hj Hx Hy. apply Nat.eqb_eq in Hend.
      unfold arrivals in Hend. pose proof (proj1 (countb_all _ _) Hend j Hj) as Harr.
      pose proof (Hslots' j y Harr Hy). congruence. }
    subst m. rewrite (give_pending _ _ _ dl ts) with (f:=es);
      [|by apply gives_finish, shape_ok|done].
    eexists. split; [done|split; [|split]].
    + simpl. eexists. rewrite lookup_insert_eq. split; [done|]. split; [|done].
      destruct Hshape; lia.
    + simpl. by rewrite lookup_insert_eq.
    + intros x Hx. simpl. by rewrite lookup_insert_ne.
  - eexists. split; [done|]. split; [|split; [done|done]].
    simpl. eexists. rewrite lookup_insert_eq. by rewrite length_insert.
Qed.

(** *** One event *)

Lemma child_ne_dst i f : futs !! i = Some f → f ≠ dl.
Proof. intros Hf ->. apply (shape_dst Hshape). by eapply list_elem_of_lookup_2. Qed.

Lemma children_distinct i j f g :
  futs !! i = Some f → futs !! j = Some g → i ≠ j → f ≠ g.
Proof.
  intros Hf Hg Hij ->. apply Hij. exact (NoDup_lookup _ _ _ _ (shape_nodup Hshape) Hf Hg).
Qed.

(** Only child [i] changed. *)
Lemma inv_child_update bound D bound' D' i f t e st (w w' : world) :
  join_inv bound D w → futs !! i = Some f → ts !! i = Some t → es !! i = Some e →
  storages w' !! f = Some ([t], st) → child_storage bound' D' i t e st →
  (∀ x, x ≠ dl → x ≠ f → storages w' !! x = storages w !! x) →
  (∀ j, j ≠ i → D' j = D j ∧ (j <? bound') = (j <? bound)) →
  ∀ j g t' e', futs !! j = Some g → ts !! j = Some t' → es !! j = Some e' →
    ∃ st, storages w' !! g = Some ([t'], st) ∧ child_storage bound' D' j t' e' st.
Proof.
  intros Hinv Hf Ht He Hst Hch Hframe Hsame j g t' e' Hg Ht' He'.
  destruct (decide (j = i)) as [->|Hij]; [simplify_eq; by exists st|].
  destruct (inv_child _ _ _ Hinv j g t' e' Hg Ht' He') as (st' & Hst' & Hch').
  exists st'. rewrite Hframe;
    [|by eapply child_ne_dst|by eapply (children_distinct j i)].
  destruct (Hsame j Hij) as [HD Hb]. split; [done|].
  revert Hch'. unfold child_storage. by rewrite HD, Hb.
Qed.

Lemma ltb_S_ne i n : i ≠ n → (i <? S n) = (i <? n).
Proof. intros. destruct (Nat.ltb_spec i (S n)), (Nat.ltb_spec i n); lia. Qed.

(** Only child [i] is at another point. *)
Definition only_at (i bound : nat) (D : nat → bool) (bound' : nat) (D' : nat → bool) : Prop :=
  ∀ j, j ≠ i → D' j = D j ∧ (j <? bound') = (j <? bound).

Lemma arrived_only_at i bound D bound' D' j :
  only_at i bound D bound' D' → j ≠ i → arrived bound' D' j = arrived bound D j.
Proof. intros Hsame Hj. unfold arrived. by destruct (Hsame j Hj) as [-> ->]. Qed.

(** Its handler runs: it has both its handler and its result now. *)
Lemma child_fires fuel bound D bound' D' i f t e st w :
  join_inv bound D w → futs !! i = Some f → ts !! i = Some t → es !! i = Some e →
  only_at i bound D bound' D' → arrived bound D i = false → arrived bound' D' i = true →
  child_storage bound' D' i t e st →
  ∃ w', heap_handler_finish (run (S (S fuel)))
          (Future_finally_handler [t] Immediate_queue (Cb_landing l i)) [e]
          (set_storage f ([t], st) w) = (Ret tt, w') ∧ join_inv bound' D' w'.
Proof.
  intros Hinv Hf Ht He Hsame Hno Hyes Hch.
  destruct (arrive fuel bound D bound' D' i f t e (set_storage f ([t], st) w))
    as (w' & Hrun & Hland & Hdst & Hframe); [done|done|done|apply Hinv| |done|done| |].
  { simpl. rewrite lookup_insert_ne by (by eapply child_ne_dst). apply Hinv. }
  { intros j Hj. by eapply arrived_only_at. }
  exists w'. split; [done|]. split; [|done|done].
  eapply (inv_child_update bound D bound' D' i f t e st w); try done.
  - rewrite Hframe by (by eapply child_ne_dst). simpl. by rewrite lookup_insert_eq.
  - intros x Hx Hxf. rewrite Hframe by done. simpl. by rewrite lookup_insert_ne.
Qed.

(** It still waits for one of the two. *)
Lemma child_waits bound D bound' D' i f t e st w :
  join_inv bound D w → futs !! i = Some f → ts !! i = Some t → es !! i = Some e →
  only_at i bound D bound' D' → arrived bound' D' i = arrived bound D i →
  child_storage bound' D' i t e st → join_inv bound' D' (set_storage f ([t], st) w).
Proof.
  intros Hinv Hf Ht He Hsame Hi Hch.
  assert (∀ j, arrived bound' D' j = arrived bound D j) as Harr.
  { intros j. destruct (decide (j = i)) as [->|Hj]; [done|by eapply arrived_only_at]. }
  assert (arrivals bound' D' = arrivals bound D) as Hcount
    by (apply countb_ext; intros; apply Harr).
  split.
  - eapply (inv_child_update bound D bound' D' i f t e st w); try done.
    + simpl. by rewrite lookup_insert_eq.
    + intros x Hx Hxf. simpl. by rewrite lookup_insert_ne.
  - destruct (inv_landing _ _ _ Hinv) as (ls & Hls & Hlen & Hslots).
    rewrite Hcount. exists ls. split; [done|]. split; [done|].
    intros j x Hj. apply Hslots. by rewrite <- Harr.
  - rewrite Hcount. simpl. rewrite lookup_insert_ne by (by eapply child_ne_dst). apply Hinv.
Qed.

(** [finally] attaches a handler for the fields of its future. *)
Lemma finally_runs fuel f Ts st cb w :
  storages w !! f = Some (Ts, st) →
  Basic_future_finally user_code tuple_elements fuel f Immediate_queue cb w =
    run fuel (Act_set_handler f (Future_finally_handler Ts Immediate_queue cb)) w.
Proof.
  intros Hst. unfold Basic_future_finally, future_fields, on_storage, mbind, M_bind.
  rewrite Hst. simpl. unfold set_storages. rewrite (insert_id _ f (Ts, st)) by done.
  by destruct w.
Qed.

(** [join] attaches its next handler. *)
Lemma bind_step fuel bound D f w :
  join_inv bound D w → futs !! bound = Some f →
  ∃ w', Basic_future_finally user_code tuple_elements (S (S (S fuel))) f Immediate_queue
          (Cb_landing l bound) w = (Ret tt, w') ∧ join_inv (S bound) D w'.
Proof.
  intros Hinv Hf. destruct (child_data bound f Hf) as (t & e & Ht & He & Hte).
  destruct (inv_child _ _ _ Hinv _ _ _ _ Hf Ht He) as (st & Hst & Hch).
  rewrite (finally_runs _ _ _ _ _ _ Hst).
  assert (only_at bound bound D (S bound) D) as Hsame
    by (intros j Hj; by rewrite ltb_S_ne).
  assert ((bound <? S bound) = true) as Hb by (apply Nat.ltb_lt; lia).
  unfold child_storage in Hch. rewrite Nat.ltb_irrefl in Hch.
  destruct (D bound) eqn:HD; subst st.
  - rewrite (set_handler_finished _ _ _ _ _ _ _ _ Hst).
    eapply child_fires; try done; unfold arrived, child_storage;
      by rewrite ?Nat.ltb_irrefl, ?HD, ?Hb.
  - rewrite (set_handler_pending _ _ _ _ _ _ _ Hst). eexists. split; [done|].
    eapply child_waits; try done; unfold arrived, child_storage; by rewrite HD, ?andb_false_r, ?Hb.
Qed.

Definition add_done (i : nat) (D : nat → bool) (j : nat) : bool := (j =? i) || D j.

(** Somebody finishes child [i]. *)
Lemma complete_step fuel bound D i f t e a w :
  join_inv bound D w → futs !! i = Some f → ts !! i = Some t → es !! i = Some e →
  D i = false → gives f [t] a [e] →
  ∃ w', run (S (S (S fuel))) a w = (Ret tt, w') ∧ join_inv bound (add_done i D) w'.
Proof.
  intros Hinv Hf Ht He HD Ha.
  destruct (inv_child _ _ _ Hinv _ _ _ _ Hf Ht He) as (st & Hst & Hch).
  unfold child_storage in Hch. rewrite HD in Hch.
  assert (add_done i D i = true) as HD' by (unfold add_done; by rewrite Nat.eqb_refl).
  assert (only_at i bound D bound (add_done i D)) as Hsame.
  { intros j Hj. unfold add_done. by apply Nat.eqb_neq in Hj as ->. }
  destruct (i <? bound) eqn:Hb; subst st.
  - rewrite (give_attached _ _ _ _ [t] _ _
      (Future_finally_handler [t] Immediate_queue (Cb_landing l i)) _ Ha eq_refl
      ltac:(done) Hst).
    eapply child_fires; try done; unfold arrived, child_storage; by rewrite ?Hb, ?HD, ?HD'.
  - rewrite (give_pending _ _ _ _ _ _ _ _ Ha Hst). eexists. split; [done|].
    eapply child_waits; try done; unfold arrived, child_storage; by rewrite Hb, ?HD'.
Qed.

(** *** Any interleaving *)

(** Each child is finished at most once, with a result of its type. *)
Fixpoint legal (evs : list join_event) (D : nat → bool) : Prop :=
  match evs with
  | [] => True
  | Bind :: evs => legal evs D
  | Complete i a :: evs =>
      D i = false ∧
      (∃ f t e, futs !! i = Some f ∧ ts !! i = Some t ∧ es !! i = Some e ∧
                gives f [t] a [e]) ∧
      legal evs (add_done i D)
  end.

Fixpoint binds (evs : list join_event) : nat :=
  match evs with
  | [] => 0
  | Bind :: evs => S (binds evs)
  | Complete _ _ :: evs => binds evs
  end.

Fixpoint all_done (evs : list join_event) (D : nat → bool) : nat → bool :=
  match evs with
  | [] => D
  | Bind :: evs => all_done evs D
  | Complete i _ :: evs => all_done evs (add_done i D)
  end.

Lemma run_join_inv fuel evs : ∀ bound D w,
  join_inv bound D w → legal evs D → bound + binds evs ≤ length futs →
  ∃ w', run_join (S (S (S fuel))) evs bound w = (Ret tt, w') ∧
        join_inv (bound + binds evs) (all_done evs D) w'.
Proof.
  induction evs as [|[|i a] evs IH]; intros bound D w Hinv Hleg Hb; simpl in Hleg, Hb.
  - exists w. by rewrite Nat.add_0_r.
  - destruct (lookup_lt_is_Some_2 futs bound) as [f Hf]; [lia|].
    destruct (bind_step fuel bound D f w Hinv Hf) as (w1 & Hrun1 & Hinv1).
    destruct (IH (S bound) D w1 Hinv1 Hleg) as (w2 & Hrun2 & Hinv2); [lia|].
    exists w2. cbn [run_join]. rewrite Hf. unfold mbind, M_bind. rewrite Hrun1.
    split; [done|]. simpl. by rewrite Nat.add_succ_r.
  - destruct Hleg as (HD & (f & t & e & Hf & Ht & He & Ha) & Hleg).
    destruct (complete_step fuel bound D i f t e a w Hinv Hf Ht He HD Ha)
      as (w1 & Hrun1 & Hinv1).
    destruct (IH bound _ w1 Hinv1 Hleg Hb) as (w2 & Hrun2 & Hinv2).
    exists w2. cbn [run_join]. unfold mbind, M_bind. by rewrite Hrun1.
Qed.

Lemma run_join_app fuel evs1 : ∀ evs2 bound,
  run_join fuel (evs1 ++ evs2) bound ≈
  (run_join fuel evs1 bound ;; run_join fuel evs2 (bound + binds evs1)).
Proof.
  induction evs1 as [|[|i a] evs1 IH]; intros evs2 bound; simpl.
  - by rewrite Nat.add_0_r.
  - destruct (futs !! bound) as [f|]; [|done]. rewrite mbind_assoc.
    intros w. apply mbind_proper; [|done]. intros []. rewrite IH.
    by rewrite Nat.add_succ_r.
  - rewrite mbind_assoc. intros w. apply mbind_proper; [|done]. intros []. apply IH.
Qed.

Lemma bind_landing_run_join fuel n : ∀ bound,
  bound + n = length futs →
  bind_landing user_code tuple_elements fuel bound l (drop bound futs) ≈
  run_join fuel (replicate n Bind) bound.
Proof.
  induction n as [|n IH]; intros bound Hn.
  - rewrite drop_ge by lia. done.
  - destruct (lookup_lt_is_Some_2 futs bound) as [f Hf]; [lia|].
    rewrite (drop_S_cons _ _ _ Hf). simpl. rewrite Hf.
    intros w. apply mbind_proper; [|done]. intros []. apply IH. lia.
Qed.

(** The joined future is done exactly when every child has its handler and its
    result. *)
Lemma join_inv_dst bound D w :
  join_inv bound D w →
  storages w !! dl = Some (ts, if forallb (arrived bound D) (seq 0 (length futs))
                               then finished es else pending).
Proof.
  intros Hinv. rewrite (inv_dst _ _ _ Hinv).
  assert ((arrivals bound D =? length futs) =
          forallb (arrived bound D) (seq 0 (length futs))) as ->; [|done].
  apply eq_true_iff_eq. rewrite forallb_forall, Nat.eqb_eq. unfold arrivals.
  rewrite countb_all. split; intros H i Hi.
  - apply H. apply in_seq in Hi. lia.
  - apply H. apply in_seq. lia.
Qed.
End Join.

Arguments Bind {V}.
Arguments Complete {V} i a.

Section Join_begin.
Context {V U : Type}.
Context (value_init : V).

(** The children before the call: distinct futures of one field, some with their
    result, the others without. *)
Record join_ready (futs : list nat) (ts : list field) (es : list (finish_elt V))
  (D : nat → bool) (w : world V U) : Prop := {
  ready_ts : length ts = length futs;
  ready_ok : Forall2 (λ t e, elt_ok t e = true) ts es;
  ready_nodup : NoDup futs;
  ready_lt : Forall (λ f, f < next_loc w) futs;
  ready_child : ∀ i f t e, futs !! i = Some f → ts !! i = Some t → es !! i = Some e →
    storages w !! f = Some ([t], if D i then finished [e] else pending)
}.

Lemma join_ready_shape futs ts es D w :
  join_ready futs ts es D w → join_shape futs ts es (S (next_loc w)).
Proof.
  intros [Hts Hok Hnd Hlt Hch]. split; try done.
  - rewrite <- Hts. symmetry. by eapply Forall2_length.
  - intros Hin. rewrite Forall_forall in Hlt. apply Hlt in Hin. lia.
Qed.

Lemma join_begin_inv futs ts es D w :
  join_ready futs ts es D w → futs ≠ [] →
  ∃ w', join_begin value_init futs w = (Ret (next_loc w, S (next_loc w)), w') ∧
        join_inv futs ts es (next_loc w) (S (next_loc w)) 0 D w'.
Proof.
  intros Hready Hne. pose proof (join_ready_shape _ _ _ _ _ Hready) as Hshape.
  assert (decay_future <$> ((λ f, (default ([], Future_storage_init) (storages w !! f)).1)
            <$> futs) = ts) as Hts.
  { apply list_eq_same_length with (length futs); [apply Hready|by rewrite !length_fmap|].
    intros i x y Hi Hx Hy. rewrite !list_lookup_fmap in Hx.
    destruct (futs !! i) as [f|] eqn:Hf; [|done]. simpl in Hx.
    destruct (child_data futs ts es _ Hshape i f Hf) as (t & e & Ht & He & _).
    rewrite (ready_child _ _ _ _ _ Hready _ _ _ _ Hf Ht He) in Hx. simpl in Hx. congruence. }
  assert (arrivals futs 0 D = 0) as Hzero.
  { unfold arrivals. rewrite (countb_ext _ (λ _, false)) by done.
    generalize (seq 0 (length futs)). induction l as [|x l IH]; [done|].
    by rewrite countb_cons. }
  unfold join_begin. munfold. unfold allocate. simpl. rewrite Hts.
  eexists. split; [reflexivity|]. split.
  - intros i f t e Hf Ht He. eexists. split; [simpl|].
    + rewrite lookup_insert_ne; [by eapply ready_child|].
      intros Hf'. subst f. apply (shape_dst _ _ _ _ Hshape). by eapply list_elem_of_lookup_2.
    + unfold child_storage. simpl. by destruct (D i).
  - exists (expected_init value_init <$> ts). rewrite Hzero. simpl.
    rewrite lookup_insert_eq, length_fmap. split; [done|]. split; [apply Hready|done].
  - rewrite Hzero. simpl. rewrite lookup_insert_eq.
    by destruct futs.
Qed.
End Join_begin.

(** The lists of events the two theorems run. *)
Section Events.
Context {V U : Type}.
Context (user_code : nat → cb_args V → M U (cb_result V)).
Context (tuple_elements : V → list V).
Context (value_init : V).

Lemma binds_app (evs1 evs2 : list (join_event (V:=V))) :
  binds (evs1 ++ evs2) = binds evs1 + binds evs2.
Proof. induction evs1 as [|[|i a] evs1 IH]; simpl; [done|lia|done]. Qed.

Lemma binds_binds n : binds (replicate n (Bind : join_event (V:=V))) = n.
Proof. induction n; simpl; congruence. Qed.

Lemma binds_completes (later : list (nat * action V)) :
  binds (uncurry Complete <$> later) = 0.
Proof. by induction later as [|[] later IH]. Qed.

Lemma legal_binds futs ts es n (evs : list (join_event (V:=V))) D :
  legal futs ts es (replicate n Bind ++ evs) D ↔ legal futs ts es evs D.
Proof. by induction n. Qed.

Lemma all_done_binds n (evs : list (join_event (V:=V))) D :
  all_done (replicate n Bind ++ evs) D = all_done evs D.
Proof. by induction n. Qed.

Lemma all_done_completes (later : list (nat * action V)) D i :
  all_done (uncurry Complete <$> later) D i = D i || bool_decide (i ∈ later.*1).
Proof.
  revert D. induction later as [|[j a] later IH]; intros D.
  - simpl. by rewrite orb_false_r.
  - cbn [fmap list_fmap uncurry all_done fst]. rewrite IH. unfold add_done.
    rewrite (bool_decide_ext (i ∈ j :: _) (i = j ∨ i ∈ later.*1)) by apply elem_of_cons.
    rewrite bool_decide_or. destruct (Nat.eqb_spec i j) as [->|Hij].
    + by rewrite (bool_decide_true (j = j)), !orb_true_r by done.
    + by rewrite (bool_decide_false (i = j)) by done.
Qed.

Lemma run_join_completes futs l fuel later bound :
  run_join (U:=U) user_code tuple_elements futs l fuel (uncurry Complete <$> later) bound =
  for_each_in (λ c, run user_code tuple_elements fuel c.2) later.
Proof.
  induction later as [|[i a] later IH]; [done|].
  cbn [fmap list_fmap uncurry run_join for_each_in snd]. by rewrite <- IH.
Qed.

(** The set-up, then any legal events. *)
Lemma join_events fuel (w : world V U) futs ts es D evs :
  join_ready futs ts es D w → futs ≠ [] → legal futs ts es evs D →
  binds evs ≤ length futs →
  ∃ w1 w2, join_begin value_init futs w = (Ret (next_loc w, S (next_loc w)), w1) ∧
    run_join user_code tuple_elements futs (next_loc w) (S (S (S fuel))) evs 0 w1
      = (Ret tt, w2) ∧
    storages w2 !! S (next_loc w) =
      Some (ts, if forallb (arrived (binds evs) (all_done evs D)) (seq 0 (length futs))
                then finished es else pending).
Proof.
  intros Hready Hne Hlegal Hbinds.
  destruct (join_begin_inv value_init _ _ _ _ _ Hready Hne) as (w1 & Hrun1 & Hinv1).
  pose proof (join_ready_shape _ _ _ _ _ Hready) as Hshape.
  destruct (run_join_inv user_code tuple_elements futs ts es _ _ Hshape fuel evs 0 D w1
              Hinv1 Hlegal Hbinds) as (w2 & Hrun2 & Hinv2).
  exists w1, w2. split; [done|]. split; [done|]. by apply join_inv_dst with (1:=Hinv2).
Qed.
End Events.

(** Two children that have no result yet. *)
Definition demo_code (id : nat) (args : cb_args nat) : M unit (cb_result nat) :=
  mret Cb_void.

Definition demo_children : world nat unit :=
  World {[0 := ([Fval], pending); 1 := ([Fvoid], pending)]} ∅ ∅ ∅ tt 2.

Lemma demo_ready :
  join_ready [0; 1] [Fval; Fvoid] [Val (Some 7); Err (error_aborted "no")] (λ _, false)
    demo_children.
Proof.
  split.
  - reflexivity.
  - repeat constructor.
  - by apply (bool_decide_unpack _).
  - repeat constructor.
  - intros [|[|i]] f t e Hf Ht He; by simplify_eq/=.
Qed.

(** C18: from the moment [join] has set up its landing, for every interleaving of
    the attachment of its handlers with the completion of the children by others,
    nothing fails, and the joined future has its result exactly when every child
    has both its handler and its result; that result has, in each position, what
    the child in that position was given. *)
Theorem join_interleaved {V U} (user_code : nat → cb_args V → M U (cb_result V))
  (tuple_elements : V → list V) (value_init : V) (fuel : nat) (w : world V U)
  (futs : list nat) (ts : list field) (es : list (finish_elt V)) (D : nat → bool)
  (evs : list (join_event (V:=V)))
  (Hready : join_ready futs ts es D w) (Hne : futs ≠ [])
  (Hlegal : legal futs ts es evs D) (Hbinds : binds evs ≤ length futs) :
  ∃ w',
    ('(l, dst) ← join_begin value_init futs;
     run_join user_code tuple_elements futs l (S (S (S fuel))) evs 0 ;; mret dst) w
    = (Ret (S (next_loc w)), w') ∧
    storages w' !! S (next_loc w) =
      Some (ts, if forallb (arrived (binds evs) (all_done evs D)) (seq 0 (length futs))
                then finished es else pending).
Proof.
  destruct (join_events user_code tuple_elements value_init fuel w futs ts es D evs
              Hready Hne Hlegal Hbinds) as (w1 & w2 & Hrun1 & Hrun2 & Hdst).
  exists w2. unfold mbind, M_bind. by rewrite Hrun1, Hrun2.
Qed.

Lemma join_interleaved_witness :
  ∃ w',
    ('(l, dst) ← join_begin 0 [0; 1];
     run_join demo_code (λ v, [v]) [0; 1] l 3
       [Bind; Complete 1 (Act_fail 1 (error_aborted "no")); Bind;
        Complete 0 (Act_fullfill 0 [7])] 0 ;; mret dst) demo_children
    = (Ret 3, w') ∧
    storages w' !! 3 =
      Some ([Fval; Fvoid], finished [Val (Some 7); Err (error_aborted "no")]).
Proof.
  apply (join_interleaved demo_code (λ v, [v]) 0 0 demo_children [0; 1] [Fval; Fvoid]
           [Val (Some 7); Err (error_aborted "no")] (λ _, false)
           [Bind; Complete 1 (Act_fail 1 (error_aborted "no")); Bind;
            Complete 0 (Act_fullfill 0 [7])]).
  - exact demo_ready.
  - discriminate.
  - simpl. split; [reflexivity|]. split.
    + exists 1, Fvoid, (Err (error_aborted "no")). repeat split.
      apply (gives_fail 1 [Fvoid]).
    + split; [reflexivity|]. split; [|exact I].
      exists 0, Fval, (Val (Some 7)). repeat split.
      by apply (gives_fullfill 0 [Fval] [7]).
  - simpl. lia.
Defined.

(** [join] called on futures some of which already have their result, followed
    by the completion of others in any order: the joined future gets its result
    with the last child, and not before. *)
Theorem join_finishes_with_last {V U} (user_code : nat → cb_args V → M U (cb_result V))
  (tuple_elements : V → list V) (value_init : V) (fuel : nat) (w : world V U)
  (futs : list nat) (ts : list field) (es : list (finish_elt V)) (D : nat → bool)
  (later : list (nat * action V))
  (Hready : join_ready futs ts es D w) (Hne : futs ≠ [])
  (Hlegal : legal futs ts es (uncurry Complete <$> later) D) :
  ∃ w',
    (dst ← join user_code tuple_elements (S (S (S fuel))) value_init futs;
     for_each_in (λ c, run user_code tuple_elements (S (S (S fuel))) c.2) later ;;
     mret dst) w = (Ret (S (next_loc w)), w') ∧
    storages w' !! S (next_loc w) =
      Some (ts, if forallb (λ i, D i || bool_decide (i ∈ later.*1)) (seq 0 (length futs))
                then finished es else pending).
Proof.
  set (evs := replicate (length futs) Bind ++ (uncurry Complete <$> later)).
  assert (binds evs = length futs) as Hbinds.
  { unfold evs. by rewrite binds_app, binds_binds, binds_completes, Nat.add_0_r. }
  destruct (join_events user_code tuple_elements value_init fuel w futs ts es D evs
              Hready Hne) as (w1 & w2 & Hrun1 & Hrun2 & Hdst).
  { unfold evs. by rewrite legal_binds. }
  { lia. }
  exists w2. split.
  - revert Hrun2. unfold evs. rewrite (run_join_app _ _ _ _ _ _ _ _ w1).
    rewrite binds_binds, run_join_completes.
    unfold join, mbind, M_bind. rewrite Hrun1.
    rewrite <- (bind_landing_run_join user_code tuple_elements futs _ _ _ 0 eq_refl w1).
    rewrite drop_0.
    destruct (bind_landing _ _ _ _ _ _ w1) as [[[]|e|c] w3]; [|done|done].
    unfold mret, M_ret. by intros ->.
  - rewrite Hdst, Hbinds. unfold evs. rewrite all_done_binds.
    erewrite forallb_ext_in; [reflexivity|]. intros i Hi%elem_of_seq.
    unfold arrived. rewrite all_done_completes.
    by assert ((i <? length futs) = true) as -> by (apply Nat.ltb_lt; lia).
Qed.

Lemma join_finishes_with_last_witness :
  ∃ w',
    (dst ← join demo_code (λ v, [v]) 3 0 [0; 1];
     for_each_in (λ c, run demo_code (λ v, [v]) 3 c.2)
       [(1, Act_fail 1 (error_aborted "no"))] ;;
     mret dst) demo_children = (Ret 3, w') ∧
    storages w' !! 3 = Some ([Fval; Fvoid], pending).
Proof.
  apply (join_finishes_with_last demo_code (λ v, [v]) 0 0 demo_children [0; 1] [Fval; Fvoid]
           [Val (Some 7); Err (error_aborted "no")] (λ _, false)
           [(1, Act_fail 1 (error_aborted "no"))]).
  - exact demo_ready.
  - discriminate.
  - simpl. split; [reflexivity|]. split; [|exact I].
    exists 1, Fvoid, (Err (error_aborted "no")). repeat split.
    apply (gives_fail 1 [Fvoid]).
Defined.
