(* ===== verification/FutureTyping.v ===== *)
(** What the C++ type checker and the ownership of promises and futures guarantee
    about the heap of Future.v: every storage, handler, queued closure and landing
    has the type it was declared with, and whoever may still give a future its
    result, or its handler, is the only one.  The rules are stated here, with the
    lemmas that say how the invariant changes with one part of the heap. *)

From stdpp Require Import gmap.
From S2P Require Import Prelude Errors Effects FutureUtils FutureStorage Future FutureLaws.

(** ** Signatures of the program's callbacks *)

(** Where a callback is used: given to [then] or [then_expect] on a future of
    fields [Ts] for a future of fields [Rs], to [finally], or to [async]. *)
Inductive signature :=
| Sig_then (Ts Rs : list field)
| Sig_then_expect (Ts Rs : list field)
| Sig_finally (Ts : list field)
| Sig_async (Rs : list field).

(** The fields of every storage, and the joined future of every landing. *)
Record heap_types := HeapTypes {
  storage_types : gmap nat (list field);
  landing_types : gmap nat nat
}.

Definition types_le (E E' : heap_types) : Prop :=
  storage_types E ⊆ storage_types E' ∧ landing_types E ⊆ landing_types E'.

#[export] Instance types_le_preorder : PreOrder types_le.
Proof.
  split; [done|]. intros E1 E2 E3 [H1 H2] [H3 H4]. split; by etrans.
Qed.

(** *** Rights *)

(** The right to give a storage its result, and the right to attach its handler. *)
Inductive cap := Prod (l : nat) | Cons (l : nat).

#[export] Instance cap_eq_dec : EqDecision cap.
Proof. solve_decision. Defined.

Definition cap_loc (c : cap) : nat := match c with Prod l | Cons l => l end.

(** How often a right occurs. *)
Definition is_cap (c : cap) (x : cap) : bool := bool_decide (x = c).
Abbreviation occ c := (countb (is_cap c)).

Section Typing.
Context {V U : Type}.
Local Abbreviation world := (world V U).
Local Abbreviation action := (action V).
Local Abbreviation task := (task V).
Local Abbreviation storage := (future_storage V handler).

Definition types_of (w : world) : heap_types :=
  HeapTypes (fst <$> storages w) (landing_dst <$> landings w).

(** What a callback may be given, and what it may return. *)
Definition args_ok (s : signature) (args : cb_args V) : Prop :=
  match s, args with
  | Sig_then Ts _, Args_values v => fullfill_ok Ts v
  | Sig_then_expect Ts _, Args_expected f => finish_ok Ts f
  | Sig_finally Ts, Args_expected f => finish_ok Ts f
  | Sig_async _, Args_values v => v = []
  | _, _ => False
  end.

Definition result_fields_ok (E : heap_types) (Rs : list field) (r : cb_result V) : Prop :=
  match r with
  | Cb_void => fullfill_ok Rs ([] : list V)
  | Cb_value v => fullfill_ok Rs [v]
  | Cb_expected e => finish_ok Rs [e]
  | Cb_future f => storage_types E !! f = Some Rs
  | Cb_segmented vs => fullfill_ok Rs vs
  end.

(** [finally] ignores what its callback returns; [async] has no overload for
    [void] and [expected]. *)
Definition result_ok (E : heap_types) (s : signature) (r : cb_result V) : Prop :=
  match s with
  | Sig_then _ Rs | Sig_then_expect _ Rs => result_fields_ok E Rs r
  | Sig_finally _ => True
  | Sig_async Rs =>
      result_fields_ok E Rs r ∧
      match r with Cb_void | Cb_expected _ => False | _ => True end
  end.

(** "Terminating callbacks must not throw exceptions." *)
Definition may_throw (s : signature) : bool :=
  match s with Sig_finally _ => false | _ => true end.

(** The right that goes with a result. *)
Definition result_caps (r : cb_result V) : list cap :=
  match r with Cb_future f => [Cons f] | _ => [] end.

(** What a program promises to the library: the signature of each callback; the
    futures its own state holds, and what makes that state well typed; and that
    its callbacks keep both.  A callback gives up the future it returns. *)
Class WellTyped (user_code : nat → cb_args V → M U (cb_result V)) := {
  callback_sig : nat → signature;
  held : U → list nat;
  prog_ok : heap_types → U → Prop;
  prog_ok_le E E' u : types_le E E' → prog_ok E u → prog_ok E' u;
  callback_ok E id args u :
    prog_ok E u → args_ok (callback_sig id) args →
    match user_code id args u with
    | (Ret r, u') =>
        prog_ok E u' ∧ result_ok E (callback_sig id) r ∧
        held u ≡ₚ (match r with Cb_future f => [f] | _ => [] end) ++ held u'
    | (Throw e, u') =>
        prog_ok E u' ∧ held u ≡ₚ held u' ∧ may_throw (callback_sig id) = true
    | (Crash _, _) => False
    end
}.
Context {user_code : nat → cb_args V → M U (cb_result V)} `{!WellTyped user_code}.
Context (tuple_elements : V → list V).

(** ** Types of handlers, closures and storages *)

Definition has_type (E : heap_types) (l : nat) (Ts : list field) : Prop :=
  storage_types E !! l = Some Ts.

Definition finally_ok (E : heap_types) (Ts : list field) (cb : callback) : Prop :=
  match cb with
  | Cb_user id => callback_sig id = Sig_finally Ts
  | Cb_forward dst => has_type E dst Ts
  | Cb_landing l id =>
      ∃ t dst Rs, Ts = [t] ∧ landing_types E !! l = Some dst ∧ has_type E dst Rs ∧
        Rs !! id = Some t
  | Cb_flatten dst =>
      Ts = [Fval] ∧ ∃ Rs, has_type E dst Rs ∧
        ∀ t, finish_ok Rs ((λ v, Val (Some v)) <$> tuple_elements t)
  | Cb_std _ mode => mode = Std_single → Ts = [Fval]
  end.

Definition handler_ok (E : heap_types) (Ts : list field) (h : handler) : Prop :=
  match h with
  | Future_then_handler Ts' _ dst cb =>
      Ts' = Ts ∧ ∃ id Rs, cb = Cb_user id ∧ callback_sig id = Sig_then Ts Rs ∧ has_type E dst Rs
  | Future_then_expect_handler Ts' _ dst cb =>
      Ts' = Ts ∧ ∃ id Rs, cb = Cb_user id ∧ callback_sig id = Sig_then_expect Ts Rs ∧
        has_type E dst Rs
  | Future_finally_handler Ts' _ cb => Ts' = Ts ∧ finally_ok E Ts cb
  | Handler_moved => False
  end.

Definition task_ok (E : heap_types) (t : task) : Prop :=
  match t with
  | Task_then cb dst v =>
      ∃ id Ts Rs, cb = Cb_user id ∧ callback_sig id = Sig_then Ts Rs ∧ fullfill_ok Ts v ∧
        has_type E dst Rs
  | Task_then_fail dst _ => ∃ Rs, has_type E dst Rs
  | Task_then_expect cb dst f =>
      ∃ id Ts Rs, cb = Cb_user id ∧ callback_sig id = Sig_then_expect Ts Rs ∧ finish_ok Ts f ∧
        has_type E dst Rs
  | Task_finally cb f => ∃ Ts, finally_ok E Ts cb ∧ finish_ok Ts f
  | Task_async cb res =>
      ∃ id Rs, cb = Cb_user id ∧ callback_sig id = Sig_async Rs ∧ has_type E res Rs
  end.

Definition action_ok (E : heap_types) (a : action) : Prop :=
  match a with
  | Act_fullfill l v => ∃ Ts, has_type E l Ts ∧ fullfill_ok Ts v
  | Act_fullfill_future l f => ∃ Ts, has_type E l Ts ∧ has_type E f Ts
  | Act_finish l f => ∃ Ts, has_type E l Ts ∧ finish_ok Ts f
  | Act_fail l _ => ∃ Ts, has_type E l Ts
  | Act_set_handler l h => ∃ Ts, has_type E l Ts ∧ handler_ok E Ts h
  | Act_task t => task_ok E t
  end.

(** The states of a storage: no result and no handler, one of the two, or both. *)
Definition storage_ok (E : heap_types) (Ts : list field) (st : storage) : Prop :=
  Ts ≠ [] ∧
  (st = pending ∨ (∃ h, st = attached h ∧ handler_ok E Ts h) ∨
   (∃ f, st = finished f ∧ finish_ok Ts f) ∨
   st = attached Handler_moved ∨ (∃ f, st = fired f)).

Definition landing_ok (E : heap_types) (ld : landing V) : Prop :=
  ∃ Rs, has_type E (landing_dst ld) Rs ∧ finish_ok Rs (landing_ ld).

(** *** The rights each of them holds *)

Definition callback_caps (cb : callback) : list cap :=
  match cb with Cb_forward dst | Cb_flatten dst => [Prod dst] | _ => [] end.

Definition handler_caps (h : handler) : list cap :=
  match h with
  | Future_then_handler _ _ dst _ | Future_then_expect_handler _ _ dst _ => [Prod dst]
  | Future_finally_handler _ _ cb => callback_caps cb
  | Handler_moved => []
  end.

Definition task_caps (t : task) : list cap :=
  match t with
  | Task_then _ dst _ | Task_then_fail dst _ | Task_then_expect _ dst _ => [Prod dst]
  | Task_finally cb _ => callback_caps cb
  | Task_async _ res => [Prod res]
  end.

Definition action_caps (a : action) : list cap :=
  match a with
  | Act_fullfill l _ | Act_finish l _ | Act_fail l _ => [Prod l]
  | Act_fullfill_future l f => [Prod l; Cons f]
  | Act_set_handler l h => Cons l :: handler_caps h
  | Act_task t => task_caps t
  end.

Definition storage_caps (x : list field * storage) : list cap :=
  match callback_ x.2 with Some h => handler_caps h | None => [] end.

(** A landing gives the joined future its result when the last child arrives. *)
Definition landing_caps (ld : landing V) : list cap :=
  if fullfilled_ ld <? length (landing_ ld) then [Prod (landing_dst ld)] else [].

Definition queue_caps (ts : list task) : list cap := ts ≫= task_caps.

Definition caps_of {A} (f : A → list cap) (m : gmap nat A) : list cap :=
  map_to_list m ≫= λ kx, f kx.2.

Definition world_caps (w : world) : list cap :=
  caps_of storage_caps (storages w) ++ caps_of queue_caps (queues w) ++
  caps_of landing_caps (landings w) ++ (Cons <$> held (user_state w)).

(** When a right can be used. *)
Definition cap_usable (c : cap) (st : storage) : Prop :=
  match c with
  | Prod _ => st = pending ∨ ∃ h, st = attached h ∧ h ≠ Handler_moved
  | Cons _ => st = pending ∨ ∃ f, st = finished f
  end.

Definition cap_ok (w : world) (c : cap) : Prop :=
  ∃ Ts st, storages w !! cap_loc c = Some (Ts, st) ∧ cap_usable c st.

(** ** The invariant *)

(** [F] are the rights held outside the heap, by the program and by what is being
    run.  Every right has one holder and can be used, and everything is well
    typed. *)
Record heap_inv (F : list cap) (w : world) : Prop := HeapInv {
  inv_unique c : occ c F + occ c (world_caps w) ≤ 1;
  inv_usable c : 0 < occ c F + occ c (world_caps w) → cap_ok w c;
  inv_storages l Ts st : storages w !! l = Some (Ts, st) → storage_ok (types_of w) Ts st;
  inv_queues q ts : queues w !! q = Some ts → Forall (task_ok (types_of w)) ts;
  inv_landings l ld : landings w !! l = Some ld → landing_ok (types_of w) ld;
  inv_prog : prog_ok (types_of w) (user_state w);
  inv_fresh l : next_loc w ≤ l → storages w !! l = None ∧ landings w !! l = None
}.

(** The number of rights: what a run can use up. *)
Definition size (F : list cap) (w : world) : nat := length F + length (world_caps w).

(** ** Counting rights *)

Lemma caps_of_insert {A} (f : A → list cap) (m : gmap nat A) (k : nat) (x y : A) p :
  m !! k = Some x →
  countb p (caps_of f (<[k:=y]> m)) + countb p (f x) = countb p (caps_of f m) + countb p (f y).
Proof.
  intros Hk. unfold caps_of. rewrite <- (insert_delete_eq m k y).
  rewrite (countb_perm p (map_to_list (<[k:=y]> (delete k m)) ≫= _)
             (((k, y) :: map_to_list (delete k m)) ≫= λ kx, f kx.2)).
  2: { by apply bind_perm, map_to_list_insert, lookup_delete_eq. }
  rewrite <- (countb_perm p (((k, x) :: map_to_list (delete k m)) ≫= λ kx, f kx.2)
                (map_to_list m ≫= _)).
  2: { by apply bind_perm, map_to_list_delete. }
  rewrite !bind_cons, !countb_app. simpl. lia.
Qed.

Lemma caps_of_insert_new {A} (f : A → list cap) (m : gmap nat A) (k : nat) (y : A) p :
  m !! k = None →
  countb p (caps_of f (<[k:=y]> m)) = countb p (caps_of f m) + countb p (f y).
Proof.
  intros Hk. unfold caps_of.
  rewrite (countb_perm p (map_to_list (<[k:=y]> m) ≫= _)
             (((k, y) :: map_to_list m) ≫= λ kx, f kx.2)).
  2: { by apply bind_perm, map_to_list_insert. }
  rewrite bind_cons, countb_app. simpl. lia.
Qed.

Lemma world_caps_count p (w : world) :
  countb p (world_caps w) =
    countb p (caps_of storage_caps (storages w)) + countb p (caps_of queue_caps (queues w)) +
    countb p (caps_of landing_caps (landings w)) + countb p (Cons <$> held (user_state w)).
Proof. unfold world_caps. rewrite !countb_app. lia. Qed.

Lemma occ_pos c (F : list cap) : 0 < occ c F ↔ c ∈ F.
Proof.
  induction F as [|x F IH]; [split; [rewrite countb_nil; lia|by intros ?%elem_of_nil]|].
  rewrite countb_cons, elem_of_cons, <- IH. unfold is_cap at 1. case_bool_decide; simpl.
  - split; [auto|lia].
  - split; [auto|]. intros [->|?]; [done|lia].
Qed.

Lemma occ_self c F : occ c (c :: F) = S (occ c F).
Proof. rewrite countb_cons. unfold is_cap at 1. by rewrite bool_decide_true. Qed.

(** ** How the invariant changes with a part of the heap *)

Lemma types_fresh (w : world) l :
  (storages w !! l = None ↔ storage_types (types_of w) !! l = None) ∧
  (landings w !! l = None ↔ landing_types (types_of w) !! l = None).
Proof. simpl. rewrite !lookup_fmap, !fmap_None. done. Qed.

Lemma has_type_storage (w : world) l Ts :
  has_type (types_of w) l Ts ↔ ∃ st, storages w !! l = Some (Ts, st).
Proof.
  unfold has_type. simpl. rewrite lookup_fmap, fmap_Some. split.
  - intros ([Ts' st] & Hl & ->). by exists st.
  - intros [st Hl]. by exists (Ts, st).
Qed.

Lemma inv_change F F' (w w' : world) :
  heap_inv F w → types_of w' = types_of w → next_loc w' = next_loc w →
  (∀ c, occ c F' + occ c (world_caps w') ≤ occ c F + occ c (world_caps w)) →
  (∀ c, 0 < occ c F' + occ c (world_caps w') → cap_ok w c → cap_ok w' c) →
  (∀ l Ts st, storages w' !! l = Some (Ts, st) → storage_ok (types_of w) Ts st) →
  (∀ q ts, queues w' !! q = Some ts → Forall (task_ok (types_of w)) ts) →
  (∀ l ld, landings w' !! l = Some ld → landing_ok (types_of w) ld) →
  prog_ok (types_of w) (user_state w') →
  heap_inv F' w'.
Proof.
  intros [Hun Hus Hst Hq Hld Hpr Hfr] Hty Hnl Hcnt Hok Hst' Hq' Hld' Hpr'.
  split; rewrite ?Hty; try done.
  - intros c. specialize (Hun c). specialize (Hcnt c). lia.
  - intros c Hc. apply Hok; [done|]. apply Hus. specialize (Hcnt c). lia.
  - rewrite Hnl. intros l Hl. destruct (types_fresh w l) as [H1 H2].
    destruct (types_fresh w' l) as [H1' H2']. rewrite Hty in *.
    destruct (Hfr l Hl) as [Hs Hl']. tauto.
Qed.

(** Rights may be dropped, and their order does not matter. *)
Lemma inv_weaken F F' (w : world) :
  heap_inv F w → (∀ c, occ c F' ≤ occ c F) → heap_inv F' w.
Proof.
  intros Hinv Hle. pose proof Hinv as [_ _ Hst Hq Hld Hpr _].
  apply (inv_change F F' w w); try done. intros c. specialize (Hle c). lia.
Qed.

Lemma types_of_set_storage (w : world) l Ts st st' :
  storages w !! l = Some (Ts, st) → types_of (set_storage l (Ts, st') w) = types_of w.
Proof.
  intros Hl. unfold types_of, set_storage, set_storages. simpl. f_equal.
  rewrite fmap_insert. simpl. apply insert_id. by rewrite lookup_fmap, Hl.
Qed.

Lemma inv_storage F F' (w : world) l Ts st st' :
  heap_inv F w → storages w !! l = Some (Ts, st) → storage_ok (types_of w) Ts st' →
  (∀ c, occ c F' + occ c (storage_caps (Ts, st')) ≤ occ c F + occ c (storage_caps (Ts, st))) →
  (∀ c, cap_loc c = l → cap_usable c st → cap_usable c st' ∨
     occ c F' + occ c (storage_caps (Ts, st')) < occ c F + occ c (storage_caps (Ts, st))) →
  heap_inv F' (set_storage l (Ts, st') w).
Proof.
  intros Hinv Hl Hst' Hcnt Huse. pose proof Hinv as [Hun _ Hst Hq Hld Hpr _].
  assert (∀ c, occ c (world_caps (set_storage l (Ts, st') w)) + occ c (storage_caps (Ts, st)) =
               occ c (world_caps w) + occ c (storage_caps (Ts, st'))) as Hw.
  { intros c. rewrite !world_caps_count. simpl.
    pose proof (caps_of_insert storage_caps (storages w) l _ (Ts, st') (is_cap c) Hl). lia. }
  apply (inv_change F F' w); try done.
  - by eapply types_of_set_storage.
  - intros c. specialize (Hcnt c). specialize (Hw c). lia.
  - intros c Hc (Ts0 & st0 & Hl0 & Hu0). unfold cap_ok. simpl.
    destruct (decide (cap_loc c = l)) as [Heq|Hne].
    + rewrite Heq in *. rewrite Hl in Hl0. injection Hl0 as <- <-.
      rewrite lookup_insert_eq. destruct (Huse c Heq Hu0) as [Hu|Hlt]; [by exists Ts, st'|].
      specialize (Hun c). specialize (Hw c). lia.
    + rewrite lookup_insert_ne by done. by exists Ts0, st0.
  - simpl. intros l' Ts0 st0 [[-> [= <- <-]]|[_ Hl']]%lookup_insert_Some; [done|].
    by apply (Hst l').
Qed.

Lemma size_storage F F' (w : world) l Ts st st' :
  storages w !! l = Some (Ts, st) →
  size F' (set_storage l (Ts, st') w) + length F + length (storage_caps (Ts, st)) =
  size F w + length F' + length (storage_caps (Ts, st')).
Proof.
  intros Hl. unfold size. rewrite <- !(countb_true (world_caps _)), !world_caps_count. simpl.
  pose proof (caps_of_insert storage_caps (storages w) l _ (Ts, st') (λ _, true) Hl) as H.
  rewrite !(countb_true (storage_caps _)) in H. lia.
Qed.

Definition push_task (q : nat) (t : task) (w : world) : world :=
  set_queues (<[q := default [] (queues w !! q) ++ [t]]> (queues w)) w.

Lemma queue_caps_count p (w : world) q t :
  countb p (world_caps (push_task q t w)) = countb p (world_caps w) + countb p (task_caps t).
Proof.
  rewrite !world_caps_count. unfold push_task. simpl.
  destruct (queues w !! q) as [ts|] eqn:Hq; simpl.
  - pose proof (caps_of_insert queue_caps (queues w) q ts (ts ++ [t]) p Hq) as H.
    unfold queue_caps in H at 4. rewrite bind_app, countb_app in H. simpl in H.
    rewrite app_nil_r in H. unfold queue_caps in *. lia.
  - rewrite caps_of_insert_new by done. unfold queue_caps at 2. simpl. rewrite app_nil_r. lia.
Qed.

Lemma inv_push_task F F' (w : world) q t :
  heap_inv F w → task_ok (types_of w) t → (∀ c, occ c F' + occ c (task_caps t) ≤ occ c F) →
  heap_inv F' (push_task q t w).
Proof.
  intros Hinv Ht Hcnt. pose proof Hinv as [_ _ Hst Hq Hld Hpr _].
  apply (inv_change F F' w); try done.
  - intros c. rewrite queue_caps_count. specialize (Hcnt c). lia.
  - simpl. intros q' ts [[-> <-]|[_ Hq']]%lookup_insert_Some; [|by apply (Hq q')].
    apply Forall_app. split; [|by constructor].
    destruct (queues w !! q') as [ts|] eqn:Hq'; [by apply (Hq q')|by constructor].
Qed.

(** Taking a closure out of its queue. *)
Lemma inv_set_queue F (w : world) q t ts :
  heap_inv F w → queues w !! q = Some (t :: ts) →
  task_ok (types_of w) t ∧ heap_inv (task_caps t ++ F) (set_queues (<[q := ts]> (queues w)) w) ∧
  size (task_caps t ++ F) (set_queues (<[q := ts]> (queues w)) w) = size F w.
Proof.
  intros Hinv Hq. pose proof Hinv as [_ _ Hst Hqs Hld Hpr _].
  pose proof (Hqs q _ Hq) as [Ht Hts]%Forall_cons.
  assert (∀ p, countb p (world_caps (set_queues (<[q := ts]> (queues w)) w)) +
               countb p (task_caps t) = countb p (world_caps w)) as Hcnt.
  { intros p. rewrite !world_caps_count. simpl.
    pose proof (caps_of_insert queue_caps (queues w) q _ ts p Hq) as H.
    unfold queue_caps in H at 2. rewrite bind_cons, countb_app in H. unfold queue_caps in *. lia. }
  split; [done|]. split.
  - apply (inv_change F _ w); try done.
    + intros c. rewrite countb_app. specialize (Hcnt (is_cap c)). lia.
    + simpl. intros q' ts' [[<- <-]|[_ Hq']]%lookup_insert_Some; [done|by apply (Hqs q')].
  - unfold size. rewrite length_app, <- (countb_true (task_caps t)), <- !(countb_true (world_caps _)).
    specialize (Hcnt (λ _, true)). lia.
Qed.

Definition set_landing (l : nat) (ld : landing V) (w : world) : world :=
  set_landings (<[l := ld]> (landings w)) w.

Lemma landing_caps_count p (w : world) l ld ld' :
  landings w !! l = Some ld →
  countb p (world_caps (set_landing l ld' w)) + countb p (landing_caps ld) =
  countb p (world_caps w) + countb p (landing_caps ld').
Proof.
  intros Hl. rewrite !world_caps_count. simpl.
  pose proof (caps_of_insert landing_caps (landings w) l ld ld' p Hl). lia.
Qed.

Lemma inv_landing F F' (w : world) l ld ld' :
  heap_inv F w → landings w !! l = Some ld → landing_dst ld' = landing_dst ld →
  landing_ok (types_of w) ld' →
  (∀ c, occ c F' + occ c (landing_caps ld') ≤ occ c F + occ c (landing_caps ld)) →
  heap_inv F' (set_landing l ld' w) ∧ types_of (set_landing l ld' w) = types_of w.
Proof.
  intros Hinv Hl Hdst Hld' Hcnt. pose proof Hinv as [_ _ Hst Hq Hld Hpr _].
  assert (types_of (set_landing l ld' w) = types_of w) as Hty.
  { unfold types_of. simpl. f_equal. rewrite fmap_insert, Hdst. apply insert_id.
    by rewrite lookup_fmap, Hl. }
  split; [|done]. apply (inv_change F F' w); try done.
  - intros c. pose proof (landing_caps_count (is_cap c) w l ld ld' Hl). specialize (Hcnt c). lia.
  - simpl. intros l' ld0 [[-> <-]|[_ Hl']]%lookup_insert_Some; [done|by apply (Hld l')].
Qed.

Lemma inv_user_state F F' (w : world) u' :
  heap_inv F w → prog_ok (types_of w) u' →
  (∀ c, occ c F' + occ c (Cons <$> held u') ≤ occ c F + occ c (Cons <$> held (user_state w))) →
  heap_inv F' (set_user_state u' w).
Proof.
  intros Hinv Hu Hcnt. pose proof Hinv as [_ _ Hst Hq Hld Hpr _].
  apply (inv_change F F' w); try done.
  intros c. rewrite !world_caps_count. simpl. specialize (Hcnt c). lia.
Qed.

Lemma inv_std_promise F (w : world) m : heap_inv F w → heap_inv F (set_std_promises m w).
Proof. intros Hinv. pose proof Hinv as [_ _ Hst Hq Hld Hpr _]. by apply (inv_change F F w). Qed.

(** ** Growth of the heap *)

Section Growth.
Context (E E' : heap_types) (HE : types_le E E').

Lemma has_type_le l Ts : has_type E l Ts → has_type E' l Ts.
Proof. intros Hl. exact (lookup_weaken _ _ _ _ Hl (proj1 HE)). Qed.

Lemma finally_ok_le Ts cb : finally_ok E Ts cb → finally_ok E' Ts cb.
Proof.
  destruct cb as [id|dst|l id|dst|p mode]; simpl; [done|apply has_type_le| | |done].
  - intros (t & dst & Rs & ? & Hl & Hdst & Hid). exists t, dst, Rs.
    split; [done|]. split; [exact (lookup_weaken _ _ _ _ Hl (proj2 HE))|].
    split; [by apply has_type_le|done].
  - intros (? & Rs & Hdst & ?). split; [done|]. exists Rs. split; [by apply has_type_le|done].
Qed.

Lemma handler_ok_le Ts h : handler_ok E Ts h → handler_ok E' Ts h.
Proof.
  destruct h as [Ts' q dst cb|Ts' q dst cb|Ts' q cb|]; simpl; [..|done].
  1,2: intros (? & id & Rs & ? & ? & Hdst); split; [done|]; exists id, Rs;
       split; [done|]; split; [done|]; by apply has_type_le.
  intros [? ?]. split; [done|]. by apply finally_ok_le.
Qed.

Lemma task_ok_le t : task_ok E t → task_ok E' t.
Proof.
  destruct t as [cb dst v|dst e|cb dst f|cb f|cb res]; simpl.
  - intros (id & Ts & Rs & ? & ? & ? & ?). exists id, Ts, Rs. auto using has_type_le.
  - intros [Rs ?]. exists Rs. by apply has_type_le.
  - intros (id & Ts & Rs & ? & ? & ? & ?). exists id, Ts, Rs. auto using has_type_le.
  - intros (Ts & ? & ?). exists Ts. auto using finally_ok_le.
  - intros (id & Rs & ? & ? & ?). exists id, Rs. auto using has_type_le.
Qed.

Lemma storage_ok_le Ts st : storage_ok E Ts st → storage_ok E' Ts st.
Proof.
  intros [HTs [H|[(h & -> & Hh)|H]]]; (split; [done|]); [by left| |by do 2 right].
  right; left. exists h. auto using handler_ok_le.
Qed.

Lemma landing_ok_le ld : landing_ok E ld → landing_ok E' ld.
Proof. intros (Rs & ? & ?). exists Rs. auto using has_type_le. Qed.
End Growth.

(** A new storage, at [l]. *)
Definition add_storage (l : nat) (Ts : list field) (w : world) : world :=
  World (<[l := (Ts, pending)]> (storages w)) (landings w) (std_promises w) (queues w)
    (user_state w) (S l).

Definition add_storage_type (l : nat) (Ts : list field) (E : heap_types) : heap_types :=
  HeapTypes (<[l := Ts]> (storage_types E)) (landing_types E).

Lemma types_of_add_storage l Ts (w : world) :
  types_of (add_storage l Ts w) = add_storage_type l Ts (types_of w).
Proof. unfold types_of, add_storage_type. simpl. by rewrite fmap_insert. Qed.

Lemma world_caps_add_storage p l Ts (w : world) :
  storages w !! l = None →
  countb p (world_caps (add_storage l Ts w)) = countb p (world_caps w).
Proof.
  intros Hl. rewrite !world_caps_count. simpl. rewrite caps_of_insert_new by done.
  change (storage_caps (Ts, pending)) with (@nil cap). rewrite countb_nil. lia.
Qed.

Lemma inv_add_storage F (w : world) l Ts :
  heap_inv F w → next_loc w ≤ l → Ts ≠ [] →
  heap_inv (Prod l :: Cons l :: F) (add_storage l Ts w) ∧
  types_le (types_of w) (types_of (add_storage l Ts w)).
Proof.
  intros [Hun Hus Hst Hq Hld Hpr Hfr] Hl HTs. destruct (Hfr l Hl) as [Hls Hll].
  assert (types_le (types_of w) (types_of (add_storage l Ts w))) as Hle.
  { rewrite types_of_add_storage. split; simpl; [|done].
    apply insert_subseteq. by rewrite lookup_fmap, Hls. }
  assert (∀ c, cap_loc c = l → occ c F + occ c (world_caps w) = 0) as Hnone.
  { intros c Hc. destruct (occ c F + occ c (world_caps w)) eqn:Hn; [done|].
    destruct (Hus c) as (Ts' & st & Hst' & _); [lia|]. by rewrite Hc, Hls in Hst'. }
  split; [|done]. split.
  - intros c. rewrite world_caps_add_storage by done. rewrite !countb_cons.
    unfold is_cap at 1 2. repeat case_bool_decide; subst; try done; [..|by apply Hun];
      rewrite Nat.add_comm, Nat.add_assoc;
      [pose proof (Hnone (Prod l) eq_refl)|pose proof (Hnone (Cons l) eq_refl)]; lia.
  - intros c. rewrite world_caps_add_storage by done. intros Hc. unfold cap_ok. simpl.
    destruct (decide (cap_loc c = l)) as [->|Hne].
    + rewrite lookup_insert_eq. exists Ts, pending. split; [done|]. destruct c; by left.
    + rewrite lookup_insert_ne by done. apply Hus. rewrite !countb_cons in Hc.
      unfold is_cap at 1 2 in Hc. by repeat case_bool_decide; subst.
  - simpl. intros l' Ts' st [[<- [= <- <-]]|[_ Hl']]%lookup_insert_Some; [by split; [|left]|].
    eapply storage_ok_le; [exact Hle|by apply (Hst l')].
  - intros q ts Hts. eapply Forall_impl; [by apply (Hq q)|]. intros t. by apply task_ok_le.
  - intros l' ld Hl'. eapply landing_ok_le; [exact Hle|by apply (Hld l')].
  - by eapply prog_ok_le.
  - simpl. intros l' Hl'. rewrite lookup_insert_ne by lia. apply Hfr. lia.
Qed.

Lemma world_caps_add_landing p l ld (w : world) :
  landings w !! l = None →
  countb p (world_caps (set_landing l ld w)) = countb p (world_caps w) + countb p (landing_caps ld).
Proof. intros Hl. rewrite !world_caps_count. simpl. rewrite caps_of_insert_new by done. lia. Qed.

(** A new landing, at the unused address [l]. *)
Lemma inv_add_landing F F' (w : world) l ld :
  heap_inv F w → l < next_loc w → landings w !! l = None → landing_ok (types_of w) ld →
  (∀ c, occ c F' + occ c (landing_caps ld) ≤ occ c F) →
  heap_inv F' (set_landing l ld w) ∧
  types_of (set_landing l ld w) =
    HeapTypes (storage_types (types_of w)) (<[l := landing_dst ld]> (landing_types (types_of w))) ∧
  types_le (types_of w) (types_of (set_landing l ld w)).
Proof.
  intros [Hun Hus Hst Hq Hld Hpr Hfr] Hl Hll Hok Hcnt.
  assert (types_of (set_landing l ld w) =
    HeapTypes (storage_types (types_of w)) (<[l := landing_dst ld]> (landing_types (types_of w))))
    as Hty.
  { unfold types_of, set_landing. simpl. by rewrite fmap_insert. }
  assert (types_le (types_of w) (types_of (set_landing l ld w))) as Hle.
  { rewrite Hty. split; simpl; [done|]. apply insert_subseteq. by rewrite lookup_fmap, Hll. }
  pose proof (λ p, world_caps_add_landing p l ld w Hll) as Hw.
  split; [|done]. split.
  - intros c. rewrite Hw. specialize (Hun c). specialize (Hcnt c). lia.
  - intros c. rewrite Hw. intros Hc. apply (Hus c). specialize (Hcnt c). lia.
  - intros l' Ts st Hl'. eapply storage_ok_le; [exact Hle|by apply (Hst l')].
  - intros q ts Hts. eapply Forall_impl; [by apply (Hq q)|]. intros t. by apply task_ok_le.
  - simpl. intros l' ld' [[<- <-]|[_ Hl']]%lookup_insert_Some;
      (eapply landing_ok_le; [exact Hle|]); [done|by apply (Hld l')].
  - by eapply prog_ok_le.
  - simpl. intros l' Hl'. rewrite lookup_insert_ne by lia. by apply Hfr.
Qed.

(** An address used for something else. *)
Lemma inv_next_loc F (w w' : world) :
  heap_inv F w → storages w' = storages w → landings w' = landings w → queues w' = queues w →
  user_state w' = user_state w → next_loc w ≤ next_loc w' → heap_inv F w'.
Proof.
  intros [Hun Hus Hst Hq Hld Hpr Hfr] Hs Hl Hqs Hu Hn.
  assert (types_of w' = types_of w) as Hty by (unfold types_of; by rewrite Hs, Hl).
  assert (world_caps w' = world_caps w) as Hw by (unfold world_caps; by rewrite Hs, Hl, Hqs, Hu).
  split; rewrite ?Hty, ?Hw, ?Hs, ?Hl, ?Hqs, ?Hu; try done.
  - intros c Hc. destruct (Hus c Hc) as (Ts & st & ? & ?). exists Ts, st. by rewrite Hs.
  - intros l Hl'. apply Hfr. lia.
Qed.
End Typing.
