(* ===== verification/FutureSafety.v ===== *)
(** Well-typed programs that use each promise and each future once do not go wrong:
    nothing the library runs for them crashes, everything keeps its type and its
    one owner, and what is run comes to an end within a depth that the number of
    rights bounds. *)

From stdpp Require Import gmap.
From S2P Require Import Prelude Errors Effects FutureUtils FutureStorage Future FutureLaws FutureTyping.

(** ** Triples *)

Section Triples.
Context {S : Type}.

(** From a state in [P], [m] does not crash; it returns in [Q] or throws in [X]. *)
Definition triple {A} (P : S → Prop) (m : M S A) (Q : A → S → Prop) (X : exn → S → Prop) : Prop :=
  ∀ s, P s →
  match m s with
  | (Ret a, s') => Q a s'
  | (Throw e, s') => X e s'
  | (Crash _, _) => False
  end.

Definition no_throw : exn → S → Prop := λ _ _, False.

Lemma triple_ret {A} (a : A) (Q : A → S → Prop) X : triple (Q a) (mret a) Q X.
Proof. by intros s Hs. Qed.

Lemma triple_bind {A B} P (m : M S A) (f : A → M S B) Q R X :
  triple P m Q X → (∀ a, triple (Q a) (f a) R X) → triple P (m ≫= f) R X.
Proof.
  intros Hm Hf s Hs. specialize (Hm s Hs). unfold mbind, M_bind.
  destruct (m s) as [[a|e|c] s']; [by apply Hf|done|done].
Qed.

Lemma triple_try {A} P (m : M S A) (h : exn → M S A) Q X Y :
  triple P m Q X → (∀ e, triple (X e) (h e) Q Y) → triple P (try_catch m h) Q Y.
Proof.
  intros Hm Hh s Hs. specialize (Hm s Hs). unfold try_catch.
  destruct (m s) as [[a|e|c] s']; [done|by apply Hh|done].
Qed.

Lemma triple_weaken {A} (P P' : S → Prop) (m : M S A) (Q Q' : A → S → Prop) (X X' : exn → S → Prop) :
  triple P' m Q' X' → (∀ s, P s → P' s) → (∀ a s, Q' a s → Q a s) → (∀ e s, X' e s → X e s) →
  triple P m Q X.
Proof.
  intros Hm HP HQ HX s Hs. specialize (Hm s (HP s Hs)).
  destruct (m s) as [[a|e|c] s']; [by apply HQ|by apply HX|done].
Qed.

Lemma triple_equiv {A} P (m m' : M S A) Q X : m ≈ m' → triple P m' Q X → triple P m Q X.
Proof. intros Heq Hm s Hs. rewrite (Heq s). by apply Hm. Qed.

Lemma triple_no_throw {A} P (m : M S A) Q X : triple P m Q no_throw → triple P m Q X.
Proof. intros Hm. by eapply triple_weaken. Qed.

Lemma triple_noexcept {A} P (m : M S A) Q X : triple P m Q no_throw → triple P (noexcept m) Q X.
Proof. intros Hm s Hs. specialize (Hm s Hs). unfold noexcept, try_catch. by destruct (m s) as [[a|e|c] s']. Qed.
End Triples.

Section Safety.
#[local] Arguments Nat.eqb : simpl never.
#[local] Arguments Nat.ltb : simpl never.
Context {V U : Type} {user_code : nat → cb_args V → M U (cb_result V)}.
Context `{!WellTyped user_code} (tuple_elements : V → list V).
Local Abbreviation world := (world V U).
Local Abbreviation action := (action V).
Local Abbreviation task := (task V).
Local Abbreviation run := (run user_code tuple_elements).
Local Abbreviation heap_inv := (heap_inv tuple_elements).

(** The states with the types [E], the rights [F] outside the heap, and at most
    [B] rights in all. *)
Definition holds (E : heap_types) (N B : nat) (F : list cap) (w : world) : Prop :=
  types_of w = E ∧ next_loc w = N ∧ heap_inv F w ∧ size F w ≤ B.

Lemma holds_weaken E N B B' F F' w :
  holds E N B F w → (∀ p, countb p F' ≤ countb p F) → B ≤ B' → holds E N B' F' w.
Proof.
  intros (Hty & Hnl & Hinv & Hsz) Hle HB. split; [done|]. split; [done|].
  split; [by eapply inv_weaken|]. unfold size in *.
  specialize (Hle (λ _, true)). rewrite !countb_true in Hle. lia.
Qed.

Lemma holds_storage E N B B' F F' w l Ts st st' :
  holds E N B F w → storages w !! l = Some (Ts, st) → storage_ok tuple_elements E Ts st' →
  (∀ p, countb p F' + countb p (storage_caps (Ts, st')) ≤
        countb p F + countb p (storage_caps (Ts, st))) →
  (∀ c, cap_loc c = l → cap_usable c st → cap_usable c st' ∨
     occ c F' + occ c (storage_caps (Ts, st')) < occ c F + occ c (storage_caps (Ts, st))) →
  length F' + length (storage_caps (Ts, st')) + B ≤ length F + length (storage_caps (Ts, st)) + B' →
  holds E N B' F' (set_storage l (Ts, st') w).
Proof.
  intros (Hty & Hnl & Hinv & Hsz) Hl Hst' Hcnt Huse HB. subst E.
  split; [by eapply types_of_set_storage|]. split; [done|]. split.
  - by apply (inv_storage _ F F' w l Ts st).
  - pose proof (size_storage F F' w l Ts st st' Hl). lia.
Qed.

(** What the holder of a right knows. *)
Lemma holds_usable E N B c F w Ts :
  holds E N B F w → has_type E (cap_loc c) Ts → 0 < occ c F →
  ∃ st, storages w !! cap_loc c = Some (Ts, st) ∧ storage_ok tuple_elements E Ts st ∧
    cap_usable c st.
Proof.
  intros (Hty & Hnl & Hinv & Hsz) HTs Hc.
  destruct (inv_usable _ _ _ Hinv c) as (Ts' & st & Hl & Huse); [lia|].
  pose proof (proj2 (has_type_storage w _ Ts') (ex_intro _ st Hl)) as HTs'. rewrite Hty in HTs'.
  unfold has_type in *. rewrite HTs in HTs'. injection HTs' as <-. exists st.
  split; [done|]. split; [|done]. rewrite <- Hty. by apply (inv_storages _ _ _ Hinv (cap_loc c)).
Qed.

(** How much depth an action needs when there are [B] rights. *)
Definition need (a : action) : nat :=
  match a with Act_task _ => 3 | Act_fullfill_future _ _ => 2 | _ => 1 end.

Section Bodies.
Context (E : heap_types) (N n : nat).
Context (Hself : ∀ a F B, action_ok tuple_elements E a → need a + 4 * B ≤ n →
  triple (holds E N B (action_caps a ++ F)) (run n a) (λ _, holds E N B F) no_throw).

Lemma enqueue_safe q t F B :
  task_ok tuple_elements E t → 3 + 4 * B ≤ n →
  triple (holds E N B (task_caps t ++ F)) (enqueue (run n) q t) (λ _, holds E N B F) no_throw.
Proof.
  intros Ht Hn. destruct q as [|q]; [by apply (Hself (Act_task t))|].
  intros w (Hty & Hnl & Hinv & Hsz). simpl. subst E.
  change (set_queues _ w) with (push_task q t w). split; [done|]. split; [done|]. split.
  - apply (inv_push_task _ _ _ _ _ _ Hinv Ht). intros c. rewrite countb_app. lia.
  - unfold size in *. rewrite <- !(countb_true (world_caps _)) in *.
    rewrite queue_caps_count. rewrite length_app, <- (countb_true (task_caps t)) in Hsz. lia.
Qed.

(** A handler gets a result. *)
Lemma handler_safe h Ts f F B :
  handler_ok tuple_elements E Ts h → Ts ≠ [] → finish_ok Ts f → 3 + 4 * B ≤ n →
  triple (holds E N B (handler_caps h ++ F)) (heap_handler_finish (run n) h f)
    (λ _, holds E N B F) no_throw.
Proof.
  intros Hh HTs Hf Hn. destruct h as [Ts' q dst cb|Ts' q dst cb|Ts' q cb|]; [..|done].
  - destruct Hh as (-> & id & Rs & -> & Hsig & Hdst). simpl. unfold then_do_finish.
    destruct (get_first_error f) as [e|] eqn:He.
    { apply (enqueue_safe q (Task_then_fail dst e)); [by exists Rs|done]. }
    assert (f ≠ []) as Hne.
    { intros ->. apply Forall2_length in Hf. by destruct Ts. }
    rewrite finish_to_fullfill_values by done.
    apply (enqueue_safe q (Task_then (Cb_user id) dst (values_of f))); [|done].
    exists id, Ts, Rs. split; [done|]. split; [done|]. split; [|done].
    by apply fullfill_of_values.
  - destruct Hh as (-> & id & Rs & -> & Hsig & Hdst). simpl.
    apply (enqueue_safe q (Task_then_expect (Cb_user id) dst f)); [|done]. by exists id, Ts, Rs.
  - destruct Hh as (-> & Hcb). simpl.
    apply (enqueue_safe q (Task_finally cb f)); [|done]. by exists Ts.
Qed.

(** A callback of the program. *)
Lemma user_safe id args F B :
  args_ok (callback_sig id) args →
  triple (holds E N B F) (zoom user_state set_user_state (user_code id args))
    (λ r w, holds E N B (result_caps r ++ F) w ∧ result_ok E (callback_sig id) r)
    (λ e w, holds E N B F w ∧ may_throw (callback_sig id) = true).
Proof.
  intros Hargs w (Hty & Hnl & Hinv & Hsz). pose proof (inv_prog _ _ _ Hinv) as Hprog.
  subst E. unfold zoom. pose proof (callback_ok _ id args _ Hprog Hargs) as Hcb.
  assert (∀ G u', (∀ p, countb p G + countb p (Cons <$> held u') ≤
                   countb p F + countb p (Cons <$> held (user_state w))) →
            prog_ok (types_of w) u' → holds (types_of w) N B G (set_user_state u' w)) as Hset.
  { intros G u' Hle Hu'. split; [done|]. split; [done|].
    split; [by apply (inv_user_state _ F)|]. specialize (Hle (λ _, true)).
    unfold size in *. rewrite <- !(countb_true (world_caps _)), !world_caps_count in *. simpl in *.
    rewrite !(countb_true F), !(countb_true G) in *. lia. }
  destruct (user_code id args (user_state w)) as [[r|e|c] u']; [| |done].
  - destruct Hcb as (Hu' & Hr & Hheld). split; [|done]. apply Hset; [|done]. intros p.
    rewrite (countb_perm p _ _ (fmap_Permutation Cons _ _ Hheld)), fmap_app, !countb_app.
    destruct r; simpl; lia.
  - destruct Hcb as (Hu' & Hheld & Hthrow). split; [|done]. apply Hset; [|done]. intros p.
    by rewrite (countb_perm p _ _ (fmap_Permutation Cons _ _ Hheld)).
Qed.

Lemma deliver_safe dst Rs r F B :
  has_type E dst Rs → result_fields_ok E Rs r → 2 + 4 * B ≤ n →
  triple (holds E N B (result_caps r ++ Prod dst :: F)) (deliver (run n) dst r)
    (λ _, holds E N B F) no_throw.
Proof.
  intros Hdst Hr Hn. unfold deliver.
  assert (∀ a, action_ok tuple_elements E a → need a ≤ 2 →
            (∀ p, countb p (action_caps a ++ F) ≤ countb p (result_caps r ++ Prod dst :: F)) →
            triple (holds E N B (result_caps r ++ Prod dst :: F)) (run n a)
              (λ _, holds E N B F) no_throw) as Hact.
  { intros a Ha Hneed Hle. eapply triple_weaken; [apply (Hself a F B Ha); lia| |done|done].
    intros w Hw. by eapply holds_weaken. }
  destruct r as [|v|e|f|vs]; simpl in Hr; apply Hact;
    try (simpl; lia); try (intros p; simpl; rewrite !countb_cons; lia); by exists Rs.
Qed.

(** The library's own callbacks, given to [finally]. *)
Lemma landing_safe l id t e dst Rs F B :
  landing_types E !! l = Some dst → has_type E dst Rs → Rs !! id = Some t → elt_ok t e = true →
  1 + 4 * B ≤ n →
  triple (holds E N B F) (store_landing l id e ;; Landing_ping (run n) l)
    (λ _, holds E N B F) no_throw.
Proof.
  intros Hl Hdst Hid He Hn w (Hty & Hnl & Hinv & Hsz). subst E. simpl in Hl.
  rewrite lookup_fmap in Hl. destruct (landings w !! l) as [ld|] eqn:Hld; [|done].
  simpl in Hl. injection Hl as <-. unfold store_landing, mbind, M_bind. rewrite Hld.
  pose proof (inv_landings _ _ _ Hinv l ld Hld) as (Rs' & HRs' & Hok).
  unfold has_type in *. rewrite Hdst in HRs'. injection HRs' as <-.
  assert (finish_ok Rs (<[id:=e]> (landing_ ld))) as Hok'.
  { rewrite <- (list_insert_id Rs id t Hid). by apply Forall2_insert. }
  unfold Landing_ping. simpl. rewrite lookup_insert_eq. simpl. rewrite length_insert.
  set (ld' := Landing (<[id:=e]> (landing_ ld)) (S (fullfilled_ ld)) (landing_dst ld)).
  assert (∀ x, set_landings (<[l := ld']> (<[l := x]> (landings w)))
                 (set_landings (<[l := x]> (landings w)) w) = set_landing l ld' w) as Hw.
  { intros x. unfold set_landing, set_landings. simpl. by rewrite insert_insert_eq. }
  rewrite Hw. clear Hw.
  assert (∀ G, (∀ p, countb p G + countb p (landing_caps ld') ≤
                     countb p F + countb p (landing_caps ld)) →
            holds (types_of w) N B G (set_landing l ld' w)) as Hset.
  { intros G Hle. destruct (inv_landing _ F G w l ld ld' Hinv Hld) as [HG Hty];
      [done|by exists Rs|done|].
    split; [done|]. split; [done|]. split; [done|]. specialize (Hle (λ _, true)).
    pose proof (landing_caps_count (λ _, true) w l ld ld' Hld). unfold size in *.
    rewrite <- !(countb_true (world_caps _)) in *.
    rewrite !(countb_true F), !(countb_true G) in *. lia. }
  unfold landing_caps in Hset. simpl in Hset. rewrite length_insert in Hset.
  destruct (Nat.eqb_spec (S (fullfilled_ ld)) (length (landing_ ld))) as [Heq|Hne].
  - apply (Hself (Act_finish (landing_dst ld) (<[id:=e]> (landing_ ld))) F B); [by exists Rs|simpl; lia|].
    apply Hset. intros p. simpl.
    rewrite (proj2 (Nat.ltb_ge _ _)), (proj2 (Nat.ltb_lt _ _)) by lia.
    rewrite countb_nil, !countb_cons, countb_nil. lia.
  - apply Hset. intros p.
    destruct (Nat.ltb_spec (S (fullfilled_ ld)) (length (landing_ ld)));
      [rewrite (proj2 (Nat.ltb_lt _ _)) by lia|]; rewrite ?countb_nil; lia.
Qed.

Lemma std_promise_safe p mode Ts f F B :
  (mode = Std_single → Ts = [Fval]) → finish_ok Ts f →
  triple (holds E N B F) (std_future_callback p mode f) (λ _, holds E N B F) no_throw.
Proof.
  intros Hmode Hf.
  assert (∀ r, triple (holds E N B F) (set_std_promise (V:=V) p r) (λ _, holds E N B F) no_throw)
    as Hset.
  { intros r w (Hty & Hnl & Hinv & Hsz). split; [done|]. split; [done|].
    split; [by apply inv_std_promise|done]. }
  destruct mode; simpl; try (destruct (get_first_error f); apply Hset).
  rewrite Hmode in Hf by done. apply Forall2_cons_inv_l in Hf as (x & k & Hx & Hk & ->).
  apply Forall2_nil_inv_l in Hk as ->. destruct x as [[v|]|e]; [|done|]; apply Hset.
Qed.

Lemma finally_safe cb Ts f F B :
  finally_ok tuple_elements E Ts cb → finish_ok Ts f → 1 + 4 * B ≤ n →
  triple (holds E N B (callback_caps cb ++ F))
    (apply_callback user_code tuple_elements (run n) cb (Args_expected f) ;; mret tt)
    (λ _, holds E N B F) no_throw.
Proof.
  intros Hcb Hf Hn.
  assert (∀ P (m : M world unit), triple P m (λ _, holds E N B F) no_throw →
            triple P ((m ;; mret Cb_void : M world (cb_result V)) ;; mret tt)
              (λ _, holds E N B F) no_throw) as Hvoid.
  { intros P m Hm. eapply (triple_bind _ _ _ (λ _, holds E N B F)); [|by intros a w].
    eapply triple_bind; [exact Hm|by intros a w]. }
  destruct cb as [id|dst|l id|dst|p mode]; simpl in Hcb |- *.
  - eapply triple_bind.
    + eapply triple_weaken; [apply (user_safe id (Args_expected f) F B)|done| |];
        [by rewrite Hcb|intros r w Hr; exact Hr|].
      intros e w [_ Hthrow]. by rewrite Hcb in Hthrow.
    + intros r w [Hw _]. eapply holds_weaken; [exact Hw|intros q; rewrite countb_app; lia|lia].
  - apply Hvoid, (Hself (Act_finish dst f)); [by exists Ts|simpl; lia].
  - destruct Hcb as (t & dst & Rs & -> & Hl & Hdst & Hid).
    apply Forall2_cons_inv_l in Hf as (x & k & Hx & Hk & ->).
    apply Forall2_nil_inv_l in Hk as ->.
    eapply triple_equiv; [|apply (Hvoid _ _ (landing_safe l id t x dst Rs F B Hl Hdst Hid Hx Hn))].
    intros w. unfold mbind, M_bind. by destruct (store_landing l id x w) as [[?|?|?] ?].
  - destruct Hcb as (-> & Rs & Hdst & Helts).
    apply Forall2_cons_inv_l in Hf as (x & k & Hx & Hk & ->).
    apply Forall2_nil_inv_l in Hk as ->. destruct x as [[v|]|e]; [|done|].
    + apply Hvoid, (Hself (Act_finish dst _)); [by exists Rs|simpl; lia].
    + apply Hvoid, (Hself (Act_fail dst e)); [by exists Rs|simpl; lia].
  - apply Hvoid. by eapply std_promise_safe.
Qed.

(** A callback whose result goes to a storage. *)
Lemma chained_safe id args Rs dst (k : cb_result V → M world unit) F B :
  args_ok (callback_sig id) args → has_type E dst Rs → 1 + 4 * B ≤ n →
  (∀ r, result_ok E (callback_sig id) r →
     triple (holds E N B (result_caps r ++ Prod dst :: F)) (k r) (λ _, holds E N B F) no_throw) →
  triple (holds E N B (Prod dst :: F))
    (try_catch (r ← zoom user_state set_user_state (user_code id args); k r)
       (λ e, run n (Act_fail dst e)))
    (λ _, holds E N B F) no_throw.
Proof.
  intros Hargs Hdst Hn Hk. eapply triple_try.
  - eapply triple_bind.
    + eapply triple_weaken; [by apply (user_safe id args (Prod dst :: F) B)|done| |];
        [intros r w Hr; exact Hr|intros e w [Hw _]; exact Hw].
    + intros r. intros w [Hw Hr]. specialize (Hk r Hr w Hw).
      destruct (k r w) as [[a|e|c] w']; [exact Hk|by destruct Hk|done].
  - intros e. apply (Hself (Act_fail dst e)); [by exists Rs|simpl; lia].
Qed.

Lemma run_task_safe t F B :
  task_ok tuple_elements E t → 2 + 4 * B ≤ n →
  triple (holds E N B (task_caps t ++ F)) (run_task user_code tuple_elements (run n) t)
    (λ _, holds E N B F) no_throw.
Proof.
  intros Ht Hn. destruct t as [cb dst v|dst e|cb dst f|cb f|cb res]; simpl in Ht.
  - destruct Ht as (id & Ts & Rs & -> & Hsig & Hv & Hdst).
    apply (chained_safe id (Args_values v) Rs); [by rewrite Hsig|done|lia|].
    intros r Hr. rewrite Hsig in Hr. by apply (deliver_safe dst Rs).
  - apply (Hself (Act_fail dst e)); [done|simpl; lia].
  - destruct Ht as (id & Ts & Rs & -> & Hsig & Hf & Hdst).
    apply (chained_safe id (Args_expected f) Rs); [by rewrite Hsig|done|lia|].
    intros r Hr. rewrite Hsig in Hr. by apply (deliver_safe dst Rs).
  - destruct Ht as (Ts & Hcb & Hf). apply (finally_safe cb Ts); [done|done|lia].
  - destruct Ht as (id & Rs & -> & Hsig & Hres).
    apply (chained_safe id (Args_values []) Rs); [by rewrite Hsig|done|lia|].
    intros r Hr. rewrite Hsig in Hr. destruct Hr as [Hr Hkind].
    destruct r; try done; by apply (deliver_safe res Rs).
Qed.

(** The operations on a storage whose results or handler arrive second. *)
Lemma fire_safe c h l Ts st st' f F F0 B w :
  holds E N B F0 w → storages w !! l = Some (Ts, st) → handler_ok tuple_elements E Ts h →
  finish_ok Ts f → storage_ok tuple_elements E Ts st' → storage_caps (Ts, st') = [] →
  (∀ c', cap_loc c' = l → cap_usable c' st → c' = c) →
  (∀ p, countb p F0 + countb p (storage_caps (Ts, st)) = countb p (c :: handler_caps h ++ F)) →
  4 * B ≤ n →
  ∃ w', heap_handler_finish (run n) h f (set_storage l (Ts, st') w) = (Ret tt, w') ∧
    holds E N B F w'.
Proof.
  intros Hw Hl Hh Hf Hst' Hcaps Honly Hcnt Hn.
  pose proof (Hcnt (λ _, true)) as Hlen. rewrite !countb_true in Hlen. simpl in Hlen.
  rewrite length_app in Hlen.
  assert (0 < B).
  { destruct Hw as (_ & _ & _ & Hsz). unfold size in Hsz.
    pose proof (size_storage F0 [] w l Ts st st' Hl) as H.
    rewrite Hcaps in H. unfold size in H. change (length (@nil cap)) with 0 in H. lia. }
  pose proof (handler_safe h Ts f F (B - 1) Hh (proj1 Hst') Hf ltac:(lia)
    (set_storage l (Ts, st') w)) as Hrun.
  destruct (heap_handler_finish _ h f _) as [r w']. exists w'.
  assert (holds E N (B - 1) (handler_caps h ++ F) (set_storage l (Ts, st') w)) as Hset.
  { eapply holds_storage; [done..| | |rewrite Hcaps, length_app; simpl; lia].
    - intros p. rewrite Hcaps. specialize (Hcnt p). rewrite countb_cons in Hcnt.
      rewrite countb_nil. lia.
    - intros c' Hc' Hu. right. rewrite (Honly c' Hc' Hu), Hcaps.
      specialize (Hcnt (is_cap c)). rewrite occ_self in Hcnt. rewrite countb_nil. lia. }
  specialize (Hrun Hset). destruct r as [[]|e|x]; [|done|done]. split; [done|].
  eapply holds_weaken; [exact Hrun|done|lia].
Qed.

(** Giving a storage its result. *)
Lemma run_gives_safe a l Ts f F B :
  gives l Ts a f → has_type E l Ts → 4 * B ≤ n →
  triple (holds E N B (Prod l :: F)) (run (S n) a) (λ _, holds E N B F) no_throw.
Proof.
  intros Hg HTs Hn w Hw.
  destruct (holds_usable E N B (Prod l) _ w Ts Hw HTs) as (st & Hl & [HTsne Hst] & Huse);
    [rewrite occ_self; lia|]. simpl in Hl. destruct Huse as [->|(h & -> & Hmoved)].
  - rewrite (give_pending _ _ _ _ _ _ _ _ Hg Hl).
    eapply holds_storage; [done..| | | |unfold storage_caps; simpl; lia].
    + split; [done|]. right; right; left. exists f. split; [done|by eapply gives_ok].
    + intros p. rewrite countb_cons. unfold storage_caps; simpl. lia.
    + intros [l'|l'] Hc Hu; simpl in Hc; subst l'; [right|left; right; by exists f].
      rewrite occ_self. unfold storage_caps; simpl. lia.
  - assert (handler_ok tuple_elements E Ts h) as Hh.
    { by destruct Hst as [?|[(? & [= ->] & ?)|[(? & ? & ?)|[[= ->]|[? ?]]]]]. }
    rewrite (give_attached _ _ _ _ _ _ _ h _ Hg); [|by destruct h as [| | |]; destruct Hh|done..].
    destruct (fire_safe (Prod l) h l Ts (attached h) (attached Handler_moved) f F _ B w Hw Hl Hh)
      as (w' & -> & Hw'); try done.
    + by eapply gives_ok.
    + split; [done|]. by do 3 right; left.
    + intros [l'|l'] Hc Hu; simpl in Hc; subst l'; [done|]. by destruct Hu as [|[? ?]].
    + intros p. unfold storage_caps; simpl. rewrite !countb_cons, countb_app. lia.
Qed.

(** Attaching a handler. *)
Lemma run_set_handler_safe l h Ts F B :
  handler_ok tuple_elements E Ts h → has_type E l Ts → 4 * B ≤ n →
  triple (holds E N B (Cons l :: handler_caps h ++ F)) (run (S n) (Act_set_handler l h))
    (λ _, holds E N B F) no_throw.
Proof.
  intros Hh HTs Hn w Hw.
  destruct (holds_usable E N B (Cons l) _ w Ts Hw HTs) as (st & Hl & [HTsne Hst] & Huse);
    [rewrite occ_self; lia|]. simpl in Hl. destruct Huse as [->|(f & ->)].
  - rewrite (set_handler_pending _ _ _ _ _ _ _ Hl).
    eapply holds_storage; [done..| | | |unfold storage_caps; simpl; rewrite length_app; lia].
    + split; [done|]. right; left. by exists h.
    + intros p. rewrite countb_cons, countb_app. unfold storage_caps; simpl. lia.
    + intros [l'|l'] Hc Hu; simpl in Hc; subst l'.
      * left. right. exists h. split; [done|]. by intros ->.
      * right. rewrite occ_self, countb_app. unfold storage_caps; simpl. lia.
  - assert (finish_ok Ts f) as Hf.
    { by destruct Hst as [?|[(? & ? & ?)|[(? & [= ->] & ?)|[?|[? ?]]]]]. }
    rewrite (set_handler_finished _ _ _ _ _ _ _ _ Hl).
    destruct (fire_safe (Cons l) h l Ts (finished f) (fired f) f F _ B w Hw Hl Hh)
      as (w' & -> & Hw'); try done.
    + split; [done|]. do 4 right. by exists f.
    + intros [l'|l'] Hc Hu; simpl in Hc; subst l'; [|done]. by destruct Hu as [|(? & ? & ?)].
Qed.

Lemma run_action_safe a F B :
  action_ok tuple_elements E a → need a + 4 * B ≤ S n →
  triple (holds E N B (action_caps a ++ F)) (run (S n) a) (λ _, holds E N B F) no_throw.
Proof.
  intros Ha Hn. destruct a as [l v|l f|l f|l e|l h|t]; simpl in Ha, Hn.
  - destruct Ha as (Ts & HTs & Hv). eapply run_gives_safe; [by constructor|done|lia].
  - destruct Ha as (Ts & Hl & Hf). intros w Hw.
    destruct (holds_usable E N B (Cons f) _ w Ts Hw Hf) as (st & Hst & _);
      [apply occ_pos; by right; left|]. simpl in Hst.
    assert (run (S n) (Act_fullfill_future l f) w =
            run n (Act_set_handler f (Future_finally_handler Ts Immediate_queue (Cb_forward l))) w)
      as ->.
    { simpl. munfold. unfold on_storage. rewrite Hst. simpl. f_equal.
      destruct w. unfold set_storages. simpl in *. by rewrite insert_id. }
    apply (Hself (Act_set_handler f _) F B); [by exists Ts|simpl; lia|].
    eapply holds_weaken; [done| |lia]. intros p. simpl. rewrite !countb_cons. lia.
  - destruct Ha as (Ts & HTs & Hf). eapply run_gives_safe; [by constructor|done|lia].
  - destruct Ha as (Ts & HTs). eapply run_gives_safe; [by apply (gives_fail l Ts)|done|lia].
  - destruct Ha as (Ts & HTs & Hh). eapply run_set_handler_safe; [done..|lia].
  - simpl. apply run_task_safe; [done|lia].
Qed.
End Bodies.

(** Whatever is run, with depth for the rights there are: no crash, no exception,
    the invariant kept. *)
Lemma run_safe E N n : ∀ a F B,
  action_ok tuple_elements E a → need a + 4 * B ≤ n →
  triple (holds E N B (action_caps a ++ F)) (run n a) (λ _, holds E N B F) no_throw.
Proof.
  induction n as [|n IH]; intros a F B Ha Hn; [destruct a; simpl in Hn; lia|].
  by apply run_action_safe.
Qed.
End Safety.
