(* ===== verification/FutureClient.v ===== *)
(** Programs that use the library: variables that hold promises and futures, the
    calls on them, and the work queues that run what was posted.  A program that
    type checks, assigns each promise once and moves each future once, runs
    without a crash, and the heap keeps its invariant. *)

From stdpp Require Import gmap.
From S2P Require Import Prelude Errors Effects FutureUtils FutureStorage Future FutureLaws FutureTyping FutureSafety.

(** ** More rules for triples *)

Lemma triple_pure {S A} (φ : Prop) (P : S → Prop) (m : M S A) Q X :
  (φ → triple P m Q X) → triple (λ s, φ ∧ P s) m Q X.
Proof. intros Hm s [Hφ Hs]. by apply Hm. Qed.

Lemma triple_exists {S A I} (P : I → S → Prop) (m : M S A) Q X :
  (∀ i, triple (P i) m Q X) → triple (λ s, ∃ i, P i s) m Q X.
Proof. intros Hm s [i Hs]. by apply (Hm i). Qed.

(** ** What the interface does to the rights *)

Section Interface.
Context {V U : Type} {user_code : nat → cb_args V → M U (cb_result V)}.
Context `{!WellTyped user_code} (tuple_elements : V → list V).
Local Abbreviation world := (world V U).
Local Abbreviation run := (run user_code tuple_elements).
Local Abbreviation holds := (holds tuple_elements).

(** The states in which a call has made the future [l], of fields [Rs]. *)
Definition made (E : heap_types) (B : nat) (Rs : list field) (F : list cap) (l : nat) (w : world) :
  Prop :=
  ∃ E' N', types_le E E' ∧ has_type E' l Rs ∧ holds E' N' (2 + B) (Cons l :: F) w.

(** The states in which a call has used up what it was given. *)
Definition used (E : heap_types) (B : nat) (F : list cap) (w : world) : Prop :=
  ∃ N', holds E N' B F w.

Lemma run_act E N n a F G B :
  action_ok tuple_elements E a → need a + 4 * B ≤ n →
  (∀ p, countb p (action_caps a ++ F) ≤ countb p G) →
  triple (holds E N B G) (run n a) (λ _, holds E N B F) no_throw.
Proof.
  intros Ha Hn Hle. eapply triple_weaken; [by apply (run_safe tuple_elements E N n a F B)| |done|done].
  intros w Hw. eapply holds_weaken; [exact Hw|exact Hle|lia].
Qed.

Lemma allocate_safe E N B F Ts :
  Ts ≠ [] →
  triple (holds E N B F) (allocate (V:=V) (U:=U) Ts)
    (λ l w, (l = N ∧ types_le E (add_storage_type N Ts E)) ∧
            holds (add_storage_type N Ts E) (S N) (2 + B) (Prod N :: Cons N :: F) w) no_throw.
Proof.
  intros HTs w (Hty & Hnl & Hinv & Hsz). unfold allocate.
  change (World _ _ _ _ _ _) with (add_storage (next_loc w) Ts w). rewrite Hnl.
  destruct (inv_add_storage tuple_elements F w N Ts Hinv ltac:(lia) HTs) as [Hinv' Hle].
  rewrite types_of_add_storage, Hty in Hle. split; [done|].
  split; [by rewrite types_of_add_storage, Hty|]. split; [done|]. split; [done|].
  destruct (inv_fresh _ _ _ Hinv N ltac:(lia)) as [Hls _].
  unfold size in *. rewrite <- !(countb_true (world_caps _)) in *.
  rewrite world_caps_add_storage by done. simpl. lia.
Qed.

Lemma has_type_add E N Ts : has_type (add_storage_type N Ts E) N Ts.
Proof. apply lookup_insert_eq. Qed.

Lemma future_fields_safe E N B F G f Ts :
  has_type E f Ts → (∀ p, countb p (Cons f :: G) ≤ countb p F) →
  triple (holds E N B F) (future_fields f) (λ Ts' w, Ts' = Ts ∧ holds E N B F w) no_throw.
Proof.
  intros Hf Hle w Hw.
  destruct (holds_usable tuple_elements E N B (Cons f) F w Ts Hw Hf) as (st & Hl & _).
  { specialize (Hle (is_cap (Cons f))). rewrite occ_self in Hle. lia. }
  simpl in Hl. unfold future_fields, on_storage. rewrite Hl. simpl. split; [done|].
  replace (set_storages _ w) with w; [done|].
  destruct w. unfold set_storages. simpl in *. by rewrite insert_id.
Qed.

(** Making a future whose producer goes with the handler given to another. *)
Lemma chain_safe E N n B F f Ts Rs (mk : list field → nat → handler) :
  has_type E f Ts → Rs ≠ [] → 1 + 4 * (2 + B) ≤ n →
  (∀ l E', types_le E E' → has_type E' l Rs → handler_ok tuple_elements E' Ts (mk Ts l)) →
  (∀ l, handler_caps (mk Ts l) = [Prod l]) →
  triple (holds E N B (Cons f :: F))
    (result ← allocate Rs; Ts ← future_fields f;
     run n (Act_set_handler f (mk Ts result)) ;; mret result)
    (made E B Rs F) no_throw.
Proof.
  intros Hf HRs Hn Hmk Hcaps. eapply triple_bind; [by apply allocate_safe|].
  intros l. apply triple_pure. intros [-> Hle].
  pose proof (has_type_add E N Rs) as HN. pose proof (has_type_le _ _ Hle _ _ Hf) as Hf'.
  eapply triple_bind.
  { apply (future_fields_safe _ _ _ _ (Prod N :: Cons N :: F)); [done|].
    intros p. rewrite !countb_cons. lia. }
  intros Ts'. apply triple_pure. intros ->. eapply triple_bind.
  { apply (run_act _ _ _ _ (Cons N :: F)); [exists Ts; auto|simpl; lia|].
    intros p. simpl. rewrite Hcaps, !countb_cons. simpl. rewrite !countb_cons. lia. }
  intros [] w Hw. exists (add_storage_type N Rs E), (S N). auto.
Qed.

Lemma then_safe E N n B F f Ts Rs q id :
  has_type E f Ts → Rs ≠ [] → callback_sig id = Sig_then Ts Rs → 1 + 4 * (2 + B) ≤ n →
  triple (holds E N B (Cons f :: F))
    (Basic_future_then user_code tuple_elements n f q (Cb_user id) Rs) (made E B Rs F) no_throw.
Proof.
  intros Hf HRs Hsig Hn.
  apply (chain_safe _ _ _ _ _ _ Ts _ (λ Ts l, Future_then_handler Ts q l (Cb_user id))); try done.
  intros l E' _ Hl. split; [done|]. by exists id, Rs.
Qed.

Lemma then_expect_safe E N n B F f Ts Rs q id :
  has_type E f Ts → Rs ≠ [] → callback_sig id = Sig_then_expect Ts Rs → 1 + 4 * (2 + B) ≤ n →
  triple (holds E N B (Cons f :: F))
    (Basic_future_then_expect user_code tuple_elements n f q (Cb_user id) Rs)
    (made E B Rs F) no_throw.
Proof.
  intros Hf HRs Hsig Hn.
  apply (chain_safe _ _ _ _ _ _ Ts _ (λ Ts l, Future_then_expect_handler Ts q l (Cb_user id)));
    try done.
  intros l E' _ Hl. split; [done|]. by exists id, Rs.
Qed.

Lemma basic_finally_safe E N n B F f Ts q cb :
  has_type E f Ts → finally_ok tuple_elements E Ts cb → 1 + 4 * B ≤ n →
  triple (holds E N B (Cons f :: callback_caps cb ++ F))
    (Basic_future_finally user_code tuple_elements n f q cb) (λ _, holds E N B F) no_throw.
Proof.
  intros Hf Hcb Hn. unfold Basic_future_finally. eapply triple_bind.
  { by apply (future_fields_safe _ _ _ _ (callback_caps cb ++ F)). }
  intros Ts'. apply triple_pure. intros ->.
  apply run_act; [|simpl; lia|done]. exists Ts. split; [done|]. by split.
Qed.

Lemma flatten_safe E N n B F f Rs :
  has_type E f [Fval] → Rs ≠ [] → 1 + 4 * (2 + B) ≤ n →
  (∀ t, finish_ok Rs ((λ v, Val (Some v)) <$> tuple_elements t)) →
  triple (holds E N B (Cons f :: F)) (flatten user_code tuple_elements n f Rs)
    (made E B Rs F) no_throw.
Proof.
  intros Hf HRs Hn Helts. unfold flatten, Basic_future_finally.
  eapply triple_bind; [by apply allocate_safe|].
  intros l. apply triple_pure. intros [-> Hle].
  pose proof (has_type_add E N Rs) as HN. pose proof (has_type_le _ _ Hle _ _ Hf) as Hf'.
  eapply triple_bind.
  { eapply triple_weaken.
    - apply (basic_finally_safe (add_storage_type N Rs E) (S N) n (2 + B) (Cons N :: F) f [Fval]
               Immediate_queue (Cb_flatten N)); [exact Hf'| |exact Hn]. split; [done|]. by exists Rs.
    - intros w Hw. eapply holds_weaken; [exact Hw| |done].
      intros p. simpl. rewrite !countb_cons. lia.
    - intros a w Hw. exact Hw.
    - done. }
  intros [] w Hw. exists (add_storage_type N Rs E), (S N). auto.
Qed.

Lemma async_safe E N n B F Rs q id :
  Rs ≠ [] → callback_sig id = Sig_async Rs → 3 + 4 * (2 + B) ≤ n →
  triple (holds E N B F) (async user_code tuple_elements n q (Cb_user id) Rs)
    (made E B Rs F) no_throw.
Proof.
  intros HRs Hsig Hn. unfold async. eapply triple_bind; [by apply allocate_safe|].
  intros l. apply triple_pure. intros [-> Hle].
  pose proof (has_type_add E N Rs) as HN. eapply triple_bind.
  { apply (enqueue_safe tuple_elements _ _ _ (run_safe tuple_elements _ _ n) q
             (Task_async (Cb_user id) N) (Cons N :: F)); [by exists id, Rs|done]. }
  intros [] w Hw. exists (add_storage_type N Rs E), (S N). auto.
Qed.

Lemma std_future_safe E N n B F f Ts :
  has_type E f Ts → 1 + 4 * B ≤ n →
  triple (holds E N B (Cons f :: F)) (Basic_future_std_future user_code tuple_elements n f)
    (λ _, used E B F) no_throw.
Proof.
  intros Hf Hn. unfold Basic_future_std_future. eapply triple_bind.
  { by apply (future_fields_safe _ _ _ _ F). }
  intros Ts'. apply triple_pure. intros ->. eapply (triple_bind _ _ _ (λ p w, p = N ∧ holds E N B (Cons f :: F) w)).
  { intros w Hw. split; [apply Hw|done]. }
  intros p. apply triple_pure. intros ->.
  eapply (triple_bind _ _ _ (λ _, holds E (S N) B (Cons f :: F))).
  { intros w (Hty & Hnl & Hinv & Hsz). split; [done|]. split; [done|]. split; [|done].
    eapply inv_next_loc; [exact Hinv|done..|]. simpl. lia. }
  intros []. eapply triple_bind.
  { apply (basic_finally_safe _ _ _ _ F _ Ts _ (Cb_std N _)); [done| |done].
    simpl. destruct (forallb _ Ts) eqn:Hv; [done|].
    destruct (Nat.eqb_spec (length Ts) 1) as [Hlen|]; [|done]. intros _.
    destruct Ts as [|[] [|]]; simpl in *; try done. }
  intros [] w Hw. by exists (S N).
Qed.

(** *** [join] *)

Lemma expected_init_ok (value_init : V) ts : finish_ok ts (expected_init value_init <$> ts).
Proof. apply Forall2_fmap_r, Forall_Forall2_diag, Forall_forall. by intros [] _. Qed.

(** The landing and the joined future. *)
Lemma join_begin_safe value_init E N B F futs ts :
  Forall2 (λ f t, has_type E f [t]) futs ts → ts ≠ [] →
  triple (holds E N B F) (join_begin (U:=U) value_init futs)
    (λ ld w, ∃ E', types_le E E' ∧ has_type E' ld.2 ts ∧ landing_types E' !! ld.1 = Some ld.2 ∧
       holds E' (S (S N)) (2 + B) (Cons ld.2 :: F) w) no_throw.
Proof.
  intros Hfuts Hts w (Hty & Hnl & Hinv & Hsz). simpl.
  assert (decay_future <$> ((λ f, (default ([], Future_storage_init) (storages w !! f)).1) <$> futs)
          = ts) as ->.
  { clear Hts. induction Hfuts as [|f t futs ts Hf _ IH]; [done|]. rewrite !fmap_cons, IH. f_equal.
    rewrite <- Hty in Hf. apply has_type_storage in Hf as [st ->]. done. }
  destruct (inv_add_storage tuple_elements F w (S N) ts Hinv ltac:(lia) Hts) as [Hinv1 Hle1].
  destruct (inv_fresh _ _ _ Hinv N ltac:(lia)) as [_ HN].
  destruct (inv_fresh _ _ _ Hinv (S N) ltac:(lia)) as [HSN _].
  set (ld := Landing (expected_init value_init <$> ts) 0 (S N)).
  assert (landing_caps ld = [Prod (S N)]) as Hcaps.
  { unfold landing_caps. simpl. rewrite length_fmap. by destruct ts. }
  destruct (inv_add_landing tuple_elements _ (Cons (S N) :: F) _ N ld Hinv1) as (Hinv2 & Hty2 & Hle2).
  - simpl. lia.
  - done.
  - exists ts. split; [|apply expected_init_ok].
    rewrite types_of_add_storage. apply lookup_insert_eq.
  - intros c. rewrite Hcaps, !countb_cons, countb_nil. lia.
  - rewrite Hnl. change (World _ _ _ _ _ _) with (set_landing N ld (add_storage (S N) ts w)).
    exists (types_of (set_landing N ld (add_storage (S N) ts w))).
    split; [rewrite <- Hty; by etrans|]. split.
    { rewrite Hty2, types_of_add_storage. apply lookup_insert_eq. }
    split; [rewrite Hty2; apply lookup_insert_eq|]. split; [done|]. split; [done|].
    split; [done|]. unfold size in *. rewrite <- !(countb_true (world_caps _)) in *.
    rewrite world_caps_add_landing, world_caps_add_storage, Hcaps by done.
    rewrite countb_cons, countb_nil. simpl. lia.
Qed.

Lemma bind_landing_safe E N n B F l dst Rs futs ts id :
  Forall2 (λ f t, has_type E f [t]) futs ts → landing_types E !! l = Some dst →
  has_type E dst Rs → (∀ i t, ts !! i = Some t → Rs !! (id + i) = Some t) → 1 + 4 * B ≤ n →
  triple (holds E N B ((Cons <$> futs) ++ F)) (bind_landing user_code tuple_elements n id l futs)
    (λ _, holds E N B F) no_throw.
Proof.
  intros Hfuts Hl Hdst Hid Hn. revert id Hid.
  induction Hfuts as [|f t futs ts Hf _ IH]; intros id Hid; simpl; [by intros w|].
  eapply triple_bind.
  - apply (basic_finally_safe E N n B ((Cons <$> futs) ++ F) f [t] Immediate_queue (Cb_landing l id));
      [done| |done].
    exists t, dst, Rs. split; [done|]. split; [done|]. split; [done|].
    rewrite <- (Nat.add_0_r id). by apply (Hid 0).
  - intros []. apply IH. intros i t' Ht'. rewrite Nat.add_succ_comm. by apply (Hid (S i)).
Qed.

Lemma join_safe value_init E N n B F futs ts :
  Forall2 (λ f t, has_type E f [t]) futs ts → ts ≠ [] → 1 + 4 * (2 + B) ≤ n →
  triple (holds E N B ((Cons <$> futs) ++ F)) (join user_code tuple_elements n value_init futs)
    (made E B ts F) no_throw.
Proof.
  intros Hfuts Hts Hn. unfold join. eapply triple_bind; [by apply join_begin_safe|].
  intros [l dst]. apply triple_exists. intros E'. simpl. apply triple_pure. intros Hle.
  apply triple_pure. intros Hdst. apply triple_pure. intros Hl. eapply triple_bind.
  - eapply triple_weaken.
    + apply (bind_landing_safe E' (S (S N)) n (2 + B) (Cons dst :: F) l dst ts futs ts 0); try done.
      eapply Forall2_impl; [exact Hfuts|]. intros f t. by apply has_type_le.
    + intros w Hw. eapply holds_weaken; [exact Hw| |done].
      intros p. simpl. rewrite countb_cons, !countb_app, countb_cons. lia.
    + intros a w Hw. exact Hw.
    + done.
  - intros [] w Hw. exists E', (S (S N)). auto.
Qed.
End Interface.

(** ** Programs *)

(** The program's own state can take a future in, as a lambda that captures it
    does; the callbacks may return it later. *)
Class Captures {V U} (user_code : nat → cb_args V → M U (cb_result V))
    `{!WellTyped user_code} := {
  capture : nat → nat → U → U;
  capture_fields : nat → list field;
  capture_ok E k l u :
    prog_ok E u → has_type E l (capture_fields k) → prog_ok E (capture k l u);
  capture_held k l u p :
    countb p (held (capture k l u)) ≤ countb p (l :: held u)
}.

Section Programs.
Context {V U : Type} {user_code : nat → cb_args V → M U (cb_result V)}.
Context `{!WellTyped user_code, !Captures user_code}.
Context (tuple_elements : V → list V) (value_init : V) (fuel : nat).
Local Abbreviation world := (world V U).
Local Abbreviation holds := (holds tuple_elements).

(** The heap, and the program's variables; a variable that was moved from, or
    destroyed, is unbound. *)
Record client := Client {
  heap : world;
  promises : gmap nat promise;
  futures : gmap nat nat
}.

Definition set_heap x (c : client) := Client x (promises c) (futures c).
Definition set_promises x (c : client) := Client (heap c) x (futures c).
Definition set_futures x (c : client) := Client (heap c) (promises c) x.

Inductive client_op :=
| Op_promise (p : nat) (Ts : list field)
| Op_get_future (p f : nat)
| Op_set_value (p : nat) (v : fullfill_type V)
| Op_set_exception (p : nat) (e : exn)
| Op_finish (p : nat) (r : finish_type V)
| Op_destroy_promise (p : nat)
| Op_destroy_future (f : nat)
| Op_then (f : nat) (q : queue) (id : nat) (Rs : list field) (g : nat)
| Op_then_expect (f : nat) (q : queue) (id : nat) (Rs : list field) (g : nat)
| Op_finally (f : nat) (q : queue) (id : nat)
| Op_std_future (f : nat)
| Op_flatten (f : nat) (Rs : list field) (g : nat)
| Op_join (fs : list nat) (g : nat)
| Op_async (q : queue) (id : nat) (Rs : list field) (g : nat)
| Op_capture (k f : nat)
| Op_work (q : nat).

Definition on_heap {A} : M world A → M client A := zoom heap set_heap.

Definition promise_var (p : nat) : M client promise := λ c,
  match promises c !! p with
  | Some pr => (Ret pr, c)
  | None => (Crash Null_dereference, c)
  end.

(** [std::move(f)] *)
Definition move_future (f : nat) : M client nat := λ c,
  match futures c !! f with
  | Some l => (Ret l, set_futures (delete f (futures c)) c)
  | None => (Crash Null_dereference, c)
  end.

Definition assign_future (g l : nat) : M client unit :=
  modify (λ c, set_futures (<[g := l]> (futures c)) c).

Definition assign_promise (p : nat) (pr : promise) : M client unit :=
  modify (λ c, set_promises (<[p := pr]> (promises c)) c).

(** A call on a promise variable. *)
Definition promise_call (p : nat) (m : promise → M world promise) : M client unit :=
  pr ← promise_var p; pr' ← on_heap (m pr); assign_promise p pr'.

(** A call that makes a future out of another. *)
Definition chain_call (f g : nat) (m : nat → M world nat) : M client unit :=
  l ← move_future f; r ← on_heap (m l); assign_future g r.

Fixpoint move_futures (fs : list nat) : M client (list nat) :=
  match fs with
  | [] => mret []
  | f :: fs => l ← move_future f; ls ← move_futures fs; mret (l :: ls)
  end.

(** A worker takes the oldest closure of a queue and runs it. *)
Definition pop_task (q : nat) : M world (option (task V)) := λ w,
  match queues w !! q with
  | Some (t :: ts) => (Ret (Some t), set_queues (<[q := ts]> (queues w)) w)
  | _ => (Ret None, w)
  end.

Definition work (q : nat) : M world unit :=
  o ← pop_task q;
  match o with
  | Some t => run user_code tuple_elements fuel (Act_task t)
  | None => mret tt
  end.

Definition client_step (op : client_op) : M client unit :=
  match op with
  | Op_promise p Ts => pr ← on_heap (Basic_promise_init Ts); assign_promise p pr
  | Op_get_future p f =>
      pr ← promise_var p;
      '(pr', o) ← on_heap (Basic_promise_get_future pr);
      assign_promise p pr' ;;
      modify (λ c, set_futures (partial_alter (λ _, o) f (futures c)) c)
  | Op_set_value p v =>
      promise_call p (Basic_promise_set_value user_code tuple_elements fuel v)
  | Op_set_exception p e =>
      promise_call p (Basic_promise_set_exception user_code tuple_elements fuel e)
  | Op_finish p r => promise_call p (Basic_promise_finish user_code tuple_elements fuel r)
  | Op_destroy_promise p =>
      pr ← promise_var p;
      modify (λ c, set_promises (delete p (promises c)) c) ;;
      on_heap (Basic_promise_destroy user_code tuple_elements fuel pr)
  | Op_destroy_future f => l ← move_future f; mret tt
  | Op_then f q id Rs g =>
      chain_call f g (λ l, Basic_future_then user_code tuple_elements fuel l q (Cb_user id) Rs)
  | Op_then_expect f q id Rs g =>
      chain_call f g (λ l, Basic_future_then_expect user_code tuple_elements fuel l q (Cb_user id) Rs)
  | Op_finally f q id =>
      l ← move_future f;
      on_heap (Basic_future_finally user_code tuple_elements fuel l q (Cb_user id))
  | Op_std_future f =>
      l ← move_future f;
      on_heap (Basic_future_std_future user_code tuple_elements fuel l) ;; mret tt
  | Op_flatten f Rs g => chain_call f g (λ l, flatten user_code tuple_elements fuel l Rs)
  | Op_join fs g =>
      ls ← move_futures fs;
      r ← on_heap (join user_code tuple_elements fuel value_init ls);
      assign_future g r
  | Op_async q id Rs g =>
      r ← on_heap (async user_code tuple_elements fuel q (Cb_user id) Rs); assign_future g r
  | Op_capture k f =>
      l ← move_future f;
      on_heap (modify (λ w, set_user_state (capture k l (user_state w)) w))
  | Op_work q => on_heap (work q)
  end.

(** *** Their types *)

(** The type of a promise variable, and what was already done with it. *)
Record promise_type := PromiseType {
  promise_fields : list field;
  pt_future_created : bool;
  pt_value_assigned : bool
}.

Record context := Ctx {
  promise_types : gmap nat promise_type;
  future_types : gmap nat (list field)
}.

(** The program's type checker, and its discipline: a promise gives one future
    and gets one value, and a future is moved once. *)
Inductive typed (Γ : context) : client_op → context → Prop :=
| T_promise p Ts :
    promise_types Γ !! p = None → Ts ≠ [] →
    typed Γ (Op_promise p Ts)
      (Ctx (<[p := PromiseType Ts false false]> (promise_types Γ)) (future_types Γ))
| T_get_future p f Ts a :
    promise_types Γ !! p = Some (PromiseType Ts false a) → future_types Γ !! f = None →
    typed Γ (Op_get_future p f)
      (Ctx (<[p := PromiseType Ts true a]> (promise_types Γ)) (<[f := Ts]> (future_types Γ)))
| T_set_value p v Ts c :
    promise_types Γ !! p = Some (PromiseType Ts c false) → fullfill_ok Ts v →
    typed Γ (Op_set_value p v)
      (Ctx (<[p := PromiseType Ts c true]> (promise_types Γ)) (future_types Γ))
| T_set_exception p e Ts c :
    promise_types Γ !! p = Some (PromiseType Ts c false) →
    typed Γ (Op_set_exception p e)
      (Ctx (<[p := PromiseType Ts c true]> (promise_types Γ)) (future_types Γ))
| T_finish p r Ts c :
    promise_types Γ !! p = Some (PromiseType Ts c false) → finish_ok Ts r →
    typed Γ (Op_finish p r)
      (Ctx (<[p := PromiseType Ts c true]> (promise_types Γ)) (future_types Γ))
| T_destroy_promise p x :
    promise_types Γ !! p = Some x →
    typed Γ (Op_destroy_promise p) (Ctx (delete p (promise_types Γ)) (future_types Γ))
| T_destroy_future f Ts :
    future_types Γ !! f = Some Ts →
    typed Γ (Op_destroy_future f) (Ctx (promise_types Γ) (delete f (future_types Γ)))
| T_then f q id Ts Rs g :
    future_types Γ !! f = Some Ts → callback_sig id = Sig_then Ts Rs → Rs ≠ [] →
    delete f (future_types Γ) !! g = None →
    typed Γ (Op_then f q id Rs g)
      (Ctx (promise_types Γ) (<[g := Rs]> (delete f (future_types Γ))))
| T_then_expect f q id Ts Rs g :
    future_types Γ !! f = Some Ts → callback_sig id = Sig_then_expect Ts Rs → Rs ≠ [] →
    delete f (future_types Γ) !! g = None →
    typed Γ (Op_then_expect f q id Rs g)
      (Ctx (promise_types Γ) (<[g := Rs]> (delete f (future_types Γ))))
| T_finally f q id Ts :
    future_types Γ !! f = Some Ts → callback_sig id = Sig_finally Ts →
    typed Γ (Op_finally f q id) (Ctx (promise_types Γ) (delete f (future_types Γ)))
| T_std_future f Ts :
    future_types Γ !! f = Some Ts →
    typed Γ (Op_std_future f) (Ctx (promise_types Γ) (delete f (future_types Γ)))
| T_flatten f Rs g :
    future_types Γ !! f = Some [Fval] → Rs ≠ [] →
    (∀ t, finish_ok Rs ((λ v, Val (Some v)) <$> tuple_elements t)) →
    delete f (future_types Γ) !! g = None →
    typed Γ (Op_flatten f Rs g)
      (Ctx (promise_types Γ) (<[g := Rs]> (delete f (future_types Γ))))
| T_join fs ts g :
    Forall2 (λ f t, future_types Γ !! f = Some [t]) fs ts → NoDup fs → ts ≠ [] →
    foldr delete (future_types Γ) fs !! g = None →
    typed Γ (Op_join fs g)
      (Ctx (promise_types Γ) (<[g := ts]> (foldr delete (future_types Γ) fs)))
| T_async q id Rs g :
    callback_sig id = Sig_async Rs → Rs ≠ [] → future_types Γ !! g = None →
    typed Γ (Op_async q id Rs g) (Ctx (promise_types Γ) (<[g := Rs]> (future_types Γ)))
| T_capture k f :
    future_types Γ !! f = Some (capture_fields k) →
    typed Γ (Op_capture k f) (Ctx (promise_types Γ) (delete f (future_types Γ)))
| T_work q : typed Γ (Op_work q) Γ.

Inductive typed_program : context → list client_op → context → Prop :=
| TP_nil Γ : typed_program Γ [] Γ
| TP_cons Γ op Γ' ops Γ'' :
    typed Γ op Γ' → typed_program Γ' ops Γ'' → typed_program Γ (op :: ops) Γ''.

(** *** The invariant of a running program *)

Definition promise_ok (E : heap_types) (x : promise_type) (pr : promise) : Prop :=
  future_created_ pr = pt_future_created x ∧ value_assigned_ pr = pt_value_assigned x ∧
  match storage_ pr with
  | Some l => has_type E l (promise_fields x)
  | None => pt_future_created x = true ∧ pt_value_assigned x = true
  end.

(** A promise may assign until it did, and give its future until it did. *)
Definition promise_caps (pr : promise) : list cap :=
  match storage_ pr with
  | Some l => (if value_assigned_ pr then [] else [Prod l]) ++
              (if future_created_ pr then [] else [Cons l])
  | None => []
  end.

Definition variable_caps (ps : gmap nat promise) (fs : gmap nat nat) : list cap :=
  caps_of promise_caps ps ++ caps_of (λ l, [Cons l]) fs.

Definition client_inv (Γ : context) (B : nat) (c : client) : Prop :=
  ∃ E N, holds E N B (variable_caps (promises c) (futures c)) (heap c) ∧
    map_Forall2 (λ _, promise_ok E) (promise_types Γ) (promises c) ∧
    map_Forall2 (λ _ Ts l, has_type E l Ts) (future_types Γ) (futures c).
End Programs.
