(* ===== verification/FutureTypeSafety.v ===== *)
(** Type safety of the programs of FutureClient.v: each call keeps the invariant,
    so a program that type checks runs to its end. *)

From stdpp Require Import gmap.
From S2P Require Import Prelude Errors Effects FutureUtils FutureStorage Future FutureLaws FutureTyping FutureSafety FutureClient.

Section TypeSafety.
Context {V U : Type} {user_code : nat → cb_args V → M U (cb_result V)}.
Context `{!WellTyped user_code, !Captures user_code}.
Context (tuple_elements : V → list V) (value_init : V) (fuel : nat).
Local Abbreviation world := (world V U).
Local Abbreviation client := (client (V:=V) (U:=U)).
Local Abbreviation holds := (holds tuple_elements).
Local Abbreviation client_inv := (client_inv tuple_elements).
Local Abbreviation typed := (typed tuple_elements).
Local Abbreviation client_step := (client_step tuple_elements value_init fuel).

(** ** The rights of the variables *)

Lemma variable_caps_move p ps fs f l :
  fs !! f = Some l →
  countb p (variable_caps ps fs) = countb p (Cons l :: variable_caps ps (delete f fs)).
Proof.
  intros Hf. unfold variable_caps. rewrite countb_cons, !countb_app.
  pose proof (caps_of_insert_new (λ l, [Cons l]) (delete f fs) f l p (lookup_delete_eq fs f)) as H.
  rewrite insert_delete_id, countb_cons, countb_nil in H by done. lia.
Qed.

Lemma variable_caps_assign p ps fs g l :
  fs !! g = None →
  countb p (variable_caps ps (<[g := l]> fs)) = countb p (Cons l :: variable_caps ps fs).
Proof.
  intros Hg. rewrite (variable_caps_move p ps _ g l) by apply lookup_insert_eq.
  by rewrite delete_insert_id.
Qed.

Lemma variable_caps_promise p ps fs x pr :
  ps !! x = Some pr →
  countb p (variable_caps ps fs) = countb p (promise_caps pr ++ variable_caps (delete x ps) fs).
Proof.
  intros Hx. unfold variable_caps. rewrite !countb_app.
  pose proof (caps_of_insert_new promise_caps (delete x ps) x pr p (lookup_delete_eq ps x)) as H.
  rewrite insert_delete_id in H by done. lia.
Qed.

Lemma variable_caps_set_promise p ps fs x pr :
  countb p (variable_caps (<[x := pr]> ps) fs) =
  countb p (promise_caps pr ++ variable_caps (delete x ps) fs).
Proof.
  rewrite (variable_caps_promise p _ fs x pr) by apply lookup_insert_eq.
  by rewrite delete_insert_eq.
Qed.

(** ** Triples on the variables and on the heap *)

Definition at_vars (ps : gmap nat promise) (fs : gmap nat nat) (P : world → Prop) (c : client) :
  Prop := promises c = ps ∧ futures c = fs ∧ P (heap c).

Lemma client_inv_elim {A} Γ B (m : M client A) Q :
  (∀ E N ps fs, map_Forall2 (λ _, promise_ok E) (promise_types Γ) ps →
     map_Forall2 (λ _ Ts l, has_type E l Ts) (future_types Γ) fs →
     triple (at_vars ps fs (holds E N B (variable_caps ps fs))) m Q no_throw) →
  triple (client_inv Γ B) m Q no_throw.
Proof.
  intros Hm c (E & N & Hw & Hps & Hfs). by apply (Hm E N (promises c) (futures c) Hps Hfs).
Qed.

Lemma client_inv_intro E N B B' F ps fs Γ (c : client) :
  at_vars ps fs (holds E N B' F) c → B' ≤ B →
  (∀ p, countb p (variable_caps ps fs) ≤ countb p F) →
  map_Forall2 (λ _, promise_ok E) (promise_types Γ) ps →
  map_Forall2 (λ _ Ts l, has_type E l Ts) (future_types Γ) fs →
  client_inv Γ B c.
Proof.
  intros (<- & <- & Hw) HB Hle Hps Hfs. exists E, N. split; [by eapply holds_weaken|done].
Qed.

Lemma on_heap_safe {A} ps fs P (m : M world A) Q :
  triple P m Q no_throw →
  triple (at_vars ps fs P) (on_heap m) (λ a, at_vars ps fs (Q a)) no_throw.
Proof.
  intros Hm c (Hps & Hfs & Hw). specialize (Hm _ Hw). unfold on_heap, zoom.
  by destruct (m (heap c)) as [[a|e|x] w'].
Qed.

Lemma at_vars_weaken ps fs (P P' : world → Prop) (c : client) :
  at_vars ps fs P c → (∀ w, P w → P' w) → at_vars ps fs P' c.
Proof. intros (? & ? & ?) HP. split; [done|]. split; [done|]. by apply HP. Qed.

Lemma promise_var_safe ps fs P x pr :
  ps !! x = Some pr →
  triple (at_vars ps fs P) (promise_var x) (λ pr' c, pr' = pr ∧ at_vars ps fs P c) no_throw.
Proof. intros Hx c (<- & <- & Hw). unfold promise_var. by rewrite Hx. Qed.

Lemma move_future_safe ps fs P f l :
  fs !! f = Some l →
  triple (at_vars ps fs P) (move_future f) (λ l' c, l' = l ∧ at_vars ps (delete f fs) P c) no_throw.
Proof. intros Hf c (<- & <- & Hw). unfold move_future. by rewrite Hf. Qed.

Lemma assign_future_safe ps fs P g l :
  triple (at_vars ps fs P) (assign_future g l) (λ _, at_vars ps (<[g := l]> fs) P) no_throw.
Proof. by intros c (<- & <- & Hw). Qed.

Lemma assign_promise_safe ps fs P x pr :
  triple (at_vars ps fs P) (assign_promise x pr) (λ _, at_vars (<[x := pr]> ps) fs P) no_throw.
Proof. by intros c (<- & <- & Hw). Qed.

(** The value a variable of a known type holds. *)
Lemma lookup_related {A B} (R : nat → A → B → Prop) (m1 : gmap nat A) (m2 : gmap nat B) i x :
  map_Forall2 R m1 m2 → m1 !! i = Some x → ∃ y, m2 !! i = Some y ∧ R i x y.
Proof. intros HR Hx. specialize (HR i). rewrite Hx in HR. inversion HR; subst. eauto. Qed.

Lemma unbound_related {A B} (R : nat → A → B → Prop) (m1 : gmap nat A) (m2 : gmap nat B) i :
  map_Forall2 R m1 m2 → m1 !! i = None → m2 !! i = None.
Proof. intros HR Hx. specialize (HR i). rewrite Hx in HR. by inversion HR. Qed.

Lemma promise_types_le E E' (Γ : gmap nat promise_type) ps :
  types_le E E' → map_Forall2 (λ _ : nat, promise_ok E) Γ ps →
  map_Forall2 (λ _ : nat, promise_ok E') Γ ps.
Proof.
  intros HE HR. eapply map_Forall2_impl; [exact HR|].
  intros i x pr (Hc & Ha & Hs). split; [done|]. split; [done|].
  destruct (storage_ pr); [by eapply has_type_le|done].
Qed.

Lemma future_types_le E E' (Γ : gmap nat (list field)) fs :
  types_le E E' → map_Forall2 (λ (_ : nat) Ts l, has_type E l Ts) Γ fs →
  map_Forall2 (λ (_ : nat) Ts l, has_type E' l Ts) Γ fs.
Proof.
  intros HE HR. eapply map_Forall2_impl; [exact HR|]. intros i Ts l. by apply has_type_le.
Qed.

(** The end of a call that made a future. *)
Lemma assign_made_safe E B Γp Γf ps fs Rs g r :
  map_Forall2 (λ _, promise_ok E) Γp ps →
  map_Forall2 (λ _ Ts l, has_type E l Ts) Γf fs → Γf !! g = None →
  triple (at_vars ps fs (made tuple_elements E B Rs (variable_caps ps fs) r)) (assign_future g r)
    (λ _, client_inv (Ctx Γp (<[g := Rs]> Γf)) (2 + B)) no_throw.
Proof.
  intros Hps Hfs Hg.
  eapply triple_weaken; [apply assign_future_safe|by intros c Hc; exact Hc| |done].
  intros [] c (Hcp & Hcf & E' & N' & HE & Hr & Hw).
  eapply (client_inv_intro E' N' _ (2 + B)); [by split; [|split]|done| | |].
  - intros p. rewrite variable_caps_assign; [done|by eapply unbound_related].
  - by eapply promise_types_le.
  - apply map_Forall2_insert_2; [done|by eapply future_types_le].
Qed.

(** ** The calls *)

(** A call that moves one future and makes another. *)
Lemma chain_call_safe Γ B f g Ts Rs m :
  future_types Γ !! f = Some Ts → delete f (future_types Γ) !! g = None →
  (∀ E N F l, has_type E l Ts →
     triple (holds E N B (Cons l :: F)) (m l) (made tuple_elements E B Rs F) no_throw) →
  triple (client_inv Γ B) (chain_call f g m)
    (λ _, client_inv (Ctx (promise_types Γ) (<[g := Rs]> (delete f (future_types Γ)))) (2 + B))
    no_throw.
Proof.
  intros Hf Hg Hm. apply client_inv_elim. intros E N ps fs Hps Hfs.
  destruct (lookup_related _ _ _ _ _ Hfs Hf) as (l & Hl & HE).
  eapply triple_bind; [by apply move_future_safe|]. intros l'. apply triple_pure. intros ->.
  eapply triple_bind.
  - eapply triple_weaken; [apply on_heap_safe, (Hm E N (variable_caps ps (delete f fs))), HE| | |].
    + intros c Hc. eapply at_vars_weaken; [exact Hc|]. intros w Hw.
      eapply holds_weaken; [exact Hw| |done]. intros p. by rewrite (variable_caps_move p _ _ _ _ Hl).
    + intros r c Hc. exact Hc.
    + done.
  - intros r. apply assign_made_safe; [done| |done]. by apply map_Forall2_delete.
Qed.

(** A call that moves one future and makes none. *)
Lemma consume_call_safe {A} Γ B f Ts (m : nat → M client A) :
  future_types Γ !! f = Some Ts →
  (∀ E N ps fs l, has_type E l Ts →
     triple (at_vars ps fs (holds E N B (Cons l :: variable_caps ps fs))) (m l)
       (λ _, at_vars ps fs (used tuple_elements E B (variable_caps ps fs))) no_throw) →
  triple (client_inv Γ B) (l ← move_future f; m l)
    (λ _, client_inv (Ctx (promise_types Γ) (delete f (future_types Γ))) (2 + B)) no_throw.
Proof.
  intros Hf Hm. apply client_inv_elim. intros E N ps fs Hps Hfs.
  destruct (lookup_related _ _ _ _ _ Hfs Hf) as (l & Hl & HE).
  eapply triple_bind; [by apply move_future_safe|]. intros l'. apply triple_pure. intros ->.
  eapply triple_weaken; [by apply (Hm E N ps (delete f fs))| | |done].
  - intros c Hc. eapply at_vars_weaken; [exact Hc|]. intros w Hw.
    eapply holds_weaken; [exact Hw| |done]. intros p. by rewrite (variable_caps_move p _ _ _ _ Hl).
  - intros a c (Hcp & Hcf & N' & Hw). eapply (client_inv_intro E N' _ B); [by split; [|split]|lia|done..|].
    by apply map_Forall2_delete.
Qed.

Lemma on_heap_used E N B F ps fs {A} (m : M world A) P :
  triple P m (λ _, holds E N B F) no_throw →
  triple (at_vars ps fs P) (on_heap m) (λ _, at_vars ps fs (used tuple_elements E B F)) no_throw.
Proof.
  intros Hm. eapply triple_weaken; [apply on_heap_safe, Hm|by intros c Hc; exact Hc| |done].
  intros a c Hc. eapply at_vars_weaken; [exact Hc|]. intros w Hw. by exists N.
Qed.

(** A promise is given its value. *)
Lemma promise_call_safe Γ B x Ts c (a : nat → action V) :
  promise_types Γ !! x = Some (PromiseType Ts c false) →
  (∀ E l, has_type E l Ts → action_ok tuple_elements E (a l)) →
  (∀ l, need (a l) = 1 ∧ action_caps (a l) = [Prod l]) → 1 + 4 * B ≤ fuel →
  triple (client_inv Γ B)
    (promise_call x (λ pr, l ← promise_storage pr;
       run user_code tuple_elements fuel (a l) ;; mret (promise_assigned pr)))
    (λ _, client_inv (Ctx (<[x := PromiseType Ts c true]> (promise_types Γ)) (future_types Γ)) (2 + B))
    no_throw.
Proof.
  intros Hx Ha Hneed Hn. apply client_inv_elim. intros E N ps fs Hps Hfs.
  destruct (lookup_related _ _ _ _ _ Hps Hx) as ([cr va st] & Hpr & Hcr & Hva & Hst).
  simpl in Hcr, Hva, Hst. subst cr va. destruct st as [l|]; [|by destruct Hst].
  set (pr := Promise c false (Some l)) in *.
  set (F := promise_caps (promise_assigned pr) ++ variable_caps (delete x ps) fs).
  assert (∀ p, countb p (variable_caps ps fs) = countb p (Prod l :: F)) as Hcaps.
  { intros p. rewrite (variable_caps_promise p _ _ _ _ Hpr). subst pr F.
    by destruct c. }
  unfold promise_call. eapply triple_bind; [by apply promise_var_safe|].
  intros pr'. apply triple_pure. intros ->.
  eapply (triple_bind _ _ _ (λ pr' c, pr' = promise_assigned pr ∧ at_vars ps fs (holds E N B F) c)).
  { assert (triple (holds E N B (variable_caps ps fs))
              (l ← promise_storage pr; run user_code tuple_elements fuel (a l) ;;
               mret (promise_assigned pr))
              (λ pr' w, pr' = promise_assigned pr ∧ holds E N B F w) no_throw) as Hm.
    { eapply (triple_bind _ _ _ (λ l' w, l' = l ∧ holds E N B (variable_caps ps fs) w));
        [by intros w Hw|].
      intros l'. apply triple_pure. intros ->. destruct (Hneed l) as [Hnd Hac].
      eapply (triple_bind _ _ _ (λ _, holds E N B F)); [|by intros [] w Hw].
      apply run_act; [by apply Ha|lia|]. intros p. by rewrite Hac, Hcaps. }
    eapply triple_weaken; [apply on_heap_safe, Hm|by intros cl Hc; exact Hc| |done].
    intros pr' cl (? & ? & -> & ?). by split; [|split; [|split]]. }
  intros pr'. apply triple_pure. intros ->.
  eapply triple_weaken; [apply assign_promise_safe|by intros cl Hc; exact Hc| |done].
  intros [] cl Hc. eapply client_inv_intro; [exact Hc|lia| | |exact Hfs].
  - intros p. by rewrite variable_caps_set_promise.
  - apply map_Forall2_insert_2; [|done]. split; [done|]. split; [done|]. by destruct c.
Qed.

Lemma op_promise_safe Γ B x Ts :
  promise_types Γ !! x = None → Ts ≠ [] →
  triple (client_inv Γ B) (client_step (Op_promise x Ts))
    (λ _, client_inv (Ctx (<[x := PromiseType Ts false false]> (promise_types Γ)) (future_types Γ))
            (2 + B)) no_throw.
Proof.
  intros Hx HTs. apply client_inv_elim. intros E N ps fs Hps Hfs c (Hcp & Hcf & Hw).
  pose proof (allocate_safe tuple_elements E N B _ Ts HTs _ Hw) as Hal.
  unfold FutureClient.client_step, Basic_promise_init, on_heap, zoom, mbind, M_bind.
  destruct (allocate Ts (heap c)) as [[l|e|y] w']; [|done|done].
  destruct Hal as [[-> HE] Hw'].
  apply (client_inv_intro (add_storage_type N Ts E) (S N) (2 + B) (2 + B)
           (Prod N :: Cons N :: variable_caps ps fs)
           (<[x := Promise false false (Some N)]> ps) fs);
    [split; [|split]; [by subst|by subst|exact Hw']|done| | |by eapply future_types_le].
  - intros p. rewrite variable_caps_set_promise, delete_id by (by eapply unbound_related). done.
  - apply map_Forall2_insert_2; [|by eapply promise_types_le].
    split; [done|]. split; [done|]. apply has_type_add.
Qed.

Lemma op_get_future_safe Γ B x f Ts a :
  promise_types Γ !! x = Some (PromiseType Ts false a) → future_types Γ !! f = None →
  triple (client_inv Γ B) (client_step (Op_get_future x f))
    (λ _, client_inv (Ctx (<[x := PromiseType Ts true a]> (promise_types Γ))
                        (<[f := Ts]> (future_types Γ))) (2 + B)) no_throw.
Proof.
  intros Hx Hf. apply client_inv_elim. intros E N ps fs Hps Hfs c (Hcp & Hcf & Hw).
  destruct (lookup_related _ _ _ _ _ Hps Hx) as ([cr va st] & Hpr & Hcr & Hva & Hst).
  simpl in Hcr, Hva, Hst. subst cr va. destruct st as [l|]; [|by destruct Hst].
  simpl. unfold promise_var, on_heap, zoom, mbind, M_bind. rewrite Hcp, Hpr. simpl.
  eapply (client_inv_intro E N _ B _ (<[x := Promise true a (Some l)]> ps) (<[f := l]> fs));
    [split; [|split]; [by subst|by subst|exact Hw]|lia| | |].
  - intros p. rewrite variable_caps_assign by (by eapply unbound_related).
    rewrite countb_cons, variable_caps_set_promise, (variable_caps_promise p _ _ _ _ Hpr).
    rewrite !countb_app. unfold promise_caps. simpl. destruct a; simpl; rewrite ?countb_cons, ?countb_nil; lia.
  - by apply map_Forall2_insert_2.
  - by apply map_Forall2_insert_2.
Qed.

Lemma op_destroy_promise_safe Γ B x t :
  promise_types Γ !! x = Some t → 1 + 4 * B ≤ fuel →
  triple (client_inv Γ B) (client_step (Op_destroy_promise x))
    (λ _, client_inv (Ctx (delete x (promise_types Γ)) (future_types Γ)) (2 + B)) no_throw.
Proof.
  intros Hx Hn. apply client_inv_elim. intros E N ps fs Hps Hfs.
  destruct (lookup_related _ _ _ _ _ Hps Hx) as (pr & Hpr & Hcr & Hva & Hst).
  eapply triple_bind; [by apply promise_var_safe|]. intros pr'. apply triple_pure. intros ->.
  eapply (triple_bind _ _ _ (λ _, at_vars (delete x ps) fs (holds E N B (variable_caps ps fs)))).
  { by intros c (<- & <- & Hw). }
  intros []. eapply triple_weaken; [apply (on_heap_safe (delete x ps) fs (holds E N B (variable_caps ps fs)) _
      (λ _, holds E N B (variable_caps (delete x ps) fs)))|by intros c Hc; exact Hc| |done].
  - unfold Basic_promise_destroy.
    assert (∀ p, countb p (variable_caps (delete x ps) fs) ≤ countb p (variable_caps ps fs)) as Hle.
    { intros p. rewrite (variable_caps_promise p _ _ _ _ Hpr), countb_app. lia. }
    destruct (storage_ pr) as [l|] eqn:Hl; [destruct (value_assigned_ pr) eqn:Ha|].
    1,3: intros w Hw; eapply holds_weaken; [exact Hw|done|lia].
    apply triple_noexcept, run_act; [by exists (promise_fields t)|simpl; lia|]. intros p.
    rewrite (variable_caps_promise p _ _ _ _ Hpr), !countb_app. unfold promise_caps.
    rewrite Hl, Ha. simpl. rewrite !countb_cons, countb_nil. lia.
  - intros a c Hc. eapply client_inv_intro; [exact Hc|lia|done| |done]. by apply map_Forall2_delete.
Qed.

Lemma Forall2_delete {A} (m : gmap nat A) (y : field → A) fs (ts : list field) f :
  Forall2 (λ f t, m !! f = Some (y t)) fs ts → f ∉ fs →
  Forall2 (λ f' t, delete f m !! f' = Some (y t)) fs ts.
Proof.
  intros Hts Hf. induction Hts as [|f' t fs ts Ht _ IH]; [done|].
  apply not_elem_of_cons in Hf as [Hne Hf]. constructor; [by rewrite lookup_delete_ne|by apply IH].
Qed.

Lemma move_futures_safe E P fs ts Γf ps fv :
  Forall2 (λ f t, Γf !! f = Some [t]) fs ts → NoDup fs →
  map_Forall2 (λ _ Ts l, has_type E l Ts) Γf fv →
  triple (at_vars ps fv P) (move_futures fs)
    (λ ls c, (Forall2 (λ l t, has_type E l [t]) ls ts ∧
              (∀ p, countb p (variable_caps ps fv) =
                    countb p ((Cons <$> ls) ++ variable_caps ps (foldr delete fv fs)))) ∧
             at_vars ps (foldr delete fv fs) P c) no_throw.
Proof.
  intros Hts Hnd Hfv. revert fv Γf Hts Hfv. revert ts.
  induction Hnd as [|f fs Hnin Hnd IH]; intros ts fv Γf Hts Hfv.
  { inversion Hts; subst. by intros c Hc. }
  apply Forall2_cons_inv_l in Hts as (t & ts' & Hf & Hts & ->). simpl.
  destruct (lookup_related _ _ _ _ _ Hfv Hf) as (l & Hl & HE).
  eapply triple_bind; [by apply move_future_safe|]. intros l'. apply triple_pure. intros ->.
  eapply triple_bind.
  { apply (IH ts' (delete f fv) (delete f Γf)); [|by apply map_Forall2_delete].
    by apply (Forall2_delete Γf (λ t, [t])). }
  intros ls. apply triple_pure. intros [Hls Hcnt] c Hc.
  rewrite <- delete_foldr_delete in Hcnt, Hc.
  split; [split|exact Hc]; [by constructor|].
  intros p. rewrite (variable_caps_move p _ _ _ _ Hl), fmap_cons, <- app_comm_cons, !countb_cons.
  by rewrite Hcnt.
Qed.

Lemma map_Forall2_foldr_delete {A B} (R : nat → A → B → Prop) (m1 : gmap nat A) (m2 : gmap nat B) ks :
  map_Forall2 R m1 m2 → map_Forall2 R (foldr delete m1 ks) (foldr delete m2 ks).
Proof. intros HR. induction ks; [done|by apply map_Forall2_delete]. Qed.

Lemma op_join_safe Γ B fs ts g :
  Forall2 (λ f t, future_types Γ !! f = Some [t]) fs ts → NoDup fs → ts ≠ [] →
  foldr delete (future_types Γ) fs !! g = None → 1 + 4 * (2 + B) ≤ fuel →
  triple (client_inv Γ B) (client_step (Op_join fs g))
    (λ _, client_inv (Ctx (promise_types Γ) (<[g := ts]> (foldr delete (future_types Γ) fs)))
            (2 + B)) no_throw.
Proof.
  intros Hts Hnd Htsne Hg Hn. apply client_inv_elim. intros E N ps fv Hps Hfv.
  eapply triple_bind; [by eapply move_futures_safe|].
  intros ls. apply triple_pure. intros [Hls Hcnt]. eapply triple_bind.
  - eapply triple_weaken; [apply on_heap_safe; by eapply (join_safe _ _ E N)| | |].
    + intros c Hc. eapply at_vars_weaken; [exact Hc|]. intros w Hw.
      eapply holds_weaken; [exact Hw| |done]. intros p. by rewrite Hcnt.
    + intros r c Hc. exact Hc.
    + done.
  - intros r. apply assign_made_safe; [done| |done]. by apply map_Forall2_foldr_delete.
Qed.

Lemma op_async_safe Γ B q id Rs g :
  callback_sig id = Sig_async Rs → Rs ≠ [] → future_types Γ !! g = None →
  3 + 4 * (2 + B) ≤ fuel →
  triple (client_inv Γ B) (client_step (Op_async q id Rs g))
    (λ _, client_inv (Ctx (promise_types Γ) (<[g := Rs]> (future_types Γ))) (2 + B)) no_throw.
Proof.
  intros Hsig HRs Hg Hn. apply client_inv_elim. intros E N ps fs Hps Hfs.
  eapply triple_bind; [apply on_heap_safe; by eapply async_safe|].
  intros r. by apply assign_made_safe.
Qed.

Lemma capture_safe E N B F k l :
  has_type E l (capture_fields k) →
  triple (holds E N B (Cons l :: F))
    (modify (λ w : world, set_user_state (capture k l (user_state w)) w))
    (λ _, holds E N B F) no_throw.
Proof.
  intros Hl w (Hty & Hnl & Hinv & Hsz). simpl. split; [done|]. split; [done|].
  assert (∀ p, countb p F + countb p (Cons <$> held (capture k l (user_state w))) ≤
               countb p (Cons l :: F) + countb p (Cons <$> held (user_state w))) as Hcnt.
  { intros p. rewrite !countb_fmap, countb_cons. pose proof (capture_held k l (user_state w) (λ l, p (Cons l))) as H.
    rewrite countb_cons in H. unfold compose in *. lia. }
  split.
  - eapply inv_user_state; [exact Hinv| |intros c; apply Hcnt].
    apply capture_ok; [apply (inv_prog _ _ _ Hinv)|by rewrite Hty].
  - specialize (Hcnt (λ _, true)). rewrite !(countb_true (_ :: _)), (countb_true F) in Hcnt.
    unfold size in *. rewrite <- !(countb_true (world_caps _)), !world_caps_count in *.
    simpl in *. lia.
Qed.

Lemma work_safe E N B F q :
  3 + 4 * B ≤ fuel →
  triple (holds E N B F) (work (user_code:=user_code) tuple_elements fuel q) (λ _, holds E N B F) no_throw.
Proof.
  intros Hn. unfold work.
  eapply (triple_bind _ _ _ (λ o w, match o with
    | Some t => task_ok tuple_elements E t ∧ holds E N B (task_caps t ++ F) w
    | None => holds E N B F w end)).
  - intros w Hw. unfold pop_task. destruct (queues w !! q) as [[|t ts]|] eqn:Hq; [done| |done].
    destruct Hw as (Hty & Hnl & Hinv & Hsz).
    destruct (inv_set_queue _ F w q t ts Hinv Hq) as (Ht & Hinv' & Hsize).
    split; [by rewrite <- Hty|]. split; [done|]. split; [done|]. split; [done|]. by rewrite Hsize.
  - intros [t|]; [|by intros w Hw]. apply triple_pure. intros Ht.
    by apply (run_safe tuple_elements E N fuel (Act_task t)).
Qed.

(** ** Programs *)

Lemma typed_step_safe Γ op Γ' B :
  typed Γ op Γ' → 3 + 4 * (2 + B) ≤ fuel →
  triple (client_inv Γ B) (client_step op) (λ _, client_inv Γ' (2 + B)) no_throw.
Proof.
  intros Hop Hn. destruct Hop as [x Ts|x f Ts a|x v Ts c|x e Ts c|x r Ts c|x t|f Ts
    |f q id Ts Rs g|f q id Ts Rs g|f q id Ts|f Ts|f Rs g|fs ts g|q id Rs g|k f|q].
  - by apply op_promise_safe.
  - by apply op_get_future_safe.
  - apply (promise_call_safe Γ B x Ts c (λ l, Act_fullfill l v)); [done| |done|lia].
    intros E l Hl. by exists Ts.
  - apply (promise_call_safe Γ B x Ts c (λ l, Act_fail l e)); [done| |done|lia].
    intros E l Hl. by exists Ts.
  - apply (promise_call_safe Γ B x Ts c (λ l, Act_finish l r)); [done| |done|lia].
    intros E l Hl. by exists Ts.
  - eapply op_destroy_promise_safe; [done|lia].
  - eapply consume_call_safe; [done|]. intros E N ps fs l Hl cl Hc.
    eapply at_vars_weaken; [exact Hc|]. intros w Hw. exists N.
    eapply holds_weaken; [exact Hw| |done]. intros p. rewrite countb_cons. lia.
  - eapply chain_call_safe; [done..|]. intros. eapply then_safe; [done..|lia].
  - eapply chain_call_safe; [done..|]. intros. eapply then_expect_safe; [done..|lia].
  - eapply consume_call_safe; [done|]. intros E N ps fs l Hl.
    eapply on_heap_used, (basic_finally_safe _ _ _ _ _ _ _ _ _ (Cb_user id)); [done..|lia].
  - eapply consume_call_safe; [done|]. intros E N ps fs l Hl.
    eapply triple_bind; [apply on_heap_safe; eapply std_future_safe; [done|lia]|by intros a cl Hc].
  - eapply chain_call_safe; [done..|]. intros. eapply flatten_safe; [done..|lia|done].
  - apply op_join_safe; [done..|lia].
  - by eapply op_async_safe.
  - eapply consume_call_safe; [done|]. intros E N ps fs l Hl.
    by eapply on_heap_used, capture_safe.
  - apply client_inv_elim. intros E N ps fs Hps Hfs.
    eapply triple_weaken; [apply on_heap_safe, (work_safe E N B); lia|by intros cl Hc; exact Hc| |done].
    intros a cl Hc. eapply client_inv_intro; [exact Hc|lia|done..].
Qed.

Lemma typed_program_safe Γ ops Γ' B :
  typed_program tuple_elements Γ ops Γ' → 3 + 4 * (2 * length ops + B) ≤ fuel →
  triple (client_inv Γ B) (for_each_in client_step ops)
    (λ _, client_inv Γ' (2 * length ops + B)) no_throw.
Proof.
  intros Hops. revert B. induction Hops as [Γ|Γ op Γ' ops Γ'' Hop _ IH]; intros B Hn; simpl in *.
  { by intros c Hc. }
  eapply triple_bind; [apply (typed_step_safe _ _ _ B Hop); lia|].
  intros []. eapply triple_weaken; [apply (IH (2 + B)); lia|done| |done].
  intros [] c (E & N & Hw & Hps & Hfs). exists E, N. split; [|done].
  eapply holds_weaken; [exact Hw|done|lia].
Qed.

(** A program's start: no storages, no variables. *)
Definition initial_client (u : U) : client := Client (World ∅ ∅ ∅ ∅ u 0) ∅ ∅.

Lemma initial_client_inv u :
  held u = [] → prog_ok (HeapTypes ∅ ∅) u → client_inv (Ctx ∅ ∅) 0 (initial_client u).
Proof.
  intros Hheld Hu.
  assert (world_caps (heap (initial_client u)) = []) as Hcaps.
  { unfold world_caps, caps_of. simpl. rewrite Hheld, !map_to_list_empty. done. }
  assert (types_of (heap (initial_client u)) = HeapTypes ∅ ∅) as Hty.
  { unfold types_of. simpl. by rewrite !fmap_empty. }
  exists (HeapTypes ∅ ∅), 0.
  split; [|split; apply map_Forall2_empty]. split; [done|]. split; [done|].
  assert (variable_caps (promises (initial_client u)) (futures (initial_client u)) = []) as Hv.
  { unfold variable_caps, caps_of. simpl. by rewrite !map_to_list_empty. }
  rewrite Hv. split; [|unfold size; by rewrite Hcaps]. split.
  - intros c. rewrite Hcaps, countb_nil. lia.
  - intros c. rewrite Hcaps, countb_nil. lia.
  - simpl. intros l Ts st. by rewrite lookup_empty.
  - simpl. intros q ts. by rewrite lookup_empty.
  - simpl. intros l ld. by rewrite lookup_empty.
  - by rewrite Hty.
  - done.
Qed.

(** C6: type soundness.  A program that type checks, gives each promise one value
    and one future and moves each future once, runs to its end: whatever its
    callbacks return or throw, and in whatever order its calls and the workers of
    its queues are interleaved, nothing the library does for it reads a value that
    is not there, calls a handler twice, uses a storage that is gone, fails an
    assertion or lets an exception out.  At the end every variable, storage,
    handler, queued closure and landing has its type, and every promise and future
    has one owner.  The depth the library recurses to is bounded by the number of
    calls. *)
Theorem well_typed_programs_run ops Γ u :
  held u = [] → prog_ok (HeapTypes ∅ ∅) u →
  typed_program tuple_elements (Ctx ∅ ∅) ops Γ → 3 + 8 * length ops ≤ fuel →
  ∃ c, for_each_in client_step ops (initial_client u) = (Ret tt, c) ∧
       client_inv Γ (2 * length ops) c.
Proof.
  intros Hheld Hu Hops Hn.
  pose proof (typed_program_safe _ _ _ 0 Hops ltac:(lia) _ (initial_client_inv u Hheld Hu)) as Hrun.
  destruct (for_each_in _ _ _) as [[[]|e|x] c]; [|done|done]. exists c.
  rewrite Nat.add_0_r in Hrun. done.
Qed.
End TypeSafety.

(** *** A program *)

Module Type_example.
(** The callbacks: an increment; one that returns the future its lambda captured;
    one that always throws; one that takes the results of a join; two that end a
    chain; one for [async].  The state is the captured future. *)
Definition callback_type (id : nat) : signature :=
  match id with
  | 0 => Sig_then [Fval] [Fval]
  | 1 => Sig_then_expect [Fval] [Fval]
  | 2 => Sig_then [Fval] [Fval]
  | 3 => Sig_then [Fval; Fval] [Fval; Fvoid]
  | 4 => Sig_finally [Fval]
  | 5 => Sig_finally [Fval; Fvoid]
  | _ => Sig_async [Fval]
  end.

Definition code (id : nat) (args : cb_args nat) : M (option nat) (cb_result nat) :=
  match id, args with
  | 0, Args_values [v] => mret (Cb_value (S v))
  | 1, _ => o ← gets (λ u, u);
            match o with
            | Some f => modify (λ _, None) ;; mret (Cb_future f)
            | None => throw Unfullfilled_promise
            end
  | 2, _ => throw Unfullfilled_promise
  | 3, Args_values [a; b] => mret (Cb_segmented [a + b])
  | 4, _ | 5, _ => mret Cb_void
  | _, _ => mret (Cb_value 7)
  end.

#[export] Instance code_typed : WellTyped code.
Proof.
  refine {| callback_sig := callback_type; held := option_list;
            prog_ok E u := ∀ l, u = Some l → has_type E l [Fval] |}.
  - intros E E' u HE Hu l Hl. exact (has_type_le E E' HE l _ (Hu l Hl)).
  - intros E id args u Hu Hargs.
    destruct id as [|[|[|[|[|[|id]]]]]]; simpl in Hargs; destruct args as [v|f]; try done;
      try (destruct v as [|a [|b [|]]]; try done); try (destruct u as [l|]);
      simpl; repeat split; try done; auto.
    by apply Hu.
Defined.

#[export] Instance code_captures : Captures code.
Proof.
  refine {| capture (_ l : nat) (_ : option nat) := Some l; capture_fields (_ : nat) := [Fval] |}.
  - intros E _ l u _ Hl l' [= <-]. exact Hl.
  - intros _ l u p. simpl. rewrite !countb_cons, countb_nil. lia.
Defined.

(** Chains, a captured future, a join of a chain with a future of nothing, a
    callback that throws, a flattened tuple, a promise that is dropped, and two
    queues whose workers run between the calls. *)
Definition program : list (client_op (V:=nat)) :=
  [ Op_promise 0 [Fval]; Op_get_future 0 0; Op_promise 1 [Fval]; Op_get_future 1 1;
    Op_promise 2 [Fval]; Op_get_future 2 2; Op_promise 3 [Fvoid]; Op_get_future 3 3;
    Op_capture 0 2;
    Op_then 0 (Queue 0) 0 [Fval] 4; Op_then_expect 4 Immediate_queue 1 [Fval] 5;
    Op_join [5; 3] 6; Op_finally 6 (Queue 1) 5;
    Op_async (Queue 0) 6 [Fval] 7; Op_then 7 Immediate_queue 2 [Fval] 8; Op_std_future 8;
    Op_flatten 1 [Fval; Fval] 9; Op_destroy_future 9;
    Op_set_value 0 [5]; Op_work 0; Op_set_exception 2 Unfullfilled_promise; Op_work 0;
    Op_finish 3 [Val None]; Op_destroy_promise 1; Op_work 1 ].

Definition pair_up (t : nat) : list nat := [t; t].

(** What is left at the end: three promises that were used up. *)
Definition final_context : context :=
  Ctx (<[3 := PromiseType [Fvoid] true true]> (<[2 := PromiseType [Fval] true true]>
         {[ 0 := PromiseType [Fval] true true ]})) ∅.

(** Type checking: the rule of each call, its side conditions evaluated. *)
Ltac evaluate_lookup :=
  lazymatch goal with
  | |- ?l = _ => let v := eval vm_compute in l in transitivity v; [vm_compute|]; reflexivity
  end.

Ltac type_call rule :=
  eapply TP_cons;
  [eapply rule;
   try solve [evaluate_lookup | done | intros; by repeat constructor
     | repeat (apply Forall2_cons_2; [evaluate_lookup|]); apply Forall2_nil_2
     | apply (bool_decide_unpack _); vm_compute; exact I]
  |cbn [promise_types future_types]].

Ltac type_program :=
  repeat lazymatch goal with
  | |- typed_program _ _ (?op :: _) _ =>
      lazymatch op with
      | Op_promise _ _ => type_call T_promise
      | Op_get_future _ _ => type_call T_get_future
      | Op_set_value _ _ => type_call T_set_value
      | Op_set_exception _ _ => type_call T_set_exception
      | Op_finish _ _ => type_call T_finish
      | Op_destroy_promise _ => type_call T_destroy_promise
      | Op_destroy_future _ => type_call T_destroy_future
      | Op_then _ _ _ _ _ => type_call T_then
      | Op_then_expect _ _ _ _ _ => type_call T_then_expect
      | Op_finally _ _ _ => type_call T_finally
      | Op_std_future _ => type_call T_std_future
      | Op_flatten _ _ _ => type_call T_flatten
      | Op_join _ _ => type_call T_join
      | Op_async _ _ _ _ => type_call T_async
      | Op_capture _ _ => type_call T_capture
      | Op_work _ => type_call T_work
      end
  end.

Lemma program_typed :
  typed_program (user_code:=code) pair_up (Ctx ∅ ∅) program final_context.
Proof.
  unfold program. type_program.
  lazymatch goal with
  | |- typed_program _ ?G [] ?G' => assert (G = G') as -> by (vm_compute; reflexivity)
  end. constructor.
Qed.

Lemma well_typed_programs_run_witness :
  ∃ Γ c, typed_program (user_code:=code) pair_up (Ctx ∅ ∅) program Γ ∧
    for_each_in (client_step (user_code:=code) pair_up 0 203) program (initial_client None) = (Ret tt, c) ∧
    client_inv pair_up Γ 50 c.
Proof.
  exists final_context. destruct (well_typed_programs_run (user_code:=code) pair_up 0 203 program final_context None)
    as (c & Hc & Hinv); [done| |exact program_typed|vm_compute; lia|]; [done|].
  exists c. split; [exact program_typed|]. exact (conj Hc Hinv).
Defined.
End Type_example.
