(* ===== verification/StreamLaws.v ===== *)
(** What a stream delivers: the values pushed and the end of the stream reach the
    callback of [for_each] and the handler of the final future in the same order,
    whether they were attached before, during or after the production. *)

From S2P Require Import Prelude Errors Effects FutureUtils FutureStorage Future StreamStorage.

Section Laws.
Context {V H U : Type}.
Context `{!FutureHandler unit H U}.
Context (cb_ : V → M U unit).

Local Abbreviation world := (stream_world V H U).

(** What the owners of the two ends can do: push a value, end the stream ([None]
    completes it, an error fails it), attach with [for_each(q, cb).finally(h)]. *)
Inductive stream_event :=
| E_push (v : V)
| E_end (r : option exn)
| E_attach (q : queue) (h : H).

Definition run_stream_event (ev : stream_event) (p : bool) : M world bool :=
  match ev with
  | E_push v => Basic_stream_promise_push cb_ p v
  | E_end None => Basic_stream_promise_complete cb_ p
  | E_end (Some e) => Basic_stream_promise_set_exception cb_ p e
  | E_attach q h =>
      Basic_stream_future_for_each cb_ true q ;; stream_finally h ;; mret p
  end.

Fixpoint run_stream (evs : list stream_event) (p : bool) : M world bool :=
  match evs with
  | [] => mret p
  | ev :: evs => p' ← run_stream_event ev p; run_stream evs p'
  end.

(** A push keeps the promise's state, a completion gives it up. *)
Lemma push_keeps_promise p v (w w' : world) b :
  Basic_stream_promise_push cb_ p v w = (Ret b, w') → b = p.
Proof.
  unfold Basic_stream_promise_push, massert, mbind, M_bind, mret, M_ret.
  destruct p; [|done]. destruct (Stream_storage_push cb_ v w) as [[[]|e|c] w1]; naive_solver.
Qed.

Lemma complete_ends_promise p (w w' : world) b :
  Basic_stream_promise_complete cb_ p w = (Ret b, w') → b = false.
Proof.
  unfold Basic_stream_promise_complete, massert, mbind, M_bind, mret, M_ret.
  destruct p; [|done]. destruct (Stream_storage_complete cb_ w) as [[[]|e|c] w1]; naive_solver.
Qed.

Lemma fail_ends_promise p e (w w' : world) b :
  Basic_stream_promise_set_exception cb_ p e w = (Ret b, w') → b = false.
Proof.
  unfold Basic_stream_promise_set_exception, massert, mbind, M_bind, mret, M_ret.
  destruct p; [|done]. destruct (Stream_storage_fail cb_ e w) as [[[]|x|c] w1]; naive_solver.
Qed.

Lemma run_stream_app evs1 evs2 p :
  run_stream (evs1 ++ evs2) p ≈ (p' ← run_stream evs1 p; run_stream evs2 p').
Proof.
  revert p. induction evs1 as [|ev evs1 IH]; intros p w; [done|].
  cbn [app run_stream]. unfold mbind, M_bind.
  destruct (run_stream_event ev p w) as [[p1|e|c] w1]; [apply IH|done|done].
Qed.

Lemma run_stream_single ev p (w w' : world) p' :
  run_stream [ev] p w = (Ret p', w') → run_stream_event ev p w = (Ret p', w').
Proof. intros (p1 & w1 & Hev & [= -> ->])%runs_bind_inv. exact Hev. Qed.

Lemma pushes_keep_promise vs p (w w' : world) b :
  run_stream (E_push <$> vs) p w = (Ret b, w') → b = p.
Proof.
  revert p w. induction vs as [|v vs IH]; intros p w Hrun; [by injection Hrun|].
  apply runs_bind_inv in Hrun as (p1 & w1 & Hpush & Hrun).
  apply push_keeps_promise in Hpush as ->. by eapply IH.
Qed.

Lemma attach_keeps_promise q h p (w w' : world) p' :
  run_stream_event (E_attach q h) p w = (Ret p', w') → p' = p.
Proof.
  intros Hrun. unfold run_stream_event in Hrun. apply runs_bind_inv in Hrun as (? & ? & _ & Hrun).
  apply runs_bind_inv in Hrun as (? & ? & _ & Hrun). by injection Hrun as <- _.
Qed.

(** The attachment alone, without the promise. *)
Lemma attach_event_inv q h p p' (w w' : world) :
  run_stream_event (E_attach q h) p w = (Ret p', w') →
  (Basic_stream_future_for_each cb_ true q ;; stream_finally h) w = (Ret tt, w').
Proof.
  unfold run_stream_event, mbind, M_bind.
  destruct (Basic_stream_future_for_each cb_ true q w) as [[[]|e|c] w2]; [|done|done].
  destruct (stream_finally h w2) as [[[]|e|c] w3]; [|done|done].
  unfold mret, M_ret. by intros [= _ ->].
Qed.

(** The values, the end, and the handlers of a list of events. *)
Definition pushed (evs : list stream_event) : list V :=
  omap (λ ev, match ev with E_push v => Some v | _ => None end) evs.
Definition ending (evs : list stream_event) : option (option exn) :=
  head (omap (λ ev, match ev with E_end r => Some r | _ => None end) evs).

(** One attachment, of [h] on the immediate queue; nothing is pushed after the
    end; one end. *)
Fixpoint stream_legal (h : H) (attached ended : bool) (evs : list stream_event) : Prop :=
  match evs with
  | [] => attached = true
  | E_push _ :: evs => ended = false ∧ stream_legal h attached ended evs
  | E_end _ :: evs => ended = false ∧ stream_legal h attached true evs
  | E_attach q h' :: evs =>
      attached = false ∧ q = Immediate_queue ∧ h' = h ∧ stream_legal h true ended evs
  end.

(** The reference: the values, then the end. *)
Definition end_result (r : option exn) : finish_type unit :=
  match r with None => [Val None] | Some e => [Err e] end.

Definition deliver_stream (h : H) (vs : list V) (r : option (option exn)) : M U unit :=
  for_each_in cb_ vs ;;
  match r with None => mret tt | Some r => handler_finish h (end_result r) end.

(** *** The states of a stream *)

Definition detached (vs : list V) (w : world) : Prop :=
  stream w = StreamStorage None false vs None 0 ∧ final_promise_ w = Future_storage_init.

Definition detached_ended (vs : list V) (r : option exn) (w : world) : Prop :=
  (∃ bits err, stream w = StreamStorage None false vs err bits ∧
     match r with None => bits = 4%Z | Some e => bits = 2%Z ∧ err = Some e end) ∧
  final_promise_ w = Future_storage_init.

Definition attached_to (h : H) (w : world) : Prop :=
  (∃ vs err, stream w =
     StreamStorage (Some (ForeachHandler Immediate_queue true)) false vs err 1) ∧
  final_promise_ w = FutureStorage (Some h) None 1.

Ltac unfold_stream :=
  unfold run_stream_event, Basic_stream_promise_push, Basic_stream_promise_complete,
    Basic_stream_promise_set_exception, Basic_stream_future_for_each, stream_finally,
    Stream_storage_push, Stream_storage_complete, Stream_storage_fail,
    Stream_storage_set_handler, stream_fetch_or, stream_load, lock, unlock, locked,
    set_mtx, push_back, set_error, error_read, set_stream_callback, on_stream,
    foreach_push, foreach_complete, foreach_fail, foreach_do_push, stream_enqueue,
    run_stream_task, on_final, stream_callback_deref, Future_storage_fullfill,
    Future_storage_fail, Future_storage_set_handler, callback_deref, finished_read,
    fetch_or, run_call; munfold; simpl.

(** The two ways a final future is finished, on its attached handler. *)
Context (h : H) (Hfields : handler_fields h = [Fvoid]).

Lemma handler_fullfill_void : handler_fullfill h [] ≈ handler_finish h [Val None].
Proof.
  pose proof (handler_fullfill_finish h []) as Hlaw. rewrite Hfields in Hlaw.
  by apply Hlaw.
Qed.

(** Draining the buffer on the immediate queue runs the callback on each value. *)
Lemma drain_runs vs : ∀ w u,
  for_each_in cb_ vs (client w) = (Ret tt, u) →
  for_each_in (foreach_do_push (H:=H) cb_ Immediate_queue) vs w = (Ret tt, set_client u w).
Proof.
  induction vs as [|v vs IH]; intros w u Hrun.
  - simpl in Hrun. unfold mret, M_ret in Hrun. simplify_eq. by destruct w.
  - cbn [for_each_in] in *. unfold mbind, M_bind in *.
    change (foreach_do_push cb_ Immediate_queue v w)
      with (zoom client set_client (cb_ v) w).
    unfold zoom. destruct (cb_ v (client w)) as [[[]|e|c] u1]; [|done|done].
    by rewrite (IH (set_client u1 w) u Hrun).
Qed.

Lemma for_each_in_cons_inv (v : V) vs (k : M U unit) (s s' : U) :
  (for_each_in cb_ (v :: vs) ;; k) s = (Ret tt, s') →
  ∃ s1, cb_ v s = (Ret tt, s1) ∧ (for_each_in cb_ vs ;; k) s1 = (Ret tt, s').
Proof.
  simpl. unfold mbind, M_bind.
  destruct (cb_ v s) as [[[]|e|c] s1]; [|done|done]. by exists s1.
Qed.

Lemma deliver_app_inv (vs ws : list V) (k : M U unit) (s s' : U) :
  (for_each_in cb_ (vs ++ ws) ;; k) s = (Ret tt, s') →
  ∃ s1, for_each_in cb_ vs s = (Ret tt, s1) ∧
        (for_each_in cb_ ws ;; k) s1 = (Ret tt, s').
Proof.
  unfold mbind, M_bind. rewrite (for_each_in_app cb_ vs ws s).
  unfold mbind, M_bind. destruct (for_each_in cb_ vs s) as [[[]|e|c] s1]; [|done|done].
  by exists s1.
Qed.

(** On an attached stream, pushing is calling the callback, and completing is
    calling the final handler. *)
Lemma attached_push v (w : world) :
  attached_to h w →
  Stream_storage_push cb_ v w = zoom client set_client (cb_ v) w.
Proof.
  destruct w as [s fin cl po]. intros ((vs & err & Hs) & Hfin).
  simpl in Hs, Hfin. subst s fin. by unfold_stream.
Qed.

Lemma attached_complete u (w : world) :
  attached_to h w → handler_finish h [Val None] (client w) = (Ret tt, u) →
  ∃ w', Stream_storage_complete cb_ w = (Ret tt, w') ∧ client w' = u.
Proof.
  destruct w as [s fin cl po]. intros ((vs & err & Hs) & Hfin) Hrun.
  simpl in *. subst s fin. unfold_stream.
  rewrite (handler_fullfill_void cl), Hrun. by eexists.
Qed.

Lemma attached_fail e u (w : world) :
  attached_to h w → handler_finish h [Err e] (client w) = (Ret tt, u) →
  ∃ w', Stream_storage_fail cb_ e w = (Ret tt, w') ∧ client w' = u.
Proof.
  destruct w as [s fin cl po]. intros ((vs & err & Hs) & Hfin) Hrun.
  simpl in *. subst s fin. unfold_stream. rewrite Hrun. by eexists.
Qed.

Lemma attached_set_client u (w : world) : attached_to h w → attached_to h (set_client u w).
Proof. by destruct w. Qed.

(** Events on an attached stream. *)
Lemma run_attached evs : ∀ w u,
  attached_to h w → stream_legal h true false evs →
  deliver_stream h (pushed evs) (ending evs) (client w) = (Ret tt, u) →
  ∃ p w', run_stream evs true w = (Ret p, w') ∧ client w' = u.
Proof.
  induction evs as [|[v|r|q h'] evs IH];
    intros [s fin cl po] u ((vs & err & Hs) & Hfin) Hleg Hdel;
    simpl in Hs, Hfin; subst s fin; simpl in Hleg.
  - exists true. eexists. split; [done|]. unfold deliver_stream in Hdel.
    cbn in Hdel. unfold mbind, M_bind, mret, M_ret in Hdel. by simplify_eq/=.
  - destruct Hleg as [_ Hleg]. unfold deliver_stream in Hdel.
    change (pushed (E_push v :: evs)) with (v :: pushed evs) in Hdel.
    change (ending (E_push v :: evs)) with (ending evs) in Hdel.
    apply for_each_in_cons_inv in Hdel as (u1 & Hcb & Hdel). simpl in Hcb.
    cbn [run_stream]. unfold mbind at 1, M_bind at 1. unfold_stream. rewrite Hcb.
    apply IH; [|done|done]. split; [by exists vs, err|done].
  - destruct Hleg as [_ Hleg].
    assert (evs = []) as ->.
    { destruct evs as [|[] evs]; simpl in Hleg; [done|by destruct Hleg..]. }
    unfold deliver_stream in Hdel. cbn in Hdel. unfold end_result in Hdel.
    cbn [run_stream]. unfold mbind at 1, M_bind at 1.
    destruct r as [e|]; unfold_stream.
    + rewrite Hdel. by eexists _, _.
    + rewrite (handler_fullfill_void cl), Hdel. by eexists _, _.
  - by destruct Hleg.
Qed.

(** Attaching to a stream that has buffered [vs]. *)
Lemma attach_detached vs w u :
  detached vs w → for_each_in cb_ vs (client w) = (Ret tt, u) →
  ∃ w', run_stream_event (E_attach Immediate_queue h) true w = (Ret true, w') ∧
    attached_to h w' ∧ client w' = u.
Proof.
  destruct w as [s fin cl po]. intros [Hs Hfin] Hrun. simpl in *. subst s fin.
  pose proof (λ w u, drain_runs vs w u) as Hdrain.
  unfold run_stream_event, Basic_stream_future_for_each, Stream_storage_set_handler,
    locked, lock, stream_fetch_or, stream_load, set_stream_callback, set_mtx, on_stream.
  munfold. simpl. rewrite (Hdrain _ u) by done.
  unfold_stream. eexists. split; [reflexivity|]. split; [|done].
  split; [by eexists _, _|done].
Qed.

(** Attaching to a stream that has ended as well. *)
Lemma attach_ended vs r w u :
  detached_ended vs r w →
  deliver_stream h vs (Some r) (client w) = (Ret tt, u) →
  ∃ w', run_stream_event (E_attach Immediate_queue h) false w = (Ret false, w') ∧
    client w' = u.
Proof.
  destruct w as [s fin cl po]. intros [(bits & err & Hs & Hr) Hfin] Hdel. simpl in *.
  subst s fin. unfold deliver_stream, mbind, M_bind in Hdel.
  destruct (for_each_in cb_ vs cl) as [[[]|e|c] u1] eqn:Hrun; [|done|done].
  pose proof (λ w u, drain_runs vs w u) as Hdrain.
  unfold run_stream_event, Basic_stream_future_for_each, Stream_storage_set_handler,
    locked, lock, stream_fetch_or, stream_load, set_stream_callback, set_mtx, on_stream.
  munfold. simpl. rewrite (Hdrain _ u1) by done.
  unfold end_result in Hdel. destruct r as [e|].
  - destruct Hr as [-> ->]. unfold_stream. rewrite Hdel. by eexists.
  - subst bits. unfold_stream. rewrite Hdel. by eexists.
Qed.

(** Events on a stream with no handler. *)
Lemma run_detached evs : ∀ vs w u,
  detached vs w → stream_legal h false false evs →
  deliver_stream h (vs ++ pushed evs) (ending evs) (client w) = (Ret tt, u) →
  ∃ p w', run_stream evs true w = (Ret p, w') ∧ client w' = u.
Proof.
  induction evs as [|[v|r|q h'] evs IH]; intros vs w u Hw Hleg Hdel; simpl in Hleg.
  - done.
  - destruct Hleg as [_ Hleg].
    destruct w as [s fin cl po]. destruct Hw as [Hs Hfin]. simpl in *. subst s fin.
    unfold mbind at 1, M_bind at 1. unfold_stream.
    apply (IH (vs ++ [v])); [done|done|]. by rewrite <- app_assoc.
  - destruct Hleg as [_ Hleg].
    assert (evs = [E_attach Immediate_queue h]) as ->.
    { destruct evs as [|[| |q' h'] evs]; simpl in Hleg; [done|by destruct Hleg..|].
      destruct Hleg as (_ & -> & -> & Hleg).
      destruct evs as [|[] evs]; simpl in Hleg; [done|by destruct Hleg..]. }
    change (pushed [E_end r; E_attach Immediate_queue h]) with (@nil V) in Hdel.
    rewrite app_nil_r in Hdel.
    assert (∃ w1, run_stream_event (E_end r) true w = (Ret false, w1) ∧
              detached_ended vs r w1 ∧ client w1 = client w) as (w1 & Hrun1 & Hw1 & Hc1).
    { destruct w as [s fin cl po]. destruct Hw as [Hs Hfin]. simpl in *. subst s fin.
      destruct r as [e|]; unfold_stream; (eexists; split; [reflexivity|]);
        (split; [|done]); (split; [by eexists _, _|done]). }
    rewrite <- Hc1 in Hdel.
    destruct (attach_ended vs r w1 u Hw1 Hdel) as (w2 & Hrun2 & Hc2).
    exists false, w2. cbn [run_stream]. unfold mbind, M_bind. by rewrite Hrun1, Hrun2.
  - destruct Hleg as (_ & -> & -> & Hleg).
    change (pushed (E_attach Immediate_queue h :: evs)) with (pushed evs) in Hdel.
    change (ending (E_attach Immediate_queue h :: evs)) with (ending evs) in Hdel.
    unfold deliver_stream in Hdel.
    apply deliver_app_inv in Hdel as (u1 & Hvs & Hdel).
    destruct (attach_detached vs w u1 Hw Hvs) as (w1 & Hrun1 & Hw1 & Hc1).
    rewrite <- Hc1 in Hdel.
    destruct (run_attached evs w1 u Hw1 Hleg Hdel) as (p & w2 & Hrun2 & Hc2).
    exists p, w2. cbn [run_stream]. unfold mbind, M_bind. by rewrite Hrun1, Hrun2.
Qed.
End Laws.
Arguments stream_event : clear implicits.

(** C22: a stream that is consumed with [for_each(cb).finally(h)] on the immediate
    queue delivers exactly what was produced: [cb] runs on every pushed value, in
    order, then [h] gets the end of the stream, success or the error; this holds
    wherever the attachment falls among the pushes and the end. *)
Theorem stream_delivers_in_order {V H U} `{!FutureHandler unit H U}
  (cb_ : V → M U unit) (h : H) (evs : list (stream_event V H)) (u u' : U)
  (po : list (nat * stream_task V))
  (Hfields : handler_fields h = [Fvoid]) (Hlegal : stream_legal h false false evs)
  (Hdel : deliver_stream cb_ h (pushed evs) (ending evs) u = (Ret tt, u')) :
  ∃ p w',
    (p ← Basic_stream_promise_get_future Basic_stream_promise_init;
     run_stream cb_ evs p)
      (StreamWorld Stream_storage_init Future_storage_init u po) = (Ret p, w') ∧
    client w' = u'.
Proof.
  unfold Basic_stream_promise_get_future. munfold. simpl.
  by apply (run_detached cb_ h Hfields evs []).
Qed.

(** A handler that logs what it gets. *)
#[export] Program Instance logging_handler {A} :
  FutureHandler unit unit (list (A + finish_type unit)) := {|
  handler_fields _ := [Fvoid];
  handler_fullfill _ v := modify (λ log, log ++ [inr (fullfill_to_finish [Fvoid] 0 v)]);
  handler_finish _ f := modify (λ log, log ++ [inr f])
|}.
Next Obligation. done. Qed.

Lemma stream_delivers_in_order_witness :
  ∃ p w',
    (p ← Basic_stream_promise_get_future Basic_stream_promise_init;
     run_stream (λ v, modify (λ log, log ++ [inl v]))
       [E_push 1; E_attach Immediate_queue tt; E_push 2; E_end None] p)
      (StreamWorld Stream_storage_init Future_storage_init [] []) = (Ret p, w') ∧
    client w' = [inl 1; inl 2; inr [Val None]].
Proof.
  apply (stream_delivers_in_order (V:=nat) (H:=unit)
           (λ v, modify (λ log, log ++ [inl v])) tt
           [E_push 1; E_attach Immediate_queue tt; E_push 2; E_end None] [] _ []).
  - reflexivity.
  - simpl. tauto.
  - reflexivity.
Defined.

(** A shared state whose future never got a handler is destroyed with its
    handler pointer uninitialised: the destructor tests the pointer itself, which
    no constructor sets, instead of the ready bit. *)
Theorem unattached_stream_destroyed_uninitialised {V H U}
  (vs : list V) (r : option exn) (w : stream_world V H U) (Hw : detached_ended vs r w) :
  Stream_storage_destroy w = (Crash Uninitialised_read, w).
Proof.
  destruct Hw as [(bits & err & Hs & _) _].
  unfold Stream_storage_destroy, stream_callback_deref. by rewrite Hs.
Qed.

Lemma unattached_stream_destroyed_uninitialised_witness :
  Stream_storage_destroy
    (StreamWorld (V:=nat) (H:=unit) (StreamStorage None false [1] None 4)
       Future_storage_init tt []) =
  (Crash Uninitialised_read,
   StreamWorld (StreamStorage None false [1] None 4) Future_storage_init tt []).
Proof.
  apply (unattached_stream_destroyed_uninitialised [1] None).
  split; [|reflexivity]. exists 4%Z, None. split; reflexivity.
Defined.
