(* ===== verification/StreamRace.v ===== *)
(** The race between the thread that produces a stream and the thread that
    attaches the handler of [for_each]: push, complete and fail against
    set_handler, one atomic action or one critical-section step at a time
    (impl/stream/stream_storage_impl.h). *)

From S2P Require Import Prelude Errors Effects FutureUtils FutureStorage Future StreamStorage.

Section Race.
Context {V : Type}.
(** The values the producer pushes, how it ends the stream, and the queue given
    to [for_each]. *)
Context (items : list V) (r : option exn) (q : queue).

(** Where the producer is: in [push(v)] (load the flags; take the lock; load them
    again; store; unlock; call the handler), or in [complete] / [fail]. *)
Inductive sp_pc :=
| SP_load (v : V)
| SP_lock (v : V)
| SP_check (v : V)
| SP_store (v : V)
| SP_unlock
| SP_unlock_call (v : V)
| SP_call (v : V)
| SE_lock
| SE_check
| SE_store
| SE_unlock
| SE_unlock_call
| SE_call
| SP_done (called : bool).

(** Where the consumer is in [set_handler]. *)
Inductive sc_pc :=
| SC_store
| SC_lock
| SC_drain (i : nat)
| SC_set
| SC_unlock (flags : Z)
| SC_finish (flags : Z)
| SC_done.

(** What the handler was called with, in order: a value, or the end. *)
Record stream_race := StreamRace {
  sr_memory : stream_storage V;
  sr_producer : sp_pc;
  sr_todo : list V;
  sr_consumer : sc_pc;
  sr_log : list (V + option exn);
  sr_fault : bool
}.

(** The next call of the producer's program. *)
Definition next_call (todo : list V) : sp_pc * list V :=
  match todo with
  | [] => (SE_lock, [])
  | v :: todo => (SP_load v, todo)
  end.

Definition stream_race_init : stream_race :=
  let '(p, todo) := next_call items in
  StreamRace Stream_storage_init p todo SC_store [] false.

Definition mem_set_mtx b (s : stream_storage V) : stream_storage V :=
  StreamStorage (stream_callback_ s) b (stream_fullfilled_ s) (error_ s) (stream_state_ s).
Definition mem_or bit (s : stream_storage V) : stream_storage V :=
  StreamStorage (stream_callback_ s) (mtx_ s) (stream_fullfilled_ s) (error_ s)
    (Z.lor (stream_state_ s) bit).
Definition mem_push v (s : stream_storage V) : stream_storage V :=
  StreamStorage (stream_callback_ s) (mtx_ s) (stream_fullfilled_ s ++ [v]) (error_ s)
    (stream_state_ s).
Definition mem_error e (s : stream_storage V) : stream_storage V :=
  StreamStorage (stream_callback_ s) (mtx_ s) (stream_fullfilled_ s) (Some e)
    (stream_state_ s).
Definition mem_callback (s : stream_storage V) : stream_storage V :=
  StreamStorage (Some (ForeachHandler q true)) (mtx_ s) (stream_fullfilled_ s) (error_ s)
    (stream_state_ s).

Definition is_ready (s : stream_storage V) : bool :=
  has_bit (stream_state_ s) Stream_storage_state_ready_bit.
Definition has_ended (s : stream_storage V) : bool :=
  negb (Z.land (stream_state_ s) (Z.lor Stream_storage_state_fail_bit
                                        Stream_storage_state_complete_bit) =? 0)%Z.
Definition no_callback (s : stream_storage V) : bool :=
  match stream_callback_ s with Some _ => false | None => true end.

(** One step of the producer; a thread that waits for the lock does not move. *)
Definition step_stream_producer (s : stream_race) : stream_race :=
  let '(StreamRace m p todo c log fault) := s in
  match p with
  | SP_load v =>
      StreamRace m (if is_ready m then SP_call v else SP_lock v) todo c log
        (fault || has_ended m)
  | SP_lock v =>
      if mtx_ m then s else StreamRace (mem_set_mtx true m) (SP_check v) todo c log fault
  | SP_check v =>
      StreamRace m (if is_ready m then SP_unlock_call v else SP_store v) todo c log fault
  | SP_store v => StreamRace (mem_push v m) SP_unlock todo c log fault
  | SP_unlock =>
      let '(p', todo') := next_call todo in
      StreamRace (mem_set_mtx false m) p' todo' c log fault
  | SP_unlock_call v => StreamRace (mem_set_mtx false m) (SP_call v) todo c log fault
  | SP_call v =>
      let '(p', todo') := next_call todo in
      StreamRace m p' todo' c (log ++ [inl v]) (fault || no_callback m)
  | SE_lock =>
      if mtx_ m then s else StreamRace (mem_set_mtx true m) SE_check todo c log fault
  | SE_check =>
      StreamRace m (if is_ready m then SE_unlock_call else SE_store) todo c log fault
  | SE_store =>
      let m' := match r with
                | None => mem_or Stream_storage_state_complete_bit m
                | Some e => mem_or Stream_storage_state_fail_bit (mem_error e m)
                end in
      StreamRace m' SE_unlock todo c log fault
  | SE_unlock => StreamRace (mem_set_mtx false m) (SP_done false) todo c log fault
  | SE_unlock_call => StreamRace (mem_set_mtx false m) SE_call todo c log fault
  | SE_call =>
      StreamRace m (SP_done true) todo c (log ++ [inr r]) (fault || no_callback m)
  | SP_done _ => s
  end.

(** One step of the consumer. *)
Definition step_stream_consumer (s : stream_race) : stream_race :=
  let '(StreamRace m p todo c log fault) := s in
  match c with
  | SC_store => StreamRace (mem_callback m) p todo SC_lock log fault
  | SC_lock =>
      if mtx_ m then s else StreamRace (mem_set_mtx true m) p todo (SC_drain 0) log fault
  | SC_drain i =>
      match stream_fullfilled_ m !! i with
      | Some v => StreamRace m p todo (SC_drain (S i)) (log ++ [inl v]) fault
      | None => StreamRace m p todo SC_set log fault
      end
  | SC_set =>
      StreamRace (mem_or Stream_storage_state_ready_bit m) p todo
        (SC_unlock (stream_state_ m)) log fault
  | SC_unlock flags => StreamRace (mem_set_mtx false m) p todo (SC_finish flags) log fault
  | SC_finish flags =>
      if has_bit flags Stream_storage_state_complete_bit then
        StreamRace m p todo SC_done (log ++ [inr None]) (fault || no_callback m)
      else if has_bit flags Stream_storage_state_fail_bit then
        match error_ m with
        | Some e => StreamRace m p todo SC_done (log ++ [inr (Some e)])
                      (fault || no_callback m)
        | None => StreamRace m p todo SC_done log true
        end
      else StreamRace m p todo SC_done log fault
  | SC_done => s
  end.

Definition run_stream_schedule (sched : list bool) (s : stream_race) : stream_race :=
  fold_left (λ s (b : bool), if b then step_stream_producer s else step_stream_consumer s)
    sched s.

(** *** The invariant *)

Definition c_ready (c : sc_pc) : bool :=
  match c with SC_unlock _ | SC_finish _ | SC_done => true | _ => false end.
Definition c_holds (c : sc_pc) : bool :=
  match c with SC_drain _ | SC_set | SC_unlock _ => true | _ => false end.
Definition p_holds (p : sp_pc) : bool :=
  match p with
  | SP_check _ | SP_store _ | SP_unlock | SP_unlock_call _ | SE_check | SE_store
  | SE_unlock | SE_unlock_call => true
  | _ => false
  end.
(** The producer stored the end, or delivered it. *)
Definition p_stored (p : sp_pc) : bool :=
  match p with SE_unlock | SP_done false => true | _ => false end.
Definition p_delivered (p : sp_pc) : bool :=
  match p with SP_done true => true | _ => false end.

(** The values that are neither delivered nor stored. *)
Definition p_rest (p : sp_pc) (todo : list V) : list V :=
  match p with
  | SP_load v | SP_lock v | SP_check v | SP_store v | SP_unlock_call v | SP_call v =>
      v :: todo
  | _ => todo
  end.

Definition end_bit : Z := match r with None => 4 | Some _ => 2 end.
Definition stream_flags (ready ended : bool) : Z :=
  Z.lor (if ready then 1 else 0) (if ended then end_bit else 0).

(** The end is in the log. *)
Definition end_logged (s : stream_race) : bool :=
  p_delivered (sr_producer s) ||
  (p_stored (sr_producer s) && match sr_consumer s with SC_done => true | _ => false end).
Definition end_log (s : stream_race) : list (V + option exn) :=
  if end_logged s then [inr r] else [].

Record stream_race_inv (s : stream_race) : Prop := {
  sinv_fault : sr_fault s = false;
  sinv_state : stream_state_ (sr_memory s) =
    stream_flags (c_ready (sr_consumer s)) (p_stored (sr_producer s));
  sinv_mtx : mtx_ (sr_memory s) = p_holds (sr_producer s) || c_holds (sr_consumer s);
  sinv_excl : p_holds (sr_producer s) && c_holds (sr_consumer s) = false;
  sinv_callback : stream_callback_ (sr_memory s) =
    match sr_consumer s with SC_store => None | _ => Some (ForeachHandler q true) end;
  sinv_error : p_stored (sr_producer s) = true →
    match r with Some e => error_ (sr_memory s) = Some e | None => True end;
  sinv_todo : match sr_producer s with
    | SE_lock | SE_check | SE_store | SE_unlock | SE_unlock_call | SE_call | SP_done _ =>
        sr_todo s = []
    | _ => True
    end;
  sinv_p : match sr_producer s with
    | SP_store _ | SP_unlock | SE_store | SE_unlock => c_ready (sr_consumer s) = false
    | SP_call _ | SP_unlock_call _ | SE_call | SE_unlock_call | SP_done true =>
        c_ready (sr_consumer s) = true
    | _ => True
    end;
  sinv_flags : match sr_consumer s with
    | SC_unlock f | SC_finish f => f = stream_flags false (p_stored (sr_producer s))
    | _ => True
    end;
  sinv_log : ∃ vs, sr_log s = (inl <$> vs) ++ end_log s ∧
    if c_ready (sr_consumer s) then vs ++ p_rest (sr_producer s) (sr_todo s) = items
    else
      stream_fullfilled_ (sr_memory s) ++ p_rest (sr_producer s) (sr_todo s) = items ∧
      vs = match sr_consumer s with
           | SC_drain i => take i (stream_fullfilled_ (sr_memory s))
           | SC_set => stream_fullfilled_ (sr_memory s)
           | _ => []
           end ∧
      match sr_consumer s with
      | SC_drain i => i ≤ length (stream_fullfilled_ (sr_memory s))
      | _ => True
      end
}.

Lemma stream_flags_ready ready ended :
  has_bit (stream_flags ready ended) Stream_storage_state_ready_bit = ready.
Proof. unfold stream_flags, end_bit. by destruct ready, ended, r. Qed.

Lemma stream_flags_ended ready ended :
  negb (Z.land (stream_flags ready ended)
          (Z.lor Stream_storage_state_fail_bit Stream_storage_state_complete_bit) =? 0)%Z
  = ended.
Proof. unfold stream_flags, end_bit. by destruct ready, ended, r. Qed.

Lemma stream_flags_set_ready ended :
  Z.lor (stream_flags false ended) Stream_storage_state_ready_bit = stream_flags true ended.
Proof. unfold stream_flags, end_bit. by destruct ended, r. Qed.

Lemma next_call_rest todo :
  let '(p', todo') := next_call todo in
  p_rest p' todo' = todo ∧ p_holds p' = false ∧ p_stored p' = false ∧
  p_delivered p' = false ∧
  ((∃ v, p' = SP_load v) ∨ p' = SE_lock ∧ todo' = []).
Proof. destruct todo as [|v todo]; simpl; repeat split; eauto. Qed.

Lemma stream_race_inv_init : stream_race_inv stream_race_init.
Proof.
  unfold stream_race_init. destruct items as [|v vs] eqn:Hitems; simpl;
    (split; try done; exists []; by rewrite Hitems).
Qed.

Ltac sr_simpl :=
  unfold end_log, end_logged, mem_set_mtx, mem_or, mem_push, mem_error, mem_callback,
    no_callback, is_ready, has_ended in *; simpl in *.

Ltac sr_auto :=
  repeat match goal with
  | H : ?x = ?x → _ |- _ => specialize (H eq_refl)
  | H : false = true |- _ => discriminate H
  | H : true = false |- _ => discriminate H
  end; try done.

(** The clause on the log, for the values [vs]. *)
Ltac sr_log vs :=
  exists vs; rewrite ?fmap_app, ?app_nil_r in *; split; [try done; by subst|];
  rewrite <- ?app_assoc; simpl; rewrite ?app_nil_r in *; try done; try (by intuition).

(** The same when the consumer drains one more value, or has drained them all. *)
Ltac sr_drain vs :=
  lazymatch goal with
  | Hi : ?fi !! ?i = Some ?v, Hvs : _ ∧ _ ∧ _, Hlog : _ = _ |- ∃ _, _ =>
      destruct Hvs as (Hitems & -> & Hle);
      exists (take (S i) fi); rewrite (take_S_r _ _ _ Hi), fmap_app, !app_nil_r in *;
      rewrite Hlog; split; [done|]; split; [done|]; split; [done|];
      by apply lookup_lt_Some in Hi
  end.

(** What the log holds when the consumer moves on. *)
Ltac sr_values :=
  lazymatch goal with
  | Hvs : _ ∧ _ ∧ _ |- _ => destruct Hvs as (Hitems & -> & Hle)
  | _ => idtac
  end;
  repeat match goal with
  | Hi : ?fi !! ?i = None |- _ =>
      apply lookup_ge_None in Hi; pose proof (take_ge fi i Hi)
  end; intuition (try done; try lia; congruence).

(** A step of the producer that calls the handler, or that does not touch the
    values, keeps the log's clause; the other clauses are case analysis. *)
Lemma stream_race_inv_producer s :
  stream_race_inv s → stream_race_inv (step_stream_producer s).
Proof.
  destruct s as [[cb mx fi er st] p todo c log fault].
  intros [Hfault Hst Hmx Hex Hcb Her Htodo Hp Hfl (vs & Hlog & Hvs)].
  sr_simpl. subst fault st mx cb.
  unfold step_stream_producer, is_ready, has_ended, no_callback.
  destruct p as [v|v|v|v| |v|v| | | | | | |called]; simpl in *;
    rewrite ?stream_flags_ready, ?stream_flags_ended;
    try (destruct called); try (destruct todo as [|v' todo]);
    destruct c as [| |i| |f|f|]; simpl in *; sr_auto;
    rewrite ?stream_flags_ended; sr_simpl;
    constructor; sr_simpl; sr_auto; try (sr_log vs); try (sr_log (vs ++ [v])).
  all: unfold stream_flags, end_bit; destruct r; simpl; try done; exact Hvs.
Qed.

Lemma stream_race_inv_consumer s :
  stream_race_inv s → stream_race_inv (step_stream_consumer s).
Proof.
  destruct s as [[cb mx fi er st] p todo c log fault].
  intros [Hfault Hst Hmx Hex Hcb Her Htodo Hp Hfl (vs & Hlog & Hvs)].
  sr_simpl. subst fault st mx cb.
  unfold step_stream_consumer, no_callback.
  destruct c as [| |i| |f|f|]; simpl in *;
    try (destruct (fi !! i) as [v0|] eqn:Hi);
    destruct p as [v|v|v|v| |v|v| | | | | | |called]; try (destruct called);
    simpl in *; sr_auto; sr_simpl; try subst f.
  all: rewrite ?stream_flags_set_ready.
  all: try (constructor; sr_simpl; sr_auto; sr_log vs; sr_values).
  all: try (constructor; sr_simpl; sr_auto; sr_drain vs).
  all: unfold stream_flags, end_bit in *; destruct r as [e|] eqn:Hr; simpl in *;
    try rewrite Her; constructor; sr_simpl; unfold stream_flags, end_bit; rewrite ?Hr;
    sr_auto; sr_log vs; by rewrite Hlog.
Qed.

Lemma run_stream_schedule_inv sched s :
  stream_race_inv s → stream_race_inv (run_stream_schedule sched s).
Proof.
  revert s. induction sched as [|b sched IH]; intros s Hs; [done|].
  apply IH. destruct b; [by apply stream_race_inv_producer|by apply stream_race_inv_consumer].
Qed.

(** *** What the handler sees *)

Definition stream_expected : list (V + option exn) := (inl <$> items) ++ [inr r].

Definition both_done (s : stream_race) : bool :=
  match sr_producer s, sr_consumer s with SP_done _, SC_done => true | _, _ => false end.

Lemma stream_race_inv_prefix s :
  stream_race_inv s → sr_log s `prefix_of` stream_expected.
Proof.
  intros [_ _ _ _ _ _ Htodo Hp _ (vs & -> & Hvs)]. unfold stream_expected, end_log, end_logged.
  destruct s as [m p todo c log fault]; simpl in *.
  assert (∃ rest, items = vs ++ rest ∧
    (p_delivered p || p_stored p && match c with SC_done => true | _ => false end = true →
     rest = [])) as (rest & -> & Hrest).
  { destruct (c_ready c) eqn:Hc.
    - exists (p_rest p todo). split; [done|]. destruct p as [| | | | | | | | | | | | |[]];
        simpl in *; by subst.
    - destruct Hvs as (<- & Hvs & _).
      assert (vs `prefix_of` stream_fullfilled_ m) as [k Hk].
      { subst vs. destruct c; try apply prefix_nil; [apply prefix_take|done]. }
      exists (k ++ p_rest p todo). rewrite Hk, app_assoc. split; [done|].
      clear -Hp Hc. destruct p as [| | | | | | | | | | | | |[]]; simpl in *;
        try discriminate; destruct c; simpl in *; congruence. }
  rewrite fmap_app, <- app_assoc. apply prefix_app.
  destruct (_ || _) eqn:E; [by rewrite (Hrest eq_refl)|apply prefix_nil].
Qed.

Lemma stream_race_inv_done s :
  stream_race_inv s → both_done s = true → sr_log s = stream_expected.
Proof.
  intros [_ _ _ _ _ _ Htodo _ _ (vs & -> & Hvs)] Hdone.
  destruct s as [m p todo c log fault]. unfold both_done in Hdone. simpl in *.
  destruct p; try done. destruct c; try done. simpl in *. subst todo.
  rewrite app_nil_r in Hvs. subst vs. unfold end_log, end_logged. simpl. by destruct called.
Qed.

(** *** Progress *)

Definition sp_left (p : sp_pc) (todo : list V) : nat :=
  match p with
  | SP_load _ => 12 + 6 * length todo
  | SP_lock _ => 11 + 6 * length todo
  | SP_check _ => 10 + 6 * length todo
  | SP_store _ | SP_unlock_call _ => 9 + 6 * length todo
  | SP_unlock | SP_call _ => 8 + 6 * length todo
  | SE_lock => 4
  | SE_check => 3
  | SE_store | SE_unlock_call => 2
  | SE_unlock | SE_call => 1
  | SP_done _ => 0
  end.

Definition sc_left (c : sc_pc) : nat :=
  match c with
  | SC_store => 6 + length items
  | SC_lock => 5 + length items
  | SC_drain i => 4 + (length items - i)
  | SC_set => 3
  | SC_unlock _ => 2
  | SC_finish _ => 1
  | SC_done => 0
  end.

Definition steps_left (s : stream_race) : nat :=
  sp_left (sr_producer s) (sr_todo s) + sc_left (sr_consumer s).

Definition p_stuck (s : stream_race) : bool :=
  match sr_producer s with
  | SP_lock _ | SE_lock => mtx_ (sr_memory s)
  | SP_done _ => true
  | _ => false
  end.

Definition c_stuck (s : stream_race) : bool :=
  match sr_consumer s with
  | SC_lock => mtx_ (sr_memory s)
  | SC_done => true
  | _ => false
  end.

Lemma producer_progress s :
  p_stuck s = false → steps_left (step_stream_producer s) < steps_left s.
Proof.
  destruct s as [m p todo c log fault]. unfold p_stuck, steps_left. simpl.
  intros Hs.
  destruct p; simpl; try rewrite Hs; try done;
    try (destruct (is_ready m)); try (destruct todo); simpl; lia.
Qed.

Lemma consumer_progress s :
  stream_race_inv s → c_stuck s = false →
  steps_left (step_stream_consumer s) < steps_left s.
Proof.
  destruct s as [m p todo c log fault].
  intros [_ _ _ _ _ _ _ _ _ (vs & _ & Hvs)]. unfold c_stuck, steps_left. simpl in *.
  intros Hs. destruct c as [| |i| |f|f|]; simpl in *; try rewrite Hs; simpl; try lia; try done.
  - destruct (stream_fullfilled_ m !! i) as [v|] eqn:Hi; simpl; [|lia].
    apply lookup_lt_Some in Hi. destruct Hvs as (Hitems & _ & Hle).
    apply (f_equal length) in Hitems. rewrite length_app in Hitems. lia.
  - destruct (has_bit f _); [simpl; lia|]. destruct (has_bit f _); [|simpl; lia].
    destruct (error_ m); simpl; lia.
Qed.

(** Whoever holds the lock, or may take it, moves: there is no deadlock. *)
Lemma stream_race_progress s :
  stream_race_inv s → both_done s = false →
  p_stuck s = false ∨ c_stuck s = false.
Proof.
  destruct s as [m p todo c log fault]. intros [_ _ Hmx Hex _ _ _ _ _ _].
  unfold both_done, p_stuck, c_stuck. simpl in *. rewrite Hmx.
  destruct p, c; simpl in *; auto.
Qed.

Lemma stream_race_can_finish n : ∀ s,
  stream_race_inv s → steps_left s ≤ n →
  ∃ sched, both_done (run_stream_schedule sched s) = true.
Proof.
  induction n as [|n IH]; intros s Hs Hn;
    (destruct (both_done s) eqn:Hd; [by exists []|]);
    (destruct (stream_race_progress s Hs Hd) as [Hp|Hc];
     [pose proof (producer_progress s Hp)|pose proof (consumer_progress s Hs Hc)]);
    try lia.
  - destruct (IH (step_stream_producer s)) as [sched Hsched];
      [by apply stream_race_inv_producer|lia|]. by exists (true :: sched).
  - destruct (IH (step_stream_consumer s)) as [sched Hsched];
      [by apply stream_race_inv_consumer|lia|]. by exists (false :: sched).
Qed.
End Race.

(** C16: under every interleaving of a producer that pushes [items] and ends the
    stream with the consumer that attaches the handler of [for_each], the handler
    is called, at every moment, with a prefix of the items in order followed by
    the end: nothing is lost, repeated, reordered or delivered after the end; no
    assert fails, and the handler pointer is never read before it is set. *)
Theorem stream_race_safe {V} (items : list V) (r : option exn) (q : queue)
  (sched : list bool) :
  let s := run_stream_schedule r q sched (stream_race_init items) in
  sr_log s `prefix_of` ((inl <$> items) ++ [inr r]) ∧ sr_fault s = false.
Proof.
  pose proof (run_stream_schedule_inv items r q sched _ (stream_race_inv_init items r q))
    as Hinv.
  split; [by apply stream_race_inv_prefix with (1:=Hinv)|apply Hinv].
Qed.

(** C15: the two threads never deadlock: from whatever point a schedule has led to,
    both can still finish, and whenever both have finished the handler has been
    called with every item in order, and then once with the end of the stream. *)
Theorem stream_race_delivers_all {V} (items : list V) (r : option exn) (q : queue)
  (sched : list bool) :
  (∃ more, both_done
     (run_stream_schedule r q (sched ++ more) (stream_race_init items)) = true) ∧
  (both_done (run_stream_schedule r q sched (stream_race_init items)) = true →
   sr_log (run_stream_schedule r q sched (stream_race_init items))
   = (inl <$> items) ++ [inr r]).
Proof.
  pose proof (run_stream_schedule_inv items r q sched _ (stream_race_inv_init items r q))
    as Hinv.
  split; [|by apply stream_race_inv_done with (1:=Hinv)].
  destruct (stream_race_can_finish items r q _ _ Hinv (le_n _)) as [more Hmore].
  exists more. unfold run_stream_schedule in *. by rewrite fold_left_app.
Qed.


(** Two values and an error, the handler attached between the pushes. *)
Lemma stream_race_delivers_all_witness :
  both_done (run_stream_schedule (Some (error_aborted "x")) Immediate_queue
    (repeat true 5 ++ repeat false 7 ++ repeat true 10) (stream_race_init [1; 2])) = true ∧
  sr_log (run_stream_schedule (Some (error_aborted "x")) Immediate_queue
    (repeat true 5 ++ repeat false 7 ++ repeat true 10) (stream_race_init [1; 2]))
  = [inl 1; inl 2; inr (Some (error_aborted "x"))].
Proof.
  split; [vm_compute; reflexivity|].
  apply (stream_race_delivers_all [1; 2] (Some (error_aborted "x")) Immediate_queue
           (repeat true 5 ++ repeat false 7 ++ repeat true 10)).
  vm_compute. reflexivity.
Defined.
