(* ===== verification/Conformance.v ===== *)
(** The library's own unit tests (variadic_future/tests/misc.cpp, join.cpp, async.cpp,
    void.cpp and stream.cpp), run on the models of futures and streams: each evaluates to
    what the test requires. *)

From stdpp Require Import gmap.
From S2P Require Import Prelude Errors Effects FutureUtils FutureStorage Future FutureClient StreamStorage StreamLaws.

(** ** misc.cpp, join.cpp, async.cpp, void.cpp *)

Module Future_tests.
(** The values of the tests. *)
Inductive value := Int (n : nat) | Str (s : string).

(** What a test program keeps: the [int]s its callbacks assign, and a future one of them
    returns. *)
Record locals := Locals { dst : list value; inner : option nat }.

Definition write (v : value) : M locals unit :=
  modify (λ u, Locals (dst u ++ [v]) (inner u)).

(** The lambdas of the tests. *)
Definition lambda (id : nat) (args : cb_args value) : M locals (cb_result value) :=
  match id, args with
  (* [](int v) { return v + 4; } *)
  | 0, Args_values [Int v] => mret (Cb_value (Int (v + 4)))
  (* [](expected<int> e) { return e.value() * 4; } *)
  | 1, Args_expected [Val (Some (Int v))] => mret (Cb_value (Int (v * 4)))
  | 1, Args_expected [Err e] => throw e
  (* []() { return 4; }, and the same with an expected<void> *)
  | 2, _ => mret (Cb_value (Int 4))
  (* [&](expected<int> v) { if (v.has_value()) dst = *v; } *)
  | 3, Args_expected [Val (Some v)] => write v ;; mret Cb_void
  | 3, Args_expected [Val None] => write (Int 1) ;; mret Cb_void
  | 3, Args_expected [Err _] => mret Cb_void
  (* [&](expected<int> v, expected<string> s) { dst = *v; str = *s; } *)
  | 4, Args_expected [Val (Some v); Val (Some s)] => write v ;; write s ;; mret Cb_void
  (* [](int a, string) { return a; } *)
  | 5, Args_values [a; _] => mret (Cb_value a)
  (* [&](expected<int> a, expected<string> b) { dst = a.value(); REQUIRE_FALSE(b.has_value()); } *)
  | 6, Args_expected [Val (Some a); Err _] => write a ;; mret Cb_void
  (* []() { return segmented(12, 12); } and [](int a, int b) { return a + b; } *)
  | 7, _ => mret (Cb_segmented [Int 12; Int 12])
  | 8, Args_values [Int a; Int b] => mret (Cb_value (Int (a + b)))
  (* returns a future made before *)
  | 9, _ => f ← gets inner;
            match f with Some f => mret (Cb_future f) | None => mret Cb_void end
  (* []() { return 12; } *)
  | 10, _ => mret (Cb_value (Int 12))
  (* no_op, and failure *)
  | 11, _ => mret Cb_void
  | 12, _ => throw (Std_exception "dead")
  | _, _ => crash_with Assertion_failed
  end.

Local Abbreviation world := (world value locals).
Local Abbreviation fuel := 50.
Local Abbreviation no_tuple := (λ _ : value, []).
Local Abbreviation set_value := (Basic_promise_set_value lambda no_tuple fuel).
Local Abbreviation set_exception := (Basic_promise_set_exception lambda no_tuple fuel).
Local Abbreviation destroy := (Basic_promise_destroy lambda no_tuple fuel).
Local Abbreviation get := (Basic_future_get lambda no_tuple fuel).
Local Abbreviation join := (join lambda no_tuple fuel (Int 0)).

Definition then_ (f : nat) (id : nat) (Rs : list field) : M world nat :=
  Basic_future_then lambda no_tuple fuel f Immediate_queue (Cb_user id) Rs.
Definition then_expect (f : nat) (id : nat) (Rs : list field) : M world nat :=
  Basic_future_then_expect lambda no_tuple fuel f Immediate_queue (Cb_user id) Rs.
Definition finally (f : nat) (id : nat) : M world unit :=
  Basic_future_finally lambda no_tuple fuel f Immediate_queue (Cb_user id).

Definition new_promise (Ts : list field) : M world (promise * nat) :=
  p ← Basic_promise_init Ts;
  '(p, f) ← Basic_promise_get_future p;
  match f with Some f => mret (p, f) | None => crash_with Null_dereference end.

Definition required {A} (test : M world A) : outcome A :=
  fst (test (World ∅ ∅ ∅ ∅ (Locals [] None) 0)).
Definition locals_after {A} (test : M world A) : list value :=
  dst (user_state (snd (test (World ∅ ∅ ∅ ∅ (Locals [] None) 0)))).

Definition nope : exn := Std_exception "nope".

Example prom_filled_future :
  required ('(p, f) ← new_promise [Fval; Fval]; set_value [Int 12; Str "hi"] p ;; get f) =
  Ret (Some (Val [Int 12; Str "hi"])).
Proof. vm_compute. reflexivity. Qed.

Example simple_then_expect :
  required ('(p, f) ← new_promise [Fval]; r ← then_expect f 1 [Fval]; set_value [Int 3] p ;; get r)
  = Ret (Some (Val [Int 12])).
Proof. vm_compute. reflexivity. Qed.

Example prom_post_filled_future :
  locals_after ('(p, f) ← new_promise [Fvoid]; finally f 3 ;; set_value [] p) = [Int 1] ∧
  locals_after ('(p, f) ← new_promise [Fval]; finally f 3 ;; set_value [Int 12] p) = [Int 12] ∧
  locals_after ('(p, f) ← new_promise [Fval; Fval]; finally f 4 ;; set_value [Int 12; Str "hi"] p)
    = [Int 12; Str "hi"].
Proof. vm_compute. repeat split. Qed.

Example simple_then :
  required ('(p, f) ← new_promise [Fval]; r ← then_ f 0 [Fval]; set_value [Int 3] p ;; get r)
    = Ret (Some (Val [Int 7])) ∧
  required ('(p, f) ← new_promise [Fval]; set_value [Int 3] p ;; r ← then_ f 0 [Fval]; get r)
    = Ret (Some (Val [Int 7])).
Proof. vm_compute. repeat split. Qed.

Example simple_null_then :
  required ('(p, f) ← new_promise [Fvoid]; r ← then_ f 2 [Fval]; set_value [] p ;; get r)
    = Ret (Some (Val [Int 4])) ∧
  required ('(p, f) ← new_promise [Fvoid]; set_value [] p ;; r ← then_expect f 2 [Fval]; get r)
    = Ret (Some (Val [Int 4])).
Proof. vm_compute. repeat split. Qed.

Example simple_then_failure :
  required ('(p, f) ← new_promise [Fval]; r ← then_ f 0 [Fval]; set_exception nope p ;; get r)
    = Ret (Some (Err nope)) ∧
  required ('(p, f) ← new_promise [Fval]; set_exception nope p ;; r ← then_ f 0 [Fval]; get r)
    = Ret (Some (Err nope)).
Proof. vm_compute. repeat split. Qed.

Example forgotten_promise :
  required ('(p, f) ← new_promise [Fval]; destroy p ;; get f) =
  Ret (Some (Err Unfullfilled_promise)).
Proof. vm_compute. reflexivity. Qed.

(** Before the second value the joined future is not ready. *)
Example simple_join :
  required ('(p_a, f_a) ← new_promise [Fval]; '(p_b, f_b) ← new_promise [Fval];
            j ← join [f_a; f_b]; f ← then_ j 5 [Fval];
            set_value [Int 3] p_a ;; set_value [Str "yo"] p_b ;; get f)
    = Ret (Some (Val [Int 3])) ∧
  required ('(p_a, f_a) ← new_promise [Fval]; '(p_b, f_b) ← new_promise [Fval];
            j ← join [f_a; f_b]; set_value [Int 3] p_a ;; get j) = Ret None.
Proof. vm_compute. repeat split. Qed.

Example partial_join_failure :
  let test := '(p_a, f_a) ← new_promise [Fval]; '(p_b, f_b) ← new_promise [Fval];
              j ← join [f_a; f_b]; finally j 6 ;; set_value [Int 3] p_a ;; mret p_b in
  locals_after test = [] ∧ locals_after (p_b ← test; set_exception nope p_b) = [Int 3].
Proof. vm_compute. repeat split. Qed.

Definition set_inner (f : nat) : M world unit :=
  modify (set_user_state (Locals [] (Some f))).

(** The callback returns a future that has its value; and one that gets it later. *)
Example handler_returning_future :
  required ('(q, g) ← new_promise [Fval]; set_value [Int 3] q ;; set_inner g ;;
            '(p, f) ← new_promise [Fval]; f2 ← then_ f 9 [Fval]; set_value [Int 3] p ;; get f2)
    = Ret (Some (Val [Int 3])) ∧
  required ('(q, g) ← new_promise [Fval]; set_inner g ;;
            '(p, f) ← new_promise [Fval]; f2 ← then_ f 9 [Fval]; set_value [Int 1] p ;;
            set_value [Int 15] q ;; get f2)
    = Ret (Some (Val [Int 15])).
Proof. vm_compute. repeat split. Qed.

Example variadic_get_failure :
  required ('(p, f) ← new_promise [Fvoid; Fvoid]; set_exception (Std_exception "dead") p ;; get f)
    = Ret (Some (Err (Std_exception "dead"))).
Proof. vm_compute. reflexivity. Qed.

Example segmented_callback :
  required ('(p, f) ← new_promise [Fvoid]; r ← then_ f 7 [Fval; Fval]; s ← then_ r 8 [Fval];
            set_value [] p ;; get s) = Ret (Some (Val [Int 24])).
Proof. vm_compute. reflexivity. Qed.

(** A callback that throws fails the next future; one that is skipped does not run. *)
Example then_failure :
  required ('(p, f) ← new_promise [Fvoid]; r ← then_ f 12 [Fvoid]; set_value [] p ;; get r)
    = Ret (Some (Err (Std_exception "dead"))) ∧
  required ('(p, f) ← new_promise [Fvoid]; r ← then_ f 12 [Fvoid]; set_exception nope p ;; get r)
    = Ret (Some (Err nope)) ∧
  required ('(p, f) ← new_promise [Fvoid]; r ← then_ f 11 [Fvoid]; set_value [] p ;; get r)
    = Ret (Some (Val [])).
Proof. vm_compute. repeat split. Qed.

Example async_function :
  let test := f ← async lambda no_tuple fuel (Queue 0) (Cb_user 10) [Fval]; finally f 3 in
  locals_after test = [] ∧ locals_after (test ;; work (user_code:=lambda) no_tuple fuel 0) = [Int 12].
Proof. vm_compute. repeat split. Qed.
End Future_tests.

(** ** stream.cpp *)

Module Stream_tests.
(** The log keeps what the callback of [for_each] was given, then what the final future
    was. *)
Local Abbreviation log := (list (nat + finish_type unit)).
Local Abbreviation world := (stream_world nat unit log).

Definition callback (v : nat) : M log unit := modify (λ l, l ++ [inl v]).

Local Abbreviation push := (λ v p, Basic_stream_promise_push callback p v).
Local Abbreviation complete := (Basic_stream_promise_complete callback).
Local Abbreviation set_exception := (λ e p, Basic_stream_promise_set_exception callback p e).
Local Abbreviation drop := (Basic_stream_promise_destroy callback).

(** [fut.for_each(queue, cb).finally(...)]. *)
Definition for_each (q : queue) : M world unit :=
  Basic_stream_future_for_each callback true q ;; stream_finally tt.

(** A worker runs the oldest closure. *)
Definition run_front : M world unit := λ w,
  match posted w with
  | (_, t) :: ts => run_stream_task callback t (set_posted ts w)
  | [] => (Ret tt, w)
  end.

Definition after (test : bool → M world unit) : outcome unit * log * nat :=
  let '(r, w) := (p ← Basic_stream_promise_get_future Basic_stream_promise_init; test p)
                   (StreamWorld Stream_storage_init Future_storage_init [] []) in
  (r, client w, length (posted w)).

Local Abbreviation done_ok := (inr [Val None]).
Local Abbreviation done_with e := (inr [Err e]).

Example forgotten_stream_promise :
  after (λ p, drop p ;; for_each Immediate_queue) = (Ret tt, [done_with Unfullfilled_promise], 0) ∧
  after (λ p, for_each Immediate_queue ;; drop p) = (Ret tt, [done_with Unfullfilled_promise], 0).
Proof. vm_compute. repeat split. Qed.

Example simple_stream :
  after (λ p, for_each Immediate_queue ;; p ← push 1 p; p ← push 2 p; p ← push 3 p; mret tt)
    = (Ret tt, [inl 1; inl 2; inl 3], 0) ∧
  after (λ p, for_each Immediate_queue ;; p ← push 1 p; p ← push 2 p; p ← push 3 p;
              p ← complete p; mret tt)
    = (Ret tt, [inl 1; inl 2; inl 3; done_ok], 0).
Proof. vm_compute. repeat split. Qed.

Example no_data_stream :
  after (λ p, for_each Immediate_queue ;; p ← complete p; mret tt) = (Ret tt, [done_ok], 0) ∧
  after (λ p, for_each Immediate_queue ;; p ← set_exception (Std_exception "") p; mret tt)
    = (Ret tt, [done_with (Std_exception "")], 0).
Proof. vm_compute. repeat split. Qed.

Example pre_fill_failure :
  after (λ p, p ← push 1 p; p ← push 1 p; p ← set_exception (Std_exception "") p;
              for_each Immediate_queue)
    = (Ret tt, [inl 1; inl 1; done_with (Std_exception "")], 0).
Proof. vm_compute. reflexivity. Qed.

Example partially_failed_stream :
  after (λ p, p ← push 1 p; for_each Immediate_queue ;; p ← push 1 p; p ← push 2 p;
              p ← set_exception (Std_exception "") p; mret tt)
    = (Ret tt, [inl 1; inl 1; inl 2; done_with (Std_exception "")], 0).
Proof. vm_compute. reflexivity. Qed.

Example uncompleted_stream :
  after (λ p, for_each Immediate_queue ;; p ← push 1 p; p ← push 2 p; drop p)
    = (Ret tt, [inl 1; inl 2; done_with Unfullfilled_promise], 0).
Proof. vm_compute. reflexivity. Qed.

Example delayed_assignment :
  after (λ p, p ← push 1 p; p ← push 2 p; p ← complete p; for_each Immediate_queue)
    = (Ret tt, [inl 1; inl 2; done_ok], 0).
Proof. vm_compute. reflexivity. Qed.

(** Nothing happens before the queue is worked through. *)
Example stream_to_queue :
  let test p := for_each (Queue 0) ;; p ← push 1 p; p ← push 1 p; p ← push 1 p;
                p ← complete p; mret tt in
  after test = (Ret tt, [], 4) ∧
  after (λ p, test p ;; run_front ;; run_front ;; run_front ;; run_front)
    = (Ret tt, [inl 1; inl 1; inl 1; done_ok], 0).
Proof. vm_compute. repeat split. Qed.

Example stream_to_queue_alt :
  let test p := p ← push 1 p; p ← push 1 p; p ← push 1 p; for_each (Queue 0) ;; mret p in
  after (λ p, p ← test p; mret tt) = (Ret tt, [], 3) ∧
  after (λ p, p ← test p; p ← complete p; mret tt) = (Ret tt, [], 4) ∧
  after (λ p, p ← test p; p ← complete p; run_front ;; run_front ;; run_front ;; run_front)
    = (Ret tt, [inl 1; inl 1; inl 1; done_ok], 0).
Proof. vm_compute. repeat split. Qed.
End Stream_tests.
