(* ===== verification/Grpc.v ===== *)
(** The part of the gRPC core that the handlers of both sides talk to: operations,
    batches, and the byte buffers messages travel in.  gRPC itself is not under
    src/: whether it accepts a batch is a parameter, and what the library relies
    on is the documented rule [batch_allowed].

    Serialization (include/easy_grpc/serialize.h, ext_protobuf/serialize.h). *)

From stdpp Require Import gmap.
From S2P Require Import Prelude Errors Effects.

(** ** Byte buffers and serialization *)

(** A [grpc_byte_buffer]: raw or compressed, made of slices. *)
Record byte_buffer := ByteBuffer { is_raw : bool; slices : list (list Byte.byte) }.

#[export] Instance byte_eq_dec : EqDecision Byte.byte := Byte.byte_eq_dec.
#[export] Instance byte_buffer_eq_dec : EqDecision byte_buffer.
Proof. solve_decision. Defined.

(** [grpc_byte_buffer_reader_readall]. *)
Definition readall (b : byte_buffer) : list Byte.byte := concat (slices b).

(** [Serializer<T>]. *)
Class Serializer (T : Type) := {
  serialize : T → byte_buffer;
  (** [None] when the [assert] of the implementation fails. *)
  deserialize : byte_buffer → option T
}.

(** The laws of a serializer: what is read back is what was written. *)
Class SerializerOk (T : Type) `{!Serializer T} : Prop := {
  deserialize_serialize : ∀ x : T, deserialize (serialize x) = Some x
}.

(** [::google::protobuf::MessageLite], as far as it is used: a fresh message, its
    bytes, and parsing into an existing message, whose result may be ignored. *)
Record message_lite (T : Type) := MessageLite {
  message_init : T;
  SerializeWithCachedSizesToArray : T → list Byte.byte;
  ParseFromArray : T → list Byte.byte → bool * T
}.
Arguments message_init {T} _.
Arguments SerializeWithCachedSizesToArray {T} _ _.
Arguments ParseFromArray {T} _ _ _.

Section Protobuf.
Context {T : Type} (proto : message_lite T).

(** [Serializer<T>::serialize] for protobuf messages: one slice. *)
Definition protobuf_serialize (msg : T) : byte_buffer :=
  ByteBuffer true [SerializeWithCachedSizesToArray proto msg].

(** [Serializer<T>::deserialize]: the result of the parse is not looked at. *)
Definition protobuf_deserialize (data : byte_buffer) : option T :=
  if is_raw data then
    let slice := readall data in
    Some (snd (ParseFromArray proto (message_init proto) slice))
  else None.

Definition protobuf_serializer : Serializer T := {|
  serialize := protobuf_serialize;
  deserialize := protobuf_deserialize
|}.

(** What protobuf documents: parsing the bytes of a message gives the message. *)
Definition protobuf_parses : Prop :=
  ∀ m, ParseFromArray proto (message_init proto) (SerializeWithCachedSizesToArray proto m)
       = (true, m).

Lemma protobuf_serializer_ok : protobuf_parses → @SerializerOk T protobuf_serializer.
Proof.
  intros Hparse. constructor. intros m. simpl.
  unfold protobuf_deserialize, protobuf_serialize, readall. simpl.
  by rewrite app_nil_r, Hparse.
Qed.
End Protobuf.

(** ** Operations and batches *)

(** The member of the union [grpc_op::data] that is set. *)
Inductive op_data :=
| GRPC_OP_SEND_INITIAL_METADATA (metadata : list (string * string))
| GRPC_OP_SEND_MESSAGE (send_message : byte_buffer)
| GRPC_OP_SEND_CLOSE_FROM_CLIENT
| GRPC_OP_SEND_STATUS_FROM_SERVER (status : grpc_status_code) (status_details : option string)
| GRPC_OP_RECV_INITIAL_METADATA
| GRPC_OP_RECV_MESSAGE
| GRPC_OP_RECV_STATUS_ON_CLIENT
| GRPC_OP_RECV_CLOSE_ON_SERVER.

Record grpc_op := GrpcOp { op_flags : Z; op_data_ : op_data }.

#[export] Instance op_data_eq_dec : EqDecision op_data.
Proof. solve_decision. Defined.
#[export] Instance grpc_op_eq_dec : EqDecision grpc_op.
Proof. solve_decision. Defined.

(** The kind of an operation: [grpc_op_type]. *)
Definition op_kind (op : grpc_op) : nat :=
  match op_data_ op with
  | GRPC_OP_SEND_INITIAL_METADATA _ => 0
  | GRPC_OP_SEND_MESSAGE _ => 1
  | GRPC_OP_SEND_CLOSE_FROM_CLIENT => 2
  | GRPC_OP_SEND_STATUS_FROM_SERVER _ _ => 3
  | GRPC_OP_RECV_INITIAL_METADATA => 4
  | GRPC_OP_RECV_MESSAGE => 5
  | GRPC_OP_RECV_STATUS_ON_CLIENT => 6
  | GRPC_OP_RECV_CLOSE_ON_SERVER => 7
  end.

(** Messages may be sent and received many times, everything else once. *)
Definition repeatable (k : nat) : bool := (k =? 1) || (k =? 5).

Record batch := Batch { batch_ops : list grpc_op; batch_flags : Z }.

(** A batch that does more than receive messages. *)
Definition is_control (b : batch) : Prop :=
  existsb (λ op, negb (op_kind op =? 5)) (batch_ops b) = true.
#[export] Instance is_control_dec b : Decision (is_control b).
Proof. unfold is_control. apply _. Defined.

Definition kinds_of (bs : list batch) : list nat := op_kind <$> (bs ≫= batch_ops).

(** gRPC's documented rule: a batch holds at most one operation of each kind, none
    of a kind that is in flight, none that can be done only once and was, and no
    message after the end of the messages. *)
Definition batch_allowed (inflight started : list batch) (ops : list grpc_op) : bool :=
  bool_decide (NoDup (op_kind <$> ops)) &&
  forallb (λ k, (bool_decide (k ∉ kinds_of inflight)) &&
                (repeatable k || bool_decide (k ∉ kinds_of started)) &&
                (negb (k =? 1) ||
                 bool_decide ((2 ∉ kinds_of started) ∧ (3 ∉ kinds_of started))))
    (op_kind <$> ops).

(** *** Batches gRPC accepts *)

Lemma kinds_of_elem b bs x : b ∈ bs → x ∈ op_kind <$> batch_ops b → x ∈ kinds_of bs.
Proof.
  intros Hb Hx. unfold kinds_of. apply list_elem_of_fmap in Hx as (op & -> & Hop).
  apply list_elem_of_fmap. exists op. split; [done|].
  apply list_elem_of_bind. by exists b.
Qed.

Lemma kinds_of_elem_inv bs x : x ∈ kinds_of bs → ∃ b, b ∈ bs ∧ x ∈ op_kind <$> batch_ops b.
Proof.
  unfold kinds_of. intros (op & -> & Hop)%list_elem_of_fmap.
  apply list_elem_of_bind in Hop as (b & Hop & Hb). exists b. split; [done|].
  apply list_elem_of_fmap. by exists op.
Qed.

(** A batch whose operations are of one kind each is allowed when no such kind is
    in flight and the once-only ones were not done. *)
Lemma allowed_intro infl strt ops :
  NoDup (op_kind <$> ops) →
  (∀ x, x ∈ op_kind <$> ops → x ∉ kinds_of infl) →
  (∀ x, x ∈ op_kind <$> ops → repeatable x = true ∨ x ∉ kinds_of strt) →
  (1 ∈ op_kind <$> ops → (2 ∉ kinds_of strt) ∧ (3 ∉ kinds_of strt)) →
  batch_allowed infl strt ops = true.
Proof.
  intros Hnd Hinf Hst Hmsg. unfold batch_allowed. rewrite bool_decide_true by done.
  apply forallb_forall. intros x Hx%list_elem_of_In.
  rewrite bool_decide_true by (by apply Hinf). simpl. apply andb_true_iff. split.
  - destruct (Hst x Hx) as [->|Hn]; [done|]. rewrite bool_decide_true by done.
    apply orb_true_r.
  - destruct (Nat.eqb_spec x 1) as [->|]; [|done]. simpl.
    by rewrite bool_decide_true by (by apply Hmsg).
Qed.

Lemma kinds_of_app bs1 bs2 : kinds_of (bs1 ++ bs2) = kinds_of bs1 ++ kinds_of bs2.
Proof. unfold kinds_of. by rewrite bind_app, fmap_app. Qed.

(** What a handler frees. *)
Inductive release :=
| Release_buffer (b : byte_buffer)
| Release_slice (s : string)
| Release_call
| Release_metadata
| Release_completion.

(** A call of the gRPC core with the C++ object that drives it. *)
Record call_world (O : Type) := CallWorld {
  obj : O;
  inflight : list batch;   (* started, not completed yet *)
  started : list batch;    (* everything started, in order *)
  released : list release;
  cancels : nat;           (* calls to grpc_call_cancel_with_status *)
  deleted : bool           (* the object was deleted *)
}.
Arguments CallWorld {O} _ _ _ _ _ _.
Arguments obj {O} _.
Arguments inflight {O} _.
Arguments started {O} _.
Arguments released {O} _.
Arguments cancels {O} _.
Arguments deleted {O} _.

Section Calls.
Context {O : Type}.
Local Abbreviation world := (call_world O).

(** Whether the core answers [GRPC_CALL_OK]: any function of the history. *)
Context (accepts : list batch → list batch → list grpc_op → bool).

(** What the library relies on. *)
Definition grpc_accepts_allowed : Prop :=
  ∀ infl strt ops, batch_allowed infl strt ops = true → accepts infl strt ops = true.

Definition set_obj (o : O) (w : world) : world :=
  CallWorld o (inflight w) (started w) (released w) (cancels w) (deleted w).

Definition get_obj : M world O := gets obj.
Definition put_obj (o : O) : M world unit := modify (set_obj o).
Definition modify_obj (f : O → O) : M world unit := modify (λ w, set_obj (f (obj w)) w).

Definition releases (r : release) : M world unit :=
  modify (λ w, CallWorld (obj w) (inflight w) (started w) (released w ++ [r])
                 (cancels w) (deleted w)).

(** [grpc_call_start_batch(call_, ops, n, completion_tag(flags).data, nullptr)]:
    whether it was accepted. *)
Definition grpc_call_start_batch (ops : list grpc_op) (flags : Z) : M world bool := λ w,
  if accepts (inflight w) (started w) ops then
    (Ret true, CallWorld (obj w) (inflight w ++ [Batch ops flags])
                 (started w ++ [Batch ops flags]) (released w) (cancels w) (deleted w))
  else (Ret false, w).

Definition grpc_call_cancel_with_status : M world unit :=
  modify (λ w, CallWorld (obj w) (inflight w) (started w) (released w)
                 (S (cancels w)) (deleted w)).

(** [delete completion], after the destructor ran [dtor]. *)
Definition delete_object (dtor : M world unit) : M world unit :=
  dtor ;;
  modify (λ w, CallWorld (obj w) (inflight w) (started w) (released w) (cancels w) true).

(** The completion queue delivers the completion of the [i]-th batch in flight: the
    object's [exec], which is [noexcept], runs with the batch's flags, and the object is
    deleted when [exec] says so. *)
Definition complete_batch (exec : bool → Z → M world bool) (dtor : M world unit)
  (i : nat) (success : bool) : M world unit := λ w,
  match inflight w !! i with
  | None => (Ret tt, w)
  | Some b =>
      let w' := CallWorld (obj w) (delete i (inflight w)) (started w) (released w)
                  (cancels w) (deleted w) in
      if deleted w then (Crash Use_after_free, w')
      else (kill ← noexcept (exec success (batch_flags b));
            when kill (delete_object dtor)) w'
  end.

Lemma start_batch_runs ops flags (w : world) :
  grpc_accepts_allowed →
  batch_allowed (inflight w) (started w) ops = true →
  grpc_call_start_batch ops flags w =
  (Ret true, CallWorld (obj w) (inflight w ++ [Batch ops flags])
               (started w ++ [Batch ops flags]) (released w) (cancels w) (deleted w)).
Proof. intros Hacc Hal. unfold grpc_call_start_batch. by rewrite (Hacc _ _ _ Hal). Qed.

Definition call_init (o : O) : world := CallWorld o [] [] [] 0 false.
End Calls.

(** The batch whose completion has the flags [f]. *)
Lemma find_flags inf b rest f :
  inf ≡ₚ b :: rest → batch_flags b = f → (∀ b', b' ∈ rest → batch_flags b' ≠ f) →
  ∃ i, list_find (λ b, batch_flags b = f) inf = Some (i, b) ∧ inf !! i = Some b ∧
       delete i inf ≡ₚ rest.
Proof.
  intros Hp Hb Hrest.
  destruct (list_find_elem_of (λ b, batch_flags b = f) inf b) as [[i b'] Hfind];
    [by rewrite Hp; constructor|done|].
  exists i. pose proof Hfind as Hfind'. apply list_find_Some in Hfind' as (Hi & Hf & _).
  assert (b' = b) as ->.
  { apply list_elem_of_lookup_2 in Hi. rewrite Hp in Hi.
    apply elem_of_cons in Hi as [|Hi]; [done|]. by destruct (Hrest b' Hi). }
  split; [done|]. split; [done|].
  apply (Permutation_cons_inv (a:=b)). rewrite <- Hp. symmetry. by apply delete_Permutation.
Qed.

Lemma find_flags_none inf f :
  (∀ b, b ∈ inf → batch_flags b ≠ f) → list_find (λ b, batch_flags b = f) inf = None.
Proof. intros Hall. apply list_find_None, Forall_forall. apply Hall. Qed.
