(* ===== verification/CallHandler.v ===== *)
(** What every server-side call handler shares
    (include/easy_grpc/server/methods/call_handler.h), and the handler of unary
    calls (methods/unary.h). *)

From S2P Require Import Prelude Errors Effects FutureUtils FutureStorage Grpc.

(** The members of [Call_handler]; [ext] holds those of the derived class. *)
Record call_handler (X : Type) := CallHandler {
  call_ : bool;                                  (* [call_ != nullptr] *)
  request_metadata_ : list (string * string);
  cancelled_ : Z;
  server_metadata_ : list (string * string);
  ext : X
}.
Arguments CallHandler {X} _ _ _ _ _.
Arguments call_ {X} _.
Arguments request_metadata_ {X} _.
Arguments cancelled_ {X} _.
Arguments server_metadata_ {X} _.
Arguments ext {X} _.

(** [Call_handler::Call_handler]. *)
Definition Call_handler_init {X} (x : X) : call_handler X := CallHandler false [] 0 [] x.

Definition set_ext {X} (x : X) (h : call_handler X) : call_handler X :=
  CallHandler (call_ h) (request_metadata_ h) (cancelled_ h) (server_metadata_ h) x.

(** *** Operations *)

Definition op_send_message (buffer : byte_buffer) : grpc_op :=
  GrpcOp 0 (GRPC_OP_SEND_MESSAGE buffer).

Definition op_send_status (code : grpc_status_code) (details : option string) : grpc_op :=
  GrpcOp 0 (GRPC_OP_SEND_STATUS_FROM_SERVER code details).

Definition op_recv_close : grpc_op := GrpcOp 0 GRPC_OP_RECV_CLOSE_ON_SERVER.

Definition op_send_metadata {X} (h : call_handler X) : grpc_op :=
  GrpcOp 0 (GRPC_OP_SEND_INITIAL_METADATA (server_metadata_ h)).

Definition op_recv_message : grpc_op := GrpcOp 0 GRPC_OP_RECV_MESSAGE.

(** The three [catch] clauses of [get_error_details]. *)
Definition get_error_details (error : exn) : grpc_status_code * string :=
  match error with
  | Rpc_error code what => (code, what)
  | Std_exception what => (GRPC_STATUS_UNKNOWN, what)
  | Other_exception => (GRPC_STATUS_UNKNOWN, "")
  end.

Section Handler.
Context {X : Type}.
Local Abbreviation world := (call_world (call_handler X)).
Context (accepts : list batch → list batch → list grpc_op → bool).

Definition get_ext : M world X := gets (λ w : world, ext (obj w)).
Definition put_ext (x : X) : M world unit := modify_obj (set_ext x).

(** [Call_handler::~Call_handler]. *)
Definition Call_handler_destroy : M world unit :=
  h ← get_obj;
  when (call_ h) (releases Release_call) ;;
  releases Release_metadata ;;
  releases Release_metadata.

Section Response.
Context {RepT : Type} `{!Serializer RepT}.

Definition send_unary_response (rep : RepT) (with_metadata : bool) (flags : Z) :
  M world unit :=
  h ← get_obj;
  let buffer := serialize rep in
  let ops := [op_send_message buffer; op_send_status GRPC_STATUS_OK None; op_recv_close] ++
             (if with_metadata then [op_send_metadata h] else []) in
  call_status ← grpc_call_start_batch accepts ops flags;
  releases (Release_buffer buffer) ;;
  massert call_status.
End Response.

Definition send_failure (error : exn) (with_metadata : bool) (flags : Z) : M world unit :=
  h ← get_obj;
  let '(status, details) := get_error_details error in
  let ops := [op_send_status status (Some details); op_recv_close] ++
             (if with_metadata then [op_send_metadata h] else []) in
  call_status ← grpc_call_start_batch accepts ops flags;
  releases (Release_slice details) ;;
  massert call_status.
End Handler.

(** ** Unary calls *)

(** [Unary_call_handler_base]: the request's buffer, and the future the
    asynchronous flavour waits on (owned by its [finally] closure). *)
Record unary_call (RepT : Type) := UnaryCall {
  payload_ : option byte_buffer;
  reply_future : option (future_storage RepT unit)
}.
Arguments UnaryCall {RepT} _ _.
Arguments payload_ {RepT} _.
Arguments reply_future {RepT} _.

Section Unary.
Context {ReqT RepT : Type} `{!Serializer ReqT, !Serializer RepT}.
Context (accepts : list batch → list batch → list grpc_op → bool).
Local Abbreviation world := (call_world (call_handler (unary_call RepT))).

Definition Unary_call_handler_destroy : M world unit :=
  x ← get_ext;
  (match payload_ x with
   | Some b => releases (Release_buffer b)
   | None => mret tt
   end) ;;
  Call_handler_destroy.

Definition Unary_call_handler_exec (success : bool) (flags : Z) : M world bool := mret true.

(** [finish(expected<RepT>)]. *)
Definition Unary_call_handler_finish (rep : expected RepT) : M world unit :=
  match rep with
  | Val rep => send_unary_response accepts rep true 0
  | Err error => send_failure accepts error true 0
  end.

(** [assert(payload_); deserialize<ReqT>(payload_)]. *)
Definition read_request : M world ReqT :=
  x ← get_ext;
  match payload_ x with
  | None => crash_with Assertion_failed
  | Some b =>
      match deserialize b with
      | Some req => mret req
      | None => crash_with Assertion_failed
      end
  end.

(** Synchronous [perform]: the program's handler returns or throws. *)
Definition Unary_call_handler_perform_sync (handler : ReqT → expected RepT) :
  M world unit :=
  req ← read_request;
  let result := match handler req with Val rep => Val rep | Err e => Err e end in
  Unary_call_handler_finish result.

(** The closure given to [finally]. *)
Definition unary_reply (f : finish_type RepT) : M world unit :=
  match f with
  | [Val (Some rep)] => Unary_call_handler_finish (Val rep)
  | [Err e] => Unary_call_handler_finish (Err e)
  | _ => crash_with Assertion_failed
  end.

Definition on_reply (m : M (future_storage RepT unit) (option (unit * handler_call RepT))) :
  M world unit :=
  x ← get_ext;
  match reply_future x with
  | None => crash_with Use_after_free
  | Some st =>
      match m st with
      | (Ret o, st') =>
          put_ext (UnaryCall (payload_ x) (Some st')) ;;
          match o with
          | None => mret tt
          | Some (_, c) => unary_reply (call_result [Fval] c)
          end
      | (Throw e, st') => throw e
      | (Crash c, st') => crash_with c
      end
  end.

(** Asynchronous [perform]: the program's handler returns a future, or throws. *)
Definition Unary_call_handler_perform_async
  (handler : ReqT → expected (future_storage RepT unit)) : M world unit :=
  req ← read_request;
  try_catch
    (match handler req with
     | Err e => throw e
     | Val fut =>
         x ← get_ext;
         put_ext (UnaryCall (payload_ x) (Some fut)) ;;
         on_reply (Future_storage_set_handler tt)
     end)
    (λ e, Unary_call_handler_finish (Err e)).

(** The program settles the promise of that future. *)
Definition unary_settle (rep : expected RepT) : M world unit :=
  match rep with
  | Val rep => on_reply (Future_storage_fullfill [Fval] [rep])
  | Err e => on_reply (Future_storage_fail [Fval] e)
  end.

(** ** What a unary call sends *)

(** The operations that answer a call with [rep]. *)
Definition unary_answer (metadata : list (string * string)) (rep : expected RepT) :
  list grpc_op :=
  match rep with
  | Val rep =>
      [op_send_message (serialize rep); op_send_status GRPC_STATUS_OK None; op_recv_close;
       GrpcOp 0 (GRPC_OP_SEND_INITIAL_METADATA metadata)]
  | Err e =>
      [op_send_status (get_error_details e).1 (Some (get_error_details e).2); op_recv_close;
       GrpcOp 0 (GRPC_OP_SEND_INITIAL_METADATA metadata)]
  end.

Definition answer_release (rep : expected RepT) : release :=
  match rep with
  | Val rep => Release_buffer (serialize rep)
  | Err e => Release_slice (get_error_details e).2
  end.

Lemma unary_answer_allowed metadata rep :
  batch_allowed [] [] (unary_answer metadata rep) = true.
Proof. destruct rep as [rep|e]; [done|]. by destruct e. Qed.

Context (Haccepts : grpc_accepts_allowed accepts).

(** Answering on a call on which nothing was started. *)
Lemma unary_finish_answers rep (w : world) :
  inflight w = [] → started w = [] →
  Unary_call_handler_finish rep w =
  let b := Batch (unary_answer (server_metadata_ (obj w)) rep) 0 in
  (Ret tt, CallWorld (obj w) [b] [b] (released w ++ [answer_release rep]) (cancels w)
             (deleted w)).
Proof.
  intros Hinf Hst. pose proof (Haccepts _ _ _ (unary_answer_allowed
    (server_metadata_ (obj w)) rep)) as Hacc.
  destruct w as [o inf st rel c d]. simpl in *. subst inf st.
  destruct rep as [rep|e]; simpl in Hacc.
  - unfold Unary_call_handler_finish, send_unary_response, grpc_call_start_batch. munfold.
    simpl. unfold op_send_metadata. by rewrite Hacc.
  - unfold Unary_call_handler_finish, send_failure, grpc_call_start_batch. munfold. simpl.
    unfold op_send_metadata. destruct (get_error_details e) as [status details].
    simpl in *. by rewrite Hacc.
Qed.

(** The request's metadata, which no handler looks at. *)
Context {rmd : list (string * string)}.

(** A call on which nothing was started. *)
Definition unary_call_with (payload : byte_buffer) metadata (fut : option (future_storage RepT unit)) :
  world :=
  call_init (CallHandler true rmd 0 metadata (UnaryCall (Some payload) fut)).

(** A call whose request has arrived. *)
Definition unary_incoming (payload : byte_buffer) (metadata : list (string * string)) :
  world := unary_call_with payload metadata None.

(** The reply was sent. *)
Definition replied (payload : byte_buffer) metadata (rep : expected RepT) (w : world) :
  Prop :=
  ∃ fut, w = CallWorld (CallHandler true rmd 0 metadata (UnaryCall (Some payload) fut))
               [Batch (unary_answer metadata rep) 0] [Batch (unary_answer metadata rep) 0]
               [answer_release rep] 0 false.

(** The end of a call: answered with [rep], completed, deleted. *)
Definition unary_answered (payload : byte_buffer) metadata (rep : expected RepT)
  (w : world) : Prop :=
  inflight w = [] ∧ started w = [Batch (unary_answer metadata rep) 0] ∧ deleted w = true ∧
  released w = [answer_release rep; Release_buffer payload; Release_call; Release_metadata;
                Release_metadata].

Definition unary_complete : M world unit :=
  complete_batch Unary_call_handler_exec Unary_call_handler_destroy 0 true.

(** The batch of an answered call completes: the handler is deleted. *)
Lemma unary_complete_deletes payload metadata rep (w : world) :
  replied payload metadata rep w →
  ∃ w', unary_complete w = (Ret tt, w') ∧ unary_answered payload metadata rep w'.
Proof.
  intros [fut ->]. unfold unary_complete, complete_batch, delete_object,
    Unary_call_handler_destroy, Call_handler_destroy, get_ext, get_obj, releases. munfold. simpl.
  eexists. split; [reflexivity|]. done.
Qed.

Lemma finish_replied payload metadata fut rep :
  ∃ w, Unary_call_handler_finish rep (unary_call_with payload metadata fut) = (Ret tt, w) ∧
    replied payload metadata rep w.
Proof. eexists. unfold unary_call_with. rewrite unary_finish_answers by done. split; [done|]. by exists fut. Qed.

Lemma read_request_runs payload metadata req fut :
  deserialize payload = Some req →
  read_request (unary_call_with payload metadata fut) = (Ret req, unary_call_with payload metadata fut).
Proof. intros Hreq. unfold read_request, get_ext. munfold. simpl. by rewrite Hreq. Qed.

Lemma perform_sync_replied handler payload metadata req :
  deserialize payload = Some req →
  ∃ w, Unary_call_handler_perform_sync handler (unary_incoming payload metadata) = (Ret tt, w) ∧
    replied payload metadata (handler req) w.
Proof.
  intros Hreq. destruct (finish_replied payload metadata None (handler req)) as (w & Hw & Hr).
  exists w. split; [|done]. eapply runs_bind; [exact (read_request_runs payload metadata req None Hreq)|].
  replace (match handler req with Val rep => Val rep | Err e => Err e end)
    with (handler req) by (by destruct (handler req)).
  exact Hw.
Qed.

(** How the program's asynchronous handler gives the reply: by throwing, by a
    future that has its result, or by one that gets it later. *)
Inductive async_reply : expected (future_storage RepT unit) → expected RepT → bool → Prop :=
| reply_thrown e : async_reply (Err e) (Err e) false
| reply_ready st r :
    implements st (Cell_finished [match r with Val v => Val (Some v) | Err e => Err e end]) →
    async_reply (Val st) r false
| reply_pending st r : implements st Cell_empty → async_reply (Val st) r true.

(** An operation on the reply's future, seen through the cell it implements. *)
Lemma on_reply_step m step payload metadata st c c' out :
  simulates [Fval] m step → implements st c → step c = Some (c', out) →
  ∃ st', implements st' c' ∧
    on_reply m (unary_call_with payload metadata (Some st)) =
    (match out with None => mret tt | Some (_, f) => unary_reply f end)
      (unary_call_with payload metadata (Some st')).
Proof.
  intros Hsim Hst Hstep. destruct (Hsim st c c' out Hst Hstep) as (o & st' & Hm & Hi & Ho).
  exists st'. split; [done|]. unfold on_reply, get_ext, put_ext, modify_obj. munfold. simpl.
  rewrite Hm. subst out. by destruct o as [[[] c0]|].
Qed.

(** ... that fires: the reply is sent. *)
Lemma on_reply_fires m step payload metadata st c c' rep :
  simulates [Fval] m step → implements st c →
  step c = Some (c', Some (tt, [match rep with Val v => Val (Some v) | Err e => Err e end])) →
  ∃ w, on_reply m (unary_call_with payload metadata (Some st)) = (Ret tt, w) ∧
    replied payload metadata rep w.
Proof.
  intros Hsim Hst Hstep.
  destruct (on_reply_step _ _ payload metadata _ _ _ _ Hsim Hst Hstep) as (st' & _ & ->).
  destruct (finish_replied payload metadata (Some st') rep) as (w & Hw & Hr).
  exists w. split; [|done]. rewrite <- Hw. by destruct rep.
Qed.

(** A call that waits for the program's reply: nothing was sent. *)
Definition awaiting (payload : byte_buffer) metadata (w : world) : Prop :=
  ∃ st, implements st (Cell_attached tt) ∧ w = unary_call_with payload metadata (Some st).

Lemma settle_replied payload metadata rep (w : world) :
  awaiting payload metadata w →
  ∃ w', unary_settle rep w = (Ret tt, w') ∧ replied payload metadata rep w'.
Proof.
  intros (st & Hst & ->). destruct rep as [v|e].
  - by eapply on_reply_fires; [apply (fullfill_simulates [Fval] [v])|exact Hst|].
  - by eapply on_reply_fires; [apply (fail_simulates [Fval] e)|exact Hst|].
Qed.

(** [perform] answers at once, or waits. *)
Lemma perform_async_runs handler payload metadata req rep pending :
  deserialize payload = Some req → async_reply (handler req) rep pending →
  ∃ w, Unary_call_handler_perform_async handler (unary_incoming payload metadata) = (Ret tt, w) ∧
    if pending then awaiting payload metadata w else replied payload metadata rep w.
Proof.
  intros Hreq Hrep.
  assert (∀ w, try_catch (match handler req with
                 | Err e => throw e
                 | Val fut =>
                     x ← get_ext; put_ext (UnaryCall (payload_ x) (Some fut)) ;;
                     on_reply (Future_storage_set_handler tt)
                 end) (λ e, Unary_call_handler_finish (Err e)) (unary_incoming payload metadata)
               = (Ret tt, w) →
            Unary_call_handler_perform_async handler (unary_incoming payload metadata) = (Ret tt, w))
    as Hread.
  { intros w Hw. eapply runs_bind; [exact (read_request_runs payload metadata req None Hreq)|exact Hw]. }
  destruct Hrep as [e|st r Hst|st r Hst].
  - destruct (finish_replied payload metadata None (Err e)) as (w & Hw & Hr).
    exists w. split; [by apply Hread|done].
  - destruct (on_reply_fires _ _ payload metadata st _ _ r (set_handler_simulates [Fval] tt) Hst
      eq_refl) as (w & Hw & Hr).
    exists w. split; [|done]. apply Hread. unfold try_catch.
    change ((x ← get_ext; put_ext (UnaryCall (payload_ x) (Some st)) ;;
      on_reply (Future_storage_set_handler tt)) (unary_incoming payload metadata) = (Ret tt, w)) in Hw.
    by rewrite Hw.
  - destruct (on_reply_step _ _ payload metadata st _ (Cell_attached tt) None
      (set_handler_simulates [Fval] tt) Hst eq_refl) as (st' & Hi & Heq).
    exists (unary_call_with payload metadata (Some st')). split; [|by exists st'].
    change ((x ← get_ext; put_ext (UnaryCall (payload_ x) (Some st)) ;;
      on_reply (Future_storage_set_handler tt)) (unary_incoming payload metadata) =
      (Ret tt, unary_call_with payload metadata (Some st'))) in Heq.
    apply Hread. unfold try_catch. by rewrite Heq.
Qed.

(** From the request to the deletion of the handler. *)
Lemma unary_async_whole handler payload metadata req rep pending :
  deserialize payload = Some req → async_reply (handler req) rep pending →
  ∃ w, (Unary_call_handler_perform_async handler ;;
        when pending (unary_settle rep) ;; unary_complete) (unary_incoming payload metadata)
         = (Ret tt, w) ∧ unary_answered payload metadata rep w.
Proof.
  intros Hreq Hrep.
  destruct (perform_async_runs handler payload metadata req rep pending Hreq Hrep) as (w1 & H1 & Hw1).
  assert (∃ w2, when pending (unary_settle rep) w1 = (Ret tt, w2) ∧ replied payload metadata rep w2)
    as (w2 & H2 & Hw2).
  { destruct pending; [by apply settle_replied|by exists w1]. }
  destruct (unary_complete_deletes payload metadata rep w2 Hw2) as (w3 & H3 & Hd).
  exists w3. split; [|done]. eapply runs_bind; [exact H1|]. eapply runs_bind; [exact H2|exact H3].
Qed.

Lemma unary_sync_whole handler payload metadata req :
  deserialize payload = Some req →
  ∃ w, (Unary_call_handler_perform_sync handler ;; unary_complete) (unary_incoming payload metadata)
         = (Ret tt, w) ∧ unary_answered payload metadata (handler req) w.
Proof.
  intros Hreq. destruct (perform_sync_replied handler payload metadata req Hreq) as (w1 & H1 & Hw1).
  destruct (unary_complete_deletes _ _ _ _ Hw1) as (w2 & H2 & Hd).
  exists w2. split; [|done]. by eapply runs_bind.
Qed.
End Unary.

(** A serializer for the witnesses: one byte. *)
#[export] Instance byte_serializer : Serializer Byte.byte := {|
  serialize b := ByteBuffer true [[b]];
  deserialize b := head (readall b)
|}.

#[export] Instance byte_serializer_ok : SerializerOk Byte.byte.
Proof. by constructor. Qed.

(** A core that accepts exactly what its documentation allows. *)
Lemma batch_allowed_accepts : grpc_accepts_allowed batch_allowed.
Proof. by intros infl strt ops. Qed.

(** A unary call with a synchronous handler is answered exactly once, by one
    batch that holds the serialized reply and the status OK, or, when the handler
    throws, the code and message of the exception; when that batch completes the
    call handler is deleted, and has released the reply's buffer, the request's
    buffer, its call and its two metadata arrays, once each. *)
Theorem unary_sync_answered_once {ReqT RepT} `{!Serializer ReqT, !Serializer RepT}
  (accepts : list batch → list batch → list grpc_op → bool)
  (Haccepts : grpc_accepts_allowed accepts)
  (handler : ReqT → expected RepT) (payload : byte_buffer) (req : ReqT)
  {rmd : list (string * string)} (metadata : list (string * string))
  (Hreq : deserialize payload = Some req) :
  ∃ w, (Unary_call_handler_perform_sync accepts handler ;; unary_complete)
         (unary_incoming (rmd:=rmd) payload metadata) = (Ret tt, w) ∧
       unary_answered payload metadata (handler req) w.
Proof. by apply unary_sync_whole. Qed.

Lemma unary_sync_answered_once_witness :
  ∃ w, (Unary_call_handler_perform_sync batch_allowed
          (λ _ : Byte.byte, Err (error_not_found "nope") : expected Byte.byte) ;;
        unary_complete)
         (unary_incoming (rmd:=[]) (ByteBuffer true [[Byte.x07]]) []) = (Ret tt, w) ∧
       unary_answered (ByteBuffer true [[Byte.x07]]) []
         (Err (error_not_found "nope") : expected Byte.byte) w.
Proof.
  apply (unary_sync_answered_once batch_allowed batch_allowed_accepts
           (λ _ : Byte.byte, Err (error_not_found "nope") : expected Byte.byte)
           (ByteBuffer true [[Byte.x07]]) Byte.x07 []).
  reflexivity.
Defined.

(** The same for an asynchronous handler: whether it throws, returns a future
    that is already finished, or one that is finished later, with a value or an
    error, the call gets one answer, for that outcome, and is then released. *)
Theorem unary_async_answered_once {ReqT RepT} `{!Serializer ReqT, !Serializer RepT}
  (accepts : list batch → list batch → list grpc_op → bool)
  (Haccepts : grpc_accepts_allowed accepts)
  (handler : ReqT → expected (future_storage RepT unit)) (payload : byte_buffer)
  (req : ReqT) {rmd : list (string * string)} (metadata : list (string * string))
  (rep : expected RepT) (pending : bool)
  (Hreq : deserialize payload = Some req)
  (Hrep : async_reply (handler req) rep pending) :
  ∃ w, (Unary_call_handler_perform_async accepts handler ;;
        when pending (unary_settle accepts rep) ;; unary_complete)
         (unary_incoming (rmd:=rmd) payload metadata) = (Ret tt, w) ∧
       unary_answered payload metadata rep w.
Proof. by eapply unary_async_whole. Qed.

Lemma unary_async_answered_once_witness :
  ∃ w, (Unary_call_handler_perform_async batch_allowed
          (λ _ : Byte.byte, Val (Future_storage_init (V:=Byte.byte))) ;;
        when true (unary_settle batch_allowed (Val Byte.x2a)) ;; unary_complete)
         (unary_incoming (rmd:=[]) (ByteBuffer true [[Byte.x07]]) []) = (Ret tt, w) ∧
       unary_answered (ByteBuffer true [[Byte.x07]]) [] (Val Byte.x2a) w.
Proof.
  apply (unary_async_answered_once batch_allowed batch_allowed_accepts
           (λ _ : Byte.byte, Val (Future_storage_init (V:=Byte.byte)))
           (ByteBuffer true [[Byte.x07]]) Byte.x07 [] (Val Byte.x2a) true).
  - reflexivity.
  - apply reply_pending. exact init_implements.
Defined.
