(* ===== verification/ServerStreaming.v ===== *)
(** The handler of server-streaming calls
    (include/easy_grpc/server/methods/server_streaming.h): it sends the messages
    of the program's stream one batch at a time, and the status after the last. *)

From S2P Require Import Prelude Errors Effects FutureUtils FutureStorage Future.
From S2P Require Import StreamStorage Grpc CallHandler.

(** The members of [Server_streaming_call_handler]. *)
Record server_streaming := ServerStreaming {
  ss_payload_ : option byte_buffer;
  ss_mtx_ : bool;
  ss_finished_ : bool;
  batch_in_flight_ : bool;
  ss_pending_ops_ : list grpc_op
}.

Definition server_streaming_init (payload : option byte_buffer) : server_streaming :=
  ServerStreaming payload false false false [].

Section Server_streaming.
Context {ReqT RepT : Type} `{!Serializer ReqT, !Serializer RepT}.
Context (accepts : list batch → list batch → list grpc_op → bool).
Local Abbreviation world := (call_world (call_handler server_streaming)).

Definition ss_set_mtx (b : bool) : M world unit :=
  x ← get_ext;
  put_ext (ServerStreaming (ss_payload_ x) b (ss_finished_ x) (batch_in_flight_ x)
             (ss_pending_ops_ x)).
Definition ss_set_finished : M world unit :=
  x ← get_ext;
  put_ext (ServerStreaming (ss_payload_ x) (ss_mtx_ x) true (batch_in_flight_ x)
             (ss_pending_ops_ x)).
Definition ss_set_in_flight (b : bool) : M world unit :=
  x ← get_ext;
  put_ext (ServerStreaming (ss_payload_ x) (ss_mtx_ x) (ss_finished_ x) b
             (ss_pending_ops_ x)).
Definition ss_set_pending (q : list grpc_op) : M world unit :=
  x ← get_ext;
  put_ext (ServerStreaming (ss_payload_ x) (ss_mtx_ x) (ss_finished_ x)
             (batch_in_flight_ x) q).

(** [std::lock_guard l(mtx_)] around a body. *)
Definition ss_with_lock {A} (m : M world A) : M world A :=
  x ← get_ext;
  if ss_mtx_ x then crash_with Deadlock
  else
    ss_set_mtx true ;;
    a ← try_catch m (λ e, ss_set_mtx false ;; throw e);
    ss_set_mtx false ;;
    mret a.

Definition Server_streaming_send_end : M world unit :=
  let ops := [op_recv_close; op_send_status GRPC_STATUS_OK None] in
  status ← grpc_call_start_batch accepts ops 1;
  massert status.

(** [flush_]; the front of an empty queue does not exist. *)
Definition Server_streaming_flush_ : M world unit :=
  x ← get_ext;
  if batch_in_flight_ x then mret tt
  else
    ss_set_in_flight true ;;
    match ss_pending_ops_ x with
    | [] => crash_with Null_dereference
    | op :: rest =>
        ss_set_pending rest ;;
        massert (match op_data_ op with GRPC_OP_SEND_MESSAGE _ => true | _ => false end) ;;
        status ← grpc_call_start_batch accepts [op] 0;
        massert status ;;
        match op_data_ op with
        | GRPC_OP_SEND_MESSAGE b => releases (Release_buffer b)
        | _ => mret tt
        end
    end.

Definition Server_streaming_push (val : RepT) : M world unit :=
  ss_with_lock (
    let op := op_send_message (serialize val) in
    x ← get_ext;
    ss_set_pending (ss_pending_ops_ x ++ [op]) ;;
    Server_streaming_flush_).

Definition Server_streaming_finish : M world unit :=
  ss_with_lock (
    ss_set_finished ;;
    x ← get_ext;
    when (negb (batch_in_flight_ x)) Server_streaming_send_end).

(** [fail(std::exception_ptr)]: its parameter has no name. *)
Definition Server_streaming_fail (error : exn) : M world unit :=
  ss_with_lock (
    let ops := [op_send_status GRPC_STATUS_OK None; op_recv_close] in
    status ← grpc_call_start_batch accepts ops 1;
    massert status).

Definition Server_streaming_exec (success : bool) (flags : Z) : M world bool :=
  if Z.testbit flags 0 then mret true
  else
    ss_with_lock (
      ss_set_in_flight false ;;
      x ← get_ext;
      (match ss_pending_ops_ x with
       | _ :: _ => Server_streaming_flush_
       | [] => when (ss_finished_ x) Server_streaming_send_end
       end) ;;
      mret false).

(** The destructor: the buffer was destroyed by [perform]. *)
Definition Server_streaming_destroy : M world unit := Call_handler_destroy.

(** *** perform *)

(** The closure given to [finally]. *)
Definition server_streaming_end (f : finish_type unit) : M world unit :=
  match f with
  | [Val None] => Server_streaming_finish
  | [Err e] => Server_streaming_fail e
  | _ => crash_with Assertion_failed
  end.

Definition server_streaming_handler : FutureHandler unit unit world.
Proof.
  refine {| handler_fields _ := [Fvoid];
            handler_fullfill _ v := server_streaming_end (fullfill_to_finish [Fvoid] 0 v);
            handler_finish _ f := server_streaming_end f |}.
  done.
Defined.
#[local] Existing Instance server_streaming_handler.

(** Before the program's handler runs: read the request, send the metadata. *)
Definition Server_streaming_perform_begin : M world ReqT :=
  x ← get_ext;
  match ss_payload_ x with
  | None => crash_with Assertion_failed
  | Some b =>
      match deserialize b with
      | None => crash_with Assertion_failed
      | Some req =>
          releases (Release_buffer b) ;;
          ss_set_in_flight true ;;
          h ← get_obj;
          status ← grpc_call_start_batch accepts [op_send_metadata h] 0;
          massert status ;;
          mret req
      end
  end.

(** [perform]; the program's handler throws, or returns a stream in any state. *)
Definition Server_streaming_perform (handler : ReqT → expected (stream_storage RepT)) :
  M (stream_world RepT unit world) unit :=
  req ← zoom client set_client Server_streaming_perform_begin;
  try_catch
    (match handler req with
     | Err e => throw e
     | Val s =>
         modify (λ w, set_final Future_storage_init (set_stream s w)) ;;
         Basic_stream_future_for_each Server_streaming_push true Immediate_queue ;;
         stream_finally tt
     end)
    (λ e, zoom client set_client (Server_streaming_fail e)).
End Server_streaming.
