(* ===== verification/ServerStreamingLaws.v ===== *)
(** The server-streaming handler under every interleaving of the program's stream
    with the completions of its batches: messages leave in order, one batch at a
    time, the status leaves last, and the handler is deleted after it. *)

From S2P Require Import Prelude Errors Effects FutureUtils FutureStorage Future.
From S2P Require Import StreamStorage StreamLaws Grpc CallHandler ServerStreaming.

Section Laws.
Context {ReqT RepT : Type} `{!Serializer ReqT, !Serializer RepT}.
Context (accepts : list batch → list batch → list grpc_op → bool).
Context (Haccepts : grpc_accepts_allowed accepts).
Context {rmd : list (string * string)}.
Local Abbreviation world := (call_world (call_handler server_streaming)).

(** What happens to a call: the program's stream produces, or ends, or the batch
    in flight completes. *)
Inductive ss_event :=
| SS_push (v : RepT)
| SS_finish
| SS_complete (success : bool).

Definition run_ss_event (ev : ss_event) : M world unit :=
  match ev with
  | SS_push v => Server_streaming_push accepts v
  | SS_finish => Server_streaming_finish accepts
  | SS_complete success =>
      complete_batch (Server_streaming_exec accepts) Server_streaming_destroy 0 success
  end.

Definition ss_pushed (evs : list ss_event) : list RepT :=
  omap (λ ev, match ev with SS_push v => Some v | _ => None end) evs.

Definition is_finish (ev : ss_event) : bool :=
  match ev with SS_finish => true | _ => false end.

(** A stream pushes nothing after its end, and ends once. *)
Fixpoint ss_legal (fin : bool) (evs : list ss_event) : Prop :=
  match evs with
  | [] => True
  | SS_push _ :: evs => fin = false ∧ ss_legal fin evs
  | SS_finish :: evs => fin = false ∧ ss_legal true evs
  | SS_complete _ :: evs => ss_legal fin evs
  end.

(** *** The batches of a call *)

Definition send_op (v : RepT) : grpc_op := op_send_message (serialize v).
Definition message_batch (v : RepT) : batch := Batch [send_op v] 0.
Definition metadata_batch (md : list (string * string)) : batch :=
  Batch [GrpcOp 0 (GRPC_OP_SEND_INITIAL_METADATA md)] 0.
Definition end_batch : batch := Batch [op_recv_close; op_send_status GRPC_STATUS_OK None] 1.

(** The whole call. *)
Definition ss_batches (md : list (string * string)) (vs : list RepT) : list batch :=
  metadata_batch md :: (message_batch <$> vs) ++ [end_batch].

Lemma kinds_of_messages vs k : k ∈ kinds_of (message_batch <$> vs) → k = 1.
Proof.
  induction vs as [|v vs IH]; simpl; [by rewrite elem_of_nil|].
  unfold kinds_of in *. simpl. rewrite elem_of_cons. intros [->|H]; [done|by apply IH].
Qed.

Lemma kinds_of_sending md vs k :
  k ∈ kinds_of (metadata_batch md :: (message_batch <$> vs)) → k = 0 ∨ k = 1.
Proof.
  change (metadata_batch md :: ?l) with ([metadata_batch md] ++ l).
  rewrite kinds_of_app, elem_of_app. intros [H|H].
  - left. by apply list_elem_of_singleton in H.
  - right. by eapply kinds_of_messages.
Qed.

Lemma message_allowed md vs v :
  batch_allowed [] (metadata_batch md :: (message_batch <$> vs)) [send_op v] = true.
Proof.
  unfold batch_allowed. rewrite bool_decide_true by (apply NoDup_singleton). simpl.
  rewrite bool_decide_true; [done|].
  split; intros H%kinds_of_sending; destruct H; done.
Qed.

Lemma end_allowed md vs :
  batch_allowed [] (metadata_batch md :: (message_batch <$> vs)) (batch_ops end_batch) = true.
Proof.
  unfold batch_allowed. rewrite bool_decide_true.
  - simpl. rewrite !(bool_decide_true (_ ∉ kinds_of (metadata_batch _ :: _))); [done|..];
      intros H%kinds_of_sending; destruct H; done.
  - simpl. apply NoDup_cons. split; [|apply NoDup_singleton].
    by intros H%list_elem_of_singleton.
Qed.

(** *** The states of a call *)

Inductive ss_phase := Sending (b : batch) | Idle | Ending | Gone.

(** [vs] were pushed, [k] of them were sent, [fin] says whether the stream ended. *)
Definition ss_state (md : list (string * string)) (pl : byte_buffer) (vs : list RepT)
  (k : nat) (fin : bool) (ph : ss_phase) : world :=
  CallWorld
    (CallHandler true rmd 0 md
       (ServerStreaming (Some pl) false fin (match ph with Sending _ => true | _ => false end)
          (send_op <$> drop k vs)))
    (match ph with Sending b => [b] | Ending => [end_batch] | _ => [] end)
    (metadata_batch md :: (message_batch <$> take k vs) ++
       match ph with Ending | Gone => [end_batch] | _ => [] end)
    (Release_buffer pl :: (Release_buffer ∘ serialize <$> take k vs) ++
       match ph with Gone => [Release_call; Release_metadata; Release_metadata] | _ => [] end)
    0
    (match ph with Gone => true | _ => false end).

Definition phase_ok (vs : list RepT) (k : nat) (fin : bool) (ph : ss_phase) : Prop :=
  k ≤ length vs ∧
  match ph with
  | Sending b => batch_flags b = 0%Z
  | Idle => k = length vs ∧ fin = false
  | Ending | Gone => k = length vs ∧ fin = true
  end.

Ltac unfold_ss :=
  unfold ss_with_lock, ss_set_mtx, ss_set_finished, ss_set_in_flight, ss_set_pending,
    get_ext, put_ext, get_obj, modify_obj, set_obj, set_ext, releases; munfold; simpl.

(** Sending the next message of the queue. *)
Lemma ss_flush md pl vs k fin v mt :
  vs !! k = Some v →
  let w b := CallWorld
    (CallHandler true rmd 0 md
       (ServerStreaming (Some pl) mt fin b (send_op <$> drop (if b then S k else k) vs))) in
  Server_streaming_flush_ accepts
    (w false [] (metadata_batch md :: (message_batch <$> take k vs))
       (Release_buffer pl :: (Release_buffer ∘ serialize <$> take k vs)) 0 false) =
  (Ret tt, w true [message_batch v] (metadata_batch md :: (message_batch <$> take (S k) vs))
     (Release_buffer pl :: (Release_buffer ∘ serialize <$> take (S k) vs)) 0 false).
Proof.
  intros Hv. simpl. unfold Server_streaming_flush_. unfold_ss.
  rewrite (drop_S_cons _ _ _ Hv). simpl.
  unfold grpc_call_start_batch. simpl.
  rewrite (Haccepts _ _ _ (message_allowed md (take k vs) v)).
  simpl. rewrite (take_S_r _ _ _ Hv), !fmap_app. reflexivity.
Qed.

(** Sending the status. *)
Lemma ss_send_end md pl vs fin fl mt q rel :
  let w inf st := CallWorld
    (CallHandler true rmd 0 md (ServerStreaming (Some pl) mt fin fl q)) inf st rel 0 false in
  Server_streaming_send_end accepts
    (w [] (metadata_batch md :: (message_batch <$> vs))) =
  (Ret tt, w [end_batch] (metadata_batch md :: (message_batch <$> vs) ++ [end_batch])).
Proof.
  unfold Server_streaming_send_end, grpc_call_start_batch. munfold. simpl.
  pose proof (Haccepts _ _ _ (end_allowed md vs)) as Hacc. simpl in Hacc. by rewrite Hacc.
Qed.

Lemma ss_push_step md pl vs k fin ph v :
  phase_ok vs k fin ph → fin = false →
  ∃ k' ph', Server_streaming_push accepts v (ss_state md pl vs k fin ph) =
              (Ret tt, ss_state md pl (vs ++ [v]) k' fin ph') ∧
            phase_ok (vs ++ [v]) k' fin ph'.
Proof.
  intros [Hk Hph] Hfin. destruct ph as [b| | |]; [| |by destruct Hph; congruence..].
  - exists k, (Sending b). unfold Server_streaming_push. unfold_ss.
    unfold Server_streaming_flush_. unfold_ss. unfold ss_state. simpl.
    rewrite drop_app_le, fmap_app, take_app_le by done. split; [done|].
    split; [rewrite length_app; lia|done].
  - destruct Hph as [-> _]. exists (S (length vs)), (Sending (message_batch v)).
    assert ((vs ++ [v]) !! length vs = Some v) as Hv
      by (rewrite lookup_app_r by lia; by rewrite Nat.sub_diag).
    split; [|split; [rewrite length_app; simpl; lia|done]].
    pose proof (ss_flush md pl (vs ++ [v]) (length vs) fin v true Hv) as Hfl.
    simpl in Hfl.
    unfold Server_streaming_push. unfold_ss. rewrite drop_all, take_ge, app_nil_r by done.
    rewrite drop_app_length, take_app_length, ?app_nil_r in Hfl.
    rewrite app_nil_r. simpl in Hfl |- *. change (op_send_message (serialize v)) with (send_op v).
    rewrite Hfl. unfold ss_state. simpl.
    by rewrite !app_nil_r.
Qed.

Lemma ss_finish_step md pl vs k ph :
  phase_ok vs k false ph →
  ∃ ph', Server_streaming_finish accepts (ss_state md pl vs k false ph) =
           (Ret tt, ss_state md pl vs k true ph') ∧
         phase_ok vs k true ph'.
Proof.
  intros [Hk Hph]. destruct ph as [b| | |]; [| |by destruct Hph; congruence..].
  - exists (Sending b). unfold Server_streaming_finish. unfold_ss. by split.
  - destruct Hph as [-> _]. exists Ending. unfold Server_streaming_finish. unfold_ss.
    rewrite app_nil_r, ss_send_end. by split.
Qed.

(** How many completions a finished call still needs. *)
Definition completions_left (vs : list RepT) (k : nat) (ph : ss_phase) : nat :=
  match ph with
  | Sending _ => length vs - k + 2
  | Idle | Ending => 1
  | Gone => 0
  end.

Lemma ss_complete_step md pl vs k fin ph success :
  phase_ok vs k fin ph →
  ∃ k' ph', run_ss_event (SS_complete success) (ss_state md pl vs k fin ph) =
              (Ret tt, ss_state md pl vs k' fin ph') ∧
            phase_ok vs k' fin ph' ∧
            (fin = true → completions_left vs k' ph' ≤ pred (completions_left vs k ph)).
Proof.
  intros [Hk Hph]. destruct ph as [b| | |].
  - unfold run_ss_event, complete_batch, ss_state. simpl.
    unfold Server_streaming_exec. rewrite Hph. simpl. unfold_ss. rewrite !app_nil_r.
    destruct (decide (k = length vs)) as [->|Hne].
    + rewrite drop_all. simpl. destruct fin.
      * exists (length vs), Ending. unfold_ss. rewrite ss_send_end. simpl.
        rewrite drop_all, !app_nil_r. split; [done|]. split; [done|]. simpl. lia.
      * exists (length vs), Idle. unfold_ss. rewrite drop_all, !app_nil_r.
        split; [done|]. by split.
    + destruct (lookup_lt_is_Some_2 vs k) as [v Hv]; [lia|].
      exists (S k), (Sending (message_batch v)).
      pose proof (ss_flush md pl vs k fin v true Hv) as Hfl. simpl in Hfl.
      rewrite (drop_S_cons _ _ _ Hv) in Hfl |- *. simpl in Hfl |- *.
      rewrite Hfl. simpl. rewrite !app_nil_r. apply lookup_lt_Some in Hv.
      split; [done|]. split; [split; [lia|done]|]. simpl. lia.
  - exists k, Idle. destruct Hph as [-> ->]. by repeat split.
  - destruct Hph as [-> ->]. exists (length vs), Gone.
    unfold run_ss_event, complete_batch. simpl. unfold Server_streaming_destroy,
      Call_handler_destroy, delete_object. unfold_ss. rewrite app_nil_r, <- !app_assoc.
    split; [done|]. split; [done|]. simpl. lia.
  - exists k, Gone. split; [done|]. split; [by split|]. simpl. lia.
Qed.

(** *** Any interleaving *)

Definition finished_after (fin : bool) (evs : list ss_event) : bool :=
  fin || existsb is_finish evs.

Lemma run_ss_inv md pl evs : ∀ vs k fin ph,
  phase_ok vs k fin ph → ss_legal fin evs →
  ∃ k' ph',
    for_each_in run_ss_event evs (ss_state md pl vs k fin ph) =
      (Ret tt, ss_state md pl (vs ++ ss_pushed evs) k' (finished_after fin evs) ph') ∧
    phase_ok (vs ++ ss_pushed evs) k' (finished_after fin evs) ph'.
Proof.
  unfold finished_after.
  induction evs as [|[v| |success] evs IH]; intros vs k fin ph Hph Hleg.
  - exists k, ph. simpl. by rewrite app_nil_r, orb_false_r.
  - destruct Hleg as [-> Hleg].
    destruct (ss_push_step md pl vs k false ph v Hph eq_refl) as (k1 & ph1 & Hrun & Hph1).
    destruct (IH _ _ _ _ Hph1 Hleg) as (k2 & ph2 & Hrun2 & Hph2).
    exists k2, ph2. cbn [for_each_in]. unfold mbind, M_bind.
    change (run_ss_event (SS_push v)) with (Server_streaming_push accepts v).
    rewrite Hrun, Hrun2, <- app_assoc. rewrite <- app_assoc in Hph2. by split.
  - destruct Hleg as [-> Hleg].
    destruct (ss_finish_step md pl vs k ph Hph) as (ph1 & Hrun & Hph1).
    destruct (IH _ _ _ _ Hph1 Hleg) as (k2 & ph2 & Hrun2 & Hph2).
    exists k2, ph2. cbn [for_each_in]. unfold mbind, M_bind.
    change (run_ss_event SS_finish) with (Server_streaming_finish accepts).
    by rewrite Hrun.
  - destruct (ss_complete_step md pl vs k fin ph success Hph) as (k1 & ph1 & Hrun & Hph1 & _).
    destruct (IH _ _ _ _ Hph1 Hleg) as (k2 & ph2 & Hrun2 & Hph2).
    exists k2, ph2. cbn [for_each_in]. unfold mbind, M_bind. by rewrite Hrun.
Qed.

Lemma run_ss_complete_all md pl vs n : ∀ k ph,
  phase_ok vs k true ph → completions_left vs k ph ≤ n →
  for_each_in run_ss_event (replicate n (SS_complete true)) (ss_state md pl vs k true ph) =
    (Ret tt, ss_state md pl vs (length vs) true Gone).
Proof.
  induction n as [|n IH]; intros k ph Hph Hn.
  - destruct Hph as [Hk Hph]. destruct ph; simpl in *; try lia.
    destruct Hph as [-> _]. done.
  - destruct (ss_complete_step md pl vs k true ph true Hph) as (k1 & ph1 & Hrun & Hph1 & Hdec).
    cbn [for_each_in replicate]. unfold mbind, M_bind. rewrite Hrun. apply IH; [done|].
    specialize (Hdec eq_refl). lia.
Qed.

(** What can be read off a state. *)
Lemma ss_state_started md pl vs k fin ph :
  phase_ok vs k fin ph →
  started (ss_state md pl vs k fin ph) `prefix_of` ss_batches md vs ∧
  length (inflight (ss_state md pl vs k fin ph)) ≤ 1 ∧
  (inflight (ss_state md pl vs k fin ph) = [] → fin = true →
   ss_state md pl vs k fin ph = ss_state md pl vs (length vs) true Gone).
Proof.
  intros [Hk Hph]. unfold ss_batches. simpl. split; [|split].
  - apply prefix_cons. rewrite <- (take_drop k vs) at 2. rewrite fmap_app, <- app_assoc.
    apply prefix_app. destruct ph; try apply prefix_nil;
      destruct Hph as [-> _]; by rewrite drop_all.
  - destruct ph; simpl; lia.
  - destruct ph; simpl; intros Hinf Hfin; try done; by destruct Hph as [-> ->].
Qed.

(** *** From perform on *)

#[local] Instance stream_end_handler : FutureHandler unit unit world :=
  server_streaming_handler accepts.

Local Abbreviation system := (stream_world RepT unit world).

(** The program's side acts through its stream promise, gRPC's side through
    completions. *)
Definition run_sys_event (ev : ss_event) : M system unit :=
  match ev with
  | SS_push v => Stream_storage_push (H:=unit) (Server_streaming_push accepts) v
  | SS_finish =>
      Stream_storage_complete (H:=unit) (Server_streaming_push accepts)
  | SS_complete success => zoom client set_client (run_ss_event (SS_complete success))
  end.

(** While the stream lives, an event of the system is an event of the handler. *)
Lemma run_sys_inv md pl evs : ∀ (w : system) vs k fin ph,
  (fin = false → attached_to tt w) → client w = ss_state md pl vs k fin ph →
  phase_ok vs k fin ph → ss_legal fin evs →
  ∃ w' k' ph', for_each_in run_sys_event evs w = (Ret tt, w') ∧
    client w' = ss_state md pl (vs ++ ss_pushed evs) k' (finished_after fin evs) ph' ∧
    phase_ok (vs ++ ss_pushed evs) k' (finished_after fin evs) ph' ∧
    (finished_after fin evs = false → attached_to tt w').
Proof.
  unfold finished_after.
  induction evs as [|[v| |success] evs IH]; intros w vs k fin ph Hat Hc Hph Hleg.
  - exists w, k, ph. simpl. by rewrite app_nil_r, orb_false_r.
  - destruct Hleg as [-> Hleg].
    destruct (ss_push_step md pl vs k false ph v Hph eq_refl) as (k1 & ph1 & Hrun & Hph1).
    cbn [for_each_in]. unfold mbind, M_bind.
    change (run_sys_event (SS_push v))
      with (Stream_storage_push (H:=unit) (Server_streaming_push accepts) v).
    rewrite (attached_push (Server_streaming_push accepts) tt v w (Hat eq_refl)).
    unfold zoom. rewrite Hc, Hrun.
    destruct (IH (set_client (ss_state md pl (vs ++ [v]) k1 false ph1) w) _ _ _ _
                (λ _, attached_set_client tt _ w (Hat eq_refl)) eq_refl Hph1 Hleg)
      as (w2 & k2 & ph2 & Hrun2 & Hc2 & Hph2 & Hat2).
    rewrite <- app_assoc in Hc2, Hph2. by exists w2, k2, ph2.
  - destruct Hleg as [-> Hleg].
    destruct (ss_finish_step md pl vs k ph Hph) as (ph1 & Hrun & Hph1).
    destruct (attached_complete (FutureHandler0:=stream_end_handler)
                (Server_streaming_push accepts) tt eq_refl
                (ss_state md pl vs k true ph1) w (Hat eq_refl)) as (w1 & Hrun1 & Hc1).
    { by rewrite Hc. }
    cbn [for_each_in]. unfold mbind, M_bind.
    change (run_sys_event SS_finish) with
      (Stream_storage_complete (H:=unit) (Server_streaming_push accepts)).
    rewrite Hrun1.
    destruct (IH w1 vs k true ph1 ltac:(done) Hc1 Hph1 Hleg)
      as (w2 & k2 & ph2 & Hrun2 & Hc2 & Hph2 & Hat2). by exists w2, k2, ph2.
  - destruct (ss_complete_step md pl vs k fin ph success Hph)
      as (k1 & ph1 & Hrun & Hph1 & _).
    cbn [for_each_in]. unfold mbind, M_bind.
    change (run_sys_event (SS_complete success))
      with (zoom (S:=system) client set_client (run_ss_event (SS_complete success))).
    unfold zoom. rewrite Hc, Hrun.
    destruct (IH (set_client (ss_state md pl vs k1 fin ph1) w) _ _ _ _
                (λ Hf, attached_set_client tt _ w (Hat Hf)) eq_refl Hph1 Hleg)
      as (w2 & k2 & ph2 & Hrun2 & Hc2 & Hph2 & Hat2). by exists w2, k2, ph2.
Qed.

(** Pushing the values that were buffered before the handler was attached. *)
Lemma push_all md pl vs : ∀ vs0 k ph,
  phase_ok vs0 k false ph →
  ∃ k' ph', for_each_in (Server_streaming_push accepts) vs (ss_state md pl vs0 k false ph)
              = (Ret tt, ss_state md pl (vs0 ++ vs) k' false ph') ∧
            phase_ok (vs0 ++ vs) k' false ph'.
Proof.
  induction vs as [|v vs IH]; intros vs0 k ph Hph.
  - exists k, ph. by rewrite app_nil_r.
  - destruct (ss_push_step md pl vs0 k false ph v Hph eq_refl) as (k1 & ph1 & Hrun & Hph1).
    destruct (IH _ _ _ Hph1) as (k2 & ph2 & Hrun2 & Hph2).
    exists k2, ph2. cbn [for_each_in]. unfold mbind, M_bind.
    rewrite Hrun, Hrun2, <- app_assoc. rewrite <- app_assoc in Hph2. by split.
Qed.

(** A call whose request has arrived. *)
Definition ss_incoming (payload : byte_buffer) (md : list (string * string)) : system :=
  StreamWorld Stream_storage_init Future_storage_init
    (call_init (CallHandler true rmd 0 md (server_streaming_init (Some payload)))) [].

(** The stream a program may return: [vs0] already pushed, perhaps already
    completed. *)
Definition returned_stream (vs0 : list RepT) (ended : bool) : stream_storage RepT :=
  StreamStorage None false vs0 None (if ended then 4 else 0).

Lemma perform_begin_runs payload (req : ReqT) md :
  deserialize payload = Some req →
  Server_streaming_perform_begin accepts
    (call_init (CallHandler true rmd 0 md (server_streaming_init (Some payload)))) =
  (Ret req, ss_state md payload [] 0 false (Sending (metadata_batch md))).
Proof.
  intros Hreq. unfold Server_streaming_perform_begin, grpc_call_start_batch.
  unfold_ss. rewrite Hreq. unfold_ss. unfold op_send_metadata. simpl.
  rewrite Haccepts; [done|]. by vm_compute.
Qed.

(** Attaching runs the buffered pushes, and the end if there is one. *)
Lemma attach_returned payload md vs0 ended (w0 : system) :
  stream w0 = returned_stream vs0 ended → final_promise_ w0 = Future_storage_init →
  client w0 = ss_state md payload [] 0 false (Sending (metadata_batch md)) →
  ∃ w k ph,
    (Basic_stream_future_for_each (H:=unit) (Server_streaming_push accepts) true
       Immediate_queue ;; stream_finally tt) w0 = (Ret tt, w) ∧
    (ended = false → attached_to tt w) ∧ client w = ss_state md payload vs0 k ended ph ∧
    phase_ok vs0 k ended ph.
Proof.
  intros Hs Hf Hc.
  destruct (push_all md payload vs0 [] 0 (Sending (metadata_batch md)))
    as (k & ph & Hpush & Hph); [by split|]. simpl in Hpush, Hph.
  destruct ended.
  - destruct (ss_finish_step md payload vs0 k ph Hph) as (ph' & Hfin & Hph').
    destruct (attach_ended (FutureHandler0:=stream_end_handler)
                (Server_streaming_push accepts) tt vs0 None w0
                (ss_state md payload vs0 k true ph')) as (w1 & Hatt & Hc1).
    + split; [|done]. by exists 4%Z, None.
    + unfold deliver_stream, mbind, M_bind. by rewrite Hc, Hpush.
    + exists w1, k, ph'. split; [by apply attach_event_inv in Hatt|]. by split.
  - destruct (attach_detached (FutureHandler0:=stream_end_handler)
                (Server_streaming_push accepts) tt vs0 w0
                (ss_state md payload vs0 k false ph)) as (w1 & Hatt & Hat & Hc1).
    + by split.
    + by rewrite Hc.
    + exists w1, k, ph. split; [by apply attach_event_inv in Hatt|]. by split.
Qed.

Lemma perform_state handler payload (req : ReqT) md vs0 ended :
  deserialize payload = Some req → handler req = Val (returned_stream vs0 ended) →
  ∃ w k ph, Server_streaming_perform accepts handler (ss_incoming payload md) = (Ret tt, w) ∧
    (ended = false → attached_to tt w) ∧ client w = ss_state md payload vs0 k ended ph ∧
    phase_ok vs0 k ended ph.
Proof.
  intros Hreq Hh. unfold Server_streaming_perform, ss_incoming.
  unfold mbind at 1, M_bind at 1. unfold zoom at 1. cbn [client].
  rewrite (perform_begin_runs payload req md Hreq), Hh. unfold try_catch.
  unfold mbind at 1, M_bind at 1. unfold modify at 1.
  set (w0 := set_final _ _).
  destruct (attach_returned payload md vs0 ended w0) as (w & k & ph & Hrun & Hrest);
    [done|done|done|].
  exists w, k, ph. unfold stream_end_handler in Hrun. by rewrite Hrun.
Qed.
End Laws.
Arguments ss_event : clear implicits.

(** C12: a server-streaming call.  The program returns a stream into which it has
    pushed [vs0] and that it may have completed already, or into which it pushes
    more and then ends it, in any interleaving with the completions of batches.  Nothing asserts; at most one
    batch is in flight; the batches started are, in order, a prefix of: the
    metadata, one message per value in the order of the pushes, and the status
    OK.  Once the stream has ended, completing as many batches as there are left
    (two more than the messages suffice) has sent everything, and then the
    handler is deleted, having released each message's buffer once. *)
Theorem server_streaming_sends_stream {ReqT RepT} `{!Serializer ReqT, !Serializer RepT}
  (accepts : list batch → list batch → list grpc_op → bool)
  (Haccepts : grpc_accepts_allowed accepts)
  (handler : ReqT → expected (stream_storage RepT)) (payload : byte_buffer) (req : ReqT)
  {rmd : list (string * string)} (md : list (string * string)) (vs0 : list RepT) (ended : bool)
  (evs : list (ss_event RepT))
  (Hreq : deserialize payload = Some req)
  (Hhandler : handler req = Val (returned_stream vs0 ended))
  (Hlegal : ss_legal ended evs) :
  let vs := vs0 ++ ss_pushed evs in
  ∃ w, (Server_streaming_perform accepts handler ;;
        for_each_in (run_sys_event accepts) evs) (ss_incoming (rmd:=rmd) payload md) = (Ret tt, w) ∧
    started (client w) `prefix_of` ss_batches md vs ∧
    length (inflight (client w)) ≤ 1 ∧
    (finished_after ended evs = true →
     ∃ w', for_each_in (run_ss_event accepts)
             (replicate (length vs + 2) (SS_complete true)) (client w) = (Ret tt, w') ∧
       started w' = ss_batches md vs ∧ deleted w' = true ∧
       released w' = Release_buffer payload :: (Release_buffer ∘ serialize <$> vs) ++
                       [Release_call; Release_metadata; Release_metadata]).
Proof.
  intros vs.
  destruct (perform_state (rmd:=rmd) accepts Haccepts handler payload req md vs0 ended Hreq Hhandler)
    as (w1 & k1 & ph1 & Hrun1 & Hat1 & Hc1 & Hph1).
  destruct (run_sys_inv accepts Haccepts md payload evs w1 vs0 k1 ended ph1
              Hat1 Hc1 Hph1 Hlegal) as (w2 & k2 & ph2 & Hrun2 & Hc2 & Hph2 & _).
  exists w2. unfold mbind, M_bind. rewrite Hrun1. split; [done|].
  destruct (ss_state_started (rmd:=rmd) md payload _ _ _ _ Hph2) as (Hpre & Hlen & _).
  rewrite Hc2. split; [done|]. split; [done|]. intros Hfin.
  rewrite Hfin in *.
  exists (ss_state (rmd:=rmd) md payload vs (length vs) true Gone). split.
  - apply run_ss_complete_all; [done|done|].
    destruct Hph2 as [Hk _]. destruct ph2; simpl; lia.
  - simpl. rewrite firstn_all. done.
Qed.

Lemma server_streaming_sends_stream_witness :
  ∃ w, (Server_streaming_perform batch_allowed
          (λ _ : Byte.byte, Val (returned_stream [Byte.x01] false)) ;;
        for_each_in (run_sys_event batch_allowed)
          [SS_push Byte.x02; SS_complete true; SS_finish])
         (ss_incoming (rmd:=[]) (ByteBuffer true [[Byte.x07]]) []) = (Ret tt, w) ∧
    started (client w) `prefix_of` ss_batches [] [Byte.x01; Byte.x02] ∧
    length (inflight (client w)) ≤ 1 ∧
    (true = true →
     ∃ w', for_each_in (run_ss_event batch_allowed)
             (replicate 4 (SS_complete true)) (client w) = (Ret tt, w') ∧
       started w' = ss_batches [] [Byte.x01; Byte.x02] ∧ deleted w' = true ∧
       released w' = Release_buffer (ByteBuffer true [[Byte.x07]]) ::
         (Release_buffer ∘ serialize <$> [Byte.x01; Byte.x02]) ++
         [Release_call; Release_metadata; Release_metadata]).
Proof.
  apply (server_streaming_sends_stream batch_allowed batch_allowed_accepts
           (λ _ : Byte.byte, Val (returned_stream [Byte.x01] false))
           (ByteBuffer true [[Byte.x07]]) Byte.x07 [] [Byte.x01] false
           [SS_push Byte.x02; SS_complete true; SS_finish]).
  - reflexivity.
  - reflexivity.
  - simpl. tauto.
Defined.

(** When the program's handler of a server-streaming call throws, the client is
    told that the call succeeded: whatever the exception, the status sent is OK,
    with no details, where a unary call sends the exception's code and message. *)
Theorem server_streaming_failure_reports_ok {ReqT RepT} `{!Serializer ReqT, !Serializer RepT}
  (accepts : list batch → list batch → list grpc_op → bool)
  (Haccepts : grpc_accepts_allowed accepts)
  (handler : ReqT → expected (stream_storage RepT)) (payload : byte_buffer) (req : ReqT)
  {rmd : list (string * string)} (md : list (string * string)) (e : exn)
  (Hreq : deserialize payload = Some req) (Hhandler : handler req = Err e) :
  ∃ w, Server_streaming_perform accepts handler (ss_incoming (rmd:=rmd) payload md) = (Ret tt, w) ∧
    started (client w) =
      [metadata_batch md; Batch [op_send_status GRPC_STATUS_OK None; op_recv_close] 1].
Proof.
  unfold Server_streaming_perform, ss_incoming.
  unfold mbind at 1, M_bind at 1. unfold zoom at 1. cbn [client].
  rewrite (perform_begin_runs (rmd:=rmd) accepts Haccepts payload req md Hreq), Hhandler.
  unfold Server_streaming_fail, ss_with_lock, ss_set_mtx, get_ext, put_ext, modify_obj,
    grpc_call_start_batch. munfold. simpl.
  rewrite Haccepts by (by vm_compute). by eexists.
Qed.

Lemma server_streaming_failure_reports_ok_witness :
  ∃ w, Server_streaming_perform batch_allowed
         (λ _ : Byte.byte, Err (error_permission_denied "no") : expected (stream_storage Byte.byte))
         (ss_incoming (rmd:=[]) (ByteBuffer true [[Byte.x07]]) []) = (Ret tt, w) ∧
    started (client w) =
      [metadata_batch []; Batch [op_send_status GRPC_STATUS_OK None; op_recv_close] 1].
Proof.
  apply (server_streaming_failure_reports_ok batch_allowed batch_allowed_accepts
           (λ _ : Byte.byte, Err (error_permission_denied "no") : expected (stream_storage Byte.byte))
           (ByteBuffer true [[Byte.x07]]) Byte.x07 [] (error_permission_denied "no")).
  - reflexivity.
  - reflexivity.
Defined.
