(* ===== verification/ClientStreaming.v ===== *)
(** The handler of client-streaming calls
    (include/easy_grpc/server/methods/client_streaming.h): it feeds the messages
    of the client to the program's request stream, and sends the one reply. *)

From S2P Require Import Prelude Errors Effects FutureUtils FutureStorage Future.
From S2P Require Import StreamStorage StreamLaws Grpc CallHandler.

(** The members of [Client_streaming_call_handler]: the promise of the request
    stream, the stream itself (which the program owns the other end of), the
    message being received, and the program's reply. *)
Record client_streaming (ReqT RepT H U : Type) := ClientStreaming {
  reader_prom_ : bool;
  reader : stream_world ReqT H U;
  cs_payload_ : option byte_buffer;
  cs_reply : option (future_storage RepT unit)
}.
Arguments ClientStreaming {ReqT RepT H U} _ _ _ _.
Arguments reader_prom_ {ReqT RepT H U} _.
Arguments reader {ReqT RepT H U} _.
Arguments cs_payload_ {ReqT RepT H U} _.
Arguments cs_reply {ReqT RepT H U} _.

Section Client_streaming.
Context {ReqT RepT H U : Type} `{!Serializer ReqT, !Serializer RepT}.
Context `{!FutureHandler unit H U}.
(** The callback the program gives to [for_each] on the request stream. *)
Context (on_request : ReqT → M U unit).
Context (accepts : list batch → list batch → list grpc_op → bool).
Local Abbreviation world := (call_world (call_handler (client_streaming ReqT RepT H U))).

Definition set_reader_prom (b : bool) : M world unit :=
  x ← get_ext; put_ext (ClientStreaming b (reader x) (cs_payload_ x) (cs_reply x)).
Definition set_reader r : M world unit :=
  x ← get_ext; put_ext (ClientStreaming (reader_prom_ x) r (cs_payload_ x) (cs_reply x)).
Definition set_payload p : M world unit :=
  x ← get_ext; put_ext (ClientStreaming (reader_prom_ x) (reader x) p (cs_reply x)).
Definition set_reply f : M world unit :=
  x ← get_ext; put_ext (ClientStreaming (reader_prom_ x) (reader x) (cs_payload_ x) f).

(** An operation on the request stream. *)
Definition on_reader {A} (m : M (stream_world ReqT H U) A) : M world A := λ w,
  match m (reader (ext (obj w))) with
  | (o, r) => match set_reader r w with (_, w') => (o, w') end
  end.

(** [finish(expected<RepT>)]. *)
Definition Client_streaming_finish (rep : expected RepT) : M world unit :=
  match rep with
  | Val rep => send_unary_response accepts rep false 1
  | Err error => send_failure accepts error false 1
  end.

(** The closure given to [finally], and the program settling the reply. *)
Definition client_streaming_reply (f : finish_type RepT) : M world unit :=
  match f with
  | [Val (Some rep)] => Client_streaming_finish (Val rep)
  | [Err e] => Client_streaming_finish (Err e)
  | _ => crash_with Assertion_failed
  end.

Definition on_cs_reply
  (m : M (future_storage RepT unit) (option (unit * handler_call RepT))) : M world unit :=
  x ← get_ext;
  match cs_reply x with
  | None => crash_with Use_after_free
  | Some st =>
      match m st with
      | (Ret o, st') =>
          set_reply (Some st') ;;
          match o with
          | None => mret tt
          | Some (_, c) => client_streaming_reply (call_result [Fval] c)
          end
      | (Throw e, _) => throw e
      | (Crash c, _) => crash_with c
      end
  end.

Definition client_streaming_settle (rep : expected RepT) : M world unit :=
  match rep with
  | Val rep => on_cs_reply (Future_storage_fullfill [Fval] [rep])
  | Err e => on_cs_reply (Future_storage_fail [Fval] e)
  end.

(** [perform]; the program's callback gets the stream, and returns the reply. *)
Definition Client_streaming_perform
  (cb : M (stream_world ReqT H U) (future_storage RepT unit)) : M world unit :=
  x ← get_ext;
  prom ← on_reader (Basic_stream_promise_get_future (reader_prom_ x));
  set_reader_prom prom ;;
  reply_fut ← on_reader cb;
  h ← get_obj;
  call_status ← grpc_call_start_batch accepts [op_send_metadata h; op_recv_message] 0;
  massert call_status ;;
  set_reply (Some reply_fut) ;;
  on_cs_reply (Future_storage_set_handler tt).

(** [deserialize<ReqT>(raw_data)]. *)
Definition deserialize_or_assert (b : byte_buffer) : M world ReqT :=
  match deserialize b with
  | Some req => mret req
  | None => crash_with Assertion_failed
  end.

Definition Client_streaming_exec (success : bool) (flags : Z) : M world bool :=
  let all_done := Z.testbit flags 0 in
  (if all_done then mret tt
   else
     x ← get_ext;
     match cs_payload_ x with
     | Some raw_data =>
         set_payload None ;;
         call_status ← grpc_call_start_batch accepts [op_recv_message] 0;
         massert call_status ;;
         req ← deserialize_or_assert raw_data;
         x ← get_ext;
         prom ← on_reader (Basic_stream_promise_push on_request (reader_prom_ x) req);
         set_reader_prom prom ;;
         releases (Release_buffer raw_data)
     | None =>
         prom ← on_reader (Basic_stream_promise_complete on_request (reader_prom_ x));
         set_reader_prom prom
     end) ;;
  mret all_done.

(** The destructor of the derived class is empty; the promise member fails the
    stream if it was never completed. *)
Definition Client_streaming_destroy : M world unit :=
  x ← get_ext;
  on_reader (Basic_stream_promise_destroy on_request (reader_prom_ x)) ;;
  Call_handler_destroy.

(** gRPC receives a message, or the end of the messages, into [payload_], and the
    receiving batch, the [i]-th in flight, completes. *)
Definition client_streaming_receive (i : nat) (o : option byte_buffer) : M world unit :=
  set_payload o ;;
  complete_batch Client_streaming_exec Client_streaming_destroy i true.

(** Any other batch completes. *)
Definition client_streaming_complete (i : nat) : M world unit :=
  complete_batch Client_streaming_exec Client_streaming_destroy i true.
End Client_streaming.
