(* ===== verification/ClientStreamingLaws.v ===== *)
(** The client-streaming handler: every message of the client reaches the
    program's stream, in order, then its end; the reply is sent once.  A reply
    given before the end of the messages frees the handler too early. *)

From S2P Require Import Prelude Errors Effects FutureUtils FutureStorage Future.
From S2P Require Import StreamStorage StreamLaws Grpc CallHandler ClientStreaming.

Section Laws.
Context {ReqT RepT H U : Type} `{!Serializer ReqT, !Serializer RepT}.
Context `{!FutureHandler unit H U}.
Context (on_request : ReqT → M U unit).
Context (accepts : list batch → list batch → list grpc_op → bool).
Context (Haccepts : grpc_accepts_allowed accepts).
Context {rmd : list (string * string)}.
Local Abbreviation world := (call_world (call_handler (client_streaming ReqT RepT H U))).
Local Abbreviation reader_world := (stream_world ReqT H U).

(** *** The batches of a call *)

Definition cs_first_batch (md : list (string * string)) : batch :=
  Batch [GrpcOp 0 (GRPC_OP_SEND_INITIAL_METADATA md); op_recv_message] 0.
Definition recv_batch : batch := Batch [op_recv_message] 0.
Definition reply_batch (rep : expected RepT) : batch :=
  Batch (match rep with
         | Val rep => [op_send_message (serialize rep); op_send_status GRPC_STATUS_OK None;
                       op_recv_close]
         | Err e => [op_send_status (get_error_details e).1 (Some (get_error_details e).2);
                     op_recv_close]
         end) 1.

Lemma kinds_of_receiving md n k :
  k ∈ kinds_of (cs_first_batch md :: replicate n recv_batch) → k = 0 ∨ k = 5.
Proof.
  unfold kinds_of. simpl. rewrite !elem_of_cons. intros [->|[->|Hk]]; [by left|by right|].
  right. induction n as [|n IH]; simpl in Hk; [by apply elem_of_nil in Hk|].
  apply elem_of_cons in Hk as [->|Hk]; [done|by apply IH].
Qed.

Lemma recv_allowed strt : batch_allowed [] strt [op_recv_message] = true.
Proof. unfold batch_allowed. rewrite bool_decide_true by apply NoDup_singleton. done. Qed.

Lemma reply_allowed md n rep :
  batch_allowed [] (cs_first_batch md :: replicate n recv_batch) (batch_ops (reply_batch rep))
  = true.
Proof.
  assert (∀ k, k ≠ 0 → k ≠ 5 →
            k ∉ kinds_of (cs_first_batch md :: replicate n recv_batch)) as Hk.
  { intros k H0 H5 Hin%kinds_of_receiving. by destruct Hin. }
  unfold batch_allowed. rewrite bool_decide_true by (by destruct rep; apply (bool_decide_unpack _)).
  destruct rep as [rep|e]; simpl;
    repeat (rewrite bool_decide_true by (first [by apply Hk|by split; apply Hk])); done.
Qed.

(** A reply is allowed next to a receive. *)
Lemma reply_allowed_receiving md b n rep :
  b = cs_first_batch md ∨ b = recv_batch →
  batch_allowed [b] (cs_first_batch md :: replicate n recv_batch) (batch_ops (reply_batch rep))
  = true.
Proof.
  intros Hb. pose proof (reply_allowed md n rep) as Hal. unfold batch_allowed in *.
  destruct rep as [rep|e], Hb as [-> | ->]; exact Hal.
Qed.

(** *** The states of a call *)

(** [n] messages have been received, the reader is [rd], [inf] is in flight. *)
Definition cs_state (md : list (string * string)) (prom : bool) (rd : reader_world)
  (fut : future_storage RepT unit) (inf : list batch) (n : nat) (rel : list release) :
  world :=
  CallWorld (CallHandler true rmd 0 md (ClientStreaming prom rd None (Some fut)))
    inf (cs_first_batch md :: replicate n recv_batch) rel 0 false.

Ltac unfold_cs :=
  unfold on_reader, set_reader_prom, set_reader, set_payload, set_reply, get_ext, put_ext,
    get_obj, modify_obj, set_obj, set_ext, releases, deserialize_or_assert; munfold; simpl.

(** One message. *)
Lemma receive_message md rd rd' fut b n rel raw (req : ReqT) :
  batch_flags b = 0%Z → deserialize raw = Some req →
  Basic_stream_promise_push on_request true req rd = (Ret true, rd') →
  client_streaming_receive on_request accepts 0 (Some raw)
    (cs_state md true rd fut [b] n rel) =
  (Ret tt, cs_state md true rd' fut [recv_batch] (S n) (rel ++ [Release_buffer raw])).
Proof.
  intros Hb Hreq Hpush. unfold client_streaming_receive, complete_batch.
  unfold_cs. rewrite Hb. unfold Client_streaming_exec, grpc_call_start_batch. unfold_cs.
  rewrite Haccepts by apply recv_allowed. simpl. rewrite Hreq. unfold_cs. rewrite Hpush.
  unfold_cs. unfold cs_state. rewrite replicate_S_end. reflexivity.
Qed.

(** The end of the messages. *)
Lemma receive_end md rd rd' fut b n rel :
  batch_flags b = 0%Z →
  Basic_stream_promise_complete on_request true rd = (Ret false, rd') →
  client_streaming_receive on_request accepts 0 None (cs_state md true rd fut [b] n rel) =
  (Ret tt, cs_state md false rd' fut [] n rel).
Proof.
  intros Hb Hend. unfold client_streaming_receive, complete_batch.
  unfold_cs. rewrite Hb. unfold Client_streaming_exec. unfold_cs. rewrite Hend.
  unfold_cs. reflexivity.
Qed.

Lemma run_stream_push_inv req evs rd rd' p :
  run_stream (H:=H) on_request (E_push req :: evs) true rd = (Ret p, rd') →
  ∃ rd1, Basic_stream_promise_push on_request true req rd = (Ret true, rd1) ∧
         run_stream on_request evs true rd1 = (Ret p, rd').
Proof.
  cbn [run_stream run_stream_event]. unfold mbind at 1, M_bind at 1.
  unfold Basic_stream_promise_push, massert, mbind, M_bind, mret, M_ret.
  destruct (Stream_storage_push on_request req rd) as [[[]|e|c] rd1]; [|done|done].
  by exists rd1.
Qed.

(** The messages, as the stream's own events. *)
Lemma receive_messages md fut raws reqs : ∀ rd rd' b n rel,
  batch_flags b = 0%Z →
  Forall2 (λ raw (req : ReqT), deserialize raw = Some req) raws reqs →
  run_stream (H:=H) on_request (E_push <$> reqs) true rd = (Ret true, rd') →
  ∃ b', (b' = b ∨ b' = recv_batch) ∧ batch_flags b' = 0%Z ∧
    for_each_in (client_streaming_receive on_request accepts 0) (Some <$> raws)
      (cs_state md true rd fut [b] n rel) =
    (Ret tt, cs_state md true rd' fut [b'] (n + length raws) (rel ++ (Release_buffer <$> raws))).
Proof.
  intros rd rd' b n rel Hb Hraws. revert rd b n rel Hb.
  induction Hraws as [|raw req raws reqs Hreq Hraws IH]; intros rd b n rel Hb Hrun.
  - injection Hrun as <-. exists b. split; [by left|]. split; [done|]. by rewrite app_nil_r, Nat.add_0_r.
  - cbn [fmap list_fmap] in Hrun. apply run_stream_push_inv in Hrun as (rd1 & Hpush & Hrun).
    destruct (IH rd1 recv_batch (S n) (rel ++ [Release_buffer raw]) eq_refl Hrun) as (b' & Hor & Hb' & Hrest).
    exists b'. split; [by destruct Hor; right|]. split; [done|]. eapply runs_bind; [by eapply receive_message|].
    etrans; [exact Hrest|]. cbn [length fmap list_fmap]. by rewrite <- app_assoc, Nat.add_succ_r.
Qed.

(** All of them, then their end. *)
Lemma receive_all md fut raws reqs rd rd' b n rel :
  batch_flags b = 0%Z →
  Forall2 (λ raw (req : ReqT), deserialize raw = Some req) raws reqs →
  run_stream (H:=H) on_request ((E_push <$> reqs) ++ [E_end None]) true rd = (Ret false, rd') →
  (for_each_in (client_streaming_receive on_request accepts 0) ((Some <$> raws) ++ [None]))
    (cs_state md true rd fut [b] n rel) =
  (Ret tt, cs_state md false rd' fut [] (n + length raws)
             (rel ++ (Release_buffer <$> raws))).
Proof.
  intros Hb Hraws Hrun. rewrite (run_stream_app on_request _ _ true rd) in Hrun.
  apply runs_bind_inv in Hrun as (p & rd1 & Hmsgs & Hend).
  assert (p = true) as -> by (by eapply pushes_keep_promise).
  apply run_stream_single in Hend.
  destruct (receive_messages md fut raws reqs rd rd1 b n rel Hb Hraws Hmsgs) as (b' & _ & Hb' & Hrecv).
  rewrite (for_each_in_app _ (Some <$> raws) [None] (cs_state md true rd fut [b] n rel)).
  eapply runs_bind; [exact Hrecv|]. eapply runs_bind; [by eapply receive_end|done].
Qed.

(** The program settles the reply. *)
Lemma settle_reply md prom rd fut inf n rel rep :
  batch_allowed inf (cs_first_batch md :: replicate n recv_batch) (batch_ops (reply_batch rep))
    = true →
  implements fut (Cell_attached tt) →
  ∃ fut', client_streaming_settle accepts rep (cs_state md prom rd fut inf n rel) =
    (Ret tt, CallWorld (CallHandler true rmd 0 md (ClientStreaming prom rd None (Some fut')))
       (inf ++ [reply_batch rep]) ((cs_first_batch md :: replicate n recv_batch) ++ [reply_batch rep])
       (rel ++ [answer_release rep]) 0 false).
Proof.
  intros Hal Hfut. pose proof (Haccepts _ _ _ Hal) as Hacc.
  destruct rep as [rep|e]; simpl in Hacc.
  - destruct (fullfill_simulates [Fval] [rep] fut _ _ _ Hfut eq_refl)
      as (o & fut' & Hm & _ & Ho). exists fut'.
    unfold client_streaming_settle, on_cs_reply, cs_state. unfold_cs. rewrite Hm.
    destruct o as [[[] c]|]; [|done]. simpl in Ho. injection Ho as Hc. unfold_cs.
    rewrite Hc. simpl. unfold send_unary_response, grpc_call_start_batch.
    unfold_cs. by rewrite Hacc.
  - destruct (fail_simulates [Fval] e fut _ _ _ Hfut eq_refl)
      as (o & fut' & Hm & _ & Ho). exists fut'.
    unfold client_streaming_settle, on_cs_reply, cs_state. unfold_cs. rewrite Hm.
    destruct o as [[[] c]|]; [|done]. simpl in Ho. injection Ho as Hc. unfold_cs.
    rewrite Hc. simpl. unfold send_failure, grpc_call_start_batch.
    unfold_cs. unfold reply_batch, answer_release.
    destruct (get_error_details e) as [st det]. simpl in *. by rewrite Hacc.
Qed.

(** A reply given while a receive is in flight: its completion deletes the handler, which
    breaks the promise of the stream, and the completion of the receive finds it deleted. *)
Lemma early_completions md rd rd' fut b rep strt rel o :
  run_stream (H:=H) on_request [E_end (Some Unfullfilled_promise)] true rd = (Ret false, rd') →
  fst ((client_streaming_complete (RepT:=RepT) on_request accepts 1 ;;
        client_streaming_receive on_request accepts 0 o)
         (CallWorld (CallHandler true rmd 0 md (ClientStreaming true rd None (Some fut)))
            [b; reply_batch rep] strt rel 0 false)) = Crash Use_after_free.
Proof.
  intros Hend%run_stream_single. unfold run_stream_event, Basic_stream_promise_set_exception in Hend.
  apply runs_bind_inv in Hend as (? & ? & [= <- <-] & Hend).
  apply runs_bind_inv in Hend as ([] & rd1 & Hend & _).
  unfold client_streaming_complete, client_streaming_receive, complete_batch, Client_streaming_exec,
    delete_object, Client_streaming_destroy, Call_handler_destroy, Basic_stream_promise_destroy.
  unfold runs in Hend. unfold_cs. by rewrite Hend.
Qed.

(** Its completion deletes the handler. *)
Lemma complete_reply md rd fut st rel rep :
  let w inf rel d := CallWorld (CallHandler true rmd 0 md
    (ClientStreaming false rd None (Some fut))) inf st rel 0 d in
  client_streaming_complete (RepT:=RepT) on_request accepts 0 (w [reply_batch rep] rel false) =
  (Ret tt, w [] (rel ++ [Release_call; Release_metadata; Release_metadata]) true).
Proof.
  intros w. subst w. unfold client_streaming_complete, complete_batch, Client_streaming_exec,
    delete_object, Client_streaming_destroy, Call_handler_destroy, Basic_stream_promise_destroy.
  unfold_cs. by rewrite <- !app_assoc.
Qed.

(** The program's callback runs on a fresh stream. *)
Definition cs_incoming (md : list (string * string)) (rd : reader_world) : world :=
  call_init (CallHandler true rmd 0 md (ClientStreaming false rd None None)).

Definition fresh_reader (rd : reader_world) : reader_world :=
  set_final Future_storage_init (set_stream Stream_storage_init rd).

Lemma perform_runs cb md rd rd0 fut :
  cb (fresh_reader rd) = (Ret fut, rd0) → implements fut Cell_empty →
  ∃ fut', implements fut' (Cell_attached tt) ∧
    Client_streaming_perform accepts cb (cs_incoming md rd) =
    (Ret tt, cs_state md true rd0 fut' [cs_first_batch md] 0 []).
Proof.
  intros Hcb Hfut.
  destruct (set_handler_simulates [Fval] tt fut _ _ _ Hfut eq_refl)
    as (o & fut' & Hm & Hi & Ho).
  destruct o as [[? ?]|]; [done|].
  exists fut'. split; [done|].
  unfold Client_streaming_perform, Basic_stream_promise_get_future, cs_incoming.
  unfold_cs. unfold fresh_reader in Hcb. rewrite Hcb. unfold_cs.
  unfold grpc_call_start_batch. simpl. unfold op_send_metadata. simpl.
  rewrite Haccepts by (by vm_compute). simpl. unfold on_cs_reply. unfold_cs. by rewrite Hm.
Qed.
End Laws.

(** From the first message to the deletion of the handler. *)
Lemma client_streaming_whole {ReqT RepT H U}
  `{!Serializer ReqT, !Serializer RepT, !FutureHandler unit H U}
  (on_request : ReqT → M U unit)
  (accepts : list batch → list batch → list grpc_op → bool)
  (Haccepts : grpc_accepts_allowed accepts)
  (cb : M (stream_world ReqT H U) (future_storage RepT unit))
  {rmd : list (string * string)} (md : list (string * string)) (rd rd0 rd1 : stream_world ReqT H U)
  (fut : future_storage RepT unit) (raws : list byte_buffer) (reqs : list ReqT)
  (rep : expected RepT)
  (Hcb : cb (fresh_reader rd) = (Ret fut, rd0)) (Hfut : implements fut Cell_empty)
  (Hraws : Forall2 (λ raw req, deserialize raw = Some req) raws reqs)
  (Hstream : run_stream on_request ((E_push <$> reqs) ++ [E_end None]) true rd0
             = (Ret false, rd1)) :
  ∃ w, (Client_streaming_perform accepts cb ;;
        for_each_in (client_streaming_receive on_request accepts 0)
          ((Some <$> raws) ++ [None]) ;;
        client_streaming_settle accepts rep ;;
        client_streaming_complete on_request accepts 0) (cs_incoming (rmd:=rmd) md rd) = (Ret tt, w) ∧
    reader (ext (obj w)) = rd1 ∧ inflight w = [] ∧ deleted w = true ∧
    started w = cs_first_batch md :: replicate (length raws) recv_batch ++ [reply_batch rep] ∧
    released w = (Release_buffer <$> raws) ++
      [answer_release rep; Release_call; Release_metadata; Release_metadata].
Proof.
  destruct (perform_runs (rmd:=rmd) accepts Haccepts cb md rd rd0 fut Hcb Hfut)
    as (fut1 & Hfut1 & Hperform).
  pose proof (receive_all (rmd:=rmd) on_request accepts Haccepts md fut1 raws reqs rd0 rd1
    (cs_first_batch md) 0 [] eq_refl Hraws Hstream) as Hrecv.
  destruct (settle_reply (rmd:=rmd) accepts Haccepts md false rd1 fut1 [] (length raws)
    (Release_buffer <$> raws) rep (reply_allowed md _ rep) Hfut1) as (fut2 & Hsettle).
  eexists. split.
  - eapply runs_bind; [exact Hperform|]. eapply runs_bind; [exact Hrecv|].
    eapply runs_bind; [exact Hsettle|]. apply complete_reply.
  - simpl. by rewrite <- !app_assoc.
Qed.

(** A client-streaming call whose program replies after the end of the
    messages.  The program's stream sees exactly the pushes of the deserialized
    messages, in the order received, then its completion, whatever the program
    attached to it; one receive is pending at a time; then one reply is sent, and
    with its completion the handler is deleted, every message's buffer having
    been released once. *)
Theorem client_streaming_feeds_program {ReqT RepT H U}
  `{!Serializer ReqT, !Serializer RepT, !FutureHandler unit H U}
  (on_request : ReqT → M U unit)
  (accepts : list batch → list batch → list grpc_op → bool)
  (Haccepts : grpc_accepts_allowed accepts)
  (cb : M (stream_world ReqT H U) (future_storage RepT unit))
  {rmd : list (string * string)} (md : list (string * string)) (rd rd0 rd1 : stream_world ReqT H U)
  (fut : future_storage RepT unit) (raws : list byte_buffer) (reqs : list ReqT)
  (rep : expected RepT)
  (Hcb : cb (fresh_reader rd) = (Ret fut, rd0)) (Hfut : implements fut Cell_empty)
  (Hraws : Forall2 (λ raw req, deserialize raw = Some req) raws reqs)
  (Hstream : run_stream on_request ((E_push <$> reqs) ++ [E_end None]) true rd0
             = (Ret false, rd1)) :
  ∃ w, (Client_streaming_perform accepts cb ;;
        for_each_in (client_streaming_receive on_request accepts 0)
          ((Some <$> raws) ++ [None]) ;;
        client_streaming_settle accepts rep ;;
        client_streaming_complete on_request accepts 0) (cs_incoming (rmd:=rmd) md rd) = (Ret tt, w) ∧
    reader (ext (obj w)) = rd1 ∧ inflight w = [] ∧ deleted w = true ∧
    started w = cs_first_batch md :: replicate (length raws) recv_batch ++ [reply_batch rep] ∧
    released w = (Release_buffer <$> raws) ++
      [answer_release rep; Release_call; Release_metadata; Release_metadata].
Proof. by eapply client_streaming_whole. Qed.

(** A program that logs the requests and the end of their stream. *)
Definition demo_log : Type := list (Byte.byte + finish_type unit).
Definition demo_on_request (b : Byte.byte) : M demo_log unit :=
  modify (λ log : demo_log, log ++ [inl b]).
Definition demo_program : M (stream_world Byte.byte unit demo_log) (future_storage Byte.byte unit) :=
  Basic_stream_future_for_each demo_on_request true Immediate_queue ;;
  stream_finally tt ;;
  mret Future_storage_init.
Definition demo_reader : stream_world Byte.byte unit demo_log :=
  StreamWorld Stream_storage_init Future_storage_init [] [].

Lemma client_streaming_feeds_program_witness :
  ∃ w, (Client_streaming_perform batch_allowed demo_program ;;
        for_each_in (client_streaming_receive demo_on_request batch_allowed 0)
          ((Some <$> [ByteBuffer true [[Byte.x01]]; ByteBuffer true [[Byte.x02]]]) ++ [None]) ;;
        client_streaming_settle batch_allowed (Val Byte.x09) ;;
        client_streaming_complete demo_on_request batch_allowed 0)
         (cs_incoming (rmd:=[]) [] demo_reader) = (Ret tt, w) ∧
    client (reader (ext (obj w))) = [inl Byte.x01; inl Byte.x02; inr [Val None]].
Proof.
  pose (rd0 := snd (demo_program (fresh_reader demo_reader))).
  pose (rd1 := snd (run_stream demo_on_request
    ((E_push <$> [Byte.x01; Byte.x02]) ++ [E_end None]) true rd0)).
  destruct (client_streaming_feeds_program (rmd:=[]) demo_on_request batch_allowed
    batch_allowed_accepts demo_program [] demo_reader rd0 rd1 Future_storage_init
    [ByteBuffer true [[Byte.x01]]; ByteBuffer true [[Byte.x02]]] [Byte.x01; Byte.x02]
    (Val Byte.x09)) as (w & Hrun & Hr & _).
  - reflexivity.
  - exact init_implements.
  - repeat constructor.
  - reflexivity.
  - exists w. split; [exact Hrun|]. rewrite Hr. reflexivity.
Defined.

(** C35: a program that replies while the client still sends.  Whatever messages came
    before, whatever is replied, and whatever the receive that is pending then brings: the
    completion of the reply deletes the handler with that receive in flight, and when the
    completion of the receive is delivered it runs on a deleted object.  The program's stream
    is only asked not to throw when its promise is broken. *)
Theorem client_streaming_early_reply_use_after_free {ReqT RepT H U}
  `{!Serializer ReqT, !Serializer RepT, !FutureHandler unit H U}
  (on_request : ReqT → M U unit)
  (accepts : list batch → list batch → list grpc_op → bool)
  (Haccepts : grpc_accepts_allowed accepts)
  (cb : M (stream_world ReqT H U) (future_storage RepT unit))
  {rmd : list (string * string)} (md : list (string * string)) (rd rd0 rd1 : stream_world ReqT H U)
  (fut : future_storage RepT unit) (raws : list byte_buffer) (reqs : list ReqT)
  (rep : expected RepT) (o : option byte_buffer)
  (Hcb : cb (fresh_reader rd) = (Ret fut, rd0)) (Hfut : implements fut Cell_empty)
  (Hraws : Forall2 (λ raw req, deserialize raw = Some req) raws reqs)
  (Hstream : run_stream on_request
     ((E_push <$> reqs) ++ [E_end (Some Unfullfilled_promise)]) true rd0 = (Ret false, rd1)) :
  fst ((Client_streaming_perform accepts cb ;;
        for_each_in (client_streaming_receive on_request accepts 0) (Some <$> raws) ;;
        client_streaming_settle accepts rep ;;
        client_streaming_complete on_request accepts 1 ;;
        client_streaming_receive on_request accepts 0 o) (cs_incoming (rmd:=rmd) md rd)) =
  Crash Use_after_free.
Proof.
  destruct (perform_runs (rmd:=rmd) accepts Haccepts cb md rd rd0 fut Hcb Hfut)
    as (fut1 & Hfut1 & Hperform).
  rewrite (run_stream_app on_request _ _ true rd0) in Hstream.
  apply runs_bind_inv in Hstream as (p & rd2 & Hmsgs & Hend).
  assert (p = true) as -> by (by eapply pushes_keep_promise).
  destruct (receive_messages (rmd:=rmd) on_request accepts Haccepts md fut1 raws reqs rd0 rd2
    (cs_first_batch md) 0 [] eq_refl Hraws Hmsgs) as (b & Hb & _ & Hrecv).
  destruct (settle_reply (rmd:=rmd) accepts Haccepts md true rd2 fut1 [b] (0 + length raws)
    ([] ++ (Release_buffer <$> raws)) rep) as (fut2 & Hsettle);
    [by apply reply_allowed_receiving|done|].
  unfold mbind at 1, M_bind at 1. rewrite Hperform.
  unfold mbind at 1, M_bind at 1. rewrite Hrecv.
  unfold mbind at 1, M_bind at 1. rewrite Hsettle. by eapply early_completions.
Qed.

Lemma client_streaming_early_reply_use_after_free_witness :
  fst ((Client_streaming_perform batch_allowed demo_program ;;
        for_each_in (client_streaming_receive demo_on_request batch_allowed 0)
          (Some <$> [ByteBuffer true [[Byte.x01]]]) ;;
        client_streaming_settle batch_allowed (Val Byte.x09) ;;
        client_streaming_complete demo_on_request batch_allowed 1 ;;
        client_streaming_receive demo_on_request batch_allowed 0 None)
         (cs_incoming (rmd:=[]) [] demo_reader)) = Crash Use_after_free.
Proof.
  pose (rd0 := snd (demo_program (fresh_reader demo_reader))).
  pose (rd1 := snd (run_stream demo_on_request
    ((E_push <$> [Byte.x01]) ++ [E_end (Some Unfullfilled_promise)]) true rd0)).
  apply (client_streaming_early_reply_use_after_free (rmd:=[]) demo_on_request batch_allowed
    batch_allowed_accepts demo_program [] demo_reader rd0 rd1 Future_storage_init
    [ByteBuffer true [[Byte.x01]]] [Byte.x01] (Val Byte.x09) None).
  - reflexivity.
  - exact init_implements.
  - repeat constructor.
  - reflexivity.
Defined.
