(* ===== verification/BidirStreaming.v ===== *)
(** The handler of bidirectional calls
    (include/easy_grpc/server/methods/bidir_streaming.h): a queue of messages to
    send, a loop that receives, and a mutex between them. *)

From S2P Require Import Prelude Errors Effects FutureUtils FutureStorage Future.
From S2P Require Import StreamStorage StreamLaws Grpc CallHandler.

(** The members of [Bidir_streaming_call_handler], with the request stream its
    promise feeds. *)
Record bidir_streaming (ReqT H U : Type) := BidirStreaming {
  bd_reader_prom_ : bool;
  bd_reader : stream_world ReqT H U;
  bd_payload_ : option byte_buffer;
  bd_mtx_ : bool;
  bd_finished_ : bool;
  ready_to_send_ : bool;
  bd_pending_ops_ : list grpc_op
}.
Arguments BidirStreaming {ReqT H U} _ _ _ _ _ _ _.
Arguments bd_reader_prom_ {ReqT H U} _.
Arguments bd_reader {ReqT H U} _.
Arguments bd_payload_ {ReqT H U} _.
Arguments bd_mtx_ {ReqT H U} _.
Arguments bd_finished_ {ReqT H U} _.
Arguments ready_to_send_ {ReqT H U} _.
Arguments bd_pending_ops_ {ReqT H U} _.

Section Bidir.
Context {ReqT RepT H U : Type} `{!Serializer ReqT, !Serializer RepT}.
Context `{!FutureHandler unit H U}.
(** The callback the program gives to [for_each] on the request stream. *)
Context (on_request : ReqT → M U unit).
Context (accepts : list batch → list batch → list grpc_op → bool).
Local Abbreviation world := (call_world (call_handler (bidir_streaming ReqT H U))).

Definition bd_set_prom (b : bool) : M world unit :=
  x ← get_ext;
  put_ext (BidirStreaming b (bd_reader x) (bd_payload_ x) (bd_mtx_ x) (bd_finished_ x)
             (ready_to_send_ x) (bd_pending_ops_ x)).
Definition bd_set_reader r : M world unit :=
  x ← get_ext;
  put_ext (BidirStreaming (bd_reader_prom_ x) r (bd_payload_ x) (bd_mtx_ x)
             (bd_finished_ x) (ready_to_send_ x) (bd_pending_ops_ x)).
Definition bd_set_payload p : M world unit :=
  x ← get_ext;
  put_ext (BidirStreaming (bd_reader_prom_ x) (bd_reader x) p (bd_mtx_ x)
             (bd_finished_ x) (ready_to_send_ x) (bd_pending_ops_ x)).
Definition bd_set_mtx b : M world unit :=
  x ← get_ext;
  put_ext (BidirStreaming (bd_reader_prom_ x) (bd_reader x) (bd_payload_ x) b
             (bd_finished_ x) (ready_to_send_ x) (bd_pending_ops_ x)).
Definition bd_set_finished : M world unit :=
  x ← get_ext;
  put_ext (BidirStreaming (bd_reader_prom_ x) (bd_reader x) (bd_payload_ x) (bd_mtx_ x)
             true (ready_to_send_ x) (bd_pending_ops_ x)).
Definition bd_set_ready b : M world unit :=
  x ← get_ext;
  put_ext (BidirStreaming (bd_reader_prom_ x) (bd_reader x) (bd_payload_ x) (bd_mtx_ x)
             (bd_finished_ x) b (bd_pending_ops_ x)).
Definition bd_set_pending q : M world unit :=
  x ← get_ext;
  put_ext (BidirStreaming (bd_reader_prom_ x) (bd_reader x) (bd_payload_ x) (bd_mtx_ x)
             (bd_finished_ x) (ready_to_send_ x) q).

(** An operation on the request stream. *)
Definition on_bd_reader {A} (m : M (stream_world ReqT H U) A) : M world A := λ w,
  match m (bd_reader (ext (obj w))) with
  | (o, r) => match bd_set_reader r w with (_, w') => (o, w') end
  end.

Definition bd_lock : M world unit :=
  x ← get_ext;
  if bd_mtx_ x then crash_with Deadlock else bd_set_mtx true.

(** [std::lock_guard l(mtx_)] around a body. *)
Definition bd_with_lock (m : M world unit) : M world unit :=
  bd_lock ;;
  try_catch m (λ e, bd_set_mtx false ;; throw e) ;;
  bd_set_mtx false.

Definition Bidir_send_server_end : M world unit :=
  let ops := [op_recv_close; op_send_status GRPC_STATUS_OK None] in
  status ← grpc_call_start_batch accepts ops 4;
  massert status.

Definition Bidir_flush_ : M world unit :=
  x ← get_ext;
  if ready_to_send_ x then
    bd_set_ready false ;;
    match bd_pending_ops_ x with
    | [] => crash_with Null_dereference
    | op :: rest =>
        bd_set_pending rest ;;
        massert (match op_data_ op with GRPC_OP_SEND_MESSAGE _ => true | _ => false end) ;;
        status ← grpc_call_start_batch accepts [op] 2;
        massert status ;;
        match op_data_ op with
        | GRPC_OP_SEND_MESSAGE b => releases (Release_buffer b)
        | _ => mret tt
        end
    end
  else mret tt.

Definition Bidir_push (val : RepT) : M world unit :=
  bd_with_lock (
    let op := op_send_message (serialize val) in
    x ← get_ext;
    bd_set_pending (bd_pending_ops_ x ++ [op]) ;;
    Bidir_flush_).

Definition Bidir_finish : M world unit :=
  bd_with_lock (
    bd_set_finished ;;
    x ← get_ext;
    when (ready_to_send_ x) Bidir_send_server_end).

(** [fail(std::exception_ptr)]: its parameter has no name, and its tag no flag. *)
Definition Bidir_fail (error : exn) : M world unit :=
  bd_with_lock (
    let ops := [op_send_status GRPC_STATUS_OK None; op_recv_close] in
    status ← grpc_call_start_batch accepts ops 0;
    massert status).

(** [deserialize<ReqT>(raw_data)]. *)
Definition bd_deserialize (b : byte_buffer) : M world ReqT :=
  match deserialize b with
  | Some req => mret req
  | None => crash_with Assertion_failed
  end.

(** The three parts of [exec]; the last releases the lock. *)
Definition Bidir_exec_handshake : M world unit :=
  bd_set_ready true ;;
  x ← get_ext;
  (match bd_pending_ops_ x with [] => mret tt | _ :: _ => Bidir_flush_ end) ;;
  call_status ← grpc_call_start_batch accepts [op_recv_message] 1;
  massert call_status.

Definition Bidir_exec_send : M world unit :=
  bd_set_ready true ;;
  x ← get_ext;
  match bd_pending_ops_ x with
  | _ :: _ => Bidir_flush_
  | [] => when (bd_finished_ x) Bidir_send_server_end
  end.

Definition Bidir_exec_recv : M world unit :=
  x ← get_ext;
  match bd_payload_ x with
  | Some raw_data =>
      bd_set_payload None ;;
      call_status ← grpc_call_start_batch accepts [op_recv_message] 1;
      massert call_status ;;
      bd_set_mtx false ;;
      req ← bd_deserialize raw_data;
      x ← get_ext;
      prom ← on_bd_reader (Basic_stream_promise_push on_request (bd_reader_prom_ x) req);
      bd_set_prom prom ;;
      releases (Release_buffer raw_data)
  | None =>
      bd_set_mtx false ;;
      prom ← on_bd_reader (Basic_stream_promise_complete on_request (bd_reader_prom_ x));
      bd_set_prom prom
  end.

Definition Bidir_exec (success : bool) (flags : Z) : M world bool :=
  bd_lock ;;
  let recv_op := Z.testbit flags 0 in
  let send_op := Z.testbit flags 1 in
  let closing := Z.testbit flags 2 in
  let handshake := Z.testbit flags 3 in
  when handshake Bidir_exec_handshake ;;
  when send_op Bidir_exec_send ;;
  (if recv_op then Bidir_exec_recv else bd_set_mtx false) ;;
  mret closing.

Definition Bidir_destroy : M world unit :=
  x ← get_ext;
  on_bd_reader (Basic_stream_promise_destroy on_request (bd_reader_prom_ x)) ;;
  Call_handler_destroy.

(** The closure given to [finally] on the reply stream. *)
Definition bidir_end (f : finish_type unit) : M world unit :=
  match f with
  | [Val None] => Bidir_finish
  | [Err e] => Bidir_fail e
  | _ => crash_with Assertion_failed
  end.

Definition bidir_handler : FutureHandler unit unit world.
Proof.
  refine {| handler_fields _ := [Fvoid];
            handler_fullfill _ v := bidir_end (fullfill_to_finish [Fvoid] 0 v);
            handler_finish _ f := bidir_end f |}.
  done.
Defined.
#[local] Existing Instance bidir_handler.

(** [perform]: the program's callback gets the request stream and returns the
    reply stream, in any state; it is attached before the metadata is sent. *)
Definition Bidir_perform (cb : M (stream_world ReqT H U) (stream_storage RepT)) :
  M (stream_world RepT unit world) unit :=
  zoom client set_client (
    x ← get_ext;
    prom ← on_bd_reader (Basic_stream_promise_get_future (bd_reader_prom_ x));
    bd_set_prom prom) ;;
  reply_fut ← zoom client set_client (on_bd_reader cb);
  modify (λ w, set_final Future_storage_init (set_stream reply_fut w)) ;;
  Basic_stream_future_for_each Bidir_push true Immediate_queue ;;
  stream_finally tt ;;
  zoom client set_client (
    h ← get_obj;
    call_status ← grpc_call_start_batch accepts [op_send_metadata h] 8;
    massert call_status).

(** The batch with the given flags completes; a receive brings [o]. *)
Definition bidir_complete (flags : Z) (o : option byte_buffer) : M world unit := λ w,
  match list_find (λ b, batch_flags b = flags) (inflight w) with
  | None => (Ret tt, w)
  | Some (i, _) =>
      (when (flags =? 1)%Z (bd_set_payload o) ;;
       complete_batch Bidir_exec Bidir_destroy i true) w
  end.
End Bidir.
