(* ===== verification/BidirLaws.v ===== *)
(** The bidirectional handler: requests reach the program's stream in order while
    replies leave in order, under every interleaving of the two directions; and
    the ways in which it loses the end of a call. *)

From S2P Require Import Prelude Errors Effects FutureUtils FutureStorage Future.
From S2P Require Import StreamStorage StreamLaws Grpc CallHandler BidirStreaming.

Ltac unfold_bd :=
  unfold bd_with_lock, bd_lock, bd_set_mtx, bd_set_finished, bd_set_ready, bd_set_pending,
    bd_set_prom, bd_set_payload, bd_set_reader, on_bd_reader, bd_deserialize, get_ext,
    put_ext, get_obj, modify_obj, set_obj, set_ext, releases; munfold; simpl.

Section Laws.
Context {ReqT RepT H U : Type} `{!Serializer ReqT, !Serializer RepT}.
Context `{!FutureHandler unit H U}.
Context (on_request : ReqT → M U unit).
Context (accepts : list batch → list batch → list grpc_op → bool).
Context (Haccepts : grpc_accepts_allowed accepts).
Context {rmd : list (string * string)}.
Local Abbreviation world := (call_world (call_handler (bidir_streaming ReqT H U))).
Local Abbreviation reader_world := (stream_world ReqT H U).

(** What happens to a call: the program replies or ends its replies, a batch of
    the sending direction completes, or a message (or the end) is received. *)
Inductive bidir_event :=
| BD_push (v : RepT)
| BD_finish
| BD_sent (flags : Z)
| BD_received (o : option byte_buffer).

Definition run_bidir_event (ev : bidir_event) : M world unit :=
  match ev with
  | BD_push v => Bidir_push accepts v
  | BD_finish => Bidir_finish accepts
  | BD_sent flags => bidir_complete on_request accepts flags None
  | BD_received o => bidir_complete on_request accepts 1 o
  end.

(** *** The batches of a call *)

Definition bd_send_op (v : RepT) : grpc_op := op_send_message (serialize v).
Definition bd_handshake (md : list (string * string)) : batch :=
  Batch [GrpcOp 0 (GRPC_OP_SEND_INITIAL_METADATA md)] 8.
Definition bd_message (v : RepT) : batch := Batch [bd_send_op v] 2.
Definition bd_end : batch := Batch [op_recv_close; op_send_status GRPC_STATUS_OK None] 4.
Definition bd_recv : batch := Batch [op_recv_message] 1.

(** *** The states of a call *)

Inductive bd_phase := BHandshake | BSending (v : RepT) | BIdle | BEnding | BGone.

(** The receiving direction: not started, a receive pending, or ended. *)
Inductive rd_phase := RNot_started | RPending | REnded.

Definition send_part (md : list (string * string)) (ph : bd_phase) : list batch :=
  match ph with
  | BHandshake => [bd_handshake md]
  | BSending v => [bd_message v]
  | BEnding => [bd_end]
  | _ => []
  end.

Definition recv_part (r : rd_phase) : list batch :=
  match r with RPending => [bd_recv] | _ => [] end.

Definition phase_ready (ph : bd_phase) : bool :=
  match ph with BHandshake | BSending _ => false | _ => true end.

Definition bd_ext (prom : bool) (rd : reader_world) (fin : bool) (ph : bd_phase)
  (pending : list grpc_op) : bidir_streaming ReqT H U :=
  BidirStreaming prom rd None false fin (phase_ready ph) pending.

Definition ended_part (ph : bd_phase) : list batch :=
  match ph with BEnding | BGone => [bd_end] | _ => [] end.

Record bd_inv (md : list (string * string)) (vs : list RepT) (k : nat) (fin : bool)
  (ph : bd_phase) (r : rd_phase) (rd : reader_world) (w : world) : Prop := {
  bd_obj : obj w = CallHandler true rmd 0 md
    (bd_ext (match r with REnded => false | _ => true end) rd fin ph
       (bd_send_op <$> drop k vs));
  bd_inflight : inflight w ≡ₚ send_part md ph ++ recv_part r;
  bd_sends : filter is_control (started w) =
    bd_handshake md :: (bd_message <$> take k vs) ++ ended_part ph;
  bd_kinds : ∀ x, x ∈ kinds_of (started w) →
    x = 0 ∨ x = 1 ∨ x = 5 ∨ (ended_part ph ≠ [] ∧ (x = 3 ∨ x = 7));
  bd_deleted : deleted w = match ph with BGone => true | _ => false end;
  bd_len : k ≤ length vs;
  bd_phase_ok : match ph with
    | BHandshake => k = 0 ∧ r = RNot_started ∧ (fin = true → vs ≠ [])
    | BSending _ => r ≠ RNot_started
    | BIdle => k = length vs ∧ fin = false ∧ r ≠ RNot_started
    | BEnding => k = length vs ∧ fin = true ∧ r ≠ RNot_started
    | BGone => k = length vs ∧ fin = true ∧ r = REnded
    end
}.

(** *** Sending *)

Lemma message_batch_allowed infl strt v :
  1 ∉ kinds_of infl → 2 ∉ kinds_of strt → 3 ∉ kinds_of strt →
  batch_allowed infl strt [bd_send_op v] = true.
Proof.
  intros Hinf H2 H3. apply allowed_intro; simpl.
  - apply NoDup_singleton.
  - by intros x ->%list_elem_of_singleton.
  - intros x ->%list_elem_of_singleton. by left.
  - done.
Qed.

Lemma end_batch_allowed infl strt :
  3 ∉ kinds_of infl → 7 ∉ kinds_of infl → 3 ∉ kinds_of strt → 7 ∉ kinds_of strt →
  batch_allowed infl strt (batch_ops bd_end) = true.
Proof.
  intros Hi3 Hi7 Hs3 Hs7. apply allowed_intro; simpl.
  - by apply (bool_decide_unpack _).
  - by intros x [->| ->%list_elem_of_singleton]%elem_of_cons.
  - intros x [->| ->%list_elem_of_singleton]%elem_of_cons; by right.
  - by intros [?| ?%list_elem_of_singleton]%elem_of_cons.
Qed.

Lemma recv_batch_allowed infl strt :
  5 ∉ kinds_of infl → batch_allowed infl strt [op_recv_message] = true.
Proof.
  intros Hinf. apply allowed_intro; simpl.
  - apply NoDup_singleton.
  - by intros x ->%list_elem_of_singleton.
  - intros x ->%list_elem_of_singleton. by left.
  - by intros ?%list_elem_of_singleton.
Qed.

(** [flush_] with a message in the queue. *)
Lemma bd_flush md prom (rd : reader_world) fin mt v q inf st rel c d :
  batch_allowed inf st [bd_send_op v] = true →
  let o ready pending := CallHandler true rmd 0 md
    (BidirStreaming prom rd None mt fin ready pending) in
  Bidir_flush_ accepts (CallWorld (o true (bd_send_op v :: q)) inf st rel c d) =
  (Ret tt, CallWorld (o false q) (inf ++ [bd_message v]) (st ++ [bd_message v])
             (rel ++ [Release_buffer (serialize v)]) c d).
Proof.
  intros Hal. unfold Bidir_flush_. unfold_bd.
  by rewrite (start_batch_runs accepts _ _ _ Haccepts).
Qed.

Lemma bd_send_end o inf st rel c d :
  batch_allowed inf st (batch_ops bd_end) = true →
  Bidir_send_server_end accepts (CallWorld o inf st rel c d) =
  (Ret tt, CallWorld (O:=call_handler (bidir_streaming ReqT H U)) o (inf ++ [bd_end])
             (st ++ [bd_end]) rel c d).
Proof.
  intros Hal. unfold Bidir_send_server_end. munfold.
  by rewrite (start_batch_runs accepts _ _ _ Haccepts).
Qed.

(** The kinds in flight and started, from the invariant. *)
Lemma bd_inv_inflight_kinds md vs k fin ph r rd w x :
  bd_inv md vs k fin ph r rd w → x ∈ kinds_of (inflight w) →
  x ∈ kinds_of (send_part md ph) ∨ (x = 5 ∧ r = RPending).
Proof.
  intros Hinv (b & Hb & Hx)%kinds_of_elem_inv. rewrite (bd_inflight _ _ _ _ _ _ _ _ Hinv) in Hb.
  apply elem_of_app in Hb as [Hb|Hb].
  - left. by eapply kinds_of_elem.
  - right. destruct r; simpl in Hb; try by apply elem_of_nil in Hb.
    apply list_elem_of_singleton in Hb as ->. simpl in Hx.
    by apply list_elem_of_singleton in Hx as ->.
Qed.

Lemma bd_inv_started_kinds md vs k fin ph r rd w x :
  bd_inv md vs k fin ph r rd w → ended_part ph = [] →
  x ∈ kinds_of (started w) → x = 0 ∨ x = 1 ∨ x = 5.
Proof.
  intros Hinv He Hx. destruct (bd_kinds _ _ _ _ _ _ _ _ Hinv x Hx) as [?|[?|[?|[? _]]]]; auto.
  done.
Qed.

Lemma bd_push_step md vs k fin ph r rd w v :
  bd_inv md vs k fin ph r rd w → fin = false →
  ∃ k' ph' w', Bidir_push accepts v w = (Ret tt, w') ∧
    bd_inv md (vs ++ [v]) k' fin ph' r rd w'.
Proof.
  intros Hinv Hfin. assert (ph = BIdle ∨ phase_ready ph = false) as Hph.
  { pose proof (bd_phase_ok _ _ _ _ _ _ _ _ Hinv) as Hok.
    destruct ph; auto; destruct_and?; congruence. }
  pose proof Hinv as [Hobj Hinf Hsd Hk Hdel Hlen Hok].
  destruct w as [o inf st rel c d]; simpl in *; subst o.
  destruct Hph as [->|Hready].
  - destruct Hok as (-> & _ & Hr).
    exists (S (length vs)), (BSending v). unfold Bidir_push. unfold_bd.
    rewrite drop_all. simpl. change (op_send_message (serialize v)) with (bd_send_op v).
    rewrite bd_flush.
    2:{ apply message_batch_allowed; intros Hin.
        - apply (bd_inv_inflight_kinds _ _ _ _ _ _ _ _ _ Hinv) in Hin as [Hin|[? _]]; [|done].
          by apply elem_of_nil in Hin.
        - apply (bd_inv_started_kinds _ _ _ _ _ _ _ _ _ Hinv eq_refl) in Hin.
          by destruct Hin as [|[]].
        - apply (bd_inv_started_kinds _ _ _ _ _ _ _ _ _ Hinv eq_refl) in Hin.
          by destruct Hin as [|[]]. }
    eexists. split; [reflexivity|]. split; simpl.
    + unfold bd_ext. simpl. rewrite drop_ge by (rewrite length_app; simpl; lia). done.
    + rewrite Hinf. by rewrite (comm (++)).
    + rewrite filter_app, Hsd. rewrite filter_cons_True by done. simpl.
      rewrite !app_nil_r, !take_ge by (rewrite ?length_app; simpl; lia).
      by rewrite fmap_app.
    + intros x. rewrite kinds_of_app, elem_of_app. intros [Hx|Hx]; [by apply Hk|].
      simpl in Hx. apply list_elem_of_singleton in Hx as ->. auto.
    + done.
    + rewrite length_app. simpl. lia.
    + done.
  - exists k, ph. unfold Bidir_push. unfold_bd. unfold Bidir_flush_. unfold_bd.
    rewrite Hready. eexists. split; [reflexivity|].
    split; simpl; try done.
    + unfold bd_ext. rewrite drop_app_le, fmap_app by done. simpl. by rewrite Hready.
    + by rewrite take_app_le.
    + rewrite length_app. lia.
    + destruct ph; try done; destruct_and?; [|congruence..]. by subst.
Qed.

Lemma bd_finish_step md vs k ph r rd w :
  bd_inv md vs k false ph r rd w → (r = RNot_started → vs ≠ []) →
  ∃ ph' w', Bidir_finish accepts w = (Ret tt, w') ∧ bd_inv md vs k true ph' r rd w'.
Proof.
  intros Hinv Hvs. pose proof Hinv as [Hobj Hinf Hsd Hk Hdel Hlen Hok].
  destruct w as [o inf st rel c d]; simpl in *; subst o.
  destruct ph as [|v| | |]; try (by destruct_and?).
  - destruct Hok as (-> & -> & _). exists BHandshake. unfold Bidir_finish. unfold_bd.
    eexists. split; [reflexivity|]. by split; simpl; auto.
  - exists (BSending v). unfold Bidir_finish. unfold_bd.
    eexists. split; [reflexivity|]. by split.
  - exists BEnding. unfold Bidir_finish. unfold_bd. rewrite bd_send_end.
    2:{ apply end_batch_allowed; intros Hin.
        1,2: apply (bd_inv_inflight_kinds _ _ _ _ _ _ _ _ _ Hinv) in Hin as [Hin|[? _]];
          [by apply elem_of_nil in Hin|done].
        1,2: apply (bd_inv_started_kinds _ _ _ _ _ _ _ _ _ Hinv eq_refl) in Hin;
          by destruct Hin as [|[]]. }
    eexists. split; [reflexivity|]. destruct Hok as (-> & _ & Hr). split; simpl; try done.
    + by rewrite Hinf, (comm (++)).
    + rewrite filter_app, Hsd. rewrite filter_cons_True by done. simpl.
      by rewrite !app_nil_r.
    + intros x. rewrite kinds_of_app, elem_of_app. intros [Hx|Hx].
      * destruct (Hk x Hx) as [?|[?|[?|[? _]]]]; auto. done.
      * do 3 right. split; [done|]. simpl in Hx. unfold kinds_of in Hx. simpl in Hx.
        apply elem_of_cons in Hx as [->| ->%list_elem_of_singleton]; auto.
Qed.

(** *** Completions *)

(** The flags in flight. *)
Lemma bd_inv_no_flags md vs k fin ph r rd w f :
  bd_inv md vs k fin ph r rd w →
  (∀ b, b ∈ send_part md ph → batch_flags b ≠ f) → f ≠ 1%Z →
  run_bidir_event (BD_sent f) w = (Ret tt, w).
Proof.
  intros Hinv Hs Hf. unfold run_bidir_event, bidir_complete.
  rewrite find_flags_none; [done|]. intros b Hb.
  rewrite (bd_inflight _ _ _ _ _ _ _ _ Hinv) in Hb.
  apply elem_of_app in Hb as [Hb|Hb]; [by apply Hs|].
  destruct r; simpl in Hb; try by apply elem_of_nil in Hb.
  apply list_elem_of_singleton in Hb as ->. simpl. congruence.
Qed.

Lemma bd_sent_unfold md vs k fin ph r rd w b f :
  bd_inv md vs k fin ph r rd w → send_part md ph = [b] → batch_flags b = f → f ≠ 1%Z →
  ∃ inf', inf' ≡ₚ recv_part r ∧
    run_bidir_event (BD_sent f) w =
    (kill ← noexcept (Bidir_exec on_request accepts true f);
     when kill (delete_object (Bidir_destroy on_request)))
      (CallWorld (obj w) inf' (started w) (released w) (cancels w) false).
Proof.
  intros Hinv Hs Hb Hf. pose proof (bd_inflight _ _ _ _ _ _ _ _ Hinv) as Hp.
  rewrite Hs in Hp. simpl in Hp.
  destruct (find_flags _ _ _ _ Hp Hb) as (i & Hfind & Hi & Hdel).
  { intros b' Hb'. destruct r; simpl in Hb'; try by apply elem_of_nil in Hb'.
    apply list_elem_of_singleton in Hb' as ->. simpl. congruence. }
  exists (delete i (inflight w)). split; [done|].
  unfold run_bidir_event, bidir_complete. rewrite Hfind.
  apply Z.eqb_neq in Hf. rewrite Hf. unfold complete_batch. simpl.
  unfold mbind at 1, M_bind at 1. unfold mret, M_ret. rewrite Hi, Hb.
  assert (deleted w = false) as Hd.
  { rewrite (bd_deleted _ _ _ _ _ _ _ _ Hinv). by destruct ph. }
  by rewrite Hd.
Qed.

(** A state whose sending direction has nothing in flight. *)
Lemma no_send_kinds inf x (r : rd_phase) :
  inf ≡ₚ recv_part r → x ≠ 5 → x ∉ kinds_of inf.
Proof.
  intros Hp Hx (b & Hb & Hin)%kinds_of_elem_inv. rewrite Hp in Hb.
  destruct r; simpl in Hb; try by apply elem_of_nil in Hb.
  apply list_elem_of_singleton in Hb as ->. simpl in Hin.
  by apply list_elem_of_singleton in Hin.
Qed.

Lemma not_started_kinds st x :
  (∀ x, x ∈ kinds_of st → x = 0 ∨ x = 1 ∨ x = 5) → x ≠ 0 → x ≠ 1 → x ≠ 5 → x ∉ kinds_of st.
Proof. intros Hst H0 H1 H5 Hin. by destruct (Hst x Hin) as [|[]]. Qed.

(** Rebuilding the invariant after a message left. *)
Lemma bd_inv_message md vs k fin r rd inf st rel c v prom :
  vs !! k = Some v → inf ≡ₚ recv_part r →
  filter is_control st = bd_handshake md :: (bd_message <$> take k vs) →
  (∀ x, x ∈ kinds_of st → x = 0 ∨ x = 1 ∨ x = 5) → r ≠ RNot_started → prom = match r with REnded => false | _ => true end →
  bd_inv md vs (S k) fin (BSending v) r rd
    (CallWorld (CallHandler true rmd 0 md
       (bd_ext prom rd fin (BSending v) (bd_send_op <$> drop (S k) vs)))
       (inf ++ [bd_message v]) (st ++ [bd_message v]) rel c false).
Proof.
  intros Hv Hp Hsd Hk Hr ->. split; simpl; try done.
  - rewrite Hp. by rewrite (comm (++)).
  - rewrite filter_app, Hsd, filter_cons_True by done. simpl.
    by rewrite app_nil_r, (take_S_r _ _ _ Hv), fmap_app.
  - intros x. rewrite kinds_of_app, elem_of_app. intros [Hx|Hx].
    + destruct (Hk x Hx) as [|[]]; auto.
    + simpl in Hx. apply list_elem_of_singleton in Hx as ->. auto.
  - apply lookup_lt_Some in Hv. lia.
Qed.

(** ... or after the status left. *)
Lemma bd_inv_end md vs r rd inf st rel c :
  inf ≡ₚ recv_part r → filter is_control st = bd_handshake md :: (bd_message <$> vs) →
  (∀ x, x ∈ kinds_of st → x = 0 ∨ x = 1 ∨ x = 5) → r ≠ RNot_started →
  bd_inv md vs (length vs) true BEnding r rd
    (CallWorld (CallHandler true rmd 0 md (bd_ext (match r with REnded => false | _ => true end)
       rd true BEnding []))
       (inf ++ [bd_end]) (st ++ [bd_end]) rel c false).
Proof.
  intros Hp Hsd Hk Hr. split; simpl; try done.
  - by rewrite drop_all.
  - by rewrite Hp, (comm (++)).
  - rewrite filter_app, Hsd, filter_cons_True by done. simpl. by rewrite firstn_all.
  - intros x. rewrite kinds_of_app, elem_of_app. intros [Hx|Hx].
    + destruct (Hk x Hx) as [|[]]; auto.
    + do 3 right. split; [done|]. unfold kinds_of in Hx. simpl in Hx.
      apply elem_of_cons in Hx as [->| ->%list_elem_of_singleton]; auto.
Qed.

(** What the sending direction still needs. *)
Definition bd_left (vs : list RepT) (k : nat) (ph : bd_phase) : nat :=
  match ph with
  | BHandshake => S (S (length vs - k + 1))
  | BSending _ => length vs - k + 2
  | BIdle | BEnding => 1
  | BGone => 0
  end.

(** The completion of a sent message. *)
Lemma bd_sent_message md vs k fin v r rd w :
  bd_inv md vs k fin (BSending v) r rd w →
  ∃ k' ph' w', run_bidir_event (BD_sent 2) w = (Ret tt, w') ∧
    bd_inv md vs k' fin ph' r rd w' ∧ ph' ≠ BGone ∧
    (fin = true → bd_left vs k' ph' < bd_left vs k (BSending v)).
Proof.
  intros Hinv. destruct (bd_sent_unfold _ _ _ _ _ _ _ _ _ 2 Hinv eq_refl eq_refl)
    as (inf' & Hp & ->); [done|].
  pose proof Hinv as [Hobj _ Hsd _ _ Hlen Hok].
  pose proof (λ x, bd_inv_started_kinds _ _ _ _ _ _ _ _ x Hinv eq_refl) as Hkinds.
  destruct w as [o inf st rel c d]; simpl in *; subst o; simpl in Hsd; rewrite ?app_nil_r in Hsd.
  unfold Bidir_exec. simpl. unfold Bidir_exec_send. unfold_bd.
  destruct (decide (k = length vs)) as [->|Hne].
  - rewrite drop_all. simpl. rewrite firstn_all in Hsd. destruct fin.
    + exists (length vs), BEnding. unfold_bd. rewrite bd_send_end.
      2:{ apply end_batch_allowed; (by eapply no_send_kinds) || (by apply not_started_kinds). }
      unfold_bd. eexists. split; [reflexivity|].
      split; [by apply bd_inv_end|]. split; [done|]. simpl. lia.
    + exists (length vs), BIdle. unfold_bd. eexists. split; [reflexivity|]. split; [|done].
      split; simpl; try done.
      * by rewrite drop_all.
      * by rewrite firstn_all, app_nil_r.
      * intros x Hx. destruct (Hkinds x Hx) as [|[]]; auto.
  - destruct (lookup_lt_is_Some_2 vs k) as [v' Hv]; [lia|].
    rewrite (drop_S_cons _ _ _ Hv). simpl. unfold_bd. rewrite bd_flush.
    2:{ apply message_batch_allowed; (by eapply no_send_kinds) || (by apply not_started_kinds). }
    unfold_bd. exists (S k), (BSending v'). eexists. split; [reflexivity|].
    split; [by apply bd_inv_message|]. split; [done|]. apply lookup_lt_Some in Hv. simpl. lia.
Qed.

(** The completion of the metadata: the receiving direction starts. *)
Lemma bd_sent_handshake md vs fin rd w :
  bd_inv md vs 0 fin BHandshake RNot_started rd w →
  ∃ k' ph' w', run_bidir_event (BD_sent 8) w = (Ret tt, w') ∧
    bd_inv md vs k' fin ph' RPending rd w'.
Proof.
  intros Hinv. destruct (bd_sent_unfold _ _ _ _ _ _ _ _ _ 8 Hinv eq_refl eq_refl)
    as (inf' & Hp & ->); [done|].
  pose proof Hinv as [Hobj _ Hsd _ _ Hlen Hok].
  pose proof (λ x, bd_inv_started_kinds _ _ _ _ _ _ _ _ x Hinv eq_refl) as Hkinds.
  destruct w as [o inf st rel c d]; simpl in *; subst o; simpl in Hsd; rewrite ?app_nil_r in Hsd.
  simpl in Hp. apply Permutation_nil_r in Hp as ->.
  unfold Bidir_exec. simpl. unfold Bidir_exec_handshake. unfold_bd.
  destruct vs as [|v vs].
  - assert (fin = false) as -> by (destruct fin; [by destruct Hok as (_ & _ & [])|done]).
    simpl. unfold_bd. rewrite (start_batch_runs accepts _ _ _ Haccepts)
      by (by apply recv_batch_allowed, not_elem_of_nil).
    unfold_bd. exists 0, BIdle. eexists. split; [reflexivity|]. split; simpl; try done.
    + rewrite filter_app, Hsd, filter_cons_False by (unfold is_control; simpl; congruence). done.
    + intros x. rewrite kinds_of_app, elem_of_app. intros [Hx|Hx].
      * destruct (Hkinds x Hx) as [|[]]; auto.
      * simpl in Hx. apply list_elem_of_singleton in Hx as ->. auto.
  - simpl. unfold_bd. rewrite bd_flush.
    2:{ apply message_batch_allowed; [by apply not_elem_of_nil|by apply not_started_kinds..]. }
    simpl. rewrite (start_batch_runs accepts _ _ _ Haccepts).
    2:{ apply recv_batch_allowed. simpl. by intros ?%list_elem_of_singleton. }
    unfold_bd. exists 1, (BSending v). eexists. split; [reflexivity|]. split; simpl; try done.
    + rewrite !filter_app, Hsd, filter_cons_True, filter_cons_False; [done| |done].
      unfold is_control; simpl; congruence.
    + intros x. rewrite !kinds_of_app, !elem_of_app. intros [[Hx|Hx]|Hx].
      * destruct (Hkinds x Hx) as [|[]]; auto.
      * simpl in Hx. apply list_elem_of_singleton in Hx as ->. auto.
      * simpl in Hx. apply list_elem_of_singleton in Hx as ->. auto.
    + lia.
Qed.

(** The completion of the status deletes the handler. *)
Lemma bd_sent_end md vs k rd w :
  bd_inv md vs k true BEnding REnded rd w →
  ∃ w', run_bidir_event (BD_sent 4) w = (Ret tt, w') ∧
    bd_inv md vs k true BGone REnded rd w'.
Proof.
  intros Hinv. destruct (bd_sent_unfold _ _ _ _ _ _ _ _ _ 4 Hinv eq_refl eq_refl)
    as (inf' & Hp & ->); [done|].
  pose proof Hinv as [Hobj _ Hsd Hk _ Hlen Hok].
  destruct w as [o inf st rel c d]; simpl in *; subst o.
  unfold Bidir_exec. simpl. unfold_bd.
  unfold delete_object, Bidir_destroy, Basic_stream_promise_destroy, Call_handler_destroy.
  unfold_bd. eexists. split; [reflexivity|]. split; simpl; try done. by destruct_and?.
Qed.

(** The completions of the messages send all that is left. *)
Lemma bd_flush_all md vs r rd n : ∀ k ph w,
  bd_inv md vs k true ph r rd w → r ≠ RNot_started → ph ≠ BGone → bd_left vs k ph ≤ S n →
  ∃ w', for_each_in run_bidir_event (replicate n (BD_sent 2)) w = (Ret tt, w') ∧
    bd_inv md vs (length vs) true BEnding r rd w'.
Proof.
  induction n as [|n IH]; intros k ph w Hinv Hr Hph Hn;
    pose proof (bd_phase_ok _ _ _ _ _ _ _ _ Hinv) as Hok.
  - destruct ph; simpl in Hn; try lia; try (by destruct_and?).
    destruct Hok as (-> & _). by exists w.
  - cbn [replicate for_each_in]. unfold mbind, M_bind.
    destruct ph as [|v| | |]; try (by destruct_and?).
    + destruct (bd_sent_message _ _ _ _ _ _ _ _ Hinv) as (k1 & ph1 & w1 & -> & Hinv1 & Hph1 & Hlt).
      specialize (Hlt eq_refl). apply (IH k1 ph1 w1 Hinv1 Hr Hph1). lia.
    + rewrite (bd_inv_no_flags _ _ _ _ _ _ _ _ 2 Hinv);
        [|by intros b ->%list_elem_of_singleton|done].
      apply (IH k BEnding w Hinv Hr); simpl; [done|lia].
Qed.

(** The completion of the status while a receive is in flight: the handler is deleted,
    which breaks the promise of the requests, and the completion of the receive finds it
    deleted. *)
Lemma bd_close_crashes md vs k rd rd' w o :
  bd_inv md vs k true BEnding RPending rd w →
  run_stream on_request [E_end (Some Unfullfilled_promise)] true rd = (Ret false, rd') →
  fst ((run_bidir_event (BD_sent 4) ;; run_bidir_event (BD_received o)) w) =
  Crash Use_after_free.
Proof.
  intros Hinv Hend%run_stream_single.
  apply runs_bind_inv in Hend as (? & ? & [= <- <-] & Hend).
  apply runs_bind_inv in Hend as ([] & rd1 & Hend & _). unfold runs in Hend.
  unfold mbind at 1, M_bind at 1.
  destruct (bd_sent_unfold _ _ _ _ _ _ _ _ _ 4 Hinv eq_refl eq_refl) as (inf' & Hp & ->); [done|].
  simpl in Hp. apply Permutation_singleton_r in Hp as ->.
  rewrite (bd_obj _ _ _ _ _ _ _ _ Hinv). unfold Bidir_exec. simpl. unfold_bd.
  unfold delete_object, Bidir_destroy, Basic_stream_promise_destroy, Call_handler_destroy.
  unfold_bd. rewrite Hend. unfold_bd. unfold bidir_complete, complete_batch. by unfold_bd.
Qed.

(** *** Receiving *)

Lemma bd_received_unfold md vs k fin ph rd w o :
  bd_inv md vs k fin ph RPending rd w →
  ∃ inf', inf' ≡ₚ send_part md ph ∧
    run_bidir_event (BD_received o) w =
    (kill ← noexcept (Bidir_exec on_request accepts true 1);
     when kill (delete_object (Bidir_destroy on_request)))
      (CallWorld (CallHandler true rmd 0 md
         (BidirStreaming true rd o false fin (phase_ready ph) (bd_send_op <$> drop k vs)))
         inf' (started w) (released w) (cancels w) false).
Proof.
  intros Hinv. pose proof (bd_inflight _ _ _ _ _ _ _ _ Hinv) as Hp.
  rewrite (comm (++)) in Hp. simpl in Hp.
  destruct (find_flags _ _ _ 1 Hp eq_refl) as (i & Hfind & Hi & Hdel).
  { intros b' Hb'. destruct ph; simpl in Hb'; try by apply elem_of_nil in Hb'.
    all: apply list_elem_of_singleton in Hb' as ->; done. }
  exists (delete i (inflight w)). split; [done|].
  assert (deleted w = false) as Hd.
  { rewrite (bd_deleted _ _ _ _ _ _ _ _ Hinv). destruct ph; try done.
    by destruct (bd_phase_ok _ _ _ _ _ _ _ _ Hinv) as (_ & _ & ?). }
  pose proof (bd_obj _ _ _ _ _ _ _ _ Hinv) as Hobj.
  unfold run_bidir_event, bidir_complete. rewrite Hfind.
  destruct w as [o' inf st rel c d]; simpl in *. subst o' d. unfold_bd.
  unfold complete_batch. unfold_bd. by rewrite Hi.
Qed.

Lemma send_part_no_recv md ph inf : inf ≡ₚ send_part md ph → 5 ∉ kinds_of inf.
Proof.
  intros Hp (b & Hb & Hx)%kinds_of_elem_inv. rewrite Hp in Hb.
  destruct ph; simpl in Hb; try (by apply elem_of_nil in Hb);
    apply list_elem_of_singleton in Hb as ->; simpl in Hx;
    repeat (apply elem_of_cons in Hx as [?|Hx]; [done|]); by apply elem_of_nil in Hx.
Qed.

Lemma bd_received_message md vs k fin ph rd rd' w raw (req : ReqT) :
  bd_inv md vs k fin ph RPending rd w → deserialize raw = Some req →
  Basic_stream_promise_push on_request true req rd = (Ret true, rd') →
  ∃ w', run_bidir_event (BD_received (Some raw)) w = (Ret tt, w') ∧
    bd_inv md vs k fin ph RPending rd' w'.
Proof.
  intros Hinv Hreq Hpush.
  destruct (bd_received_unfold _ _ _ _ _ _ _ (Some raw) Hinv) as (inf' & Hp & ->).
  pose proof Hinv as [_ _ Hsd Hk Hdel Hlen Hok].
  unfold Bidir_exec. simpl. unfold Bidir_exec_recv. unfold_bd.
  rewrite (start_batch_runs accepts _ _ _ Haccepts)
    by (eapply recv_batch_allowed, send_part_no_recv, Hp).
  unfold_bd. rewrite Hreq. unfold_bd. rewrite Hpush. unfold_bd.
  eexists. split; [reflexivity|]. split; simpl; try done.
  - by rewrite Hp.
  - rewrite filter_app, Hsd, filter_cons_False by (unfold is_control; simpl; congruence).
    by rewrite app_nil_r.
  - intros x. rewrite kinds_of_app, elem_of_app. intros [Hx|Hx]; [by apply Hk|].
    simpl in Hx. apply list_elem_of_singleton in Hx as ->. auto.
  - by destruct ph; destruct_and?.
Qed.

Lemma bd_received_end md vs k fin ph rd rd' w :
  bd_inv md vs k fin ph RPending rd w →
  Basic_stream_promise_complete on_request true rd = (Ret false, rd') →
  ∃ w', run_bidir_event (BD_received None) w = (Ret tt, w') ∧
    bd_inv md vs k fin ph REnded rd' w'.
Proof.
  intros Hinv Hend.
  destruct (bd_received_unfold _ _ _ _ _ _ _ None Hinv) as (inf' & Hp & ->).
  pose proof Hinv as [_ _ Hsd Hk Hdel Hlen Hok].
  unfold Bidir_exec. simpl. unfold Bidir_exec_recv. unfold_bd. rewrite Hend. unfold_bd.
  eexists. split; [reflexivity|]. split; simpl; try done.
  - by rewrite Hp, app_nil_r.
  - by destruct ph; destruct_and?.
  - by destruct ph; destruct_and?.
Qed.

(** *** Any legal sequence of events *)

Definition next_recv (ev : bidir_event) (r : rd_phase) : rd_phase :=
  match ev, r with
  | BD_sent f, RNot_started => if (f =? 8)%Z then RPending else RNot_started
  | BD_received None, RPending => REnded
  | _, _ => r
  end.

Definition next_fin (ev : bidir_event) (fin : bool) : bool :=
  match ev with BD_finish => true | _ => fin end.

(** Whether the program has replied. *)
Definition next_replied (ev : bidir_event) (replied : bool) : bool :=
  match ev with BD_push _ => true | _ => replied end.

(** The program replies until it ends its replies, which it may do at any time except
    before the metadata was sent when it gave no reply
    ([bidir_streaming_early_end_lost]); the batch of the status completes after the
    client has ended its requests ([bidir_early_close_use_after_free]); a message is
    received where a receive is pending, and it parses. *)
Definition bd_event_legal (replied : bool) (r : rd_phase) (fin : bool) (ev : bidir_event) : Prop :=
  match ev with
  | BD_push _ => fin = false
  | BD_finish => fin = false ∧ (r = RNot_started → replied = true)
  | BD_sent f => f ≠ 1%Z ∧ (f = 4%Z → r = REnded)
  | BD_received None => r = RPending
  | BD_received (Some raw) => r = RPending ∧ is_Some (deserialize (T:=ReqT) raw)
  end.

Fixpoint bd_legal (replied : bool) (r : rd_phase) (fin : bool) (evs : list bidir_event) : Prop :=
  match evs with
  | [] => True
  | ev :: evs =>
      bd_event_legal replied r fin ev ∧
      bd_legal (next_replied ev replied) (next_recv ev r) (next_fin ev fin) evs
  end.

Definition recv_after (r : rd_phase) (evs : list bidir_event) : rd_phase :=
  foldl (λ r ev, next_recv ev r) r evs.
Definition fin_after (fin : bool) (evs : list bidir_event) : bool :=
  foldl (λ fin ev, next_fin ev fin) fin evs.

Definition bd_replies (ev : bidir_event) : list RepT :=
  match ev with BD_push v => [v] | _ => [] end.

(** What the request stream gets. *)
Definition bd_requests (ev : bidir_event) : list (stream_event ReqT H) :=
  match ev with
  | BD_received None => [E_end None]
  | BD_received (Some raw) =>
      match deserialize raw with Some req => [E_push req] | None => [] end
  | _ => []
  end.

(** Whether the stream the program returns holds replies already. *)
Definition has_replies (vs : list RepT) : bool := match vs with [] => false | _ => true end.

Definition rd_prom (r : rd_phase) : bool := match r with REnded => false | _ => true end.

(** A completion of the sending direction, in flight or not. *)
Lemma bd_sent_step md vs k fin ph r rd w f :
  bd_inv md vs k fin ph r rd w → f ≠ 1%Z → (f = 4%Z → r = REnded) →
  ∃ k' ph' w', run_bidir_event (BD_sent f) w = (Ret tt, w') ∧
    bd_inv md vs k' fin ph' (next_recv (BD_sent f) r) rd w'.
Proof.
  intros Hinv Hf Hclose. pose proof (bd_phase_ok _ _ _ _ _ _ _ _ Hinv) as Hok.
  assert (ph ≠ BHandshake → next_recv (BD_sent f) r = r) as Hr.
  { intros Hph. destruct r; try done. by destruct ph; destruct_and?. }
  destruct (decide (f ∈ batch_flags <$> send_part md ph)) as [Hin|Hnone].
  - destruct ph; simpl in Hin; try (by apply elem_of_nil in Hin);
      apply list_elem_of_singleton in Hin as ->.
    + destruct Hok as (-> & -> & _).
      destruct (bd_sent_handshake _ _ _ _ _ Hinv) as (k' & ph' & w' & ? & ?).
      by exists k', ph', w'.
    + rewrite Hr by done.
      destruct (bd_sent_message _ _ _ _ _ _ _ _ Hinv) as (k' & ph' & w' & ? & ? & _ & _).
      by exists k', ph', w'.
    + rewrite Hr by done. destruct Hok as (-> & -> & _). rewrite Hclose in * by done.
      destruct (bd_sent_end _ _ _ _ _ Hinv) as (w' & ? & ?).
      by exists (length vs), BGone, w'.
  - exists k, ph, w. split.
    + eapply bd_inv_no_flags; [exact Hinv| |done].
      intros b Hb Hbf. apply Hnone, list_elem_of_fmap. by exists b.
    + destruct ph; try (by rewrite Hr). destruct Hok as (-> & -> & _). simpl.
      destruct (Z.eqb_spec f 8) as [->|]; [|done]. destruct Hnone. by constructor.
Qed.

(** Any legal event. *)
Lemma bd_step md vs k fin ph r rd w q ev p rd' :
  bd_inv md vs k fin ph r rd w → bd_event_legal q r fin ev → (q = true → vs ≠ []) →
  run_stream on_request (bd_requests ev) (rd_prom r) rd = (Ret p, rd') →
  p = rd_prom (next_recv ev r) ∧
  ∃ k' ph' w', run_bidir_event ev w = (Ret tt, w') ∧
    bd_inv md (vs ++ bd_replies ev) k' (next_fin ev fin) ph' (next_recv ev r) rd' w'.
Proof.
  intros Hinv Hleg Hvs Hrun. destruct ev as [v| |f|[raw|]].
  - injection Hrun as <- <-. split; [done|]. simpl in Hleg. subst fin.
    by apply (bd_push_step md vs k false ph r rd w v Hinv).
  - injection Hrun as <- <-. split; [done|]. destruct Hleg as [-> Hq].
    destruct (bd_finish_step md vs k ph r rd w Hinv) as (ph' & w' & ? & ?); [by auto|].
    exists k, ph', w'. by rewrite app_nil_r.
  - injection Hrun as <- <-. split.
    { simpl. destruct r; try done. by destruct (f =? 8)%Z. }
    rewrite app_nil_r. destruct Hleg. by eapply bd_sent_step.
  - destruct Hleg as [-> [req Hreq]]. simpl in Hrun. rewrite Hreq in Hrun. rewrite app_nil_r.
    apply runs_bind_inv in Hrun as (p1 & rd1 & Hpush & [= -> ->]).
    assert (p = true) as ->. { by apply push_keeps_promise in Hpush. }
    split; [done|].
    destruct (bd_received_message _ _ _ _ _ _ _ _ _ _ Hinv Hreq Hpush) as (w' & ? & ?).
    by exists k, ph, w'.
  - simpl in Hleg. subst r. rewrite app_nil_r.
    apply runs_bind_inv in Hrun as (p1 & rd1 & Hend & [= -> ->]).
    assert (p = false) as ->. { by apply complete_ends_promise in Hend. }
    split; [done|].
    destruct (bd_received_end _ _ _ _ _ _ _ _ Hinv Hend) as (w' & ? & ?).
    by exists k, ph, w'.
Qed.

(** Once both directions have ended, the completions send everything left. *)
Lemma bd_complete_all md vs rd n : ∀ k ph w,
  bd_inv md vs k true ph REnded rd w → bd_left vs k ph ≤ n →
  ∃ w', for_each_in run_bidir_event (concat (replicate n [BD_sent 2; BD_sent 4])) w = (Ret tt, w') ∧
    bd_inv md vs (length vs) true BGone REnded rd w'.
Proof.
  induction n as [|n IH]; intros k ph w Hinv Hn.
  - pose proof (bd_phase_ok _ _ _ _ _ _ _ _ Hinv) as Hok.
    destruct ph; simpl in Hn; try lia. destruct Hok as [-> _]. by exists w.
  - assert (∃ k' ph' w', (run_bidir_event (BD_sent 2) ;; run_bidir_event (BD_sent 4)) w
               = (Ret tt, w') ∧ bd_inv md vs k' true ph' REnded rd w' ∧
               bd_left vs k' ph' ≤ n) as (k' & ph' & w' & Hrun & Hinv' & Hn').
    { pose proof (bd_phase_ok _ _ _ _ _ _ _ _ Hinv) as Hok.
      unfold mbind, M_bind. destruct ph as [|v| | |]; try (by destruct_and?).
      - destruct (bd_sent_message _ _ _ _ _ _ _ _ Hinv) as (k1 & ph1 & w1 & -> & Hinv1 & Hph1 & Hlt).
        specialize (Hlt eq_refl).
        pose proof (bd_phase_ok _ _ _ _ _ _ _ _ Hinv1) as Hok1.
        destruct ph1 as [|v1| | |]; try (by destruct_and?).
        + exists k1, (BSending v1), w1. split; [|split; [done|lia]].
          eapply bd_inv_no_flags; [done| |done].
          by intros b ->%list_elem_of_singleton.
        + destruct Hok1 as [-> _].
          destruct (bd_sent_end _ _ _ _ _ Hinv1) as (w2 & -> & Hinv2).
          exists (length vs), BGone, w2. split; [done|]. split; [done|]. simpl. lia.
      - rewrite (bd_inv_no_flags _ _ _ _ _ _ _ _ 2 Hinv);
          [|by intros b ->%list_elem_of_singleton|done].
        destruct (bd_sent_end _ _ _ _ _ Hinv) as (w2 & -> & Hinv2).
        exists k, BGone, w2. split; [done|]. split; [done|]. simpl. lia.
      - rewrite !(bd_inv_no_flags _ _ _ _ _ _ _ _ _ Hinv); try done;
          [|by intros b ?%elem_of_nil..].
        exists k, BGone, w. split; [done|]. split; [done|]. simpl. lia. }
    destruct (IH _ _ _ Hinv' Hn') as (w2 & Hrun2 & Hinv2).
    exists w2. split; [|done]. cbn [replicate concat app for_each_in].
    revert Hrun. unfold mbind, M_bind.
    destruct (run_bidir_event (BD_sent 2) w) as [[[]|e|c] w0]; [|done|done].
    by intros ->.
Qed.

(** What can be read off a state: what was sent, and when it is over. *)
Lemma bd_inv_sent md vs k fin ph r rd w :
  bd_inv md vs k fin ph r rd w →
  filter is_control (started w) `prefix_of` bd_handshake md :: (bd_message <$> vs) ++ [bd_end] ∧
  (fin = true → inflight w = [] →
   filter is_control (started w) = bd_handshake md :: (bd_message <$> vs) ++ [bd_end] ∧
   deleted w = true).
Proof.
  intros [_ Hinf Hsd _ Hdel _ Hok]. rewrite Hsd, Hdel. split.
  - apply prefix_cons. destruct ph; simpl.
    1-3: rewrite app_nil_r; exists ((bd_message <$> drop k vs) ++ [bd_end]);
      by rewrite app_assoc, <- fmap_app, take_drop.
    all: destruct Hok as [-> _]; by rewrite firstn_all.
  - intros Hf Hnil. rewrite Hnil in Hinf. apply Permutation_nil_l in Hinf.
    destruct ph; try done; try (destruct_and?; congruence).
    destruct Hok as [-> _]. simpl. by rewrite firstn_all.
Qed.

(** *** The call together with the program's reply stream *)

Local Abbreviation system := (stream_world RepT unit world).
#[local] Instance bd_end_handler : FutureHandler unit unit world := bidir_handler accepts.

(** Replies and their end go through the stream the program returned. *)
Definition run_bd_sys (ev : bidir_event) : M system unit :=
  match ev with
  | BD_push v => Stream_storage_push (H:=unit) (Bidir_push accepts) v
  | BD_finish => Stream_storage_complete (H:=unit) (Bidir_push accepts)
  | BD_sent _ | BD_received _ => zoom client set_client (run_bidir_event ev)
  end.

Lemma replied_step (q : bool) (vs : list RepT) ev :
  (q = true → vs ≠ []) → next_replied ev q = true → vs ++ bd_replies ev ≠ [].
Proof. intros Hq Hn. destruct ev; simpl in *; [by destruct vs|by rewrite app_nil_r; apply Hq..]. Qed.

Lemma run_bd_sys_inv md evs : ∀ (s : system) q vs k fin ph r rd p rd',
  (fin = false → attached_to tt s) → bd_inv md vs k fin ph r rd (client s) →
  bd_legal q r fin evs → (q = true → vs ≠ []) →
  run_stream on_request (evs ≫= bd_requests) (rd_prom r) rd = (Ret p, rd') →
  ∃ s' k' ph', for_each_in run_bd_sys evs s = (Ret tt, s') ∧
    bd_inv md (vs ++ (evs ≫= bd_replies)) k' (fin_after fin evs) ph' (recv_after r evs) rd' (client s').
Proof.
  induction evs as [|ev evs IH]; intros s q vs k fin ph r rd p rd' Hat Hinv Hleg Hq Hrun.
  - exists s, k, ph. injection Hrun as <- <-. by rewrite app_nil_r.
  - destruct Hleg as [Hleg Hlegs].
    change ((ev :: evs) ≫= bd_requests) with (bd_requests ev ++ (evs ≫= bd_requests)) in Hrun.
    rewrite (run_stream_app on_request _ _ _ rd) in Hrun.
    apply runs_bind_inv in Hrun as (p1 & rd1 & Hrun1 & Hrun2).
    destruct (bd_step _ _ _ _ _ _ _ _ _ _ _ _ Hinv Hleg Hq Hrun1)
      as (-> & k1 & ph1 & w1 & Hev & Hinv1).
    assert (∃ s1, run_bd_sys ev s = (Ret tt, s1) ∧ client s1 = w1 ∧
              (next_fin ev fin = false → attached_to tt s1)) as (s1 & Hs1 & <- & Hat1).
    { destruct ev as [v| |f|o]; simpl in *.
      - rewrite (attached_push (Bidir_push accepts) tt v s (Hat Hleg)).
        unfold zoom. rewrite Hev. exists (set_client w1 s). split; [done|].
        split; [done|]. intros Hf. by apply attached_set_client, Hat.
      - destruct Hleg as [-> _].
        destruct (attached_complete (FutureHandler0:=bd_end_handler)
                    (Bidir_push accepts) tt eq_refl w1 s (Hat eq_refl) Hev) as (s1 & ? & ?).
        by exists s1.
      - unfold zoom. rewrite Hev. exists (set_client w1 s). split; [done|].
        split; [done|]. intros Hf. by apply attached_set_client, Hat.
      - unfold zoom. rewrite Hev. exists (set_client w1 s). split; [done|].
        split; [done|]. intros Hf. by apply attached_set_client, Hat. }
    destruct (IH s1 _ _ _ _ _ _ _ _ _ Hat1 Hinv1 Hlegs (replied_step _ _ _ Hq) Hrun2) as (s2 & k2 & ph2 & Hs2 & Hinv2).
    exists s2, k2, ph2. cbn [for_each_in]. unfold mbind, M_bind. rewrite Hs1, Hs2.
    split; [done|]. by rewrite <- app_assoc in Hinv2.
Qed.

(** A call that comes in. *)
Definition bd_new (md : list (string * string)) (prom : bool) (rd : reader_world)
  (fin : bool) (q : list grpc_op) : call_handler (bidir_streaming ReqT H U) :=
  CallHandler true rmd 0 md (BidirStreaming prom rd None false fin false q).
Definition bd_incoming (md : list (string * string)) (rd : reader_world) : system :=
  StreamWorld Stream_storage_init Future_storage_init (call_init (bd_new md false rd false [])) [].
Definition bd_fresh_reader (rd : reader_world) : reader_world :=
  set_final Future_storage_init (set_stream Stream_storage_init rd).

(** The reply stream a program returns: [vs] already pushed, perhaps ended. *)
Definition bd_returned (vs : list RepT) (ended : bool) : stream_storage RepT :=
  StreamStorage None false vs None (if ended then 4 else 0).

(** Before the metadata is sent, replies are only queued. *)
Lemma early_pushes md rd vs : ∀ q,
  for_each_in (Bidir_push accepts) vs (call_init (bd_new md true rd false q)) =
  (Ret tt, call_init (bd_new md true rd false (q ++ (bd_send_op <$> vs)))).
Proof.
  induction vs as [|v vs IH]; intros q; [by rewrite app_nil_r|].
  cbn [for_each_in]. unfold mbind at 1, M_bind at 1.
  assert (Bidir_push accepts v (call_init (bd_new md true rd false q)) =
          (Ret tt, call_init (bd_new md true rd false (q ++ [bd_send_op v])))) as ->.
  { unfold Bidir_push, Bidir_flush_. by unfold_bd. }
  rewrite IH, <- app_assoc. done.
Qed.

Lemma perform_handshake (s : system) md rd vs fin :
  client s = call_init (bd_new md true rd fin (bd_send_op <$> vs)) →
  (zoom client set_client (
    h ← get_obj;
    call_status ← grpc_call_start_batch accepts [op_send_metadata h] 8;
    massert call_status)) s =
  (Ret tt, set_client (CallWorld (bd_new md true rd fin (bd_send_op <$> vs))
             [bd_handshake md] [bd_handshake md] [] 0 false) s).
Proof.
  intros Hc. unfold zoom. rewrite Hc. unfold grpc_call_start_batch. unfold_bd.
  unfold op_send_metadata. simpl. by rewrite Haccepts by (by vm_compute).
Qed.

Lemma bd_perform_runs cb md rd rd0 vs :
  cb (bd_fresh_reader rd) = (Ret (bd_returned vs false), rd0) →
  ∃ s, Bidir_perform accepts cb (bd_incoming md rd) = (Ret tt, s) ∧
    attached_to tt s ∧ bd_inv md vs 0 false BHandshake RNot_started rd0 (client s).
Proof.
  intros Hcb.
  set (s0 := StreamWorld (bd_returned vs false) Future_storage_init
               (call_init (bd_new md true rd0 false [])) [] : system).
  destruct (attach_detached (FutureHandler0:=bd_end_handler) (Bidir_push accepts) tt vs s0
              (call_init (bd_new md true rd0 false ([] ++ (bd_send_op <$> vs)))))
    as (s1 & Hatt & Hat & Hc).
  { by split. }
  { apply early_pushes. }
  apply attach_event_inv in Hatt.
  exists (set_client (CallWorld (bd_new md true rd0 false (bd_send_op <$> vs))
            [bd_handshake md] [bd_handshake md] [] 0 false) s1).
  split; [|split].
  - change (runs (Bidir_perform accepts cb) (bd_incoming md rd) tt
              (set_client (CallWorld (bd_new md true rd0 false (bd_send_op <$> vs))
                 [bd_handshake md] [bd_handshake md] [] 0 false) s1)).
    eapply runs_bind; [reflexivity|]. eapply (runs_bind _ _ _ (bd_returned vs false)).
    { unfold runs, zoom, on_bd_reader. simpl. unfold bd_fresh_reader in Hcb. rewrite Hcb.
      reflexivity. }
    eapply runs_bind; [reflexivity|].
    eapply runs_bind_assoc; [exact Hatt|]. by apply perform_handshake.
  - by apply attached_set_client.
  - split; simpl; try done; [|lia]. intros x Hx%list_elem_of_singleton. auto.
Qed.
End Laws.
Arguments bidir_event : clear implicits.

Lemma has_replies_some {RepT} (vs : list RepT) : has_replies vs = true → vs ≠ [].
Proof. by destruct vs. Qed.

(** A whole call. *)
Lemma bidir_streaming_runs {ReqT RepT H U}
  `{!Serializer ReqT, !Serializer RepT, !FutureHandler unit H U}
  (on_request : ReqT → M U unit)
  (accepts : list batch → list batch → list grpc_op → bool)
  (Haccepts : grpc_accepts_allowed accepts)
  (cb : M (stream_world ReqT H U) (stream_storage RepT))
  {rmd : list (string * string)} (md : list (string * string)) (rd rd0 rd1 : stream_world ReqT H U) (p : bool)
  (vs0 : list RepT) (evs : list (bidir_event RepT))
  (Hcb : cb (bd_fresh_reader rd) = (Ret (bd_returned vs0 false), rd0))
  (Hlegal : bd_legal (ReqT:=ReqT) (has_replies vs0) RNot_started false evs)
  (Hstream : run_stream on_request (evs ≫= bd_requests) true rd0 = (Ret p, rd1)) :
  let vs := vs0 ++ (evs ≫= bd_replies) in
  let sent w := filter is_control (started w) in
  ∃ s, (Bidir_perform accepts cb ;;
        for_each_in (run_bd_sys on_request accepts) evs) (bd_incoming (rmd:=rmd) md rd) = (Ret tt, s) ∧
    bd_reader (ext (obj (client s))) = rd1 ∧
    sent (client s) `prefix_of` bd_handshake md :: (bd_message <$> vs) ++ [bd_end] ∧
    (fin_after false evs = true → recv_after RNot_started evs = REnded →
     ∃ w, for_each_in (run_bidir_event on_request accepts)
            (concat (replicate (length vs + 2) [BD_sent 2; BD_sent 4])) (client s) = (Ret tt, w) ∧
       sent w = bd_handshake md :: (bd_message <$> vs) ++ [bd_end] ∧
       inflight w = [] ∧ deleted w = true ∧ bd_reader (ext (obj w)) = rd1).
Proof.
  intros vs sent.
  destruct (bd_perform_runs (rmd:=rmd) accepts Haccepts cb md rd rd0 vs0 Hcb) as (s1 & Hrun1 & Hat & Hinv1).
  destruct (run_bd_sys_inv on_request accepts Haccepts md evs s1 _ vs0 0 false BHandshake
              RNot_started rd0 p rd1 (λ _, Hat) Hinv1 Hlegal (has_replies_some vs0) Hstream)
    as (s2 & k & ph & Hrun2 & Hinv2).
  exists s2. unfold mbind, M_bind. rewrite Hrun1. split; [done|].
  fold vs in Hinv2. pose proof Hinv2 as [Hobj _ Hsd _ _ _ Hok].
  split; [by rewrite Hobj|]. split.
  - by apply (bd_inv_sent md vs _ _ _ _ _ _ Hinv2).
  - intros Hf Hr. rewrite Hf, Hr in *.
    destruct (bd_complete_all on_request accepts Haccepts md vs rd1 (length vs + 2) _ _ _ Hinv2)
      as (w & Hrun & Hinv).
    { destruct ph; simpl; try lia. by destruct_and?. }
    exists w. split; [done|]. destruct Hinv as [Hobj' Hinf' Hsd' _ Hdel' _ _].
    split; [unfold sent; by rewrite Hsd', firstn_all|].
    split; [by apply Permutation_nil_r|]. split; [done|]. by rewrite Hobj'.
Qed.

(** C13: a bidirectional call.  The program's stream of requests sees exactly the
    messages received, in order, then their end; the batches of the sending
    direction are, in order, the metadata, one message per reply in the order of
    the pushes, and the status OK; and neither direction waits for the other; the
    program may end its replies before or after the client has ended its requests.
    Nothing asserts.  Once both directions have ended, completing the batches in
    flight sends everything that is left and deletes the handler, with nothing in
    flight.  This holds in every interleaving of replies, receptions and completions
    but two, in which the code fails: the replies end before the metadata was sent
    and without a reply ([bidir_streaming_early_end_lost]), and the batch of the status
    completes while a receive is in flight ([bidir_early_close_use_after_free]).
    Messages parse, and replies end without an error. *)
Theorem bidir_streaming_both_directions {ReqT RepT H U}
  `{!Serializer ReqT, !Serializer RepT, !FutureHandler unit H U}
  (on_request : ReqT → M U unit)
  (accepts : list batch → list batch → list grpc_op → bool)
  (Haccepts : grpc_accepts_allowed accepts)
  (cb : M (stream_world ReqT H U) (stream_storage RepT))
  {rmd : list (string * string)} (md : list (string * string)) (rd rd0 rd1 : stream_world ReqT H U) (p : bool)
  (vs0 : list RepT) (evs : list (bidir_event RepT))
  (Hcb : cb (bd_fresh_reader rd) = (Ret (bd_returned vs0 false), rd0))
  (Hlegal : bd_legal (ReqT:=ReqT) (has_replies vs0) RNot_started false evs)
  (Hstream : run_stream on_request (evs ≫= bd_requests) true rd0 = (Ret p, rd1)) :
  let vs := vs0 ++ (evs ≫= bd_replies) in
  let sent w := filter is_control (started w) in
  ∃ s, (Bidir_perform accepts cb ;;
        for_each_in (run_bd_sys on_request accepts) evs) (bd_incoming (rmd:=rmd) md rd) = (Ret tt, s) ∧
    bd_reader (ext (obj (client s))) = rd1 ∧
    sent (client s) `prefix_of` bd_handshake md :: (bd_message <$> vs) ++ [bd_end] ∧
    (fin_after false evs = true → recv_after RNot_started evs = REnded →
     ∃ w, for_each_in (run_bidir_event on_request accepts)
            (concat (replicate (length vs + 2) [BD_sent 2; BD_sent 4])) (client s) = (Ret tt, w) ∧
       sent w = bd_handshake md :: (bd_message <$> vs) ++ [bd_end] ∧
       inflight w = [] ∧ deleted w = true ∧ bd_reader (ext (obj w)) = rd1).
Proof. by eapply bidir_streaming_runs. Qed.

(** A program that logs the requests and has one reply ready. *)
Definition bd_demo_log : Type := list (Byte.byte + finish_type unit).
Definition bd_demo_on_request (b : Byte.byte) : M bd_demo_log unit :=
  modify (λ log : bd_demo_log, log ++ [inl b]).
Definition bd_demo_program (vs : list Byte.byte) (ended : bool) :
  M (stream_world Byte.byte unit bd_demo_log) (stream_storage Byte.byte) :=
  Basic_stream_future_for_each bd_demo_on_request true Immediate_queue ;;
  stream_finally tt ;;
  mret (bd_returned vs ended).
Definition bd_demo_reader : stream_world Byte.byte unit bd_demo_log :=
  StreamWorld Stream_storage_init Future_storage_init [] [].

Definition bd_demo_events : list (bidir_event Byte.byte) :=
  [BD_push Byte.x02; BD_sent 8; BD_finish; BD_received (Some (ByteBuffer true [[Byte.x07]]));
   BD_sent 2; BD_received None].

Lemma bidir_streaming_both_directions_witness :
  ∃ s, (Bidir_perform batch_allowed (bd_demo_program [Byte.x01] false) ;;
        for_each_in (run_bd_sys bd_demo_on_request batch_allowed) bd_demo_events)
         (bd_incoming (rmd:=[]) [] bd_demo_reader) = (Ret tt, s) ∧
    client (bd_reader (ext (obj (client s)))) = [inl Byte.x07; inr [Val None]] ∧
    (∃ w, for_each_in (run_bidir_event bd_demo_on_request batch_allowed)
            (concat (replicate 4 [BD_sent 2; BD_sent 4])) (client s) = (Ret tt, w) ∧
      filter is_control (started w) =
        [bd_handshake []; bd_message Byte.x01; bd_message Byte.x02; bd_end] ∧
      deleted w = true).
Proof.
  pose (rd0 := snd (bd_demo_program [Byte.x01] false (bd_fresh_reader bd_demo_reader))).
  pose (rd1 := snd (run_stream (H:=unit) bd_demo_on_request
    (bd_demo_events ≫= bd_requests) true rd0)).
  destruct (bidir_streaming_both_directions (rmd:=[]) bd_demo_on_request batch_allowed
    batch_allowed_accepts (bd_demo_program [Byte.x01] false) [] bd_demo_reader rd0 rd1 false
    [Byte.x01] bd_demo_events) as (s & Hrun & Hr & _ & Hfin).
  - reflexivity.
  - repeat split; first [done | by eexists].
  - reflexivity.
  - destruct (Hfin eq_refl eq_refl) as (w & Hw & Hsent & _ & Hdel & _).
    exists s. split; [exact Hrun|]. split; [rewrite Hr; reflexivity|].
    exists w. split; [exact Hw|]. by split.
Defined.

(** An end of the replies that comes before the metadata has been sent, with
    no reply queued, is lost: the callback returns a stream that has already
    ended, the metadata is sent, the client ends its requests, and then nothing is
    in flight, no status was ever sent, and the handler is still there, so that
    nothing can happen to the call any more. *)
Theorem bidir_streaming_early_end_lost {ReqT RepT H U}
  `{!Serializer ReqT, !Serializer RepT, !FutureHandler unit H U}
  (on_request : ReqT → M U unit)
  (accepts : list batch → list batch → list grpc_op → bool)
  (Haccepts : grpc_accepts_allowed accepts)
  (cb : M (stream_world ReqT H U) (stream_storage RepT))
  {rmd : list (string * string)} (md : list (string * string)) (rd rd0 rd1 : stream_world ReqT H U)
  (Hcb : cb (bd_fresh_reader rd) = (Ret (bd_returned [] true), rd0))
  (Hstream : run_stream on_request [E_end None] true rd0 = (Ret false, rd1)) :
  ∃ s, (Bidir_perform accepts cb ;;
        for_each_in (run_bd_sys on_request accepts) [BD_sent 8; BD_received None])
         (bd_incoming (rmd:=rmd) md rd) = (Ret tt, s) ∧
    inflight (client s) = [] ∧ deleted (client s) = false ∧
    started (client s) = [bd_handshake md; bd_recv].
Proof.
  apply runs_bind_inv in Hstream as (p1 & rd2 & Hend & [= -> ->]).
  set (s0 := StreamWorld (bd_returned [] true) Future_storage_init
               (call_init (bd_new (rmd:=rmd) md true rd0 false [])) []
               : stream_world RepT unit (call_world (call_handler (bidir_streaming ReqT H U)))).
  destruct (attach_ended (FutureHandler0:=bd_end_handler accepts) (Bidir_push accepts) tt []
              None s0 (call_init (bd_new (rmd:=rmd) md true rd0 true []))) as (s1 & Hatt & Hc).
  { split; [|done]. by exists 4%Z, None. }
  { done. }
  apply attach_event_inv in Hatt.
  set (w1 := CallWorld (bd_new (rmd:=rmd) md true rd0 true []) [bd_handshake md] [bd_handshake md] [] 0 false).
  assert (runs (Bidir_perform accepts cb) (bd_incoming (rmd:=rmd) md rd) tt (set_client w1 s1)) as Hrun.
  { eapply runs_bind; [reflexivity|]. eapply (runs_bind _ _ _ (bd_returned [] true)).
    { unfold runs, zoom, on_bd_reader. simpl. unfold bd_fresh_reader in Hcb. rewrite Hcb.
      reflexivity. }
    eapply runs_bind; [reflexivity|].
    eapply runs_bind_assoc; [exact Hatt|].
    by apply (perform_handshake (rmd:=rmd) accepts Haccepts s1 md rd0 [] true). }
  set (w2 := CallWorld (CallHandler true rmd 0 md
               (BidirStreaming true rd0 None false true true [])) [bd_recv]
               [bd_handshake md; bd_recv] [] 0 false).
  set (w3 := CallWorld (CallHandler true rmd 0 md
               (BidirStreaming false rd1 None false true true [])) []
               [bd_handshake md; bd_recv] [] 0 false).
  assert (run_bidir_event on_request accepts (BD_sent 8) w1 = (Ret tt, w2)) as H1.
  { unfold run_bidir_event, bidir_complete, complete_batch, Bidir_exec,
      Bidir_exec_handshake, grpc_call_start_batch. unfold_bd.
    by rewrite Haccepts by (by vm_compute). }
  assert (run_bidir_event on_request accepts (BD_received None) w2 = (Ret tt, w3)) as H2.
  { unfold run_bidir_event, bidir_complete, complete_batch, Bidir_exec,
      Bidir_exec_recv. unfold_bd. by rewrite Hend. }
  exists (set_client w3 s1). split; [|done].
  eapply runs_bind; [exact Hrun|]. unfold runs. cbn [for_each_in run_bd_sys].
  unfold mbind, M_bind, zoom.
  change (client (set_client w1 s1)) with w1. rewrite H1. cbv beta iota.
  change (client (set_client w2 (set_client w1 s1))) with w2. by rewrite H2.
Qed.

Lemma bidir_streaming_early_end_lost_witness :
  ∃ s, (Bidir_perform batch_allowed (bd_demo_program [] true) ;;
        for_each_in (run_bd_sys bd_demo_on_request batch_allowed) [BD_sent 8; BD_received None])
         (bd_incoming (rmd:=[]) [] bd_demo_reader) = (Ret tt, s) ∧
    inflight (client s) = [] ∧ deleted (client s) = false ∧
    started (client s) = [bd_handshake []; bd_recv].
Proof.
  apply (bidir_streaming_early_end_lost bd_demo_on_request batch_allowed
    batch_allowed_accepts (bd_demo_program [] true) [] bd_demo_reader
    (snd (bd_demo_program [] true (bd_fresh_reader bd_demo_reader)))
    (snd (run_stream bd_demo_on_request [E_end None] true
       (snd (bd_demo_program [] true (bd_fresh_reader bd_demo_reader)))))).
  - reflexivity.
  - reflexivity.
Defined.

(** The status is sent while the client still sends: in whatever way the call got there,
    once all replies have been sent and the completion of the status comes before that of
    the receive in flight, the handler is deleted, and the completion of the receive runs
    on it.  The program's stream is only asked not to throw when its promise is broken. *)
Theorem bidir_early_close_use_after_free {ReqT RepT H U}
  `{!Serializer ReqT, !Serializer RepT, !FutureHandler unit H U}
  (on_request : ReqT → M U unit)
  (accepts : list batch → list batch → list grpc_op → bool)
  (Haccepts : grpc_accepts_allowed accepts)
  (cb : M (stream_world ReqT H U) (stream_storage RepT))
  {rmd : list (string * string)} (md : list (string * string)) (rd rd0 rd1 : stream_world ReqT H U)
  (vs0 : list RepT) (evs : list (bidir_event RepT)) (o : option byte_buffer)
  (Hcb : cb (bd_fresh_reader rd) = (Ret (bd_returned vs0 false), rd0))
  (Hlegal : bd_legal (ReqT:=ReqT) (has_replies vs0) RNot_started false evs)
  (Hfin : fin_after false evs = true) (Hopen : recv_after RNot_started evs = RPending)
  (Hstream : run_stream on_request ((evs ≫= bd_requests) ++ [E_end (Some Unfullfilled_promise)])
     true rd0 = (Ret false, rd1)) :
  ∃ s, (Bidir_perform accepts cb ;; for_each_in (run_bd_sys on_request accepts) evs)
         (bd_incoming (rmd:=rmd) md rd) = (Ret tt, s) ∧
    let n := S (length (vs0 ++ (evs ≫= bd_replies))) in
    fst ((for_each_in (run_bidir_event on_request accepts) (replicate n (BD_sent 2)) ;;
          run_bidir_event on_request accepts (BD_sent 4) ;;
          run_bidir_event on_request accepts (BD_received o)) (client s)) = Crash Use_after_free.
Proof.
  rewrite (run_stream_app on_request _ _ true rd0) in Hstream.
  apply runs_bind_inv in Hstream as (p & rd2 & Hstream & Hend).
  destruct (bd_perform_runs (rmd:=rmd) accepts Haccepts cb md rd rd0 vs0 Hcb) as (s1 & Hrun1 & Hat & Hinv1).
  destruct (run_bd_sys_inv on_request accepts Haccepts md evs s1 _ vs0 0 false BHandshake
              RNot_started rd0 p rd2 (λ _, Hat) Hinv1 Hlegal (has_replies_some vs0) Hstream)
    as (s2 & k & ph & Hrun2 & Hinv2).
  exists s2. unfold mbind at 1, M_bind at 1. rewrite Hrun1. split; [done|].
  rewrite Hfin, Hopen in Hinv2. pose proof (bd_phase_ok _ _ _ _ _ _ _ _ Hinv2) as Hok.
  set (vs := vs0 ++ (evs ≫= bd_replies)) in *.
  destruct (bd_flush_all on_request accepts Haccepts md _ RPending rd2 (S (length vs)) _ _ _ Hinv2)
    as (w & Hw & Hinv3); [done|by intros ->; destruct_and?|destruct ph; destruct_and?; simpl; try done; lia|].
  unfold mbind at 1, M_bind at 1. rewrite Hw.
  assert (p = true) as -> by (by destruct p).
  by eapply bd_close_crashes.
Qed.

Lemma bidir_early_close_use_after_free_witness :
  ∃ s, (Bidir_perform batch_allowed (bd_demo_program [] false) ;;
        for_each_in (run_bd_sys bd_demo_on_request batch_allowed)
          [BD_sent 8; BD_push Byte.x01; BD_sent 2; BD_finish])
         (bd_incoming (rmd:=[]) [] bd_demo_reader) = (Ret tt, s) ∧
    fst ((for_each_in (run_bidir_event bd_demo_on_request batch_allowed)
            (replicate 2 (BD_sent 2)) ;;
          run_bidir_event bd_demo_on_request batch_allowed (BD_sent 4) ;;
          run_bidir_event bd_demo_on_request batch_allowed (BD_received None)) (client s)) =
      Crash Use_after_free.
Proof.
  pose (rd0 := snd (bd_demo_program [] false (bd_fresh_reader bd_demo_reader))).
  apply (bidir_early_close_use_after_free (rmd:=[]) bd_demo_on_request batch_allowed
    batch_allowed_accepts (bd_demo_program [] false) [] bd_demo_reader rd0
    (snd (run_stream bd_demo_on_request [E_end (Some Unfullfilled_promise)] true rd0)) []
    [BD_sent 8; BD_push Byte.x01; BD_sent 2; BD_finish] None).
  all: first [reflexivity | by repeat split].
Defined.
