(* ===== verification/Listener.v ===== *)
(** Waiting for calls: the methods of a service and the listener of a method on a
    queue (include/easy_grpc/server/methods/method.h, listener.h), against an
    interface that every kind of call handler implements. *)

From S2P Require Import Prelude Errors Effects.

(** What [grpc_server_request_registered_call] is given: the server, the method's
    registration, the handler whose members receive the call, whether its payload
    is read too, and the queue. *)
Record call_request := CallRequest {
  req_server : nat;
  req_registration : nat;
  req_handler : nat;
  req_payload : bool;
  req_queue : nat
}.

(** The interface of a handler type [HandlerT] with callbacks [CbT] in a world [W]
    that holds the handlers: [new handler_type], the call to the gRPC core, what
    the core writes into the handler when a call [I] arrives, [perform] and
    [delete]. *)
Class HandlerType (CbT W I : Type) := {
  immediate_payload : bool;
  new_handler : M W nat;
  grpc_server_request_registered_call : call_request → M W bool;
  fill_handler : nat → I → M W unit;
  handler_perform : nat → CbT → M W unit;
  delete_handler : nat → M W unit
}.

(** The members of [Method_listener]. *)
Record method_listener (CbT : Type) := MethodListener {
  srv_ : nat;
  reg_ : nat;
  cq_ : nat;
  cb_ : CbT;
  pending_call_ : option nat
}.
Arguments MethodListener {CbT} _ _ _ _ _.
Arguments srv_ {CbT} _.
Arguments reg_ {CbT} _.
Arguments cq_ {CbT} _.
Arguments cb_ {CbT} _.
Arguments pending_call_ {CbT} _.

(** A listener, whether it was deleted, and the handlers. *)
Record listening (CbT W : Type) := Listening {
  listener : method_listener CbT;
  listener_deleted : bool;
  handlers : W
}.
Arguments Listening {CbT W} _ _ _.
Arguments listener {CbT W} _.
Arguments listener_deleted {CbT W} _.
Arguments handlers {CbT W} _.

Section Listener.
Context {CbT W I : Type} `{!HandlerType CbT W I}.
Local Abbreviation world := (listening CbT W).

Definition set_handlers (h : W) (w : world) : world :=
  Listening (listener w) (listener_deleted w) h.
Definition set_pending_call (p : option nat) : M world unit :=
  modify (λ w : world,
    let l := listener w in
    Listening (MethodListener (srv_ l) (reg_ l) (cq_ l) (cb_ l) p) (listener_deleted w)
      (handlers w)).
Definition in_handlers {A} (m : M W A) : M world A := zoom handlers set_handlers m.

(** [Method_listener::Method_listener]. *)
Definition Method_listener_init (server registration cq : nat) (cb : CbT) :
  method_listener CbT := MethodListener server registration cq cb None.

Definition Method_listener_inject : M world unit :=
  l ← gets listener;
  massert (match pending_call_ l with None => true | Some _ => false end) ;;
  h ← in_handlers (new_handler);
  set_pending_call (Some h) ;;
  status ← in_handlers (if (immediate_payload : bool) then
      grpc_server_request_registered_call (CallRequest (srv_ l) (reg_ l) h true (cq_ l))
    else
      grpc_server_request_registered_call (CallRequest (srv_ l) (reg_ l) h false (cq_ l)));
  massert status.

(** The body of [exec], which is [noexcept]. *)
Definition Method_listener_exec (success : bool) : M world bool :=
  noexcept (
    if success then (
      l ← gets listener;
      match pending_call_ l with
      | None => crash_with Null_dereference
      | Some h =>
          in_handlers (handler_perform h (cb_ l)) ;;
          set_pending_call None ;;
          Method_listener_inject ;;
          mret false
      end)
    else mret true).

Definition Method_listener_destroy : M world unit :=
  l ← gets listener;
  match pending_call_ l with
  | None => mret tt
  | Some h => in_handlers (delete_handler h)
  end.

(** The queue's thread hands a completion to the listener, and deletes it when
    [exec] says so: a call arrived, which the core has written into the pending
    handler, or the server shut down. *)
Definition listener_complete (call : option I) : M world unit :=
  dead ← gets listener_deleted;
  if (dead : bool) then crash_with Use_after_free else
  l ← gets listener;
  match call, pending_call_ l with
  | Some i, Some h => in_handlers (fill_handler h i)
  | _, _ => mret tt
  end ;;
  kill ← Method_listener_exec (match call with Some _ => true | None => false end);
  when kill (
    Method_listener_destroy ;;
    modify (λ w : world, Listening (listener w) true (handlers w))).
End Listener.

(** *** Methods *)

(** [Method_impl<HandlerT, CbT>], as a [Method] behind its virtual functions:
    [queues_], [name_], [cb_]. *)
Record method (CbT : Type) := Method {
  queues_ : list nat;
  name_ : string;
  method_cb_ : CbT
}.
Arguments Method {CbT} _ _ _.
Arguments queues_ {CbT} _.
Arguments name_ {CbT} _.
Arguments method_cb_ {CbT} _.

Section Method.
Context {CbT W I : Type} `{!HandlerType CbT W I}.

(** [Method_impl(name, cb)]: no queues of its own. *)
Definition Method_init (name : string) (cb : CbT) : method CbT := Method [] name cb.

Definition set_queues (queues : list nat) (m : method CbT) : method CbT :=
  Method queues (name_ m) (method_cb_ m).

(** [listen]: a new listener, that requests its first call. *)
Definition Method_listen (m : method CbT) (server registration cq : nat) :
  M W (method_listener CbT) := λ w,
  match Method_listener_inject
          (Listening (Method_listener_init server registration cq (method_cb_ m)) false w) with
  | (Ret _, l) => (Ret (listener l), handlers l)
  | (Throw e, l) => (Throw e, handlers l)
  | (Crash c, l) => (Crash c, handlers l)
  end.

Definition immediate_payload_read (m : method CbT) : bool := immediate_payload.
End Method.

(** ** The life of a listener *)

(** What is done to handlers, in order. *)
Inductive handler_event (CbT I : Type) :=
| Handler_new (h : nat)
| Handler_requested (r : call_request)
| Handler_filled (h : nat) (i : I)
| Handler_performed (h : nat) (cb : CbT)
| Handler_deleted (h : nat).
Arguments Handler_new {CbT I} h.
Arguments Handler_requested {CbT I} r.
Arguments Handler_filled {CbT I} h i.
Arguments Handler_performed {CbT I} h cb.
Arguments Handler_deleted {CbT I} h.

(** The handler an event is about. *)
Definition event_handler {CbT I} (ev : handler_event CbT I) : nat :=
  match ev with
  | Handler_new h | Handler_filled h _ | Handler_performed h _ | Handler_deleted h => h
  | Handler_requested r => req_handler r
  end.

(** What a handler type promises to the listener, on the states in [handler_good],
    with [handler_log] what was done so far: a new handler is a fresh one, a
    request is accepted, a call that the callback can take is performed. *)
Class HandlerLaws (CbT W I : Type) `{!HandlerType CbT W I} := {
  handler_log : W → list (handler_event CbT I);
  handler_good : W → Prop;
  incoming_ok : CbT → I → Prop;
  new_handler_law w : handler_good w →
    ∃ h w', new_handler w = (Ret h, w') ∧ handler_good w' ∧
      h ∉ event_handler <$> handler_log w ∧
      handler_log w' = handler_log w ++ [Handler_new h];
  request_law r w : handler_good w →
    last (handler_log w) = Some (Handler_new (req_handler r)) →
    req_payload r = immediate_payload →
    ∃ w', grpc_server_request_registered_call r w = (Ret true, w') ∧ handler_good w' ∧
      handler_log w' = handler_log w ++ [Handler_requested r];
  perform_law r i cb w : handler_good w → incoming_ok cb i →
    last (handler_log w) = Some (Handler_requested r) →
    ∃ w1 w', fill_handler (req_handler r) i w = (Ret tt, w1) ∧
      handler_perform (req_handler r) cb w1 = (Ret tt, w') ∧ handler_good w' ∧
      handler_log w' = handler_log w ++
        [Handler_filled (req_handler r) i; Handler_performed (req_handler r) cb];
  delete_law r w : handler_good w → last (handler_log w) = Some (Handler_requested r) →
    ∃ w', delete_handler (req_handler r) w = (Ret tt, w') ∧ handler_good w' ∧
      handler_log w' = handler_log w ++ [Handler_deleted (req_handler r)]
}.

Section Life.
Context {CbT W I : Type} `{!HandlerType CbT W I, !HandlerLaws CbT W I}.
Context (server registration cq : nat) (cb : CbT).
Local Abbreviation world := (listening CbT W).

Definition request_for (h : nat) : call_request :=
  CallRequest server registration h immediate_payload cq.

(** A handler that is waiting, and one that took a call. *)
Definition waiting (h : nat) : list (handler_event CbT I) :=
  [Handler_new h; Handler_requested (request_for h)].
Definition served (hi : nat * I) : list (handler_event CbT I) :=
  waiting (fst hi) ++ [Handler_filled (fst hi) (snd hi); Handler_performed (fst hi) cb].

(** A listener whose pending handler is [h], with [log] before it. *)
Definition listens (log : list (handler_event CbT I)) (h : nat) (w : world) : Prop :=
  listener w = MethodListener server registration cq cb (Some h) ∧
  listener_deleted w = false ∧ handler_good (handlers w) ∧
  handler_log (handlers w) = log ++ waiting h ∧ h ∉ event_handler <$> log.

Lemma inject_listens (w : world) :
  listener w = MethodListener server registration cq cb None →
  listener_deleted w = false → handler_good (handlers w) →
  ∃ h w', Method_listener_inject w = (Ret tt, w') ∧ listens (handler_log (handlers w)) h w'.
Proof.
  destruct w as [l d hs]. simpl. intros -> -> Hgood.
  destruct (new_handler_law hs Hgood) as (h & hs1 & Hnew & Hgood1 & Hfresh & Hlog1).
  destruct (request_law (request_for h) hs1 Hgood1) as (hs2 & Hreq & Hgood2 & Hlog2).
  { by rewrite Hlog1, last_snoc. }
  { done. }
  exists h, (Listening (MethodListener server registration cq cb (Some h)) false hs2).
  split.
  - unfold Method_listener_inject, in_handlers, set_pending_call. munfold. simpl.
    rewrite Hnew. simpl. unfold request_for in Hreq.
    destruct immediate_payload; simpl; by rewrite Hreq.
  - repeat split; try done. simpl. by rewrite Hlog2, Hlog1, <- app_assoc.
Qed.

Lemma complete_call log h i w :
  listens log h w → incoming_ok cb i →
  ∃ h' w', listener_complete (Some i) w = (Ret tt, w') ∧ listens (log ++ served (h, i)) h' w'.
Proof.
  intros (Hl & Hd & Hgood & Hlog & Hfresh) Hok. destruct w as [l d hs]. simpl in *. subst l d.
  destruct (perform_law (request_for h) i cb hs Hgood Hok)
    as (hs1 & hs2 & Hfill & Hperform & Hgood2 & Hlog2).
  { rewrite Hlog. unfold waiting. by rewrite last_app. }
  destruct (inject_listens (Listening (MethodListener server registration cq cb None) false hs2))
    as (h' & w' & Hinj & Hlis); [done..|].
  exists h', w'. split.
  - unfold listener_complete, Method_listener_exec, in_handlers, set_pending_call.
    munfold. simpl in *. rewrite Hfill. simpl. rewrite Hperform. simpl.
    unfold set_handlers. simpl. by rewrite Hinj.
  - simpl in Hlis. rewrite Hlog2, Hlog in Hlis. unfold served. by rewrite !app_assoc in *.
Qed.

Lemma complete_shutdown log h w :
  listens log h w →
  ∃ w', listener_complete (None : option I) w = (Ret tt, w') ∧ listener_deleted w' = true ∧
    handler_good (handlers w') ∧
    handler_log (handlers w') = log ++ waiting h ++ [Handler_deleted h].
Proof.
  intros (Hl & Hd & Hgood & Hlog & Hfresh). destruct w as [l d hs]. simpl in *. subst l d.
  destruct (delete_law (request_for h) hs Hgood) as (hs' & Hdel & Hgood' & Hlog').
  { rewrite Hlog. unfold waiting. by rewrite last_app. }
  exists (Listening (MethodListener server registration cq cb (Some h)) true hs').
  split; [|split; [done|split; [done|]]].
  - unfold listener_complete, Method_listener_exec, Method_listener_destroy, in_handlers.
    munfold. simpl in *. by rewrite Hdel.
  - simpl. by rewrite Hlog', Hlog, <- app_assoc.
Qed.

Lemma complete_calls h0 w0 calls :
  listens [] h0 w0 → (∀ i, i ∈ calls → incoming_ok cb i) →
  ∃ hs h w, for_each_in listener_complete (Some <$> calls) w0 = (Ret tt, w) ∧
    length hs = length calls ∧ listens (zip hs calls ≫= served) h w ∧ NoDup (hs ++ [h]).
Proof.
  intros Hlis. induction calls as [|i calls IH] using rev_ind; intros Hok.
  - exists [], h0, w0. split; [done|]. split; [done|]. split; [done|]. apply NoDup_singleton.
  - destruct IH as (hs & h & w & Hrun & Hlen & Hw & Hnd).
    { intros j Hj. apply Hok, elem_of_app. by left. }
    destruct (complete_call _ h i w Hw) as (h' & w' & Hrun' & Hw').
    { apply Hok, elem_of_app. right. by constructor. }
    assert (zip (hs ++ [h]) (calls ++ [i]) = zip hs calls ++ [(h, i)]) as Hzip.
    { by rewrite zip_with_app by done. }
    exists (hs ++ [h]), h', w'. split; [|split; [|split]].
    + rewrite fmap_app. rewrite (for_each_in_app listener_complete _ _ w0).
      unfold mbind, M_bind. rewrite Hrun. simpl. unfold mbind, M_bind. by rewrite Hrun'.
    + rewrite !length_app. simpl. lia.
    + by rewrite Hzip, bind_app, bind_singleton.
    + apply NoDup_app. split; [done|]. split; [|apply NoDup_singleton].
      intros x Hx ->%list_elem_of_singleton. destruct Hw' as (_ & _ & _ & _ & Hfresh).
      apply Hfresh. rewrite fmap_app, elem_of_app.
      apply elem_of_app in Hx as [Hx|Hx].
      * left. apply list_elem_of_lookup_1 in Hx as [n Hn].
        destruct (lookup_lt_is_Some_2 calls n) as [j Hj].
        { rewrite <- Hlen. by eapply lookup_lt_Some. }
        apply list_elem_of_fmap. exists (Handler_new h'). split; [done|].
        apply list_elem_of_bind. exists (h', j). split; [by constructor|].
        apply list_elem_of_lookup_2 with n. by rewrite lookup_zip_with, Hn; simpl; rewrite Hj.
      * right. apply list_elem_of_singleton in Hx as ->. by constructor.
Qed.
End Life.

(** From the first request to the shutdown. *)
Lemma listens_to_calls {CbT W I} `{!HandlerType CbT W I, !HandlerLaws CbT W I}
  (m : method CbT) (server registration cq : nat) (calls : list I) (w0 : W)
  (Hgood : handler_good w0) (Hlog : handler_log w0 = [])
  (Hok : ∀ i, i ∈ calls → incoming_ok (method_cb_ m) i) :
  ∃ l w1 w hs h, Method_listen m server registration cq w0 = (Ret l, w1) ∧
    for_each_in listener_complete ((Some <$> calls) ++ [None]) (Listening l false w1)
      = (Ret tt, w) ∧
    listener_deleted w = true ∧ handler_good (handlers w) ∧
    length hs = length calls ∧ NoDup (hs ++ [h]) ∧
    handler_log (handlers w) =
      (zip hs calls ≫= served server registration cq (method_cb_ m)) ++
      waiting server registration cq h ++ [Handler_deleted h].
Proof.
  destruct (inject_listens server registration cq (method_cb_ m)
    (Listening (Method_listener_init server registration cq (method_cb_ m)) false w0))
    as (h0 & w1 & Hinj & Hlis); [done..|].
  simpl in Hlis. rewrite Hlog in Hlis. destruct w1 as [l d w1].
  destruct (complete_calls server registration cq _ h0 _ calls Hlis Hok)
    as (hs & h & w2 & Hrun & Hlen & Hw2 & Hnd).
  destruct (complete_shutdown server registration cq _ _ _ _ Hw2)
    as (w & Hrun' & Hdel & Hgood' & Hlog').
  exists l, w1, w, hs, h. split; [|split; [|done]].
  - unfold Method_listen. by rewrite Hinj.
  - destruct Hlis as (_ & Hd & _). simpl in Hd. subst d.
    rewrite (for_each_in_app listener_complete). unfold mbind, M_bind. rewrite Hrun. simpl.
    unfold mbind, M_bind. by rewrite Hrun'.
Qed.

(** A listener from its first request to the shutdown of the server.  Whatever
    the handler type, as long as it keeps its promises, and for any number of
    calls: each call is written into a handler that was created and requested for
    it, and performed once, with the method's callback; the next request is made
    only then; the handler that is still waiting when the server shuts down is
    deleted, and the listener with it; no handler is used twice. *)
Theorem listener_serves_calls {CbT W I} `{!HandlerType CbT W I, !HandlerLaws CbT W I}
  (m : method CbT) (server registration cq : nat) (calls : list I) (w0 : W)
  (Hgood : handler_good w0) (Hlog : handler_log w0 = [])
  (Hok : ∀ i, i ∈ calls → incoming_ok (method_cb_ m) i) :
  ∃ l w1 w hs h, Method_listen m server registration cq w0 = (Ret l, w1) ∧
    for_each_in listener_complete ((Some <$> calls) ++ [None]) (Listening l false w1)
      = (Ret tt, w) ∧
    listener_deleted w = true ∧ handler_good (handlers w) ∧
    length hs = length calls ∧ NoDup (hs ++ [h]) ∧
    handler_log (handlers w) =
      (zip hs calls ≫= served server registration cq (method_cb_ m)) ++
      waiting server registration cq h ++ [Handler_deleted h].
Proof. by apply listens_to_calls. Qed.
