(* ===== verification/HandlerHeap.v ===== *)
(** The handlers of a method, behind the listener's interface: a heap of call
    handlers of any kind, each in a cell of its own.  Calls arrive, things happen to
    the calls that were taken, and the server shuts down, in any order; every call
    goes as it would go alone. *)

From S2P Require Import Prelude Errors Effects Listener.

(** A kind of call handlers: [new handler_type], what the core writes into the
    members when a call arrives, [perform], and [delete], which a handler that
    waits must allow. *)
Class CallKind (C CbT I : Type) := {
  kind_payload : bool;
  call_fresh : C;
  call_fill : I → C → C;
  call_perform : CbT → M C unit;
  call_delete : M C unit;
  call_delete_law : ∃ c, call_delete call_fresh = (Ret tt, c)
}.

(** The handlers that were created, by number, and what was done to them. *)
Record handler_heap (C CbT I : Type) := HandlerHeap {
  heap_calls : list C;
  heap_log : list (handler_event CbT I)
}.
Arguments HandlerHeap {C CbT I} _ _.
Arguments heap_calls {C CbT I} _.
Arguments heap_log {C CbT I} _.

Section Heap.
Context {C CbT I : Type} `{!CallKind C CbT I}.
Context (accepts_request : call_request → bool).
Local Abbreviation heap := (handler_heap C CbT I).

Definition heap_logged (ev : handler_event CbT I) (hs : heap) : heap :=
  HandlerHeap (heap_calls hs) (heap_log hs ++ [ev]).

(** Run a member function of handler [h]. *)
Definition on_handler (h : nat) (m : M C unit) : M heap unit := λ hs,
  match heap_calls hs !! h with
  | None => (Crash Use_after_free, hs)
  | Some c =>
      match m c with
      | (o, c') => (o, HandlerHeap (<[h := c']> (heap_calls hs)) (heap_log hs))
      end
  end.

Definition heap_new : M heap nat := λ hs,
  let h := length (heap_calls hs) in
  (Ret h, heap_logged (Handler_new h) (HandlerHeap (heap_calls hs ++ [call_fresh]) (heap_log hs))).

Definition heap_request (r : call_request) : M heap bool := λ hs,
  (Ret (accepts_request r), heap_logged (Handler_requested r) hs).

Definition heap_fill (h : nat) (i : I) : M heap unit :=
  on_handler h (modify (call_fill i)) ;; modify (heap_logged (Handler_filled h i)).

Definition heap_perform (h : nat) (cb : CbT) : M heap unit :=
  on_handler h (call_perform cb) ;; modify (heap_logged (Handler_performed h cb)).

Definition heap_delete (h : nat) : M heap unit :=
  on_handler h call_delete ;; modify (heap_logged (Handler_deleted h)).

#[export] Instance heap_handler_type : HandlerType CbT heap I := {|
  immediate_payload := kind_payload;
  new_handler := heap_new;
  grpc_server_request_registered_call := heap_request;
  fill_handler := heap_fill;
  handler_perform := heap_perform;
  delete_handler := heap_delete
|}.

(** *** The laws *)

(** The core accepts requests for a payload the method was registered with. *)
Context (Hrequest : ∀ r, req_payload r = kind_payload → accepts_request r = true).
Context (program : CbT).

(** A call that arrives, and to which [ms] happens, on its own. *)
Definition call_alone (i : I) (ms : list (M C unit)) : M C unit :=
  modify (call_fill i) ;; call_perform program ;; for_each_in (λ m, m) ms.

(** What happened to handler [h]. *)
Definition events_of (h : nat) (hist : list (nat * M C unit)) : list (M C unit) :=
  omap (λ hm, if decide (fst hm = h) then Some (snd hm) else None) hist.

(** The handler that was created or requested last waits: nothing happened to it; one
    that was filled is as its call, alone, leaves it. *)
Definition waits (hist : list (nat * M C unit)) (h : nat) (hs : heap) : Prop :=
  heap_calls hs !! h = Some call_fresh ∧ events_of h hist = [] ∧
  ∀ i, Handler_filled h i ∉ heap_log hs.

Record heap_good (hist : list (nat * M C unit)) (hs : heap) : Prop := {
  good_known ev : ev ∈ heap_log hs → event_handler ev < length (heap_calls hs);
  good_hist h m : (h, m) ∈ hist → h < length (heap_calls hs);
  good_new h : last (heap_log hs) = Some (Handler_new h) → waits hist h hs;
  good_waiting r : last (heap_log hs) = Some (Handler_requested r) → waits hist (req_handler r) hs;
  good_once h i i' : Handler_filled h i ∈ heap_log hs → Handler_filled h i' ∈ heap_log hs → i = i';
  good_alone h i : Handler_filled h i ∈ heap_log hs →
    ∃ c, heap_calls hs !! h = Some c ∧ call_alone i (events_of h hist) call_fresh = (Ret tt, c)
}.

Lemma events_of_snoc h' hist h m :
  events_of h' (hist ++ [(h, m)]) = events_of h' hist ++ (if decide (h = h') then [m] else []).
Proof. unfold events_of. rewrite omap_app. simpl. by case_decide. Qed.

Lemma call_alone_snoc i ms m c0 c1 c :
  call_alone i ms c0 = (Ret tt, c1) → call_alone i (ms ++ [m]) c0 = (Ret tt, c) →
  m c1 = (Ret tt, c).
Proof.
  intros H1 H2. unfold call_alone in *. apply runs_bind_inv in H1 as ([] & d0 & [= <-] & H1).
  apply runs_bind_inv in H1 as ([] & d1 & Hp & H1).
  apply runs_bind_inv in H2 as ([] & e0 & [= <-] & H2).
  apply runs_bind_inv in H2 as ([] & e1 & Hp' & H2).
  assert (d1 = e1) as <- by (unfold runs in *; congruence).
  unfold runs in H2. rewrite (for_each_in_app (λ m, m) ms [m]) in H2. unfold mbind, M_bind in H2.
  unfold runs in H1. rewrite H1 in H2. simpl in H2. unfold mbind, M_bind, mret, M_ret in H2.
  by destruct (m c1) as [[[]|e|x] c'].
Qed.

Lemma events_of_unknown hist hs :
  heap_good hist hs → events_of (length (heap_calls hs)) hist = [].
Proof.
  intros Hgood. pose proof (good_hist _ _ Hgood) as Hh. revert Hh.
  generalize (length (heap_calls hs)) as n. intros n Hh. clear Hgood.
  induction hist as [|[h m] hist IH]; [done|]. unfold events_of in *. simpl.
  rewrite decide_False.
  - apply IH. intros h' m' Hin. apply (Hh h' m'). by right.
  - intros ->. specialize (Hh n m ltac:(by left)). lia.
Qed.

Lemma good_alone_insert hist hs h c h' i :
  heap_good hist hs → waits hist h hs → Handler_filled h' i ∈ heap_log hs →
  ∃ c', <[h := c]> (heap_calls hs) !! h' = Some c' ∧
        call_alone i (events_of h' hist) call_fresh = (Ret tt, c').
Proof.
  intros Hgood (_ & _ & Hnot) Hin. destruct (good_alone _ _ Hgood _ _ Hin) as (c' & Hc' & Hp).
  exists c'. split; [|done]. rewrite list_lookup_insert_ne; [done|].
  intros <-. by apply (Hnot i).
Qed.

Lemma heap_new_law hist hs :
  heap_good hist hs →
  ∃ h w', heap_new hs = (Ret h, w') ∧ heap_good hist w' ∧
    (h ∉ event_handler <$> heap_log hs) ∧ heap_log w' = heap_log hs ++ [Handler_new h].
Proof.
  intros Hgood. eexists _, _. split; [reflexivity|].
  assert (length (heap_calls hs) ∉ (event_handler <$> heap_log hs)) as Hfresh.
  { intros (ev & Hh & Hev)%list_elem_of_fmap. apply (good_known _ _ Hgood) in Hev.
    rewrite <- Hh in Hev. lia. }
  split; [|by split]. split; simpl.
  - intros ev. rewrite length_app, elem_of_app, list_elem_of_singleton. simpl.
    intros [Hev| ->]; simpl; [|lia]. apply (good_known _ _ Hgood) in Hev. lia.
  - intros h m Hin. rewrite length_app. pose proof (good_hist _ _ Hgood h m Hin). lia.
  - intros h. rewrite last_snoc. intros [= <-].
    split; [simpl; by rewrite lookup_app_r, Nat.sub_diag|].
    split; [by apply events_of_unknown|]. intros i. simpl.
    rewrite elem_of_app, list_elem_of_singleton. intros [Hin|[=]]. apply Hfresh.
    apply list_elem_of_fmap. by exists (Handler_filled (length (heap_calls hs)) i).
  - intros r. by rewrite last_snoc.
  - intros h i i'. rewrite !elem_of_app, !list_elem_of_singleton.
    intros [Hi|[=]] [Hi'|[=]]. by apply (good_once _ _ Hgood h).
  - intros h i. rewrite elem_of_app, list_elem_of_singleton. intros [Hin|[=]].
    destruct (good_alone _ _ Hgood _ _ Hin) as (c & Hc & Hp). exists c.
    split; [|done]. by apply lookup_app_l_Some.
Qed.

Lemma heap_request_law hist r hs :
  heap_good hist hs → last (heap_log hs) = Some (Handler_new (req_handler r)) →
  req_payload r = kind_payload →
  ∃ w', heap_request r hs = (Ret true, w') ∧ heap_good hist w' ∧
    heap_log w' = heap_log hs ++ [Handler_requested r].
Proof.
  intros Hgood Hlast Hr. eexists. unfold heap_request. rewrite (Hrequest r Hr).
  split; [reflexivity|]. split; [|done].
  pose proof (good_new _ _ Hgood _ Hlast) as (Hc & Hev & Hnot). split; simpl.
  - intros ev. rewrite elem_of_app, list_elem_of_singleton.
    intros [Hin| ->]; [by apply (good_known _ _ Hgood)|]. by eapply lookup_lt_Some.
  - apply (good_hist _ _ Hgood).
  - intros h. by rewrite last_snoc.
  - intros r'. rewrite last_snoc. intros [= <-]. split; [done|]. split; [done|]. intros i. simpl.
    rewrite elem_of_app, list_elem_of_singleton. intros [Hin|[=]]. by apply (Hnot i).
  - intros h i i'. rewrite !elem_of_app, !list_elem_of_singleton.
    intros [Hi|[=]] [Hi'|[=]]. by apply (good_once _ _ Hgood h).
  - intros h i. rewrite elem_of_app, list_elem_of_singleton. intros [Hin|[=]].
    by apply (good_alone _ _ Hgood).
Qed.

Lemma heap_perform_law hist r i hs c :
  heap_good hist hs → call_alone i [] call_fresh = (Ret tt, c) →
  last (heap_log hs) = Some (Handler_requested r) →
  ∃ w1 w', heap_fill (req_handler r) i hs = (Ret tt, w1) ∧
    heap_perform (req_handler r) program w1 = (Ret tt, w') ∧ heap_good hist w' ∧
    heap_log w' = heap_log hs ++
      [Handler_filled (req_handler r) i; Handler_performed (req_handler r) program].
Proof.
  intros Hgood Hrun Hlast. pose proof (good_waiting _ _ Hgood _ Hlast) as Hw.
  set (h := req_handler r) in *. pose proof (lookup_lt_Some _ _ _ (proj1 Hw)) as Hlt.
  pose proof (proj1 Hw) as Hc. pose proof (proj1 (proj2 Hw)) as Hev.
  assert (call_perform program (call_fill i call_fresh) = (Ret tt, c)) as Hperform.
  { unfold call_alone in Hrun. apply runs_bind_inv in Hrun as (? & ? & [= <- <-] & Hrun).
    apply runs_bind_inv in Hrun as ([] & c1 & Hp & [= <-]). exact Hp. }
  destruct hs as [cs log]. simpl in *.
  exists (HandlerHeap (<[h := call_fill i call_fresh]> cs) (log ++ [Handler_filled h i])).
  exists (HandlerHeap (<[h := c]> cs)
            ((log ++ [Handler_filled h i]) ++ [Handler_performed h program])).
  split; [|split; [|split]].
  - unfold heap_fill, on_handler. munfold. simpl. by rewrite Hc.
  - unfold heap_perform, on_handler. munfold. simpl.
    rewrite list_lookup_insert_eq by done. rewrite Hperform. unfold heap_logged. simpl.
    by rewrite list_insert_insert_eq.
  - split; simpl.
    + intros ev. rewrite length_insert, !elem_of_app, !list_elem_of_singleton.
      intros [[Hin| ->]| ->]; [|done..]. by apply (good_known _ _ Hgood).
    + rewrite length_insert. apply (good_hist _ _ Hgood).
    + by rewrite last_snoc.
    + by rewrite last_snoc.
    + pose proof (proj2 (proj2 Hw)) as Hnot. simpl in Hnot.
      intros h' j j'. rewrite !elem_of_app, !list_elem_of_singleton.
      intros [[Hj|Hj]|[=]] [[Hj'|Hj']|[=]]; simplify_eq;
        [by apply (good_once _ _ Hgood h')|by destruct (Hnot j)|by destruct (Hnot j')|done].
    + intros h' j. rewrite !elem_of_app, !list_elem_of_singleton.
      intros [[Hin|[= -> ->]]|[=]].
      * by apply (good_alone_insert hist (HandlerHeap cs log)).
      * exists c. by rewrite list_lookup_insert_eq, Hev.
  - simpl. by rewrite <- app_assoc.
Qed.

Lemma heap_delete_law hist r hs :
  heap_good hist hs → last (heap_log hs) = Some (Handler_requested r) →
  ∃ w', heap_delete (req_handler r) hs = (Ret tt, w') ∧ heap_good hist w' ∧
    heap_log w' = heap_log hs ++ [Handler_deleted (req_handler r)].
Proof.
  intros Hgood Hlast. pose proof (good_waiting _ _ Hgood _ Hlast) as Hw.
  destruct call_delete_law as [c Hrun]. pose proof (proj1 Hw) as Hc.
  destruct hs as [cs log]. simpl in *. unfold heap_delete, on_handler. munfold. simpl.
  rewrite Hc, Hrun. eexists. split; [reflexivity|]. split; [|done]. split; simpl.
  - intros ev. rewrite length_insert, elem_of_app, list_elem_of_singleton.
    intros [Hev| ->]; [by apply (good_known _ _ Hgood)|]. by eapply lookup_lt_Some.
  - rewrite length_insert. apply (good_hist _ _ Hgood).
  - intros h. by rewrite last_snoc.
  - intros h. by rewrite last_snoc.
  - intros h i i'. rewrite !elem_of_app, !list_elem_of_singleton.
    intros [Hi|[=]] [Hi'|[=]]. by apply (good_once _ _ Hgood h).
  - intros h i. rewrite elem_of_app, list_elem_of_singleton. intros [Hin|[=]].
    by apply (good_alone_insert hist (HandlerHeap cs log)).
Qed.

(** The laws hold after any history. *)
Definition heap_handler_laws (hist : list (nat * M C unit)) : HandlerLaws CbT heap I.
Proof.
  refine {| handler_log := heap_log; handler_good := heap_good hist;
            incoming_ok cb i := cb = program ∧ ∃ c, call_alone i [] call_fresh = (Ret tt, c) |}.
  - apply heap_new_law.
  - apply heap_request_law.
  - intros r i cb w Hgood [-> [c Hi]]. by eapply heap_perform_law.
  - apply heap_delete_law.
Defined.

Lemma heap_good_init : heap_good [] (HandlerHeap [] []).
Proof.
  split; simpl; try done;
    by intros ? ?%elem_of_nil || by intros ? ? ?%elem_of_nil || by intros ? ? ? ?%elem_of_nil.
Qed.

(** Something happens to the call in handler [h]. *)
Lemma heap_event hist h i m hs c :
  heap_good hist hs → Handler_filled h i ∈ heap_log hs →
  call_alone i (events_of h hist ++ [m]) call_fresh = (Ret tt, c) →
  ∃ hs', on_handler h m hs = (Ret tt, hs') ∧ heap_good (hist ++ [(h, m)]) hs' ∧
    heap_log hs' = heap_log hs.
Proof.
  intros Hgood Hin Hrun. destruct (good_alone _ _ Hgood h i Hin) as (c0 & Hc0 & Hrun0).
  pose proof (lookup_lt_Some _ _ _ Hc0) as Hlt.
  assert (m c0 = (Ret tt, c)) as Hm by (by eapply call_alone_snoc).
  destruct hs as [cs log]. simpl in *. unfold on_handler. simpl. rewrite Hc0, Hm.
  eexists. split; [reflexivity|]. split; [|done].
  assert (∀ h', waits hist h' (HandlerHeap cs log) →
    waits (hist ++ [(h, m)]) h' (HandlerHeap (<[h := c]> cs) log)) as Hwaits.
  { intros h' (Hc' & Hev' & Hnot'). assert (h ≠ h') as Hne by (intros ->; by destruct (Hnot' i)).
    split; [simpl; by rewrite list_lookup_insert_ne|]. split; [|done].
    by rewrite events_of_snoc, decide_False, app_nil_r. }
  split; simpl.
  - rewrite length_insert. apply (good_known _ _ Hgood).
  - rewrite length_insert. intros h' m' [Hold|[= -> ->]%list_elem_of_singleton]%elem_of_app; [|done].
    by apply (good_hist _ _ Hgood h' m').
  - intros h' Hl. by apply Hwaits, (good_new _ _ Hgood).
  - intros r Hl. by apply Hwaits, (good_waiting _ _ Hgood).
  - apply (good_once _ _ Hgood).
  - intros h' i' Hin'. rewrite events_of_snoc. destruct (decide (h = h')) as [->|Hne].
    + exists c. rewrite list_lookup_insert_eq by done.
      by rewrite (good_once _ _ Hgood h' i' i Hin' Hin).
    + rewrite app_nil_r, list_lookup_insert_ne by done. by apply (good_alone _ _ Hgood).
Qed.

(** ** A method of a running server *)

(** A call arrives; something happens to the [n]-th call that arrived; the server
    shuts down. *)
Inductive method_event :=
| Arrives (i : I)
| Happens (n : nat) (m : M C unit)
| Shuts_down.

(** The handlers of the calls, in the order of the calls. *)
Definition filled_handlers (log : list (handler_event CbT I)) : list nat :=
  omap (λ ev, match ev with Handler_filled h _ => Some h | _ => None end) log.

Definition run_method_event (ev : method_event) : M (listening CbT heap) unit :=
  match ev with
  | Arrives i => listener_complete (Some i)
  | Happens n m => in_handlers (λ hs,
      match filled_handlers (heap_log hs) !! n with
      | Some h => on_handler h m hs
      | None => (Crash Use_after_free, hs)
      end)
  | Shuts_down => listener_complete (None : option I)
  end.

(** Calls arrive until the server shuts down; things happen to calls that arrived. *)
Fixpoint method_legal (calls : nat) (open : bool) (evs : list method_event) : Prop :=
  match evs with
  | [] => True
  | Arrives _ :: evs => open = true ∧ method_legal (S calls) open evs
  | Happens n _ :: evs => n < calls ∧ method_legal calls open evs
  | Shuts_down :: evs => open = true ∧ method_legal calls false evs
  end.

Definition arrivals (evs : list method_event) : list I :=
  omap (λ ev, match ev with Arrives i => Some i | _ => None end) evs.
Definition happened (n : nat) (evs : list method_event) : list (M C unit) :=
  omap (λ ev, match ev with
    | Happens n' m => if decide (n' = n) then Some m else None
    | _ => None
    end) evs.
Definition open_after (evs : list method_event) : bool :=
  forallb (λ ev, match ev with Shuts_down => false | _ => true end) evs.

Section Method.
Context (server registration cq : nat).
Local Abbreviation served := (served server registration cq program).
Local Abbreviation waiting := (waiting server registration cq).

Record method_inv (open : bool) (calls : list I) (past : list method_event)
  (w : listening CbT heap) (hs : list nat) (h : nat) (hist : list (nat * M C unit)) : Prop := {
  minv_length : length hs = length calls;
  minv_nodup : NoDup hs;
  minv_fresh : h ∉ (event_handler <$> (zip hs calls ≫= served));
  minv_good : heap_good hist (handlers w);
  minv_log : heap_log (handlers w) =
    (zip hs calls ≫= served) ++ waiting h ++ (if open then [] else [Handler_deleted h]);
  minv_listener : if open then
      listener w = MethodListener server registration cq program (Some h) ∧
      listener_deleted w = false
    else listener_deleted w = true;
  minv_past n x : hs !! n = Some x → events_of x hist = happened n past;
  minv_future n : length calls ≤ n → happened n past = []
}.

Lemma minv_listens calls past w hs h hist :
  method_inv true calls past w hs h hist →
  listens (HandlerLaws0:=heap_handler_laws hist) server registration cq program
    (zip hs calls ≫= served) h w.
Proof.
  intros [_ _ Hfresh Hgood Hlog [Hl Hd] _ _]. rewrite app_nil_r in Hlog.
  split; [exact Hl|]. split; [exact Hd|]. split; [exact Hgood|]. by split.
Qed.

Lemma filled_served (calls : list I) hs h tl :
  length hs = length calls → filled_handlers tl = [] →
  filled_handlers ((zip hs calls ≫= served) ++ waiting h ++ tl) = hs.
Proof.
  intros Hlen Htl. unfold filled_handlers in *. rewrite !omap_app, Htl. simpl.
  rewrite app_nil_r. revert calls Hlen.
  induction hs as [|x hs IH]; intros [|i calls] Hlen; try done. simpl. f_equal.
  apply IH. by injection Hlen.
Qed.

Lemma filled_in_log (calls : list I) hs n x i tl :
  hs !! n = Some x → calls !! n = Some i →
  Handler_filled x i ∈ (zip hs calls ≫= served) ++ tl.
Proof.
  intros Hx Hi. rewrite elem_of_app. left. apply list_elem_of_bind. exists (x, i). split.
  - unfold Listener.served, Listener.waiting. simpl. by do 2 right; left.
  - apply list_elem_of_lookup_2 with n. by rewrite lookup_zip_with, Hx; simpl; rewrite Hi.
Qed.

Lemma handlers_in_log (calls : list I) hs x :
  length hs = length calls → x ∈ hs → x ∈ (event_handler <$> (zip hs calls ≫= served)).
Proof.
  intros Hlen [n Hn]%list_elem_of_lookup_1.
  destruct (lookup_lt_is_Some_2 calls n) as [i Hi].
  { rewrite <- Hlen. by eapply lookup_lt_Some. }
  apply list_elem_of_fmap. exists (Handler_filled x i). split; [done|].
  rewrite <- (app_nil_r (_ ≫= _)). by eapply filled_in_log.
Qed.

Lemma happened_snoc n past ev :
  happened n (past ++ [ev]) = happened n past ++
    match ev with Happens n' m => if decide (n' = n) then [m] else [] | _ => [] end.
Proof. unfold happened. rewrite omap_app. destruct ev; simpl; try done. by case_decide. Qed.

Lemma method_arrives calls past w hs h hist i c :
  method_inv true calls past w hs h hist → call_alone i [] call_fresh = (Ret tt, c) →
  ∃ w' h', run_method_event (Arrives i) w = (Ret tt, w') ∧
    method_inv true (calls ++ [i]) (past ++ [Arrives i]) w' (hs ++ [h]) h' hist.
Proof.
  intros Hinv Hi. pose proof Hinv as [Hlen Hnd Hfresh Hgood Hlog _ Hpast Hfut].
  destruct (complete_call (HandlerLaws0:=heap_handler_laws hist) server registration cq program
    _ h i w (minv_listens _ _ _ _ _ _ Hinv)) as (h' & w' & Hrun & Hl & Hd & Hg & Hlg & Hf).
  { split; [done|by exists c]. }
  exists w', h'. split; [exact Hrun|].
  assert (zip (hs ++ [h]) (calls ++ [i]) ≫= served = (zip hs calls ≫= served) ++ served (h, i)) as Hzip.
  { rewrite zip_with_app by done. simpl. by rewrite bind_app, bind_singleton. }
  assert (h ∉ hs) as Hnin by (intros Hin; apply Hfresh; by apply handlers_in_log).
  split.
  - rewrite !length_app. simpl. lia.
  - apply NoDup_app. split; [done|]. split; [|apply NoDup_singleton].
    by intros x Hx ->%list_elem_of_singleton.
  - by rewrite Hzip.
  - exact Hg.
  - rewrite Hzip, app_nil_r. exact Hlg.
  - by split.
  - intros n x Hn. rewrite happened_snoc, app_nil_r.
    apply lookup_app_Some in Hn as [Hn|[Hle Hn]]; [by apply Hpast|].
    apply list_lookup_singleton_Some in Hn as [Hz <-]. rewrite Hfut by lia.
    destruct (good_waiting _ _ Hgood (request_for server registration cq h)) as (_ & Hev & _).
    { rewrite Hlog, app_nil_r. unfold Listener.waiting. by rewrite last_app. }
    exact Hev.
  - intros n. rewrite length_app, happened_snoc, app_nil_r. simpl. intros Hn. apply Hfut. lia.
Qed.

Lemma method_happens open calls past w hs h hist n m i c :
  method_inv open calls past w hs h hist → calls !! n = Some i →
  call_alone i (happened n past ++ [m]) call_fresh = (Ret tt, c) →
  ∃ w' hist', run_method_event (Happens n m) w = (Ret tt, w') ∧
    method_inv open calls (past ++ [Happens n m]) w' hs h hist'.
Proof.
  intros Hinv Hi Hrun. pose proof Hinv as [Hlen Hnd Hfresh Hgood Hlog Hlis Hpast Hfut].
  destruct (lookup_lt_is_Some_2 hs n) as [x Hx].
  { rewrite Hlen. by eapply lookup_lt_Some. }
  rewrite <- (Hpast n x Hx) in Hrun.
  destruct (heap_event hist x i m (handlers w) c Hgood) as (hs' & Hev & Hgood' & Hlog'); [|done|].
  { rewrite Hlog. by eapply filled_in_log. }
  exists (set_handlers hs' w), (hist ++ [(x, m)]). split.
  - unfold run_method_event, in_handlers, zoom. rewrite Hlog, filled_served, Hx by (by destruct open).
    by rewrite Hev.
  - split; try done.
    + simpl. by rewrite Hlog'.
    + intros n' x' Hx'. rewrite happened_snoc, events_of_snoc, (Hpast n' x' Hx'). f_equal.
      destruct (decide (x = x')) as [->|Hne].
      * by rewrite decide_True by (by eapply NoDup_lookup).
      * rewrite decide_False; [done|]. intros ->. congruence.
    + intros n' Hn'. rewrite happened_snoc, Hfut by done. rewrite decide_False; [done|].
      apply lookup_lt_Some in Hi. lia.
Qed.

Lemma method_shuts_down calls past w hs h hist :
  method_inv true calls past w hs h hist →
  ∃ w', run_method_event Shuts_down w = (Ret tt, w') ∧
    method_inv false calls (past ++ [Shuts_down]) w' hs h hist.
Proof.
  intros Hinv. pose proof Hinv as [Hlen Hnd Hfresh Hgood Hlog _ Hpast Hfut].
  destruct (complete_shutdown (HandlerLaws0:=heap_handler_laws hist) server registration cq program
    _ h w (minv_listens _ _ _ _ _ _ Hinv)) as (w' & Hrun & Hd & Hg & Hlg).
  exists w'. split; [exact Hrun|]. split; try done.
  - intros n x Hx. rewrite happened_snoc, app_nil_r. by apply Hpast.
  - intros n Hn. rewrite happened_snoc, app_nil_r. by apply Hfut.
Qed.

Lemma call_alone_prefix i ms ms' c0 c :
  call_alone i (ms ++ ms') c0 = (Ret tt, c) → ∃ c1, call_alone i ms c0 = (Ret tt, c1).
Proof.
  unfold call_alone. intros Hrun. apply runs_bind_inv in Hrun as ([] & d0 & Hf & Hrun).
  apply runs_bind_inv in Hrun as ([] & d1 & Hp & Hrun).
  unfold runs in Hrun. rewrite (for_each_in_app (λ m, m) ms ms') in Hrun.
  apply runs_bind_inv in Hrun as ([] & d2 & Hms & _). exists d2.
  eapply runs_bind; [exact Hf|]. by eapply runs_bind.
Qed.

Lemma method_runs evs : ∀ open calls past w hs h hist,
  method_inv open calls past w hs h hist → method_legal (length calls) open evs →
  (∀ n i, (calls ++ arrivals evs) !! n = Some i →
     ∃ c, call_alone i (happened n (past ++ evs)) call_fresh = (Ret tt, c)) →
  ∃ w' hs' h' hist', for_each_in run_method_event evs w = (Ret tt, w') ∧
    method_inv (open && open_after evs) (calls ++ arrivals evs) (past ++ evs) w' hs' h' hist'.
Proof.
  induction evs as [|ev evs IH]; intros open calls past w hs h hist Hinv Hleg Hrun.
  { exists w, hs, h, hist. by rewrite andb_true_r, !app_nil_r. }
  assert (∀ calls' open' w1 hs1 h1 hist1, run_method_event ev w = (Ret tt, w1) →
    method_inv open' calls' (past ++ [ev]) w1 hs1 h1 hist1 → method_legal (length calls') open' evs →
    calls' ++ arrivals evs = calls ++ arrivals (ev :: evs) →
    open' && open_after evs = open && open_after (ev :: evs) →
    ∃ w' hs' h' hist', for_each_in run_method_event (ev :: evs) w = (Ret tt, w') ∧
      method_inv (open && open_after (ev :: evs)) (calls ++ arrivals (ev :: evs)) (past ++ ev :: evs)
        w' hs' h' hist') as Hstep.
  { intros calls' open' w1 hs1 h1 hist1 Hev Hinv1 Hleg1 Hcalls Hopen.
    destruct (IH _ _ _ _ _ _ _ Hinv1 Hleg1) as (w' & hs' & h' & hist' & Hrun' & Hinv').
    { rewrite Hcalls, <- app_assoc. exact Hrun. }
    exists w', hs', h', hist'. split; [by eapply runs_bind|].
    by rewrite Hcalls, Hopen, <- app_assoc in Hinv'. }
  assert (∀ n i, (calls ++ arrivals (ev :: evs)) !! n = Some i →
    ∃ c, call_alone i (happened n (past ++ [ev])) call_fresh = (Ret tt, c)) as Hnow.
  { intros n i Hi. destruct (Hrun n i Hi) as [c Hc]. unfold happened in *.
    rewrite (app_assoc past [ev] evs : past ++ ev :: evs = _), omap_app in Hc.
    by eapply call_alone_prefix. }
  destruct ev as [i|n m|].
  - destruct Hleg as [-> Hleg]. destruct (Hnow (length calls) i) as [c Hc].
    { by rewrite lookup_app_r, Nat.sub_diag. }
    rewrite happened_snoc, app_nil_r, (minv_future _ _ _ _ _ _ _ Hinv) in Hc by lia.
    destruct (method_arrives _ _ _ _ _ _ i c Hinv Hc) as (w1 & h1 & Hev & Hinv1).
    eapply Hstep; [exact Hev|exact Hinv1| | |done].
    + rewrite length_app. simpl. by rewrite Nat.add_1_r.
    + simpl. by rewrite <- app_assoc.
  - destruct Hleg as [Hn Hleg]. apply lookup_lt_is_Some in Hn as [i Hi].
    destruct (Hnow n i) as [c Hc]; [by apply lookup_app_l_Some|].
    rewrite happened_snoc, decide_True in Hc by done.
    destruct (method_happens _ _ _ _ _ _ _ n m i c Hinv Hi Hc) as (w1 & hist1 & Hev & Hinv1).
    by eapply Hstep.
  - destruct Hleg as [-> Hleg].
    destruct (method_shuts_down _ _ _ _ _ _ Hinv) as (w1 & Hev & Hinv1).
    by eapply Hstep.
Qed.

(** From the first request on. *)
Lemma method_serves_calls (name : string) evs :
  method_legal 0 true evs →
  (∀ n i, arrivals evs !! n = Some i →
     ∃ c, call_alone i (happened n evs) call_fresh = (Ret tt, c)) →
  ∃ l w1 w hs, Method_listen (Method_init name program) server registration cq (HandlerHeap [] [])
      = (Ret l, w1) ∧
    for_each_in run_method_event evs (Listening l false w1) = (Ret tt, w) ∧
    listener_deleted w = negb (open_after evs) ∧ length hs = length (arrivals evs) ∧ NoDup hs ∧
    ∀ n i, arrivals evs !! n = Some i → ∃ h c, hs !! n = Some h ∧
      heap_calls (handlers w) !! h = Some c ∧ call_alone i (happened n evs) call_fresh = (Ret tt, c).
Proof.
  intros Hleg Hrun.
  destruct (inject_listens (HandlerLaws0:=heap_handler_laws []) server registration cq program
    (Listening (Method_listener_init server registration cq program) false (HandlerHeap [] [])))
    as (h0 & [l d w1] & Hinj & Hl & Hd & Hgood & Hlog & _); [done|done|exact heap_good_init|].
  simpl in Hl, Hd, Hgood, Hlog. subst d.
  assert (method_inv true [] [] (Listening l false w1) [] h0 []) as Hinv.
  { split; try done; [apply NoDup_nil_2|by intros ?%elem_of_nil]. }
  destruct (method_runs evs true [] [] _ _ _ _ Hinv Hleg Hrun) as (w & hs & h & hist & Hw & Hinv').
  exists l, w1, w, hs. split; [unfold Method_listen; cbn [method_cb_ Method_init]; by rewrite Hinj|]. split; [exact Hw|].
  destruct Hinv' as [Hlen Hnd _ Hgood' Hlog' Hlis Hpast _]. simpl in *. split.
  { destruct (open_after evs); [apply Hlis|done]. }
  split; [done|]. split; [done|]. intros n i Hi.
  destruct (lookup_lt_is_Some_2 hs n) as [x Hx].
  { rewrite Hlen. by eapply lookup_lt_Some. }
  destruct (good_alone _ _ Hgood' x i) as (c & Hc & Halone).
  { rewrite Hlog'. by eapply filled_in_log. }
  exists x, c. rewrite (Hpast n x Hx) in Halone. done.
Qed.

(** ... so that what holds of each call on its own holds of the calls of the method. *)
Lemma method_serves_each (name : string) evs (P : nat → I → C → Prop) :
  method_legal 0 true evs →
  (∀ n i, arrivals evs !! n = Some i →
     ∃ c, call_alone i (happened n evs) call_fresh = (Ret tt, c) ∧ P n i c) →
  ∃ l w1 w hs, Method_listen (Method_init name program) server registration cq (HandlerHeap [] [])
      = (Ret l, w1) ∧
    for_each_in run_method_event evs (Listening l false w1) = (Ret tt, w) ∧
    listener_deleted w = negb (open_after evs) ∧ NoDup hs ∧
    ∀ n i, arrivals evs !! n = Some i → ∃ h c, hs !! n = Some h ∧
      heap_calls (handlers w) !! h = Some c ∧ P n i c.
Proof.
  intros Hleg Halone.
  destruct (method_serves_calls name evs Hleg) as (l & w1 & w & hs & Hl & Hw & Hd & _ & Hnd & Hcalls).
  { intros n i Hi. destruct (Halone n i Hi) as (c & Hc & _). by exists c. }
  exists l, w1, w, hs. do 4 (split; [done|]). intros n i Hi.
  destruct (Hcalls n i Hi) as (h & c & Hh & Hc & Hthis).
  destruct (Halone n i Hi) as (c' & Hc' & HP). assert (c' = c) as -> by congruence.
  by exists h, c.
Qed.
End Method.
End Heap.
