(* ===== verification/UnaryServer.v ===== *)
(** The unary handlers of a server's method: every call that arrives is answered with
    the program's reply, whatever happens to the other calls. *)

From S2P Require Import Prelude Errors Effects FutureUtils FutureStorage Grpc CallHandler.
From S2P Require Import Listener HandlerHeap.

(** What the core writes into a handler when a call arrives. *)
Record unary_arrival := UnaryArrival {
  arrived_payload : byte_buffer;
  arrived_metadata : list (string * string)
}.

Section Unary.
Context {ReqT RepT : Type} `{!Serializer ReqT, !Serializer RepT}.
Context (accepts : list batch → list batch → list grpc_op → bool).
Local Abbreviation call := (call_world (call_handler (unary_call RepT))).

(** [new Unary_call_handler]. *)
Definition unary_fresh : call := call_init (Call_handler_init (UnaryCall None None)).

(** The members a call is received in. *)
Definition unary_fill (i : unary_arrival) (c : call) : call :=
  CallWorld (CallHandler true (arrived_metadata i) (cancelled_ (obj c)) (server_metadata_ (obj c))
      (UnaryCall (Some (arrived_payload i)) (reply_future (ext (obj c)))))
    (inflight c) (started c) (released c) (cancels c) (deleted c).

Definition unary_delete : M call unit := delete_object Unary_call_handler_destroy.

#[export] Instance unary_kind : CallKind call (ReqT → expected RepT) unary_arrival.
Proof.
  refine {| kind_payload := true; call_fresh := unary_fresh; call_fill := unary_fill;
            call_perform := Unary_call_handler_perform_sync accepts;
            call_delete := unary_delete |}.
  by eexists.
Defined.

(** The handler whose program returns a future. *)
Definition unary_async_kind :
  CallKind call (ReqT → expected (future_storage RepT unit)) unary_arrival.
Proof.
  refine {| kind_payload := true; call_fresh := unary_fresh; call_fill := unary_fill;
            call_perform := Unary_call_handler_perform_async accepts;
            call_delete := unary_delete |}.
  by eexists.
Defined.

(** *** One call *)

Context (Haccepts : grpc_accepts_allowed accepts).

Lemma unary_alone (program : ReqT → expected RepT) i (req : ReqT) :
  deserialize (arrived_payload i) = Some req →
  ∃ c c', call_alone program i [] call_fresh = (Ret tt, c) ∧
    replied (rmd:=arrived_metadata i) (arrived_payload i) [] (program req) c ∧
    call_alone program i [unary_complete] call_fresh = (Ret tt, c') ∧
    unary_answered (arrived_payload i) [] (program req) c'.
Proof.
  intros Hreq. destruct (perform_sync_replied (rmd:=arrived_metadata i) accepts Haccepts program
    (arrived_payload i) [] req Hreq) as (c & Hc & Hr).
  destruct (unary_complete_deletes _ _ _ _ Hr) as (c' & Hc' & Ha).
  exists c, c'. split; [|split; [exact Hr|split; [|exact Ha]]].
  - eapply runs_bind; [reflexivity|]. by eapply runs_bind.
  - eapply runs_bind; [reflexivity|]. eapply runs_bind; [exact Hc|]. by eapply runs_bind.
Qed.

(** What happens to an asynchronous call: the program gives its reply, unless it
    was there from the start, and the answer completes. *)
Definition unary_async_events (rep : expected RepT) (pending : bool) : list (M call unit) :=
  (if pending then [unary_settle accepts rep] else []) ++ [unary_complete].

(** How far such a call is after the first [k] of these. *)
Definition unary_async_progress i (rep : expected RepT) (pending : bool) (k : nat) (c : call) : Prop :=
  match k, pending with
  | 0, true => awaiting (rmd:=arrived_metadata i) (arrived_payload i) [] c
  | 0, false | 1, true => replied (rmd:=arrived_metadata i) (arrived_payload i) [] rep c
  | _, _ => unary_answered (arrived_payload i) [] rep c
  end.

Lemma unary_async_alone (program : ReqT → expected (future_storage RepT unit)) i (req : ReqT)
  (rep : expected RepT) pending k :
  deserialize (arrived_payload i) = Some req → async_reply (program req) rep pending →
  ∃ c, call_alone (CallKind0:=unary_async_kind) program i (take k (unary_async_events rep pending))
         unary_fresh = (Ret tt, c) ∧ unary_async_progress i rep pending k c.
Proof.
  intros Hreq Hrep.
  destruct (perform_async_runs (rmd:=arrived_metadata i) accepts Haccepts program
    (arrived_payload i) [] req rep pending Hreq Hrep) as (c1 & H1 & Hp1).
  assert (∀ ms c, for_each_in (λ m, m) ms c1 = (Ret tt, c) →
    call_alone (CallKind0:=unary_async_kind) program i ms unary_fresh = (Ret tt, c)) as Hrun.
  { intros ms c Hms. eapply runs_bind; [reflexivity|]. by eapply runs_bind. }
  destruct pending.
  - destruct (settle_replied accepts Haccepts _ _ rep _ Hp1) as (c2 & H2 & Hp2).
    destruct (unary_complete_deletes _ _ _ _ Hp2) as (c3 & H3 & Hp3).
    assert (∀ ms c, for_each_in (λ m, m) ms c2 = (Ret tt, c) →
      for_each_in (λ m, m) (unary_settle accepts rep :: ms) c1 = (Ret tt, c)) as Hrun2.
    { intros ms c Hms. by eapply runs_bind. }
    destruct k as [|[|k]].
    + exists c1. by split; [apply Hrun|].
    + exists c2. by split; [apply Hrun, Hrun2|].
    + exists c3. split; [|done]. simpl. rewrite take_nil. apply Hrun, Hrun2. by eapply runs_bind.
  - destruct (unary_complete_deletes _ _ _ _ Hp1) as (c2 & H2 & Hp2).
    destruct k as [|k].
    + exists c1. by split; [apply Hrun|].
    + exists c2. split; [|by destruct k]. simpl. rewrite take_nil. apply Hrun. by eapply runs_bind.
Qed.
End Unary.

(** C7: a unary method of a running server.  The method listens on a queue; calls
    arrive, each with a request that parses, their answers complete, and the
    server shuts down, in any order.  Every call is answered by one batch, with the
    reply the program gives for its request (or the error it throws), and when that
    batch completes the handler frees the request, the reply, the call and its
    metadata and is deleted; no call touches another; the listener is deleted at
    the shutdown. *)
Theorem unary_method_answers_every_call {ReqT RepT}
  `{!Serializer ReqT, !Serializer RepT}
  (accepts : list batch → list batch → list grpc_op → bool)
  (Haccepts : grpc_accepts_allowed accepts)
  (accepts_request : call_request → bool)
  (Hrequest : ∀ r, req_payload r = true → accepts_request r = true)
  (program : ReqT → expected RepT) (name : string) (server registration cq : nat)
  (evs : list (method_event (I:=unary_arrival)))
  (Hlegal : method_legal 0 true evs)
  (Hparse : ∀ i, i ∈ arrivals evs → is_Some (deserialize (T:=ReqT) (arrived_payload i)))
  (Hevents : ∀ n, happened n evs = [] ∨ happened n evs = [unary_complete]) :
  let kind := unary_kind (ReqT:=ReqT) (RepT:=RepT) accepts in
  let handlers_of := heap_handler_type (CallKind0:=kind) accepts_request in
  ∃ l w1 w hs, Method_listen (HandlerType0:=handlers_of) (Method_init name program)
      server registration cq (HandlerHeap [] []) = (Ret l, w1) ∧
    for_each_in (run_method_event (CallKind0:=kind) accepts_request) evs (Listening l false w1)
      = (Ret tt, w) ∧
    listener_deleted w = negb (open_after evs) ∧ NoDup hs ∧
    ∀ n i, arrivals evs !! n = Some i → ∃ h c,
      hs !! n = Some h ∧ heap_calls (handlers w) !! h = Some c ∧
      ∃ req, deserialize (arrived_payload i) = Some req ∧
      (happened n evs = [] →
       replied (rmd:=arrived_metadata i) (arrived_payload i) [] (program req) c) ∧
      (happened n evs = [unary_complete] →
       unary_answered (arrived_payload i) [] (program req) c).
Proof.
  intros kind handlers_of.
  apply (method_serves_each (CallKind0:=kind) accepts_request Hrequest program server registration
    cq name evs _ Hlegal).
  intros n i Hi%list_elem_of_lookup_2. destruct (Hparse i Hi) as [req Hreq].
  destruct (unary_alone accepts Haccepts program i req Hreq) as (c & c' & Hc & Hr & Hc' & Ha).
  destruct (Hevents n) as [Hev|Hev]; rewrite Hev; [exists c|exists c'];
    (split; [done|]); by exists req.
Qed.

Lemma unary_method_answers_every_call_witness :
  let kind := unary_kind (ReqT:=Byte.byte) (RepT:=Byte.byte) batch_allowed in
  let handlers_of := heap_handler_type (CallKind0:=kind) req_payload in
  let program b := if Byte.eqb b Byte.x00 then Err (error_not_found "zero") else Val b in
  let i1 := UnaryArrival (ByteBuffer true [[Byte.x07]]) [] in
  let i2 := UnaryArrival (ByteBuffer true [[Byte.x00]]) [("k", "v")] in
  let evs := [Arrives i1; Arrives i2; Happens 1 unary_complete; Shuts_down;
              Happens 0 unary_complete] in
  ∃ l w1 w hs, Method_listen (HandlerType0:=handlers_of) (Method_init "/s/m" program)
      1 2 3 (HandlerHeap [] []) = (Ret l, w1) ∧
    for_each_in (run_method_event (CallKind0:=kind) req_payload) evs (Listening l false w1)
      = (Ret tt, w) ∧
    listener_deleted w = true ∧ NoDup hs ∧
    ∃ h c, hs !! 1 = Some h ∧ heap_calls (handlers w) !! h = Some c ∧
      unary_answered (arrived_payload i2) [] (program Byte.x00) c.
Proof.
  intros kind handlers_of program i1 i2 evs.
  destruct (unary_method_answers_every_call batch_allowed batch_allowed_accepts req_payload
    ltac:(done) program "/s/m" 1 2 3 evs) as (l & w1 & w & hs & Hl & Hrun & Hdel & Hnd & Hcalls).
  - repeat split; lia.
  - intros i [->| ->%list_elem_of_singleton]%elem_of_cons; by eexists.
  - intros [|[|n]]; [by right..|by left].
  - exists l, w1, w, hs. split; [exact Hl|]. split; [exact Hrun|]. split; [exact Hdel|].
    split; [exact Hnd|]. destruct (Hcalls 1 i2 eq_refl) as (h & c & Hh & Hc & req & Hreq & _ & Hf).
    change (Some Byte.x00 = Some req) in Hreq. injection Hreq as <-.
    exists h, c. split; [exact Hh|]. split; [exact Hc|]. exact (Hf eq_refl).
Defined.

(** C8: a unary method whose program answers with futures.  Calls arrive; for each,
    the program throws, or returns a future that is finished, or one that it
    finishes later; replies, completions, arrivals and the shutdown come in any
    order.  A call whose reply is not there yet has sent nothing; the others have
    been answered by one batch, with their own reply or error; those whose answer
    has completed have freed what they took; no call touches another. *)
Theorem async_unary_method_answers_every_call {ReqT RepT}
  `{!Serializer ReqT, !Serializer RepT}
  (accepts : list batch → list batch → list grpc_op → bool)
  (Haccepts : grpc_accepts_allowed accepts)
  (accepts_request : call_request → bool)
  (Hrequest : ∀ r, req_payload r = true → accepts_request r = true)
  (program : ReqT → expected (future_storage RepT unit)) (name : string)
  (server registration cq : nat)
  (evs : list (method_event (I:=unary_arrival)))
  (reply : nat → expected RepT) (pending : nat → bool) (progress : nat → nat)
  (Hlegal : method_legal 0 true evs)
  (Hprogram : ∀ n i, arrivals evs !! n = Some i → ∃ req,
     deserialize (arrived_payload i) = Some req ∧ async_reply (program req) (reply n) (pending n))
  (Hevents : ∀ n, happened n evs = take (progress n) (unary_async_events accepts (reply n) (pending n))) :
  let kind := unary_async_kind (ReqT:=ReqT) (RepT:=RepT) accepts in
  let handlers_of := heap_handler_type (CallKind0:=kind) accepts_request in
  ∃ l w1 w hs, Method_listen (HandlerType0:=handlers_of) (Method_init name program)
      server registration cq (HandlerHeap [] []) = (Ret l, w1) ∧
    for_each_in (run_method_event (CallKind0:=kind) accepts_request) evs (Listening l false w1)
      = (Ret tt, w) ∧
    listener_deleted w = negb (open_after evs) ∧ NoDup hs ∧
    ∀ n i, arrivals evs !! n = Some i → ∃ h c,
      hs !! n = Some h ∧ heap_calls (handlers w) !! h = Some c ∧
      unary_async_progress i (reply n) (pending n) (progress n) c.
Proof.
  intros kind handlers_of.
  apply (method_serves_each (CallKind0:=kind) accepts_request Hrequest program server registration
    cq name evs _ Hlegal).
  intros n i Hi. destruct (Hprogram n i Hi) as (req & Hreq & Hrep). rewrite Hevents.
  by eapply unary_async_alone.
Qed.

Lemma async_unary_method_answers_every_call_witness :
  let kind := unary_async_kind (ReqT:=Byte.byte) (RepT:=Byte.byte) batch_allowed in
  let handlers_of := heap_handler_type (CallKind0:=kind) req_payload in
  let program b := if Byte.eqb b Byte.x00 then Err (error_not_found "zero")
                   else Val (Future_storage_init (V:=Byte.byte)) in
  let i1 := UnaryArrival (ByteBuffer true [[Byte.x07]]) [] in
  let i2 := UnaryArrival (ByteBuffer true [[Byte.x00]]) [("k", "v")] in
  let evs := [Arrives i1; Arrives i2; Happens 1 unary_complete; Arrives i1; Shuts_down;
              Happens 0 (unary_settle batch_allowed (Val Byte.x2a)); Happens 0 unary_complete] in
  ∃ l w1 w hs, Method_listen (HandlerType0:=handlers_of) (Method_init "/s/m" program)
      1 2 3 (HandlerHeap [] []) = (Ret l, w1) ∧
    for_each_in (run_method_event (CallKind0:=kind) req_payload) evs (Listening l false w1)
      = (Ret tt, w) ∧
    listener_deleted w = true ∧ NoDup hs ∧
    ∃ h c, hs !! 0 = Some h ∧ heap_calls (handlers w) !! h = Some c ∧
      unary_answered (arrived_payload i1) [] (Val Byte.x2a) c.
Proof.
  intros kind handlers_of program i1 i2 evs.
  destruct (async_unary_method_answers_every_call batch_allowed batch_allowed_accepts req_payload
    ltac:(done) program "/s/m" 1 2 3 evs
    (λ n, match n with 1 => Err (error_not_found "zero") | _ => Val Byte.x2a end)
    (λ n, negb (n =? 1)) (λ n, match n with 0 => 2 | 1 => 1 | _ => 0 end))
    as (l & w1 & w & hs & Hl & Hrun & Hdel & Hnd & Hcalls).
  - repeat split; lia.
  - intros [|[|[|n]]] i [= <-].
    + exists Byte.x07. split; [reflexivity|]. apply reply_pending. exact init_implements.
    + exists Byte.x00. split; [reflexivity|]. apply reply_thrown.
    + exists Byte.x07. split; [reflexivity|]. apply reply_pending. exact init_implements.
  - intros [|[|n]]; reflexivity.
  - exists l, w1, w, hs. split; [exact Hl|]. split; [exact Hrun|]. split; [exact Hdel|].
    split; [exact Hnd|]. destruct (Hcalls 0 i1 eq_refl) as (h & c & Hh & Hc & Hp).
    exists h, c. split; [exact Hh|]. split; [exact Hc|]. exact Hp.
Defined.

(** The life of a listener, on this handler type. *)
Lemma listener_serves_calls_witness :
  let kind := unary_kind (ReqT:=Byte.byte) (RepT:=Byte.byte) batch_allowed in
  let handlers_of := heap_handler_type (CallKind0:=kind) req_payload in
  let program : Byte.byte → expected Byte.byte := Val in
  let calls := [UnaryArrival (ByteBuffer true [[Byte.x07]]) []] in
  ∃ l w1 w (hs : list nat) (h : nat), Method_listen (HandlerType0:=handlers_of)
      (Method_init "/s/m" program) 1 2 3 (HandlerHeap [] []) = (Ret l, w1) ∧
    for_each_in (listener_complete (HandlerType0:=handlers_of))
      ((Some <$> calls) ++ [None]) (Listening l false w1) = (Ret tt, w) ∧
    listener_deleted w = true ∧ length hs = 1 ∧ NoDup (hs ++ [h]).
Proof.
  intros kind handlers_of program calls.
  destruct (listener_serves_calls
    (HandlerLaws0:=heap_handler_laws (CallKind0:=kind) req_payload ltac:(done) program [])
    (Method_init "/s/m" program) 1 2 3 calls (HandlerHeap [] [])
    (heap_good_init (CallKind0:=kind) program) eq_refl) as
    (l & w1 & w & hs & h & Hlisten & Hrun & Hdel & _ & Hlen & Hnd & _).
  - intros i ->%list_elem_of_singleton. split; [done|]. by eexists.
  - exists l, w1, w, hs, h. split; [exact Hlisten|]. split; [exact Hrun|].
    split; [exact Hdel|]. by split.
Defined.
