(* ===== verification/FunctionTraits.v ===== *)
(** What the templates can tell from the type of a callback
    (include/easy_grpc/function_traits.h): its result and its arguments. *)

From S2P Require Import Prelude.

(** ** C++ types *)

(** [const] and [volatile]. *)
Record cv := Cv { is_const : bool; is_volatile : bool }.

(** The types the templates tell apart; [T_value] is any other type, [T_ref] a
    reference or a qualified type. *)
Inductive cpp_type :=
| T_value (name : string)
| T_Future (t : cpp_type)
| T_Stream_future (t : cpp_type)
| T_ref (t : cpp_type)
| T_pointer (q : cv) (t : cpp_type).

#[export] Instance cv_eq_dec : EqDecision cv.
Proof. solve_decision. Defined.
#[export] Instance cpp_type_eq_dec : EqDecision cpp_type.
Proof. solve_decision. Defined.

(** [ReturnType(Args...)]. *)
Record signature := Signature { sig_result : cpp_type; sig_args : list cpp_type }.

(** [ReturnType (ClassType::* )(Args...)], with its [const] and [volatile]; the traits
    know no other qualifier ([&], [&&], [noexcept]): [mf_plain] says there is none. *)
Record member_function := MemberFunction {
  mf_class : string;
  mf_sig : signature;
  mf_cv : cv;
  mf_plain : bool
}.

(** The types a callback may have. *)
Inductive callable :=
| C_function (s : signature)                              (* [R(A...)] *)
| C_pointer (s : signature)                               (* [R( * )(A...)] *)
| C_member (m : member_function)                          (* [R (C::* )(A...) cv] *)
| C_std_function (f : callable)                           (* [std::function<F>] *)
| C_mem_fn (m : member_function)                          (* [std::mem_fn(&C::f)] *)
| C_mem_fn_data (cls : string) (r : cpp_type)             (* [std::mem_fn(&C::x)] *)
| C_object (operator_call : option member_function)       (* a class; [None]: not one [operator()] *)
| C_ref (q : cv) (t : callable).                          (* [T cv&], [T cv&&] *)

(** ** The traits *)

(** [result_type] and [Args...]; [owner_type] is a reference to a class. *)
Record traits := Traits { tr_sig : signature; owner_type : option (string * cv) }.

Definition tr_result (t : traits) : cpp_type := sig_result (tr_sig t).
Definition arity (t : traits) : nat := length (sig_args (tr_sig t)).
(** [arg<i>::type]: [std::tuple_element] has no such member past the end. *)
Definition arg (i : nat) (t : traits) : option cpp_type := sig_args (tr_sig t) !! i.

Definition member_traits (m : member_function) : option traits :=
  if mf_plain m then Some (Traits (mf_sig m) (Some (mf_class m, mf_cv m))) else None.

(** The arguments of [std::mem_fn]: a pointer to the object comes first. *)
Definition mem_fn_signature (m : member_function) : signature :=
  Signature (sig_result (mf_sig m))
    (T_pointer (mf_cv m) (T_value (mf_class m)) :: sig_args (mf_sig m)).

(** [function_traits<T>], by its specialisations; [None]: none of them fits, and the
    primary template asks for an [operator()] that [T] has not. *)
Fixpoint function_traits_of (t : callable) : option traits :=
  match t with
  | C_function s | C_pointer s => Some (Traits s None)
  | C_member m => member_traits m
  | C_object (Some m) => member_traits m
  | C_object None => None
  | C_std_function f => function_traits_of f
  | C_mem_fn m => if mf_plain m then Some (Traits (mem_fn_signature m) None) else None
  | C_mem_fn_data cls r =>
      Some (Traits (Signature r [T_pointer (Cv false false) (T_value cls)]) None)
  | C_ref _ t => function_traits_of t
  end.

(** ** [member_function_type<OwnerType>] *)

(** What may be given for [OwnerType]: a class, a pointer, a reference. *)
Inductive owner :=
| O_class (q : cv) (cls : string)
| O_pointer (o : owner)
| O_reference (o : owner).

Definition remove_reference (o : owner) : owner :=
  match o with O_reference o => o | o => o end.
Definition remove_pointer (o : owner) : owner :=
  match o with O_pointer o => o | o => o end.

(** [xx_impl::memfn_type<C, R, A...>]; [None]: [C] is not a class. *)
Definition memfn_type (c : owner) (s : signature) : option callable :=
  match c with
  | O_class q cls =>
      Some (C_member (MemberFunction cls s
        (if is_const q then if is_volatile q then Cv true true else Cv true false
         else if is_volatile q then Cv false true else Cv false false) true))
  | _ => None
  end.

Definition member_function_type (o : owner) (t : traits) : option callable :=
  memfn_type (remove_pointer (remove_reference o)) (tr_sig t).

(** ** What the traits see *)

(** How C++ calls a value of each type: its result and its arguments. *)
Inductive called_with : callable → signature → Prop :=
| cw_function s : called_with (C_function s) s
| cw_pointer s : called_with (C_pointer s) s
| cw_object m : mf_plain m = true → called_with (C_object (Some m)) (mf_sig m)
| cw_std_function f s : called_with f s → called_with (C_std_function f) s
| cw_mem_fn m : mf_plain m = true → called_with (C_mem_fn m) (mem_fn_signature m)
| cw_mem_fn_data cls r :
    called_with (C_mem_fn_data cls r) (Signature r [T_pointer (Cv false false) (T_value cls)])
| cw_ref q t s : called_with t s → called_with (C_ref q t) s.

(** A callback that can be called has traits, which tell how it is called, however
    it is wrapped. *)
Lemma called_with_traits (t : callable) (s : signature) :
  called_with t s → ∃ o, function_traits_of t = Some (Traits s o).
Proof.
  induction 1 as [s|s|m Hm|f s _ IH|m Hm|cls r|q t s _ IH]; simpl;
    unfold member_traits; rewrite ?Hm; eauto.
Qed.

(** A pointer to a member function is the one type with traits that is not called. *)
Fixpoint is_member (t : callable) : bool :=
  match t with C_member _ => true | C_std_function t | C_ref _ t => is_member t | _ => false end.

Lemma traits_called_with (t : callable) (tr : traits) :
  is_member t = false → function_traits_of t = Some tr → called_with t (tr_sig tr).
Proof.
  revert tr. induction t as [s|s|m|f IH|m|cls r|[m|]|q t IH]; intros tr Hm Ht; simpl in *;
    try discriminate; unfold member_traits in *; try case_match; simplify_eq/=;
    try (by constructor); constructor; auto.
Qed.

(** The member function type for an owner has the same signature, and its owner. *)
Lemma member_function_type_traits (t : traits) (q : cv) (cls : string) (o : owner) :
  remove_pointer (remove_reference o) = O_class q cls →
  ∃ m, member_function_type o t = Some m ∧
    function_traits_of m = Some (Traits (tr_sig t) (Some (cls, q))).
Proof.
  intros Ho. unfold member_function_type. rewrite Ho. eexists. split; [reflexivity|].
  by destruct q as [[] []].
Qed.
