(* ===== verification/ServiceConfig.v ===== *)
(** Describing services: how the type of a callback selects the kind of call
    (include/easy_grpc/server/service_config.h, service_impl.h, methods/method.h),
    and the configuration of a server (server.h, src/easy_grpc/server/config.cpp,
    service.h, service.cpp). *)

From S2P Require Import Prelude Errors Effects FunctionTraits.

(** ** Types of callbacks *)

(** What [add_method] reads from [function_traits<CbT>]: [arg<0>::type] and
    [result_type]. *)
Record function_traits := FunctionTraits { arg_type : cpp_type; result_type : cpp_type }.

(** [None]: [CbT] has no traits, or no argument, and the call does not compile. *)
Definition cb_traits (cb : callable) : option function_traits :=
  t ← function_traits_of cb;
  a ← arg 0 t;
  Some (FunctionTraits a (tr_result t)).

(** [std::decay_t] on these types. *)
Fixpoint decay (t : cpp_type) : cpp_type :=
  match t with T_ref t => decay t | t => t end.

(** [Arg_extractor<T>]: [type] and [sync]. *)
Definition Arg_extractor (t : cpp_type) : cpp_type * bool :=
  match t with
  | T_Future t => (t, false)
  | T_Stream_future t => (t, false)
  | t => (t, true)
  end.

Definition is_server_reader_v (t : cpp_type) : bool :=
  match t with T_Stream_future _ => true | _ => false end.

Definition is_server_writer_v (t : cpp_type) : bool :=
  match t with T_Stream_future _ => true | _ => false end.

(** The templates of call handlers, with their [immediate_payload]. *)
Inductive handler_template :=
| Unary_call_handler
| Server_streaming_call_handler
| Client_streaming_call_handler
| Bidir_streaming_call_handler.

#[export] Instance handler_template_eq_dec : EqDecision handler_template.
Proof. solve_decision. Defined.

Definition template_immediate_payload (h : handler_template) : bool :=
  match h with
  | Unary_call_handler | Server_streaming_call_handler => true
  | Client_streaming_call_handler | Bidir_streaming_call_handler => false
  end.

(** [Method_impl<HandlerT, CbT>]: [handler_type] is [HandlerT<InT, OutT, sync>];
    the callback is known by its type. *)
Record service_method := ServiceMethod {
  sm_name_ : string;
  sm_queues_ : list nat;
  sm_template : handler_template;
  sm_in : cpp_type;
  sm_out : cpp_type;
  sm_sync : bool
}.

Definition Method_impl_init (h : handler_template) (name : string) (cb : function_traits) :
  service_method :=
  let InT := fst (Arg_extractor (arg_type cb)) in
  let OutT := fst (Arg_extractor (result_type cb)) in
  ServiceMethod name [] h InT OutT (snd (Arg_extractor (result_type cb))).

Definition make_unary_method := Method_impl_init Unary_call_handler.
Definition make_server_streaming_method := Method_impl_init Server_streaming_call_handler.
Definition make_client_streaming_method := Method_impl_init Client_streaming_call_handler.
Definition make_bidir_streaming_method := Method_impl_init Bidir_streaming_call_handler.

Definition sm_immediate_payload_read (m : service_method) : bool :=
  template_immediate_payload (sm_template m).

(** ** Service_config *)

Record service_config := ServiceConfig {
  sc_name_ : string;
  sc_methods_ : list service_method
}.

Definition Service_config_init (name : string) : service_config := ServiceConfig name [].

(** [add_method(name, cb, Completion_queue_set)]: its queues have no name. *)
Definition add_method (name : string) (cb : function_traits) (queues : list nat)
  (s : service_config) : service_config :=
  let c_streaming := is_server_reader_v (arg_type cb) in
  let s_streaming := is_server_writer_v (decay (result_type cb)) in
  let m :=
    if c_streaming && s_streaming then make_bidir_streaming_method name cb
    else if c_streaming then make_client_streaming_method name cb
    else if s_streaming then make_server_streaming_method name cb
    else make_unary_method name cb in
  ServiceConfig (sc_name_ s) (sc_methods_ s ++ [m]).

(** ... for a callback of any type. *)
Definition add_method_cb (name : string) (cb : callable) (queues : list nat)
  (s : service_config) : option service_config :=
  t ← cb_traits cb; Some (add_method name t queues s).

(** [Service]: the queues its methods would use. *)
Record service := Service { service_default_queues_ : list nat }.
Definition Service_init : service := Service [].
Definition set_default_queues (queues : list nat) (s : service) : service := Service queues.
Definition default_queues (s : service) : list nat := service_default_queues_ s.

(** ** Config *)

(** [Config::Port]; [Credentials] is an empty class. *)
Record port := Port {
  port_addr : string;
  port_creds : option unit;
  bound_report : option nat
}.

(** [F] is the type of the features. *)
Record config (F : Type) := Config {
  cfg_default_queues_ : list nat;
  service_cfgs_ : list service_config;
  ports_ : list port;
  cfg_features_ : list F
}.
Arguments Config {F} _ _ _ _.
Arguments cfg_default_queues_ {F} _.
Arguments service_cfgs_ {F} _.
Arguments ports_ {F} _.
Arguments cfg_features_ {F} _.

Section Config.
Context {F : Type}.

Definition Config_init : config F := Config [] [] [] [].

Definition add_default_listening_queues (queues : list nat) (c : config F) : config F :=
  Config queues (service_cfgs_ c) (ports_ c) (cfg_features_ c).

Definition add_service (cfg : service_config) (c : config F) : config F :=
  Config (cfg_default_queues_ c) (service_cfgs_ c ++ [cfg]) (ports_ c) (cfg_features_ c).

(** [add_service(ServiceT&)], for a generated class with [get_config]. *)
Definition add_service_of {ServiceT} (get_config : ServiceT → service_config) (s : ServiceT)
  (c : config F) : config F := add_service (get_config s) c.

Definition add_feature (f : F) (c : config F) : config F :=
  Config (cfg_default_queues_ c) (service_cfgs_ c) (ports_ c) (cfg_features_ c ++ [f]).

Definition add_listening_port (addr : string) (creds : option unit) (bound_port : option nat)
  (c : config F) : config F :=
  Config (cfg_default_queues_ c) (service_cfgs_ c) (ports_ c ++ [Port addr creds bound_port])
    (cfg_features_ c).

Definition get_services (c : config F) : list service_config := service_cfgs_ c.

(** All the methods of a configuration, in order. *)
Definition config_methods (c : config F) : list service_method :=
  service_cfgs_ c ≫= sc_methods_.
End Config.

(** ** Which handler serves a callback *)

(** The four shapes of a call, from the types of a callback. *)
Definition streams_requests (cb : function_traits) : Prop := ∃ t, arg_type cb = T_Stream_future t.
Definition streams_replies (cb : function_traits) : Prop :=
  ∃ t, decay (result_type cb) = T_Stream_future t.

Lemma is_server_reader_spec t : is_server_reader_v t = true ↔ ∃ t', t = T_Stream_future t'.
Proof. destruct t; naive_solver. Qed.

Lemma is_server_writer_spec t : is_server_writer_v t = true ↔ ∃ t', t = T_Stream_future t'.
Proof. destruct t; naive_solver. Qed.

(** What a callback type gives in the C++ templates. *)
Definition selected (cb : function_traits) (m : service_method) : Prop :=
  (sm_template m = Bidir_streaming_call_handler ↔ streams_requests cb ∧ streams_replies cb) ∧
  (sm_template m = Client_streaming_call_handler ↔ streams_requests cb ∧ ¬ streams_replies cb) ∧
  (sm_template m = Server_streaming_call_handler ↔ ¬ streams_requests cb ∧ streams_replies cb) ∧
  (sm_template m = Unary_call_handler ↔ ¬ streams_requests cb ∧ ¬ streams_replies cb).

Lemma add_method_appends name cb queues s :
  ∃ m, sc_methods_ (add_method name cb queues s) = sc_methods_ s ++ [m] ∧
    sm_name_ m = name ∧ selected cb m ∧
    sm_in m = fst (Arg_extractor (arg_type cb)) ∧
    sm_out m = fst (Arg_extractor (result_type cb)) ∧
    sm_sync m = snd (Arg_extractor (result_type cb)) ∧ sm_queues_ m = [].
Proof.
  unfold add_method. eexists. split; [reflexivity|].
  unfold selected, streams_requests, streams_replies.
  rewrite <- is_server_reader_spec, <- is_server_writer_spec.
  destruct (is_server_reader_v (arg_type cb)), (is_server_writer_v (decay (result_type cb)));
    simpl; naive_solver.
Qed.

Lemma called_with_cb_traits cb (r a : cpp_type) (rest : list cpp_type) :
  called_with cb (Signature r (a :: rest)) → cb_traits cb = Some (FunctionTraits a r).
Proof. intros [o Ho]%called_with_traits. unfold cb_traits. by rewrite Ho. Qed.

(** [add_method] picks the handler from the callback's type, however the callback
    is given (a function, a pointer or a reference to one, a lambda, a
    std::function, std::mem_fn): requests are streamed when its first argument is a
    [Stream_future], replies when its result decays to one, and the four
    combinations give the four handlers; the payload is asked for together with the
    call exactly when requests are not streamed; the handler answers synchronously
    exactly when the result is neither a [Future] nor a [Stream_future]. *)
Theorem add_method_selects_handler (name : string) (cb : callable) (r a : cpp_type)
  (rest : list cpp_type) (queues : list nat) (s : service_config)
  (Hcb : called_with cb (Signature r (a :: rest))) :
  ∃ s' m, add_method_cb name cb queues s = Some s' ∧ sc_methods_ s' = sc_methods_ s ++ [m] ∧
    sm_name_ m = name ∧ selected (FunctionTraits a r) m ∧
    (sm_immediate_payload_read m = true ↔ ¬ ∃ t, a = T_Stream_future t) ∧
    (sm_sync m = false ↔ ∃ t, r = T_Future t ∨ r = T_Stream_future t).
Proof.
  destruct (add_method_appends name (FunctionTraits a r) queues s)
    as (m & Hm & Hn & Hsel & _ & _ & Hsync & _).
  exists (add_method name (FunctionTraits a r) queues s), m.
  split; [unfold add_method_cb; by rewrite (called_with_cb_traits cb r a rest Hcb)|].
  split; [done|]. split; [done|]. split; [done|]. split.
  - destruct Hsel as (Hb & Hc & Hss & Hu). unfold sm_immediate_payload_read, streams_requests in *.
    simpl in *. destruct (sm_template m); simpl; naive_solver.
  - rewrite Hsync. simpl. destruct r; naive_solver.
Qed.

(** A lambda that takes a stream of requests and returns a stream of replies, passed
    as a std::function by const reference. *)
Lemma add_method_selects_handler_witness :
  let lambda := C_object (Some (MemberFunction "lambda"
    (Signature (T_Stream_future (T_value "Rep")) [T_Stream_future (T_value "Req")])
    (Cv true false) true)) in
  ∃ s' m, add_method_cb "/s/m" (C_ref (Cv true false) (C_std_function lambda)) []
      (Service_config_init "s") = Some s' ∧ sc_methods_ s' = [m] ∧
    sm_template m = Bidir_streaming_call_handler ∧ sm_sync m = false.
Proof.
  intros lambda.
  destruct (add_method_selects_handler "/s/m" (C_ref (Cv true false) (C_std_function lambda))
    (T_Stream_future (T_value "Rep")) (T_Stream_future (T_value "Req")) [] []
    (Service_config_init "s")) as (s' & m & Hs & Hm & _ & Hsel & _ & Hsync).
  - by apply cw_ref, cw_std_function, (cw_object (MemberFunction _ _ _ true)).
  - exists s', m. split; [exact Hs|]. split; [exact Hm|]. split.
    + apply Hsel. split; by eexists.
    + apply Hsync. exists (T_value "Rep"). by right.
Defined.

(** The queues given to [add_method] are ignored: whatever they are, the method
    has none of its own, so that it listens on the server's default queues. *)
Theorem add_method_ignores_queues (name : string) (cb : function_traits)
  (queues : list nat) (s : service_config) :
  add_method name cb queues s = add_method name cb [] s ∧
  ∃ m, sc_methods_ (add_method name cb queues s) = sc_methods_ s ++ [m] ∧ sm_queues_ m = [].
Proof.
  split; [done|]. destruct (add_method_appends name cb queues s) as (m & Hm & Hrest).
  exists m. split; [done|]. by destruct_and! Hrest.
Qed.
