(* ===== verification/Server.v ===== *)
(** The server (include/easy_grpc/server/server.h, src/easy_grpc/server/server.cpp):
    starting it from a configuration, moving it, and shutting it down. *)

From S2P Require Import Prelude Errors Effects FunctionTraits ServiceConfig.

(** The calls the server makes to the gRPC core; [C_listen] stands for
    [Method::listen]. *)
Inductive core_call :=
| C_completion_queue_create (q : nat)
| C_server_create (s : nat)
| C_add_insecure_port (s : nat) (addr : string)
| C_register_completion_queue (s q : nat)
| C_register_method (s : nat) (name : string) (payload : bool)
| C_server_start (s : nat)
| C_listen (s : nat) (m : service_method) (registration q : nat)
| C_server_shutdown_and_notify (s q : nat)
| C_completion_queue_shutdown (q : nat)
| C_completion_queue_destroy (q : nat)
| C_server_destroy (s : nat).

Inductive event_type := GRPC_OP_COMPLETE | GRPC_QUEUE_SHUTDOWN | GRPC_QUEUE_TIMEOUT.

#[export] Instance event_type_eq_dec : EqDecision event_type.
Proof. solve_decision. Defined.

(** The core as the server sees it: the handles given so far, the calls made, and
    the [int]s behind [bound_port] pointers. *)
Record core_world := CoreWorld {
  next_handle : nat;
  core_calls : list core_call;
  bound_ports : list (nat * Z)
}.

(** [Server], with features of type [F]. *)
Record server (F : Type) := Server {
  impl_ : option nat;
  server_default_queues_ : list nat;
  shutdown_queue_ : option nat;
  features_ : list F
}.
Arguments Server {F} _ _ _ _.
Arguments impl_ {F} _.
Arguments server_default_queues_ {F} _.
Arguments shutdown_queue_ {F} _.
Arguments features_ {F} _.

(** Insertion into a [std::set] of pointers, in the order of addresses. *)
Fixpoint set_insert (q : nat) (s : list nat) : list nat :=
  match s with
  | [] => [q]
  | x :: s' => if decide (q < x) then q :: s
               else if decide (q = x) then s else x :: set_insert q s'
  end.

Section Server.
Context {F : Type}.
(** [Feature::add_to_config], a virtual function that may change the feature. *)
Context (add_to_config : F → config F → F * config F).
(** The core: the port bound to an address (0 on failure); the registration of a
    method, given the calls made so far; the next event of a queue. *)
Context (bind_port : string → Z).
Context (register_method : list core_call → nat → string → bool → option nat).
Context (next_event : list core_call → nat → event_type).

Definition core_do (c : core_call) : M core_world unit :=
  modify (λ w, CoreWorld (next_handle w) (core_calls w ++ [c]) (bound_ports w)).

Definition fresh_handle (c : nat → core_call) : M core_world nat :=
  h ← gets next_handle;
  modify (λ w, CoreWorld (S (next_handle w)) (core_calls w) (bound_ports w)) ;;
  core_do (c h) ;;
  mret h.

Definition grpc_completion_queue_next (q : nat) : M core_world event_type :=
  cs ← gets core_calls; mret (next_event cs q).

(** [cleanup_]; a shutdown queue comes with every server. *)
Definition Server_cleanup_ (srv : server F) : M core_world unit :=
  match impl_ srv, shutdown_queue_ srv with
  | None, _ => mret tt
  | Some s, Some q =>
      core_do (C_server_shutdown_and_notify s q) ;;
      evt ← grpc_completion_queue_next q;
      massert (bool_decide (evt = GRPC_OP_COMPLETE)) ;;
      core_do (C_completion_queue_shutdown q) ;;
      evt ← grpc_completion_queue_next q;
      massert (bool_decide (evt = GRPC_QUEUE_SHUTDOWN)) ;;
      core_do (C_completion_queue_destroy q) ;;
      core_do (C_server_destroy s)
  | Some s, None => crash_with Null_dereference
  end.

Definition Server_add_listening_port (srv : server F) (s : nat) (p : port) :
  M core_world unit :=
  match port_creds p with
  | None =>
      core_do (C_add_insecure_port s (port_addr p)) ;;
      let bound_port := bind_port (port_addr p) in
      if (bound_port =? 0)%Z then
        Server_cleanup_ srv ;;
        throw (Std_exception "grpc_server_add_insecure_http2_port failed")
      else
        match bound_report p with
        | Some ptr =>
            modify (λ w, CoreWorld (next_handle w) (core_calls w)
                           (bound_ports w ++ [(ptr, bound_port)]))
        | None => mret tt
        end
  | Some _ => crash_with Assertion_failed
  end.

Definition Server_add_listening_ports_ (srv : server F) (s : nat) (ports : list port) :
  M core_world unit :=
  for_each_in (Server_add_listening_port srv s) ports.

(** The loop over the features: each sees the configuration the previous left. *)
Fixpoint add_features (fs : list F) (c : config F) : list F * config F :=
  match fs with
  | [] => ([], c)
  | f :: fs =>
      let '(f', c') := add_to_config f c in
      let '(fs', c'') := add_features fs c' in (f' :: fs', c'')
  end.

(** A method's own queues, or the server's. *)
Definition method_queues (default_queues_ : list nat) (m : service_method) : list nat :=
  match sm_queues_ m with [] => default_queues_ | _ => sm_queues_ m end.

Definition queues_to_register (shutdown_queue : nat) (default_queues_ : list nat)
  (methods : list service_method) : list nat :=
  foldl (λ s q, set_insert q s) [] (shutdown_queue :: (methods ≫= method_queues default_queues_)).

(** Registering the methods, in order. *)
Fixpoint register_methods (s : nat) (ms : list service_method) :
  M core_world (list (service_method * nat)) :=
  match ms with
  | [] => mret []
  | m :: ms =>
      cs ← gets core_calls;
      core_do (C_register_method s (sm_name_ m) (sm_immediate_payload_read m)) ;;
      match register_method cs s (sm_name_ m) (sm_immediate_payload_read m) with
      | None => crash_with Assertion_failed
      | Some r => rest ← register_methods s ms; mret ((m, r) :: rest)
      end
  end.

(** [Server::Server(Config)]. *)
Definition Server_init (cfg : config F) : M core_world (server F) :=
  let default_queues_ := cfg_default_queues_ cfg in
  let '(fs, cfg) := add_features (cfg_features_ cfg)
        (Config (cfg_default_queues_ cfg) (service_cfgs_ cfg) (ports_ cfg) []) in
  massert (match cfg_features_ cfg with [] => true | _ => false end) ;;
  q ← fresh_handle C_completion_queue_create;
  s ← fresh_handle C_server_create;
  let srv := Server (Some s) default_queues_ (Some q) fs in
  Server_add_listening_ports_ srv s (ports_ cfg) ;;
  let methods := config_methods cfg in
  for_each_in (λ cq, core_do (C_register_completion_queue s cq))
    (queues_to_register q default_queues_ methods) ;;
  all_methods ← register_methods s methods;
  core_do (C_server_start s) ;;
  for_each_in (λ mr : service_method * nat,
    for_each_in (λ cq, core_do (C_listen s (fst mr) (snd mr) cq))
      (method_queues default_queues_ (fst mr))) all_methods ;;
  mret srv.

(** [Server() = default], the move constructor, and [~Server]. *)
Definition Server_default : server F := Server None [] None [].

Definition Server_move (rhs : server F) : server F * server F :=
  (Server (impl_ rhs) [] (shutdown_queue_ rhs) [],
   Server None (server_default_queues_ rhs) None (features_ rhs)).

Definition Server_destroy (srv : server F) : M core_world unit := Server_cleanup_ srv.

(** *** Variables that hold servers *)

(** The program's variables of type [Server], in the order they came to life. *)
Record server_vars := ServerVars {
  core : core_world;
  vars : list (option (server F))
}.
Definition set_core (c : core_world) (w : server_vars) : server_vars := ServerVars c (vars w).
Definition in_core {A} (m : M core_world A) : M server_vars A := zoom core set_core m.

Definition get_var (i : nat) : M server_vars (server F) := λ w,
  match vars w !! i with
  | Some (Some srv) => (Ret srv, w)
  | _ => (Crash Use_after_free, w)
  end.
Definition set_var (i : nat) (srv : option (server F)) : M server_vars unit :=
  modify (λ w, ServerVars (core w) (<[i := srv]> (vars w))).
Definition new_var (srv : server F) : M server_vars unit :=
  modify (λ w, ServerVars (core w) (vars w ++ [Some srv])).

(** [operator=(Server&&)]: the fields are read and written in order, so that it also
    says what [s = std::move(s)] does. *)
Definition Server_assign_move (i j : nat) : M server_vars unit :=
  lhs ← get_var i;
  in_core (Server_cleanup_ lhs) ;;
  rhs ← get_var j;
  set_var i (Some (Server (impl_ rhs) (server_default_queues_ lhs) (shutdown_queue_ rhs)
                     (features_ lhs))) ;;
  rhs ← get_var j;
  set_var j (Some (Server None (server_default_queues_ rhs) None (features_ rhs))).

Inductive server_op :=
| SV_default
| SV_construct (cfg : config F)
| SV_move (j : nat)
| SV_assign (i j : nat)
| SV_destroy (i : nat).

Definition run_server_op (op : server_op) : M server_vars unit :=
  match op with
  | SV_default => new_var Server_default
  | SV_construct cfg => srv ← in_core (Server_init cfg); new_var srv
  | SV_move j =>
      rhs ← get_var j;
      let '(lhs, rhs) := Server_move rhs in
      set_var j (Some rhs) ;; new_var lhs
  | SV_assign i j => Server_assign_move i j
  | SV_destroy i =>
      srv ← get_var i;
      in_core (Server_destroy srv) ;;
      set_var i None
  end.
End Server.
