(* ===== verification/ServerLaws.v ===== *)
(** What starting a server does, in order; that every server and shutdown queue is
    destroyed once whatever is moved where; and what a failing port and a move
    leave behind. *)

From Stdlib Require Import Sorted.
From S2P Require Import Prelude Errors Effects FunctionTraits ServiceConfig Server.

(** *** The set of queues *)

Lemma set_insert_elem q s x : x ∈ set_insert q s ↔ x = q ∨ x ∈ s.
Proof.
  induction s as [|y s IH]; simpl.
  - by rewrite list_elem_of_singleton, elem_of_nil; naive_solver.
  - repeat case_decide; subst; rewrite ?elem_of_cons, ?IH; naive_solver.
Qed.

Definition sorted_set : list nat → Prop := StronglySorted lt.

Lemma set_insert_sorted q s : sorted_set s → sorted_set (set_insert q s).
Proof.
  induction 1 as [|y s Hs IH Hall]; simpl; [by repeat constructor|].
  repeat case_decide; subst.
  - constructor; [by constructor|]. constructor; [done|].
    eapply Forall_impl; [exact Hall|]. simpl. lia.
  - by constructor.
  - constructor; [done|]. apply Forall_forall. intros x [->|Hx]%set_insert_elem; [lia|].
    by eapply Forall_forall in Hall.
Qed.

Lemma sorted_set_NoDup s : sorted_set s → NoDup s.
Proof.
  induction 1 as [|y s Hs IH Hall]; constructor; [|done].
  intros Hin. eapply Forall_forall in Hall; [|done]. lia.
Qed.

Lemma foldl_set_insert qs : ∀ s,
  sorted_set s →
  sorted_set (foldl (λ s q, set_insert q s) s qs) ∧
  ∀ x, x ∈ foldl (λ s q, set_insert q s) s qs ↔ x ∈ qs ∨ x ∈ s.
Proof.
  induction qs as [|q qs IH]; intros s Hs; simpl.
  - split; [done|]. intros x. rewrite elem_of_nil. naive_solver.
  - destruct (IH (set_insert q s)) as [Hsort Hin]; [by apply set_insert_sorted|].
    split; [done|]. intros x. rewrite Hin, set_insert_elem, elem_of_cons. naive_solver.
Qed.

Lemma queues_to_register_spec q dq ms :
  NoDup (queues_to_register q dq ms) ∧
  ∀ x, x ∈ queues_to_register q dq ms ↔ x = q ∨ ∃ m, m ∈ ms ∧ x ∈ method_queues dq m.
Proof.
  destruct (foldl_set_insert (q :: (ms ≫= method_queues dq)) []) as [Hsort Hin];
    [constructor|].
  split; [by apply sorted_set_NoDup|]. intros x. unfold queues_to_register.
  rewrite Hin, elem_of_cons, list_elem_of_bind, elem_of_nil. naive_solver.
Qed.

Section Laws.
Context {F : Type}.
Context (add_to_config : F → config F → F * config F).
Context (bind_port : string → Z).
Context (register_method : list core_call → nat → string → bool → option nat).
Context (next_event : list core_call → nat → event_type).

(** *** The calls of a start *)

Lemma core_do_run c w :
  core_do c w = (Ret tt, CoreWorld (next_handle w) (core_calls w ++ [c]) (bound_ports w)).
Proof. done. Qed.

#[local] Opaque core_do.

Lemma core_do_all {A} (f : A → core_call) xs w :
  for_each_in (λ x, core_do (f x)) xs w =
  (Ret tt, CoreWorld (next_handle w) (core_calls w ++ (f <$> xs)) (bound_ports w)).
Proof.
  revert w. induction xs as [|x xs IH]; intros w.
  - simpl. rewrite app_nil_r. by destruct w.
  - cbn [for_each_in]. unfold mbind, M_bind. rewrite core_do_run, IH. simpl.
    by rewrite <- app_assoc.
Qed.

Lemma core_do_nested {A B} (qs : A → list B) (f : A → B → core_call) xs w :
  for_each_in (λ x, for_each_in (λ y, core_do (f x y)) (qs x)) xs w =
  (Ret tt, CoreWorld (next_handle w) (core_calls w ++ (xs ≫= λ x, f x <$> qs x))
             (bound_ports w)).
Proof.
  revert w. induction xs as [|x xs IH]; intros w.
  - simpl. rewrite app_nil_r. by destruct w.
  - cbn [for_each_in]. unfold mbind at 1, M_bind at 1. rewrite (core_do_all (f x)), IH.
    simpl. by rewrite <- app_assoc.
Qed.

Definition port_ok (p : port) : Prop :=
  port_creds p = None ∧ bind_port (port_addr p) ≠ 0%Z.

Definition port_report (p : port) : option (nat * Z) :=
  ptr ← bound_report p; Some (ptr, bind_port (port_addr p)).

Lemma add_ports_runs srv s ps w :
  Forall port_ok ps →
  Server_add_listening_ports_ (F:=F) bind_port next_event srv s ps w =
  (Ret tt, CoreWorld (next_handle w)
             (core_calls w ++ (C_add_insecure_port s ∘ port_addr <$> ps))
             (bound_ports w ++ omap port_report ps)).
Proof.
  intros Hps. revert w. induction Hps as [|p ps [Hc Hb] Hps IH]; intros w.
  - simpl. rewrite !app_nil_r. by destruct w.
  - unfold Server_add_listening_ports_ in *. cbn [for_each_in].
    unfold mbind at 1, M_bind at 1. unfold Server_add_listening_port at 1. rewrite Hc.
    apply Z.eqb_neq in Hb. munfold. rewrite core_do_run, Hb.
    unfold port_report. destruct (bound_report p) as [ptr|] eqn:Hr; simpl.
    + rewrite IH, Hr. simpl. by rewrite <- !app_assoc.
    + rewrite IH, Hr. simpl. by rewrite <- !app_assoc.
Qed.

(** gRPC's documented behaviour: a method that was not registered with the server
    yet can be. *)
Definition registers_new : Prop := ∀ cs s name payload,
  (∀ payload', C_register_method s name payload' ∉ cs) →
  is_Some (register_method cs s name payload).

Definition register_call (s : nat) (m : service_method) : core_call :=
  C_register_method s (sm_name_ m) (sm_immediate_payload_read m).

Lemma register_methods_runs s ms : ∀ w,
  registers_new → NoDup (sm_name_ <$> ms) →
  (∀ m payload, m ∈ ms → C_register_method s (sm_name_ m) payload ∉ core_calls w) →
  ∃ regs, length regs = length ms ∧
    register_methods register_method s ms w =
    (Ret (zip ms regs),
     CoreWorld (next_handle w) (core_calls w ++ (register_call s <$> ms)) (bound_ports w)).
Proof.
  induction ms as [|m ms IH]; intros w Hreg Hnd Hnew.
  - exists []. simpl. rewrite app_nil_r. by destruct w.
  - apply NoDup_cons in Hnd as [Hm Hnd].
    destruct (Hreg (core_calls w) s (sm_name_ m) (sm_immediate_payload_read m)) as [r Hr].
    { intros payload'. apply Hnew. by constructor. }
    destruct (IH (CoreWorld (next_handle w) (core_calls w ++ [register_call s m])
                    (bound_ports w)) Hreg Hnd) as (regs & Hlen & Hrun).
    { intros m' payload Hm'. simpl. rewrite elem_of_app, list_elem_of_singleton.
      intros [Hin|[= Heq _]].
      - apply (Hnew m' payload); [by right|done].
      - apply Hm. rewrite <- Heq. apply list_elem_of_fmap. by exists m'. }
    exists (r :: regs). split; [simpl; lia|].
    cbn [register_methods]. unfold mbind, M_bind, gets. rewrite core_do_run, Hr.
    unfold register_call in Hrun at 1. rewrite Hrun. simpl. by rewrite <- app_assoc.
Qed.

(** ** Starting *)

(** A configuration that can start: after the features had their say, no feature
    was added, every port can be bound without credentials, names are distinct. *)
Definition configured (cfg : config F) : list F * config F :=
  add_features add_to_config (cfg_features_ cfg)
    (Config (cfg_default_queues_ cfg) (service_cfgs_ cfg) (ports_ cfg) []).

Definition startable (cfg : config F) : Prop :=
  cfg_features_ (configured cfg).2 = [] ∧ Forall port_ok (ports_ (configured cfg).2) ∧
  NoDup (sm_name_ <$> config_methods (configured cfg).2).

(** The calls of a start: [q] and [s] are the new handles. *)
Definition start_calls (q s : nat) (dq : list nat) (cfg : config F) (regs : list nat) :
  list core_call :=
  let ms := config_methods cfg in
  [C_completion_queue_create q; C_server_create s] ++
  (C_add_insecure_port s ∘ port_addr <$> ports_ cfg) ++
  (C_register_completion_queue s <$> queues_to_register q dq ms) ++
  (register_call s <$> ms) ++
  [C_server_start s] ++
  (zip ms regs ≫= λ mr, C_listen s mr.1 mr.2 <$> method_queues dq mr.1).

(** Every server in the calls was created before. *)
Definition world_ok (w : core_world) : Prop :=
  ∀ s name payload, C_register_method s name payload ∈ core_calls w → s < next_handle w.

Lemma Server_init_runs cfg w :
  registers_new → startable cfg → world_ok w →
  ∃ regs, length regs = length (config_methods (configured cfg).2) ∧
    Server_init add_to_config bind_port register_method next_event cfg w =
    (Ret (Server (Some (S (next_handle w))) (cfg_default_queues_ cfg) (Some (next_handle w))
            (configured cfg).1),
     CoreWorld (S (S (next_handle w)))
       (core_calls w ++ start_calls (next_handle w) (S (next_handle w))
                          (cfg_default_queues_ cfg) (configured cfg).2 regs)
       (bound_ports w ++ omap port_report (ports_ (configured cfg).2))).
Proof.
  intros Hreg (Hnone & Hports & Hnames) Hw. unfold Server_init.
  change (add_features _ _ _) with (configured cfg) in *.
  destruct (configured cfg) as [fs c]. simpl in *. rewrite Hnone.
  set (n := next_handle w).
  set (cs1 := ((core_calls w ++ [C_completion_queue_create n]) ++ [C_server_create (S n)])
    ++ (C_add_insecure_port (S n) ∘ port_addr <$> ports_ c)).
  set (w2 := CoreWorld (S (S n)) (cs1 ++ (C_register_completion_queue (S n) <$>
    queues_to_register n (cfg_default_queues_ cfg) (config_methods c)))
    (bound_ports w ++ omap port_report (ports_ c))).
  destruct (register_methods_runs (S n) (config_methods c) w2 Hreg Hnames)
    as (regs & Hlen & Hrun).
  { intros m payload _. simpl. unfold cs1.
    rewrite !elem_of_app, !list_elem_of_fmap, !list_elem_of_singleton.
    intros [[[[Hin|[=]]|[=]]|(? & [=] & _)]|(? & [=] & _)].
    apply Hw in Hin. unfold n in *. lia. }
  exists regs. split; [done|].
  unfold fresh_handle. munfold. simpl. rewrite !core_do_run. simpl. fold n. rewrite (add_ports_runs _ _ _ _ Hports). simpl.
  rewrite (core_do_all (C_register_completion_queue (S n))). simpl.
  fold cs1. fold w2. rewrite Hrun. rewrite core_do_run.
  rewrite (core_do_nested (λ mr, method_queues (cfg_default_queues_ cfg) mr.1)
             (λ mr, C_listen (S n) mr.1 mr.2)). simpl.
  f_equal. f_equal. unfold start_calls, cs1. by rewrite <- !app_assoc.
Qed.

(** ** Shutting down *)

(** gRPC's documented behaviour: the queue given to the shutdown, which must have
    been registered, delivers its completion; a queue that was shut down says so. *)
Definition shutdown_notifies : Prop := ∀ cs s q,
  C_register_completion_queue s q ∈ cs →
  next_event (cs ++ [C_server_shutdown_and_notify s q]) q = GRPC_OP_COMPLETE.
Definition queue_shuts_down : Prop := ∀ cs q,
  next_event (cs ++ [C_completion_queue_shutdown q]) q = GRPC_QUEUE_SHUTDOWN.

Definition stop_calls (q s : nat) : list core_call :=
  [C_server_shutdown_and_notify s q; C_completion_queue_shutdown q;
   C_completion_queue_destroy q; C_server_destroy s].

Lemma Server_cleanup_runs (srv : server F) s q w :
  shutdown_notifies → queue_shuts_down →
  impl_ srv = Some s → shutdown_queue_ srv = Some q →
  C_register_completion_queue s q ∈ core_calls w →
  Server_cleanup_ next_event srv w =
  (Ret tt, CoreWorld (next_handle w) (core_calls w ++ stop_calls q s) (bound_ports w)).
Proof.
  intros Hnot Hshut Hs Hq Hreg. unfold Server_cleanup_, grpc_completion_queue_next.
  rewrite Hs, Hq. munfold. rewrite core_do_run. simpl. rewrite (Hnot _ _ _ Hreg). simpl.
  rewrite core_do_run. simpl. rewrite Hshut. simpl. rewrite !core_do_run. simpl.
  by rewrite <- !app_assoc.
Qed.

(** ** Who owns the handles *)

Definition created_by (c : core_call) : list nat :=
  match c with C_completion_queue_create h | C_server_create h => [h] | _ => [] end.
Definition destroyed_by (c : core_call) : list nat :=
  match c with C_completion_queue_destroy h | C_server_destroy h => [h] | _ => [] end.
Definition created (cs : list core_call) : list nat := cs ≫= created_by.
Definition destroyed (cs : list core_call) : list nat := cs ≫= destroyed_by.

Lemma created_app cs cs' : created (cs ++ cs') = created cs ++ created cs'.
Proof. apply bind_app. Qed.
Lemma destroyed_app cs cs' : destroyed (cs ++ cs') = destroyed cs ++ destroyed cs'.
Proof. apply bind_app. Qed.

Definition owned_by (v : option (server F)) : list nat :=
  match v with
  | Some srv => match shutdown_queue_ srv, impl_ srv with
                | Some q, Some s => [q; s]
                | _, _ => []
                end
  | None => []
  end.

(** A variable holds both handles of a server that is running, or none. *)
Definition var_ok (cs : list core_call) (v : option (server F)) : Prop :=
  match v with
  | Some srv =>
      match impl_ srv, shutdown_queue_ srv with
      | Some s, Some q => C_register_completion_queue s q ∈ cs
      | None, None => True
      | _, _ => False
      end
  | None => True
  end.

Record owners (w : server_vars) : Prop := {
  owners_vars : Forall (var_ok (core_calls (core w))) (vars w);
  owners_handles : (vars w ≫= owned_by) ++ destroyed (core_calls (core w))
                   ≡ₚ created (core_calls (core w));
  owners_fresh : NoDup (created (core_calls (core w)));
  owners_next : ∀ h, h ∈ created (core_calls (core w)) → h < next_handle (core w);
  owners_world : world_ok (core w)
}.

Lemma no_handles (g : core_call → list nat) (l : list core_call) :
  (∀ c, c ∈ l → g c = []) → l ≫= g = [].
Proof.
  induction l as [|c l IH]; intros Hl; [done|]. rewrite bind_cons, (Hl c) by constructor.
  apply IH. intros c' Hc'. apply Hl. by right.
Qed.

(** The calls of a start after the two creations. *)
Lemma start_tail_elem q s dq cfg regs c :
  c ∈ start_calls q s dq cfg regs →
  c = C_completion_queue_create q ∨ c = C_server_create s ∨
  (created_by c = [] ∧ destroyed_by c = [] ∧
   ∀ s' name payload, c = C_register_method s' name payload → s' = s).
Proof.
  unfold start_calls.
  rewrite !elem_of_app, !elem_of_cons, !list_elem_of_fmap, list_elem_of_bind, elem_of_nil.
  intros [[|[|[]]]|[(? & -> & _)|[(? & -> & _)|[(? & -> & _)|[[->|[]]|(mr & Hin & _)]]]]].
  1,2: by auto.
  1-4: right; right; split; [done|]; split; [done|]; by intros ? ? ? [=].
  apply list_elem_of_fmap in Hin as (? & -> & _). right; right. by repeat split.
Qed.

Lemma start_created q s dq cfg regs : created (start_calls q s dq cfg regs) = [q; s].
Proof.
  unfold created, start_calls. rewrite bind_app, (no_handles created_by (_ ++ _)); [done|].
  intros c Hc.
  destruct (start_tail_elem q s dq cfg regs c) as [->|[->|[? _]]];
    [unfold start_calls; apply elem_of_app; by right| | |done].
  all: exfalso; revert Hc; rewrite !elem_of_app, !list_elem_of_fmap, list_elem_of_bind,
    elem_of_cons, elem_of_nil.
  all: intros [(? & [=] & _)|[(? & [=] & _)|[(? & [=] & _)|[[[=]|[]]|(mr & Hin & _)]]]].
  all: by apply list_elem_of_fmap in Hin as (? & [=] & _).
Qed.

Lemma start_destroyed q s dq cfg regs : destroyed (start_calls q s dq cfg regs) = [].
Proof.
  apply no_handles. intros c Hc.
  by destruct (start_tail_elem _ _ _ _ _ _ Hc) as [->|[->|(_ & ? & _)]].
Qed.

Lemma start_registers q s dq cfg regs :
  C_register_completion_queue s q ∈ start_calls q s dq cfg regs.
Proof.
  unfold start_calls. rewrite !elem_of_app. right. right. left.
  apply list_elem_of_fmap. exists q. split; [done|].
  apply queues_to_register_spec. by left.
Qed.

Lemma owned_insert (vs : list (option (server F))) i x y :
  vs !! i = Some x → owned_by x ++ (<[i:=y]> vs ≫= owned_by) ≡ₚ owned_by y ++ (vs ≫= owned_by).
Proof.
  intros Hi. rewrite <- (take_drop_middle vs i x Hi) at 2.
  rewrite insert_take_drop by (by eapply lookup_lt_Some).
  rewrite !bind_app, !bind_cons. solve_Permutation.
Qed.

Lemma var_ok_app cs cs' v : var_ok cs v → var_ok (cs ++ cs') v.
Proof.
  unfold var_ok. destruct v as [srv|]; [|done].
  destruct (impl_ srv), (shutdown_queue_ srv); try done. rewrite elem_of_app. by left.
Qed.

(** A new value for a variable that owns nothing any more, or the value of another
    one: what matters is which handles are owned. *)
Lemma owners_same w vs' :
  owners w → (vs' ≫= owned_by) ≡ₚ (vars w ≫= owned_by) →
  Forall (var_ok (core_calls (core w))) vs' → owners (ServerVars (core w) vs').
Proof. intros [H1 H2 H3 H4 H5] Hp Hok. split; simpl; try done. by rewrite Hp. Qed.

(** [cleanup_] of a variable's server. *)
Lemma owners_cleanup w i srv :
  shutdown_notifies → queue_shuts_down → owners w → vars w !! i = Some (Some srv) →
  ∃ c', Server_cleanup_ next_event srv (core w) = (Ret tt, c') ∧
    owners (ServerVars c' (<[i := None]> (vars w))).
Proof.
  intros Hnot Hshut [Hvars Hh Hf Hn Hw] Hi.
  pose proof (Forall_lookup_1 _ _ _ _ Hvars Hi) as Hok. simpl in Hok.
  pose proof (owned_insert _ _ _ None Hi) as Hown. simpl in Hown.
  destruct (impl_ srv) as [s|] eqn:Hs, (shutdown_queue_ srv) as [q|] eqn:Hq; try done.
  - eexists. split; [by apply (Server_cleanup_runs srv s q)|].
    assert (created (stop_calls q s) = [] ∧ destroyed (stop_calls q s) = [q; s]) as [Hc Hd]
      by done.
    split; cbn [core vars core_calls next_handle];
      rewrite ?created_app, ?destroyed_app, ?Hc, ?Hd, ?app_nil_r; try done.
    + apply Forall_insert; [|done]. eapply Forall_impl; [exact Hvars|].
      intros v. apply var_ok_app.
    + rewrite <- Hh, <- Hown. solve_Permutation.
    + intros s' name payload Hin. apply elem_of_app in Hin as [Hin|Hin]; [by eapply Hw|].
      unfold stop_calls in Hin. rewrite !elem_of_cons, elem_of_nil in Hin.
      by repeat destruct Hin as [Hin|Hin].
  - exists (core w). unfold Server_cleanup_. rewrite Hs. split; [done|].
    apply owners_same; [done| |by apply Forall_insert].
    by rewrite <- Hown.
Qed.

(** *** Each operation keeps the ownership *)

Lemma owners_construct w cfg :
  registers_new → startable cfg → owners w →
  ∃ w', run_server_op add_to_config bind_port register_method next_event (SV_construct cfg) w
        = (Ret tt, w') ∧ owners w' ∧ ∃ srv, vars w' = vars w ++ [Some srv].
Proof.
  intros Hreg Hcfg [Hvars Hh Hf Hn Hw].
  destruct (Server_init_runs cfg (core w) Hreg Hcfg Hw) as (regs & Hlen & Hrun).
  eexists. split; [|split].
  - unfold run_server_op, in_core, new_var. munfold. rewrite Hrun. reflexivity.
  - cbn [set_core core vars]. set (n := next_handle (core w)) in *.
    pose proof (start_created n (S n) (cfg_default_queues_ cfg) (configured cfg).2 regs) as Hc.
    pose proof (start_destroyed n (S n) (cfg_default_queues_ cfg) (configured cfg).2 regs) as Hd.
    split; cbn [core vars core_calls next_handle];
      rewrite ?bind_app, ?created_app, ?destroyed_app, ?Hc, ?Hd, ?app_nil_r.
    + apply Forall_app. split.
      * eapply Forall_impl; [exact Hvars|]. intros v. apply var_ok_app.
      * apply Forall_singleton. simpl. rewrite elem_of_app. right. apply start_registers.
    + rewrite <- Hh. simpl. solve_Permutation.
    + apply NoDup_app. split; [done|]. split.
      * intros h Hh' Hin. apply Hn in Hh'. fold n in Hh'.
        apply elem_of_cons in Hin as [->|[->|[]%elem_of_nil]%elem_of_cons]; lia.
      * apply NoDup_cons. split; [|apply NoDup_singleton]. intros ?%list_elem_of_singleton. lia.
    + intros h [Hin|Hin]%elem_of_app; [apply Hn in Hin; fold n in Hin; lia|].
      apply elem_of_cons in Hin as [->|[->|[]%elem_of_nil]%elem_of_cons]; lia.
    + intros s name payload [Hin|Hin]%elem_of_app; [apply Hw in Hin; fold n in Hin; simpl; lia|].
      simpl. destruct (start_tail_elem _ _ _ _ _ _ Hin) as [[=]|[[=]|(_ & _ & Hs)]].
      rewrite (Hs s name payload eq_refl). lia.
  - by eexists.
Qed.

(** Which variables are alive, and which operations are allowed on them: a
    configuration that is used can be started. *)
Definition op_legal (alive : list bool) (op : server_op) : Prop :=
  match op with
  | SV_default => True
  | SV_construct cfg => startable cfg
  | SV_move j => alive !! j = Some true
  | SV_assign i j => alive !! i = Some true ∧ alive !! j = Some true
  | SV_destroy i => alive !! i = Some true
  end.

Definition alive_after (alive : list bool) (op : server_op (F:=F)) : list bool :=
  match op with
  | SV_default | SV_construct _ | SV_move _ => alive ++ [true]
  | SV_assign _ _ => alive
  | SV_destroy i => <[i := false]> alive
  end.

Fixpoint ops_legal (alive : list bool) (ops : list server_op) : Prop :=
  match ops with
  | [] => True
  | op :: ops => op_legal alive op ∧ ops_legal (alive_after alive op) ops
  end.

Definition is_alive (v : option (server F)) : bool := match v with Some _ => true | None => false end.

Lemma alive_lookup (vs : list (option (server F))) i :
  (is_alive <$> vs) !! i = Some true → ∃ srv, vs !! i = Some (Some srv).
Proof.
  rewrite list_lookup_fmap. destruct (vs !! i) as [[srv|]|]; [by exists srv|done..].
Qed.

Definition emptied (srv : server F) : server F :=
  Server None (server_default_queues_ srv) None (features_ srv).

Lemma owners_new w v :
  owners w → owned_by v = [] → var_ok (core_calls (core w)) v →
  owners (ServerVars (core w) (vars w ++ [v])).
Proof.
  intros Hw Hv Hok. apply owners_same; [done| |].
  - rewrite bind_app, bind_cons, Hv. simpl. by rewrite app_nil_r.
  - apply Forall_app. split; [apply Hw|by apply Forall_singleton].
Qed.

Lemma owners_move w j rhs (q : list nat) fs :
  owners w → vars w !! j = Some (Some rhs) →
  owners (ServerVars (core w)
    (<[j := Some (emptied rhs)]> (vars w) ++ [Some (Server (impl_ rhs) q (shutdown_queue_ rhs) fs)])).
Proof.
  intros Hw Hj. pose proof (owners_vars _ Hw) as Hvars.
  pose proof (Forall_lookup_1 _ _ _ _ Hvars Hj) as Hok.
  pose proof (owned_insert _ _ _ (Some (emptied rhs)) Hj) as Hown. simpl in Hown.
  apply owners_same; [done| |].
  - rewrite bind_app, bind_cons. simpl. rewrite app_nil_r, <- Hown. solve_Permutation.
  - apply Forall_app. split; [by apply Forall_insert|by apply Forall_singleton].
Qed.

(** A variable that holds nothing takes over what another one holds. *)
Lemma owners_take w i j lhs rhs :
  owners w → i ≠ j → vars w !! i = Some None → vars w !! j = Some (Some rhs) →
  owners (ServerVars (core w) (<[j := Some (emptied rhs)]> (<[i := Some (Server (impl_ rhs)
    (server_default_queues_ lhs) (shutdown_queue_ rhs) (features_ lhs))]> (vars w)))).
Proof.
  intros Hw Hij Hi Hj. pose proof (owners_vars _ Hw) as Hvars.
  pose proof (Forall_lookup_1 _ _ _ _ Hvars Hj) as Hok.
  set (new := Some (Server _ _ _ _)).
  pose proof (owned_insert (vars w) i None new Hi) as Hown1. simpl in Hown1.
  assert (<[i := new]> (vars w) !! j = Some (Some rhs)) as Hj'.
  { by rewrite list_lookup_insert_ne. }
  pose proof (owned_insert _ j _ (Some (emptied rhs)) Hj') as Hown2. simpl in Hown2.
  apply owners_same; [done| |].
  - apply (Permutation_app_inv_l (owned_by (Some rhs))). simpl. by rewrite Hown2, Hown1.
  - apply Forall_insert; [by apply Forall_insert|done].
Qed.

Lemma get_var_runs i srv (w : server_vars (F:=F)) : vars w !! i = Some (Some srv) → runs (get_var i) w srv w.
Proof. unfold runs, get_var. by intros ->. Qed.

Lemma in_core_runs {A} (m : M core_world A) (w : server_vars (F:=F)) a c' :
  m (core w) = (Ret a, c') → runs (in_core m) w a (ServerVars c' (vars w)).
Proof. unfold runs, in_core, zoom. by intros ->. Qed.

Lemma alive_insert (vs : list (option (server F))) i srv srv' :
  vs !! i = Some (Some srv) → is_alive <$> <[i := Some srv']> vs = is_alive <$> vs.
Proof.
  intros Hi. rewrite list_fmap_insert. apply list_insert_id. by rewrite list_lookup_fmap, Hi.
Qed.

Lemma owners_assign w i j lhs rhs :
  shutdown_notifies → queue_shuts_down → owners w →
  vars w !! i = Some (Some lhs) → vars w !! j = Some (Some rhs) →
  ∃ w', Server_assign_move next_event i j w = (Ret tt, w') ∧ owners w' ∧
    is_alive <$> vars w' = is_alive <$> vars w.
Proof.
  intros Hnot Hshut Hw Hi Hj.
  destruct (owners_cleanup w i lhs Hnot Hshut Hw Hi) as (c' & Hrun & Hw').
  pose proof (lookup_lt_Some _ _ _ Hi) as Hlt.
  set (new := Server (impl_ rhs) (server_default_queues_ lhs) (shutdown_queue_ rhs) (features_ lhs)).
  set (vs := <[i := Some new]> (vars w)).
  assert (∃ rhs', vs !! j = Some (Some rhs') ∧ (i = j → rhs' = new) ∧ (i ≠ j → rhs' = rhs))
    as (rhs' & Hrhs' & Heq & Hne).
  { unfold vs. destruct (decide (i = j)) as [<-|].
    - exists new. by rewrite list_lookup_insert_eq.
    - exists rhs. by rewrite list_lookup_insert_ne. }
  exists (ServerVars c' (<[j := Some (emptied rhs')]> vs)). split; [|split].
  - unfold Server_assign_move. eapply runs_bind; [by apply get_var_runs|].
    eapply runs_bind; [by apply in_core_runs|].
    eapply runs_bind; [by apply (get_var_runs j rhs)|].
    eapply runs_bind; [reflexivity|]. by eapply runs_bind; [by apply get_var_runs|].
  - destruct (decide (i = j)) as [<-|Hij].
    + rewrite (Heq eq_refl). unfold vs. rewrite list_insert_insert_eq.
      pose proof (owned_insert (<[i:=None]> (vars w)) i None (Some (emptied new))) as Hown.
      rewrite list_lookup_insert_eq, list_insert_insert_eq in Hown by done.
      apply (owners_same _ _ Hw'); simpl in *; [by apply Hown|].
      pose proof (owners_vars _ Hw') as Hvars. simpl in Hvars.
      rewrite <- (list_insert_insert_eq (vars w) i (Some (emptied new)) None).
      by apply Forall_insert.
    + rewrite (Hne Hij). unfold vs.
      pose proof (owners_take (ServerVars c' (<[i:=None]> (vars w))) i j lhs rhs Hw' Hij) as Ht.
      simpl in Ht. rewrite list_insert_insert_eq in Ht. apply Ht.
      * by apply list_lookup_insert_eq.
      * by rewrite list_lookup_insert_ne.
  - simpl. rewrite (alive_insert vs j rhs') by done. unfold vs. by apply (alive_insert _ _ lhs).
Qed.

Lemma owners_step w op :
  registers_new → shutdown_notifies → queue_shuts_down → owners w →
  op_legal (is_alive <$> vars w) op →
  ∃ w', run_server_op add_to_config bind_port register_method next_event op w = (Ret tt, w') ∧
    owners w' ∧ is_alive <$> vars w' = alive_after (is_alive <$> vars w) op.
Proof.
  intros Hreg Hnot Hshut Hw. destruct op as [|cfg|j|i j|i]; simpl; intros Hleg.
  - exists (ServerVars (core w) (vars w ++ [Some Server_default])). split; [done|].
    split; [by apply owners_new|]. simpl. by rewrite fmap_app.
  - destruct (owners_construct w cfg Hreg Hleg Hw) as (w' & Hrun & Hw' & srv & Hv).
    exists w'. split; [exact Hrun|]. split; [done|]. by rewrite Hv, fmap_app.
  - destruct (alive_lookup _ _ Hleg) as [rhs Hj]. eexists. split; [|split].
    + unfold get_var. munfold. rewrite Hj. reflexivity.
    + by apply (owners_move w j rhs [] []).
    + cbn [vars]. rewrite fmap_app. f_equal. by apply (alive_insert _ _ rhs).
  - destruct Hleg as [[lhs Hi]%alive_lookup [rhs Hj]%alive_lookup].
    by apply (owners_assign w i j lhs rhs).
  - destruct (alive_lookup _ _ Hleg) as [srv Hi].
    destruct (owners_cleanup w i srv Hnot Hshut Hw Hi) as (c' & Hrun & Hw').
    exists (ServerVars c' (<[i := None]> (vars w))). split; [|split].
    + eapply runs_bind; [by apply get_var_runs|].
      eapply runs_bind; [by apply in_core_runs|]. reflexivity.
    + done.
    + simpl. by rewrite list_fmap_insert.
Qed.

Lemma owners_run ops : ∀ w,
  registers_new → shutdown_notifies → queue_shuts_down → owners w →
  ops_legal (is_alive <$> vars w) ops →
  ∃ w', for_each_in (run_server_op add_to_config bind_port register_method next_event) ops w
        = (Ret tt, w') ∧
    owners w' ∧ is_alive <$> vars w' = foldl alive_after (is_alive <$> vars w) ops.
Proof.
  induction ops as [|op ops IH]; intros w Hreg Hnot Hshut Hw Hleg; [by exists w|].
  destruct Hleg as [Hop Hops].
  destruct (owners_step w op Hreg Hnot Hshut Hw Hop) as (w1 & Hrun1 & Hw1 & Hal1).
  rewrite <- Hal1 in Hops.
  destruct (IH w1 Hreg Hnot Hshut Hw1 Hops) as (w2 & Hrun2 & Hw2 & Hal2).
  exists w2. cbn [for_each_in foldl]. unfold mbind, M_bind. rewrite Hrun1, Hrun2.
  split; [done|]. split; [done|]. by rewrite Hal2, Hal1.
Qed.

Lemma owners_none (vs : list (option (server F))) :
  (∀ b, b ∈ is_alive <$> vs → b = false) → vs ≫= owned_by = [].
Proof.
  induction vs as [|[srv|] vs IH]; intros Hvs; [done| |].
  - by specialize (Hvs true ltac:(by left)).
  - rewrite bind_cons. apply IH. intros b Hb. apply Hvs. by right.
Qed.
End Laws.

(** C20: starting a server.  From a configuration whose ports can be bound and whose
    methods have distinct names, the constructor returns, and the core was asked,
    in this order: to create the shutdown queue and the server, to bind the ports,
    to register every queue that is used (the shutdown queue, and for each method
    its queues or else the defaults), each once, to register every method with
    its name and its way of reading payloads, to start, and only then to listen,
    for every method on each of its queues.  The ports' numbers were reported. *)
Theorem server_starts_listening {F}
  (add_to_config : F → config F → F * config F) (bind_port : string → Z)
  (register_method : list core_call → nat → string → bool → option nat)
  (next_event : list core_call → nat → event_type)
  (cfg : config F) (w : core_world)
  (Hreg : registers_new register_method)
  (Hcfg : startable add_to_config bind_port cfg) (Hw : world_ok w) :
  let q := next_handle w in
  let s := S q in
  let dq := cfg_default_queues_ cfg in
  let final := (configured add_to_config cfg).2 in
  let qs := queues_to_register q dq (config_methods final) in
  ∃ srv w' regs,
    Server_init add_to_config bind_port register_method next_event cfg w = (Ret srv, w') ∧
    impl_ srv = Some s ∧ shutdown_queue_ srv = Some q ∧
    features_ srv = (configured add_to_config cfg).1 ∧
    core_calls w' = core_calls w ++
      [C_completion_queue_create q; C_server_create s] ++
      (C_add_insecure_port s ∘ port_addr <$> ports_ final) ++
      (C_register_completion_queue s <$> qs) ++
      (register_call s <$> config_methods final) ++
      [C_server_start s] ++
      (zip (config_methods final) regs ≫= λ mr, C_listen s mr.1 mr.2 <$> method_queues dq mr.1) ∧
    length regs = length (config_methods final) ∧
    NoDup qs ∧
    (∀ x, x ∈ qs ↔ x = q ∨ ∃ m, m ∈ config_methods final ∧ x ∈ method_queues dq m) ∧
    bound_ports w' = bound_ports w ++ omap (port_report bind_port) (ports_ final).
Proof.
  intros q s dq final qs.
  destruct (Server_init_runs add_to_config bind_port register_method next_event cfg w
              Hreg Hcfg Hw) as (regs & Hlen & Hrun).
  destruct (queues_to_register_spec q dq (config_methods final)) as [Hnd Hin].
  eexists _, _, regs. split; [exact Hrun|]. by repeat split; try apply Hin.
Qed.

Definition empty_core : core_world := CoreWorld 0 [] [].

(** C21: in any program that creates, moves, assigns and destroys servers, in any
    order, including assigning a server to itself and over a running one, no
    operation asserts; every server and shutdown queue that is destroyed was
    created, and is destroyed once; and when no variable is alive any more, all of
    them were destroyed. *)
Theorem servers_destroyed_once {F}
  (add_to_config : F → config F → F * config F) (bind_port : string → Z)
  (register_method : list core_call → nat → string → bool → option nat)
  (next_event : list core_call → nat → event_type) (ops : list server_op)
  (Hreg : registers_new register_method) (Hnot : shutdown_notifies next_event)
  (Hshut : queue_shuts_down next_event)
  (Hlegal : ops_legal add_to_config bind_port [] ops) :
  ∃ w, for_each_in (run_server_op add_to_config bind_port register_method next_event) ops
         (ServerVars empty_core []) = (Ret tt, w) ∧
    NoDup (destroyed (core_calls (core w))) ∧
    (∀ h, h ∈ destroyed (core_calls (core w)) → h ∈ created (core_calls (core w))) ∧
    ((∀ b, b ∈ foldl alive_after [] ops → b = false) →
     destroyed (core_calls (core w)) ≡ₚ created (core_calls (core w))).
Proof.
  destruct (owners_run add_to_config bind_port register_method next_event ops
    (ServerVars empty_core []) Hreg Hnot Hshut) as (w & Hrun & [_ Hh Hf _ _] & Hal).
  { by split; [constructor|done|constructor|intros ? ?%elem_of_nil|intros ? ? ? ?%elem_of_nil]. }
  { done. }
  exists w. split; [done|]. rewrite <- Hh in Hf. split; [by apply NoDup_app in Hf as (_ & _ & ?)|].
  split; [intros h Hin; rewrite <- Hh, elem_of_app; by right|].
  intros Hdead. rewrite <- Hh, owners_none; [done|]. by rewrite Hal.
Qed.

(** A moved-from server keeps the features, which its destructor destroys, and
    the server that took over its handles has none: the services the features
    added stay registered and listening while the objects behind them are gone. *)
Theorem server_move_leaves_features {F} (srv : server F) :
  let '(moved, rhs) := Server_move srv in
  impl_ moved = impl_ srv ∧ shutdown_queue_ moved = shutdown_queue_ srv ∧
  features_ moved = [] ∧ features_ rhs = features_ srv ∧
  ∀ next_event w, Server_destroy next_event rhs w = (Ret tt, w).
Proof. done. Qed.

(** When a port cannot be bound, the constructor shuts the server down with a
    queue that was never registered with it: the core is asked to shut down and
    notify, and no registration of that queue came before, which gRPC requires. *)
Theorem server_bind_failure_unregistered {F}
  (add_to_config : F → config F → F * config F) (bind_port : string → Z)
  (register_method : list core_call → nat → string → bool → option nat)
  (next_event : list core_call → nat → event_type)
  (addr : string) (dq : list nat) (Hbind : bind_port addr = 0%Z) :
  let q := 0 in
  let s := 1 in
  ∃ o w rest, Server_init add_to_config bind_port register_method next_event
      (Config dq [] [Port addr None None] []) empty_core = (o, w) ∧
    core_calls w =
      [C_completion_queue_create q; C_server_create s; C_add_insecure_port s addr;
       C_server_shutdown_and_notify s q] ++ rest ∧
    (∀ srv, o ≠ Ret srv) ∧
    ∀ x, C_register_completion_queue s x ∉ core_calls w.
Proof.
  unfold Server_init, Server_add_listening_ports_, Server_add_listening_port, Server_cleanup_,
    fresh_handle, grpc_completion_queue_next, core_do. munfold. simpl. rewrite Hbind.
  munfold. simpl.
  match goal with |- context [bool_decide ?P] => destruct (bool_decide P) end; simpl.
  2:{ eexists _, _, []. split; [reflexivity|]. split; [done|]. split; [done|].
      intros x. simpl. rewrite !elem_of_cons, elem_of_nil. naive_solver. }
  match goal with |- context [bool_decide ?P] => destruct (bool_decide P) end; simpl.
  2:{ eexists _, _, [_]. split; [reflexivity|]. split; [done|]. split; [done|].
      intros x. simpl. rewrite !elem_of_cons, elem_of_nil. naive_solver. }
  eexists _, _, [_; _; _]. split; [reflexivity|]. split; [done|]. split; [done|].
  intros x. simpl. rewrite !elem_of_cons, elem_of_nil. naive_solver.
Qed.

(** *** A core, and a configuration, for the witnesses *)

Definition demo_bind (addr : string) : Z := if String.eqb addr "bad" then 0 else 50051.
Definition demo_register (cs : list core_call) (s : nat) (name : string) (payload : bool) :
  option nat := Some (length cs).
Definition demo_event (cs : list core_call) (q : nat) : event_type :=
  match last cs with
  | Some (C_completion_queue_shutdown _) => GRPC_QUEUE_SHUTDOWN
  | _ => GRPC_OP_COMPLETE
  end.
Definition demo_feature (f : unit) (c : config unit) : unit * config unit :=
  (f, add_service (add_method "/r/info" (FunctionTraits (T_Stream_future (T_value "Req"))
                     (T_Stream_future (T_value "Rep"))) [] (Service_config_init "r")) c).
Definition demo_config : config unit :=
  add_listening_port "localhost:0" None (Some 7)
    (add_service (add_method "/s/get" (FunctionTraits (T_value "Req") (T_Future (T_value "Rep")))
                    [] (Service_config_init "s"))
      (add_feature tt (add_default_listening_queues [100; 101; 100] Config_init))).

Lemma demo_registers : registers_new demo_register.
Proof. intros cs s name payload _. by eexists. Qed.
Lemma demo_notifies : shutdown_notifies demo_event.
Proof. intros cs s q _. unfold demo_event. by rewrite last_snoc. Qed.
Lemma demo_shuts_down : queue_shuts_down demo_event.
Proof. intros cs q. unfold demo_event. by rewrite last_snoc. Qed.
Lemma demo_startable : startable demo_feature demo_bind demo_config.
Proof. split; [done|]. split; [by repeat constructor|]. by apply (bool_decide_unpack _). Qed.

Lemma server_starts_listening_witness :
  ∃ srv w' (regs : list nat),
    Server_init demo_feature demo_bind demo_register demo_event demo_config empty_core
      = (Ret srv, w') ∧ impl_ srv = Some 1 ∧ length regs = 2 ∧ bound_ports w' = [(7, 50051%Z)].
Proof.
  destruct (server_starts_listening demo_feature demo_bind demo_register demo_event demo_config
    empty_core) as (srv & w' & regs & Hrun & Himpl & _ & _ & _ & Hlen & _ & _ & Hports).
  - exact demo_registers.
  - exact demo_startable.
  - by intros s name payload ?%elem_of_nil.
  - exists srv, w', regs. split; [exact Hrun|]. split; [exact Himpl|]. by split.
Defined.

Lemma all_dead (b : bool) : b ∈ [false; false; false; false] → b = false.
Proof. rewrite !elem_of_cons, elem_of_nil. naive_solver. Qed.

Lemma servers_destroyed_once_witness :
  let ops := [SV_construct demo_config; SV_move 0; SV_default; SV_assign 2 1; SV_assign 2 2;
              SV_construct demo_config; SV_assign 3 0; SV_destroy 0; SV_destroy 1;
              SV_destroy 2; SV_destroy 3] in
  ∃ w, for_each_in (run_server_op demo_feature demo_bind demo_register demo_event) ops
         (ServerVars empty_core []) = (Ret tt, w) ∧
    destroyed (core_calls (core w)) ≡ₚ created (core_calls (core w)).
Proof.
  intros ops.
  destruct (servers_destroyed_once demo_feature demo_bind demo_register demo_event ops)
    as (w & Hrun & _ & _ & Hall).
  - exact demo_registers.
  - exact demo_notifies.
  - exact demo_shuts_down.
  - repeat (first [exact demo_startable | exact I | reflexivity | split]).
  - exists w. split; [exact Hrun|]. apply Hall.
    change (foldl alive_after [] ops) with [false; false; false; false].
    exact all_dead.
Defined.

Lemma server_bind_failure_unregistered_witness :
  demo_bind "bad" = 0%Z ∧
  ∃ o w rest, Server_init demo_feature demo_bind demo_register demo_event
      (Config [100] [] [Port "bad" None None] []) empty_core = (o, w) ∧
    core_calls w =
      [C_completion_queue_create 0; C_server_create 1; C_add_insecure_port 1 "bad";
       C_server_shutdown_and_notify 1 0] ++ rest ∧
    (∀ srv, o ≠ Ret srv) ∧ ∀ x, C_register_completion_queue 1 x ∉ core_calls w.
Proof.
  split; [done|].
  apply (server_bind_failure_unregistered demo_feature demo_bind demo_register demo_event
           "bad" [100]). done.
Defined.
