(* ===== verification/Client.v ===== *)
(** What all client calls share: channels and stubs
    (include/easy_grpc/client/channel.h, unsecure_channel.h, method_stub.h,
    src/easy_grpc/client/unsecure_channel.cpp), the options of a call, and the
    promise of a reply. *)

From S2P Require Import Prelude Errors Effects FutureUtils FutureStorage Future Grpc.

(** ** Channels *)

(** [Channel]: the handle it owns, and the queue its calls use by default. *)
Record channel := Channel { handle_ : option nat; default_queue_ : option nat }.

(** The channels of the gRPC core: created, destroyed, and the registrations. *)
Record channel_core := ChannelCore {
  next_channel : nat;
  destroyed_channels : list nat;
  registered_calls : list (option nat * string)
}.

Definition Channel_default : channel := Channel None None.

(** [Unsecure_channel(addr, default_pool)]. *)
Definition Unsecure_channel_init (addr : string) (default_pool : nat) : M channel_core channel :=
  h ← gets next_channel;
  modify (λ c, ChannelCore (S (next_channel c)) (destroyed_channels c) (registered_calls c)) ;;
  mret (Channel (Some h) (Some default_pool)).

Definition Channel_destroy (c : channel) : M channel_core unit :=
  match handle_ c with
  | Some h => modify (λ w, ChannelCore (next_channel w) (destroyed_channels w ++ [h])
                             (registered_calls w))
  | None => mret tt
  end.

(** [register_method(name)]: the tag of the registration. *)
Definition Channel_register_method (name : string) (c : channel) : M channel_core nat :=
  tag ← gets (λ w, length (registered_calls w));
  modify (λ w, ChannelCore (next_channel w) (destroyed_channels w)
                 (registered_calls w ++ [(handle_ c, name)])) ;;
  mret tag.

(** The move constructor and assignment: the new left-hand side, and the
    right-hand side. *)
Definition Channel_move (rhs : channel) : channel * channel :=
  (Channel (handle_ rhs) (default_queue_ rhs), Channel None None).
Definition Channel_assign_move (lhs rhs : channel) : channel * channel :=
  (Channel (handle_ rhs) (default_queue_ rhs), Channel None None).

(** ** Stubs and options *)

Record call_options := CallOptions { completion_queue : option nat; deadline : option Z }.
Definition Call_options_init : call_options := CallOptions None None.

Record method_stub := MethodStub {
  channel_ : channel;
  stub_default_queue_ : option nat;
  tag_ : nat
}.

Definition Method_stub_init (method_name : string) (c : channel) (q : option nat) :
  M channel_core method_stub :=
  tag ← Channel_register_method method_name c;
  mret (MethodStub c (match q with Some q => Some q | None => default_queue_ c end) tag).

(** The options [operator()] passes on. *)
Definition Method_stub_options (s : method_stub) (options : call_options) : call_options :=
  match completion_queue options with
  | None => CallOptions (stub_default_queue_ s) (deadline options)
  | Some _ => options
  end.

(** ** Calls *)

(** What [grpc_channel_create_registered_call] was given. *)
Record registered_call := RegisteredCall {
  on_channel : option nat;
  with_tag : nat;
  on_queue : nat;
  with_deadline : option Z
}.

(** A client's call: how it was created, and the session that drives it. *)
Record client_call (X : Type) := ClientCall {
  created_with : option registered_call;
  session : X
}.
Arguments ClientCall {X} _ _.
Arguments created_with {X} _.
Arguments session {X} _.

(** A pointer to a buffer that the core writes: not initialised, null, or set. *)
Inductive buffer_slot := Uninitialised | Null_buffer | Buffer (b : byte_buffer).

(** What the core writes for [recv_message]. *)
Definition received_slot (o : option byte_buffer) : buffer_slot :=
  match o with Some b => Buffer b | None => Null_buffer end.

Section Calls.
Context {X : Type}.
Local Abbreviation world := (call_world (client_call X)).

Definition get_session : M world X := gets (λ w : world, session (obj w)).
Definition put_session (x : X) : M world unit :=
  modify_obj (λ c, ClientCall (created_with c) x).
Definition modify_session (f : X → X) : M world unit :=
  x ← get_session; put_session (f x).

(** [assert(options.completion_queue); call = grpc_channel_create_registered_call(...)]. *)
Definition create_call (ch : channel) (tag : nat) (options : call_options) : M world unit :=
  match completion_queue options with
  | None => crash_with Assertion_failed
  | Some q =>
      modify_obj (λ c, ClientCall (Some (RegisteredCall (handle_ ch) tag q (deadline options)))
                         (session c))
  end.

(** [if (recv_buffer_) grpc_byte_buffer_destroy(recv_buffer_)] *)
Definition release_slot (s : buffer_slot) : M world unit :=
  match s with
  | Uninitialised => crash_with Uninitialised_read
  | Null_buffer => mret tt
  | Buffer b => releases (Release_buffer b)
  end.

(** [deserialize<T>(recv_buffer_)]: a null buffer cannot be read. *)
Definition deserialize_slot {T} `{!Serializer T} (s : buffer_slot) : M world T :=
  match s with
  | Uninitialised => crash_with Uninitialised_read
  | Null_buffer => crash_with Null_dereference
  | Buffer b =>
      match deserialize b with
      | Some v => mret v
      | None => crash_with Assertion_failed
      end
  end.

(** The two metadata arrays and the call itself, in the destructors' order. *)
Definition release_metadata : M world unit :=
  releases Release_metadata ;; releases Release_metadata.
Definition unref_call : M world unit := releases Release_call.
End Calls.

(** A status read from an uninitialised member is a crash. *)
Definition read_member {S A} (o : option A) : M S A :=
  match o with Some a => mret a | None => crash_with Uninitialised_read end.

(** ** The promise of a reply *)

(** The state a [Promise<RepT>] shares with its future, and the program's own. *)
Record reply_world (RepT H U : Type) := ReplyWorld {
  reply_storage : future_storage RepT H;
  reply_client : U
}.
Arguments ReplyWorld {RepT H U} _ _.
Arguments reply_storage {RepT H U} _.
Arguments reply_client {RepT H U} _.

Section Reply.
Context {RepT H U : Type} `{!FutureHandler RepT H U}.
Local Abbreviation world := (reply_world RepT H U).

Definition set_reply_storage s (w : world) : world := ReplyWorld s (reply_client w).
Definition set_reply_client u (w : world) : world := ReplyWorld (reply_storage w) u.

Definition reply_init (u : U) : world := ReplyWorld Future_storage_init u.

(** An operation on the storage and the handler call it ends with. *)
Definition on_reply_storage (m : M (future_storage RepT H) (option (H * handler_call RepT))) :
  M world unit :=
  o ← zoom reply_storage set_reply_storage m;
  match o with
  | None => mret tt
  | Some (h, c) => zoom reply_client set_reply_client (run_call h c)
  end.

Definition reply_promise_check (p : promise) : M world unit :=
  massert (match storage_ p with Some _ => negb (value_assigned_ p) | None => false end).

(** [Promise<RepT>] on that state. *)
Definition Reply_promise_init : promise := Promise false false (Some 0).
Definition Reply_promise_get_future (p : promise) : M world promise :=
  massert (negb (future_created_ p)) ;;
  mret (Promise true (value_assigned_ p) (storage_ p)).
Definition Reply_promise_set_value (v : RepT) (p : promise) : M world promise :=
  reply_promise_check p ;;
  on_reply_storage (Future_storage_fullfill [Fval] [v]) ;;
  mret (promise_assigned p).
Definition Reply_promise_set_exception (e : exn) (p : promise) : M world promise :=
  reply_promise_check p ;;
  on_reply_storage (Future_storage_fail [Fval] e) ;;
  mret (promise_assigned p).
Definition Reply_promise_destroy (p : promise) : M world unit :=
  match storage_ p with
  | Some _ => when (negb (value_assigned_ p))
                (on_reply_storage (Future_storage_fail [Fval] Unfullfilled_promise))
  | None => mret tt
  end.

(** The program attaches its handler to the future. *)
Definition reply_attach (h : H) : M world unit :=
  on_reply_storage (Future_storage_set_handler h).
End Reply.

(** *** What the program sees of a reply *)

(** The result of a call, as its future's handler gets it. *)
Definition reply_result {RepT} (r : expected RepT) : finish_type RepT :=
  match r with Val v => [Val (Some v)] | Err e => [Err e] end.

Section ReplyLaws.
Context {RepT H U : Type} `{!FutureHandler RepT H U}.
Context (h : H) (Hfields : handler_fields h = [Fval]).

Definition waiting_reply : future_storage RepT H := FutureStorage (Some h) None 1.
Definition ready_reply (r : expected RepT) : future_storage RepT H :=
  FutureStorage None (Some (reply_result r)) 2.
Definition done_reply (r : expected RepT) : future_storage RepT H :=
  FutureStorage (Some h) (Some (reply_result r)) 3.

(** The promise gets its result. *)
Definition reply_settle (r : expected RepT) (p : promise) : M (reply_world RepT H U) promise :=
  match r with
  | Val v => Reply_promise_set_value v p
  | Err e => Reply_promise_set_exception e p
  end.

Lemma handler_fullfill_value v u :
  handler_fullfill h [v] u = handler_finish h [Val (Some v)] u.
Proof.
  rewrite handler_fullfill_finish; rewrite Hfields; [done|]. by unfold fullfill_ok.
Qed.

(** With a handler attached, it runs at once; otherwise the result is kept for the
    handler, which then runs when it is attached. *)
Lemma settle_waiting r u :
  reply_settle r (Promise true false (Some 0)) (ReplyWorld waiting_reply u) =
  match handler_finish h (reply_result r) u with
  | (Ret _, u') => (Ret (Promise true true None), ReplyWorld waiting_reply u')
  | (Throw e, u') => (Throw e, ReplyWorld waiting_reply u')
  | (Crash c, u') => (Crash c, ReplyWorld waiting_reply u')
  end.
Proof.
  destruct r as [v|e]; unfold reply_settle, Reply_promise_set_value,
    Reply_promise_set_exception, reply_promise_check, on_reply_storage,
    Future_storage_fullfill, Future_storage_fail, callback_deref, run_call; munfold; simpl.
  - rewrite handler_fullfill_value. by destruct (handler_finish h _ u) as [[]].
  - by destruct (handler_finish h _ u) as [[]].
Qed.

Lemma settle_empty r u :
  reply_settle r (Promise true false (Some 0)) (ReplyWorld Future_storage_init u) =
  (Ret (Promise true true None), ReplyWorld (ready_reply r) u).
Proof. by destruct r as [v|e]. Qed.

Lemma attach_ready r u :
  reply_attach h (ReplyWorld (ready_reply r) u) =
  match handler_finish h (reply_result r) u with
  | (o, u') => (o, ReplyWorld (done_reply r) u')
  end.
Proof. done. Qed.

Lemma attach_empty u :
  reply_attach h (ReplyWorld Future_storage_init u) = (Ret tt, ReplyWorld waiting_reply u).
Proof. done. Qed.
End ReplyLaws.

(** A handler that keeps what it is given, for the witnesses. *)
Definition reply_log (RepT : Type) : Type := list (finish_type RepT).
#[export] Instance reply_logger {RepT} : FutureHandler RepT unit (reply_log RepT).
Proof.
  refine {| handler_fields _ := [Fval];
            handler_fullfill _ v :=
              modify (λ log : reply_log RepT, log ++ [fullfill_to_finish [Fval] 0 v]);
            handler_finish _ f := modify (λ log : reply_log RepT, log ++ [f]) |}.
  done.
Defined.
