(* ===== verification/ClientUnary.v ===== *)
(** Unary calls of a client (include/easy_grpc/client/stub_impl.h,
    [Unary_call_completion] and [start_unary_call]). *)

From S2P Require Import Prelude Errors Effects FutureUtils FutureStorage Future Grpc.
From S2P Require Import CallHandler Client.

(** The members of [Unary_call_completion], with the state its promise shares with
    the program; the constructor initialises neither [recv_buffer_] nor what the
    core writes. *)
Record unary_completion (RepT H U : Type) := UnaryCompletion {
  uc_rep_ : promise;
  uc_reply : reply_world RepT H U;
  uc_recv_buffer_ : buffer_slot;
  uc_status_ : option grpc_status_code;
  uc_status_details_ : option string
}.
Arguments UnaryCompletion {RepT H U} _ _ _ _ _.
Arguments uc_rep_ {RepT H U} _.
Arguments uc_reply {RepT H U} _.
Arguments uc_recv_buffer_ {RepT H U} _.
Arguments uc_status_ {RepT H U} _.
Arguments uc_status_details_ {RepT H U} _.

Section Unary.
Context {ReqT RepT H U : Type} `{!Serializer ReqT, !Serializer RepT}.
Context `{!FutureHandler RepT H U}.
Context (accepts : list batch → list batch → list grpc_op → bool).
Local Abbreviation completion := (unary_completion RepT H U).
Local Abbreviation world := (call_world (client_call completion)).

Definition Unary_call_completion_init (u : U) : completion :=
  UnaryCompletion Reply_promise_init (reply_init u) Uninitialised None None.

Definition uc_set_rep (p : promise) : M world unit :=
  modify_session (λ x, UnaryCompletion p (uc_reply x) (uc_recv_buffer_ x) (uc_status_ x)
                         (uc_status_details_ x)).
Definition uc_set_reply (r : reply_world RepT H U) : M world unit :=
  modify_session (λ x, UnaryCompletion (uc_rep_ x) r (uc_recv_buffer_ x) (uc_status_ x)
                         (uc_status_details_ x)).

(** An operation of the promise [rep_]. *)
Definition on_uc_reply {A} (m : M (reply_world RepT H U) A) : M world A := λ w,
  match m (uc_reply (session (obj w))) with
  | (o, r) => match uc_set_reply r w with (_, w') => (o, w') end
  end.

(** The body, then the members. *)
Definition Unary_call_completion_destroy : M world unit :=
  release_metadata ;;
  x ← get_session;
  release_slot (uc_recv_buffer_ x) ;;
  unref_call ;;
  on_uc_reply (Reply_promise_destroy (uc_rep_ x)).

Definition Unary_call_completion_fail : M world unit :=
  x ← get_session;
  p ← on_uc_reply (Reply_promise_set_exception (error_internal "failed to start call") (uc_rep_ x));
  uc_set_rep p.

(** [exec]: the string of the details is freed. *)
Definition Unary_call_completion_exec (success : bool) (flags : Z) : M world bool :=
  x ← get_session;
  status ← read_member (uc_status_ x);
  (if decide (status = GRPC_STATUS_OK) then
     v ← deserialize_slot (uc_recv_buffer_ x);
     p ← on_uc_reply (Reply_promise_set_value v (uc_rep_ x));
     uc_set_rep p
   else
     str ← read_member (uc_status_details_ x);
     p ← on_uc_reply (Reply_promise_set_exception (Rpc_error status str) (uc_rep_ x));
     uc_set_rep p) ;;
  mret true.

Definition unary_ops (buffer : byte_buffer) : list grpc_op :=
  [GrpcOp 0 (GRPC_OP_SEND_INITIAL_METADATA []);
   GrpcOp 0 (GRPC_OP_SEND_MESSAGE buffer);
   GrpcOp 0 GRPC_OP_RECV_INITIAL_METADATA;
   GrpcOp 0 GRPC_OP_RECV_MESSAGE;
   GrpcOp 0 GRPC_OP_SEND_CLOSE_FROM_CLIENT;
   GrpcOp 0 GRPC_OP_RECV_STATUS_ON_CLIENT].

(** [start_unary_call], on a world that holds the new completion; the future it
    returns is the one that [rep_] feeds. *)
Definition start_unary_call (ch : channel) (tag : nat) (req : ReqT) (options : call_options) :
  M world unit :=
  create_call ch tag options ;;
  let buffer := serialize req in
  x ← get_session;
  p ← on_uc_reply (Reply_promise_get_future (uc_rep_ x));
  uc_set_rep p ;;
  status ← grpc_call_start_batch accepts (unary_ops buffer) 0;
  when (negb status)
    (Unary_call_completion_fail ;; delete_object Unary_call_completion_destroy) ;;
  releases (Release_buffer buffer).

(** [Method_stub::operator()]. *)
Definition Method_stub_call (s : method_stub) (req : ReqT) (options : call_options) :
  M world unit :=
  start_unary_call (channel_ s) (tag_ s) req (Method_stub_options s options).

(** The core completes the batch: it has written the reply, if there is one, and
    the status, and hands the completion to its queue. *)
Definition unary_core_writes (o : option byte_buffer) (status : grpc_status_code)
  (details : string) : M world unit :=
  modify_session (λ x, UnaryCompletion (uc_rep_ x) (uc_reply x) (received_slot o) (Some status)
                         (Some details)).

Definition unary_finishes (o : option byte_buffer) (status : grpc_status_code)
  (details : string) : M world unit :=
  unary_core_writes o status details ;;
  complete_batch Unary_call_completion_exec Unary_call_completion_destroy 0 true.

(** *** The life of a call *)

Definition unary_new (u : U) : world :=
  call_init (ClientCall None (Unary_call_completion_init u)).

(** What the core reports at the end of a call, and what it means: a reply that
    parses with the status OK, or another status, whatever was received. *)
Inductive core_outcome :
  option byte_buffer → grpc_status_code → string → expected RepT → Prop :=
| outcome_ok raw details v :
    deserialize raw = Some v → core_outcome (Some raw) GRPC_STATUS_OK details (Val v)
| outcome_error o status details :
    status ≠ GRPC_STATUS_OK → core_outcome o status details (Err (Rpc_error status details)).

Context (Haccepts : grpc_accepts_allowed accepts).

Lemma unary_ops_allowed buffer : batch_allowed [] [] (unary_ops buffer) = true.
Proof. by vm_compute. Qed.

(** The state once the call has started, the program's handler attached or not. *)
Definition unary_started (created : registered_call) (req : ReqT)
  (rep : future_storage RepT H) (u : U) : world :=
  CallWorld (ClientCall (Some created) (UnaryCompletion (Promise true false (Some 0))
               (ReplyWorld rep u) Uninitialised None None))
    [Batch (unary_ops (serialize req)) 0] [Batch (unary_ops (serialize req)) 0]
    [Release_buffer (serialize req)] 0 false.

Ltac unfold_uc :=
  unfold on_uc_reply, uc_set_rep, uc_set_reply, modify_session, get_session, put_session,
    modify_obj, set_obj, releases; munfold; simpl.

Lemma start_unary_runs ch tag req options q u :
  completion_queue options = Some q →
  start_unary_call ch tag req options (unary_new u) =
  (Ret tt, unary_started (RegisteredCall (handle_ ch) tag q (deadline options)) req
             Future_storage_init u).
Proof.
  intros Hq. unfold start_unary_call, create_call. rewrite Hq.
  unfold grpc_call_start_batch, Reply_promise_get_future. unfold_uc.
  by rewrite (Haccepts _ _ _ (unary_ops_allowed _)).
Qed.

(** What is freed at the end of a call. *)
Definition unary_released (req : ReqT) (o : option byte_buffer) : list release :=
  [Release_buffer (serialize req); Release_metadata; Release_metadata] ++
  (match o with Some raw => [Release_buffer raw] | None => [] end) ++ [Release_call].

(** The call is over: [u] is the program's state. *)
Definition unary_over (created : registered_call) (req : ReqT) (o : option byte_buffer)
  (u : U) (w : world) : Prop :=
  created_with (obj w) = Some created ∧ reply_client (uc_reply (session (obj w))) = u ∧
  inflight w = [] ∧ started w = [Batch (unary_ops (serialize req)) 0] ∧ deleted w = true ∧
  released w = unary_released req o.

(** Completing, with the promise settling from [rep] to [rep']. *)
Lemma unary_finishes_runs created req rep rep' o status details r u u' :
  core_outcome o status details r →
  reply_settle r (Promise true false (Some 0)) (ReplyWorld rep u) =
    (Ret (Promise true true None), ReplyWorld rep' u') →
  ∃ w, unary_finishes o status details (unary_started created req rep u) = (Ret tt, w) ∧
    unary_over created req o u' w ∧ reply_storage (uc_reply (session (obj w))) = rep'.
Proof.
  intros Hout Hset. unfold unary_finishes, unary_core_writes, complete_batch,
    Unary_call_completion_exec, delete_object, Unary_call_completion_destroy,
    release_metadata, unref_call. unfold_uc.
  destruct Hout as [raw details v Hraw|o status details Hst].
  - unfold reply_settle in Hset. simpl. rewrite Hraw. unfold_uc. rewrite Hset. unfold_uc.
    eexists. split; [reflexivity|]. by repeat split.
  - rewrite decide_False by done. unfold reply_settle in Hset. unfold_uc. rewrite Hset.
    unfold_uc. destruct o as [raw|]; simpl; unfold_uc;
      (eexists; split; [reflexivity|]; by repeat split).
Qed.

(** The program attaches its handler. *)
Definition unary_attach (h : H) : M world unit := on_uc_reply (reply_attach h).
End Unary.

(** A unary call of a client.  The call is created on the stub's channel, with
    its tag, and on the queue of the options, or else of the stub; one batch holds
    the whole call.  When it completes, the program's future gets the reply if the
    status is OK, and the status with its details as an [Rpc_error] otherwise;
    this holds whether the program attached its handler before or after, and the
    handler runs once.  Everything is then released, once, and the completion
    deleted. *)
Theorem unary_client_gets_result {ReqT RepT H U}
  `{!Serializer ReqT, !Serializer RepT, !FutureHandler RepT H U}
  (accepts : list batch → list batch → list grpc_op → bool)
  (Haccepts : grpc_accepts_allowed accepts)
  (stub : method_stub) (options : call_options) (q : nat) (req : ReqT)
  (h : H) (Hfields : handler_fields h = [Fval]) (u u' : U)
  (o : option byte_buffer) (status : grpc_status_code) (details : string)
  (r : expected RepT) (before : bool)
  (Hq : completion_queue (Method_stub_options stub options) = Some q)
  (Hout : core_outcome o status details r)
  (Hhandler : handler_finish h (reply_result r) u = (Ret tt, u')) :
  ∃ w, (Method_stub_call (H:=H) accepts stub req options ;;
        when before (unary_attach h) ;;
        unary_finishes o status details ;;
        when (negb before) (unary_attach h)) (unary_new u) = (Ret tt, w) ∧
    unary_over (RegisteredCall (handle_ (channel_ stub)) (tag_ stub) q (deadline options))
      req o u' w.
Proof.
  assert (deadline (Method_stub_options stub options) = deadline options) as Hd.
  { unfold Method_stub_options. by destruct (completion_queue options). }
  set (created := RegisteredCall (handle_ (channel_ stub)) (tag_ stub) q (deadline options)).
  assert (runs (Method_stub_call accepts stub req options) (unary_new u) tt
            (unary_started created req Future_storage_init u)) as Hstart.
  { unfold Method_stub_call, created. rewrite <- Hd. by apply start_unary_runs. }
  destruct before.
  - destruct (unary_finishes_runs created req (waiting_reply h) (waiting_reply h) o status
      details r u u' Hout) as (w & Hrun & Hover & _).
    { by rewrite (settle_waiting h Hfields), Hhandler. }
    exists w. split; [|done]. eapply runs_bind; [exact Hstart|].
    eapply (runs_bind _ _ _ tt (unary_started created req (waiting_reply h) u)); [done|].
    by eapply runs_bind; [exact Hrun|].
  - destruct (unary_finishes_runs created req Future_storage_init (ready_reply r) o status
      details r u u Hout (settle_empty r u)) as (w & Hrun & Hover & Hst).
    destruct w as [[c [p [st u0] slot s d]] inf strt rel n del]. simpl in *. subst st.
    destruct Hover as (Hc & Hu & Hrest). simpl in *. subst u0.
    eexists. split.
    + eapply runs_bind; [exact Hstart|]. eapply runs_bind; [reflexivity|].
      eapply runs_bind; [exact Hrun|]. unfold runs, unary_attach, on_uc_reply. simpl.
      rewrite attach_ready, Hhandler. reflexivity.
    + repeat split; apply Hrest || done.
Qed.

Lemma unary_client_gets_result_witness :
  ∃ w, (Method_stub_call (RepT:=Byte.byte) (H:=unit) (U:=reply_log Byte.byte) batch_allowed
          (MethodStub (Channel (Some 1) (Some 2)) (Some 3) 4) Byte.x07 Call_options_init ;;
        when false (unary_attach tt) ;;
        unary_finishes (Some (ByteBuffer true [[Byte.x2a]])) GRPC_STATUS_OK "" ;;
        when true (unary_attach tt)) (unary_new []) = (Ret tt, w) ∧
    unary_over (RegisteredCall (Some 1) 4 3 None) Byte.x07
      (Some (ByteBuffer true [[Byte.x2a]])) [[Val (Some Byte.x2a)]] w.
Proof.
  apply (unary_client_gets_result (FutureHandler0:=reply_logger) batch_allowed batch_allowed_accepts
    (MethodStub (Channel (Some 1) (Some 2)) (Some 3) 4) Call_options_init 3 Byte.x07 tt eq_refl
    [] [[Val (Some Byte.x2a)]] (Some (ByteBuffer true [[Byte.x2a]])) GRPC_STATUS_OK ""
    (Val Byte.x2a) false).
  - reflexivity.
  - by constructor.
  - reflexivity.
Defined.

(** When the core refuses the batch, the call's future fails, and then deleting
    the completion reads [recv_buffer_], which was never initialised. *)
Theorem unary_client_refused_uninitialised {ReqT RepT H U}
  `{!Serializer ReqT, !Serializer RepT, !FutureHandler RepT H U}
  (accepts : list batch → list batch → list grpc_op → bool)
  (stub : method_stub) (options : call_options) (req : ReqT) (u : U)
  (Hrefused : accepts [] [] (unary_ops (serialize req)) = false)
  (Hq : is_Some (completion_queue (Method_stub_options stub options))) :
  ∃ w, Method_stub_call (RepT:=RepT) (H:=H) accepts stub req options (unary_new u)
       = (Crash Uninitialised_read, w) ∧
    reply_storage (uc_reply (session (obj w))) =
      ready_reply (Err (error_internal "failed to start call")).
Proof.
  destruct Hq as [q Hq]. unfold Method_stub_call, start_unary_call, create_call.
  rewrite Hq. unfold grpc_call_start_batch, Reply_promise_get_future, on_uc_reply, uc_set_rep,
    uc_set_reply, modify_session, get_session, put_session, modify_obj, set_obj. munfold. simpl.
  rewrite Hrefused. simpl. by eexists.
Qed.

Lemma unary_client_refused_uninitialised_witness :
  ∃ w, Method_stub_call (RepT:=Byte.byte) (H:=unit) (U:=reply_log Byte.byte) (λ _ _ _, false)
         (MethodStub (Channel (Some 1) (Some 2)) (Some 3) 4) Byte.x07 Call_options_init
         (unary_new []) = (Crash Uninitialised_read, w) ∧
    reply_storage (uc_reply (session (obj w))) =
      ready_reply (Err (error_internal "failed to start call")).
Proof.
  apply (unary_client_refused_uninitialised (λ _ _ _, false)
    (MethodStub (Channel (Some 1) (Some 2)) (Some 3) 4) Call_options_init Byte.x07 []).
  - reflexivity.
  - by exists 3.
Defined.
