(* ===== verification/ClientReader.v ===== *)
(** A client that reads a stream of replies (include/easy_grpc/client/stub_impl.h,
    [Streaming_call_session] and [start_server_streaming_call]). *)

From S2P Require Import Prelude Errors Effects FutureUtils FutureStorage Future Grpc.
From S2P Require Import StreamStorage StreamLaws CallHandler Client.

(** The members of [Streaming_call_session], with the stream its promise feeds. *)
Record streaming_session (RepT H U : Type) := StreamingSession {
  reply_stream_promise_ : bool;
  reply_stream : stream_world RepT H U;
  st_recv_buffer_ : buffer_slot;
  finishing_ : bool;
  st_status_ : option grpc_status_code;
  st_status_details_ : option string
}.
Arguments StreamingSession {RepT H U} _ _ _ _ _ _.
Arguments reply_stream_promise_ {RepT H U} _.
Arguments reply_stream {RepT H U} _.
Arguments st_recv_buffer_ {RepT H U} _.
Arguments finishing_ {RepT H U} _.
Arguments st_status_ {RepT H U} _.
Arguments st_status_details_ {RepT H U} _.

Section Reader.
Context {ReqT RepT H U : Type} `{!Serializer ReqT, !Serializer RepT}.
Context `{!FutureHandler unit H U}.
(** The callback the program gives to [for_each]. *)
Context (on_reply : RepT → M U unit).
Context (accepts : list batch → list batch → list grpc_op → bool).
Local Abbreviation ssession := (streaming_session RepT H U).
Local Abbreviation world := (call_world (client_call ssession)).

Definition Streaming_call_session_init (sw : stream_world RepT H U) : ssession :=
  StreamingSession Basic_stream_promise_init sw Null_buffer false None None.

Definition st_set_promise p : M world unit :=
  modify_session (λ x : ssession, StreamingSession p (reply_stream x) (st_recv_buffer_ x)
    (finishing_ x) (st_status_ x) (st_status_details_ x)).
Definition st_set_stream s : M world unit :=
  modify_session (λ x : ssession, StreamingSession (reply_stream_promise_ x) s
    (st_recv_buffer_ x) (finishing_ x) (st_status_ x) (st_status_details_ x)).
Definition st_set_buffer b : M world unit :=
  modify_session (λ x : ssession, StreamingSession (reply_stream_promise_ x) (reply_stream x) b
    (finishing_ x) (st_status_ x) (st_status_details_ x)).
Definition st_set_finishing : M world unit :=
  modify_session (λ x : ssession, StreamingSession (reply_stream_promise_ x) (reply_stream x)
    (st_recv_buffer_ x) true (st_status_ x) (st_status_details_ x)).

(** An operation of the promise, which keeps or gives up its storage. *)
Definition on_reply_stream {A} (m : M (stream_world RepT H U) A) : M world A := λ w,
  match m (reply_stream (session (obj w))) with
  | (o, s) => match st_set_stream s w with (_, w') => (o, w') end
  end.
Definition with_stream_promise (f : bool → M (stream_world RepT H U) bool) : M world unit :=
  x ← get_session;
  p ← on_reply_stream (f (reply_stream_promise_ x));
  st_set_promise p.

Definition Streaming_call_session_destroy : M world unit :=
  release_metadata ;;
  x ← get_session;
  release_slot (st_recv_buffer_ x) ;;
  unref_call ;;
  on_reply_stream (Basic_stream_promise_destroy on_reply (reply_stream_promise_ x)).

Definition recv_message_ops : list grpc_op := [GrpcOp 0 GRPC_OP_RECV_MESSAGE].
Definition close_ops : list grpc_op :=
  [GrpcOp 0 GRPC_OP_SEND_CLOSE_FROM_CLIENT; GrpcOp 0 GRPC_OP_RECV_STATUS_ON_CLIENT].

Definition Streaming_call_session_exec (success : bool) (flags : Z) : M world bool :=
  x ← get_session;
  let all_done := finishing_ x in
  (if negb all_done then
     match st_recv_buffer_ x with
     | Uninitialised => crash_with Uninitialised_read
     | Buffer data =>
         st_set_buffer Null_buffer ;;
         call_status ← grpc_call_start_batch accepts recv_message_ops 0;
         massert call_status ;;
         v ← deserialize_slot (Buffer data);
         with_stream_promise (λ p, Basic_stream_promise_push on_reply p v) ;;
         releases (Release_buffer data)
     | Null_buffer =>
         st_set_finishing ;;
         call_status ← grpc_call_start_batch accepts close_ops 0;
         massert call_status
     end
   else
     status ← read_member (st_status_ x);
     if decide (status = GRPC_STATUS_OK) then
       with_stream_promise (Basic_stream_promise_complete on_reply)
     else
       str ← read_member (st_status_details_ x);
       with_stream_promise (λ p,
         Basic_stream_promise_set_exception on_reply p (Rpc_error status str))) ;;
  mret all_done.

Definition reader_ops (buffer : byte_buffer) : list grpc_op :=
  [GrpcOp 0 (GRPC_OP_SEND_INITIAL_METADATA []);
   GrpcOp 0 (GRPC_OP_SEND_MESSAGE buffer);
   GrpcOp 0 GRPC_OP_RECV_INITIAL_METADATA;
   GrpcOp 0 GRPC_OP_RECV_MESSAGE].

(** [start_server_streaming_call] up to its last line, and that line: the stream's
    shared state is allocated by [get_future], when the batch is already running. *)
Definition start_server_streaming_begin (ch : channel) (tag : nat) (req : ReqT)
  (options : call_options) : M world unit :=
  create_call ch tag options ;;
  let send_buffer := serialize req in
  status ← grpc_call_start_batch accepts (reader_ops send_buffer) 0;
  when (negb status)
    (with_stream_promise (λ p, Basic_stream_promise_set_exception on_reply p
       (error_internal "failed to start call"))) ;;
  releases (Release_buffer send_buffer).

Definition start_server_streaming_get_future : M world unit :=
  with_stream_promise Basic_stream_promise_get_future.

Definition start_server_streaming_call (ch : channel) (tag : nat) (req : ReqT)
  (options : call_options) : M world unit :=
  start_server_streaming_begin ch tag req options ;;
  start_server_streaming_get_future.

(** What happens to the call: the program attaches to the stream, a message or the
    end of the messages is received, the status is. *)
Inductive reader_event :=
| R_attach (q : queue) (h : H)
| R_received (o : option byte_buffer)
| R_status (status : grpc_status_code) (details : string).

Definition reader_complete : M world unit :=
  complete_batch Streaming_call_session_exec Streaming_call_session_destroy 0 true.

Definition run_reader_event (ev : reader_event) : M world unit :=
  match ev with
  | R_attach q h =>
      with_stream_promise (run_stream_event on_reply (E_attach q h))
  | R_received o => st_set_buffer (received_slot o) ;; reader_complete
  | R_status status details =>
      modify_session (λ x : ssession, StreamingSession (reply_stream_promise_ x) (reply_stream x)
        (st_recv_buffer_ x) (finishing_ x) (Some status) (Some details)) ;;
      reader_complete
  end.

(** *** What the program's stream sees *)

Context (Haccepts : grpc_accepts_allowed accepts).

(** Where a call is. *)
Inductive reader_phase := R_receiving | R_closing | R_over.

Definition next_reader_phase (ev : reader_event) (ph : reader_phase) : reader_phase :=
  match ev, ph with
  | R_received None, _ => R_closing
  | R_status _ _, _ => R_over
  | _, ph => ph
  end.

(** Messages that parse, their end, then the status; the program attaches when it
    likes. *)
Definition reader_legal (ph : reader_phase) (ev : reader_event) : Prop :=
  match ev with
  | R_attach _ _ => True
  | R_received None => ph = R_receiving
  | R_received (Some raw) => ph = R_receiving ∧ is_Some (deserialize (T:=RepT) raw)
  | R_status _ _ => ph = R_closing
  end.

Fixpoint readers_legal (ph : reader_phase) (evs : list reader_event) : Prop :=
  match evs with
  | [] => True
  | ev :: evs => reader_legal ph ev ∧ readers_legal (next_reader_phase ev ph) evs
  end.

Definition reader_stream_events (ev : reader_event) : list (stream_event RepT H) :=
  match ev with
  | R_attach q h => [E_attach q h]
  | R_received None => []
  | R_received (Some raw) =>
      match deserialize raw with Some v => [E_push v] | None => [] end
  | R_status status details =>
      [E_end (if decide (status = GRPC_STATUS_OK) then None
              else Some (Rpc_error status details))]
  end.

Definition reader_messages (ev : reader_event) : list byte_buffer :=
  match ev with R_received (Some raw) => [raw] | _ => [] end.

(** The session in each phase, after the messages [raws]. *)
Definition reader_batches (req : ReqT) (n : nat) : list batch :=
  Batch (reader_ops (serialize req)) 0 :: replicate n (Batch recv_message_ops 0).
#[local] Arguments reader_batches : simpl never.

Definition reader_state (created : registered_call) (req : ReqT) (raws : list byte_buffer)
  (ph : reader_phase) (sw : stream_world RepT H U) (w : world) : Prop :=
  let close := Batch close_ops 0 in
  let bs := reader_batches req (length raws) in
  ∃ st det, obj w = ClientCall (Some created) (StreamingSession
      (match ph with R_over => false | _ => true end) sw Null_buffer
      (match ph with R_receiving => false | _ => true end) st det) ∧
    started w = bs ++ (match ph with R_receiving => [] | _ => [close] end) ∧
    (match ph with
     | R_receiving => ∃ b, b ∈ bs ∧ inflight w = [b]
     | R_closing => inflight w = [close]
     | R_over => inflight w = []
     end) ∧
    deleted w = (match ph with R_over => true | _ => false end) ∧
    released w = [Release_buffer (serialize req)] ++ (Release_buffer <$> raws) ++
      (match ph with R_over => [Release_metadata; Release_metadata; Release_call] | _ => [] end).

Definition reader_prom (ph : reader_phase) : bool := match ph with R_over => false | _ => true end.

Lemma reader_batches_kinds req n x :
  x ∈ kinds_of (reader_batches req n) → x = 0 ∨ x = 1 ∨ x = 4 ∨ x = 5.
Proof.
  unfold reader_batches. intros (b & Hb & Hx)%kinds_of_elem_inv.
  apply elem_of_cons in Hb as [->|Hb].
  - simpl in Hx. rewrite !elem_of_cons, elem_of_nil in Hx. naive_solver.
  - apply elem_of_replicate in Hb as [-> _]. simpl in Hx.
    apply list_elem_of_singleton in Hx as ->. auto.
Qed.

Lemma reader_batches_S req n :
  reader_batches req (S n) = reader_batches req n ++ [Batch recv_message_ops 0].
Proof. unfold reader_batches. by rewrite replicate_S_end. Qed.

Lemma close_allowed req n : batch_allowed [] (reader_batches req n) close_ops = true.
Proof.
  apply allowed_intro; simpl.
  - by apply (bool_decide_unpack _).
  - intros x _. by apply not_elem_of_nil.
  - intros x Hx. right. intros Hk. apply reader_batches_kinds in Hk.
    rewrite !elem_of_cons, elem_of_nil in Hx. naive_solver.
  - rewrite !elem_of_cons, elem_of_nil. naive_solver.
Qed.

Lemma reader_recv_allowed strt : batch_allowed [] strt recv_message_ops = true.
Proof. unfold batch_allowed. by rewrite bool_decide_true by apply NoDup_singleton. Qed.

Ltac unfold_st :=
  unfold with_stream_promise, on_reply_stream, st_set_promise, st_set_stream, st_set_buffer,
    st_set_finishing, modify_session, get_session, put_session, modify_obj, set_obj, releases;
  munfold; simpl.

(** A message. *)
Lemma reader_message created req raws sw sw' w raw (v : RepT) :
  reader_state created req raws R_receiving sw w → deserialize raw = Some v →
  Basic_stream_promise_push on_reply true v sw = (Ret true, sw') →
  ∃ w', run_reader_event (R_received (Some raw)) w = (Ret tt, w') ∧
    reader_state created req (raws ++ [raw]) R_receiving sw' w'.
Proof.
  intros (st & det & Hobj & Hst & (b & Hb & Hinf) & Hdel & Hrel) Hraw Hpush.
  destruct w as [o inf strt rel c d]. cbn [obj started inflight deleted released] in *.
  subst o inf strt rel d. unfold run_reader_event, reader_complete, complete_batch,
    Streaming_call_session_exec. unfold_st.
  rewrite (start_batch_runs accepts _ _ _ Haccepts) by apply reader_recv_allowed. simpl.
  rewrite Hraw. unfold_st. rewrite Hpush. unfold_st.
  eexists. split; [reflexivity|]. exists st, det. split; [done|].
  split; [|split; [|split]]; cbn [obj started inflight deleted released]; try done.
  - by rewrite !app_nil_r, length_app, Nat.add_1_r, reader_batches_S.
  - eexists. split; [|reflexivity]. rewrite length_app, Nat.add_1_r, reader_batches_S.
    apply elem_of_app. right. by constructor.
  - by rewrite fmap_app, !app_nil_r.
Qed.

(** The end of the messages: the client half-closes and asks for the status. *)
Lemma reader_no_message created req raws sw w :
  reader_state created req raws R_receiving sw w →
  ∃ w', run_reader_event (R_received None) w = (Ret tt, w') ∧
    reader_state created req raws R_closing sw w'.
Proof.
  intros (st & det & Hobj & Hst & (b & Hb & Hinf) & Hdel & Hrel).
  destruct w as [o inf strt rel c d]. simpl in *.
  subst o inf strt rel d. unfold run_reader_event, reader_complete, complete_batch,
    Streaming_call_session_exec. unfold_st.
  rewrite (start_batch_runs accepts _ _ _ Haccepts) by (rewrite app_nil_r; apply close_allowed).
  eexists. split; [reflexivity|]. exists st, det. split; [done|]. by rewrite app_nil_r.
Qed.

(** The status. *)
Lemma reader_status created req raws sw sw' w status details :
  reader_state created req raws R_closing sw w →
  run_stream_event on_reply (E_end (if decide (status = GRPC_STATUS_OK) then None
    else Some (Rpc_error status details))) true sw = (Ret false, sw') →
  ∃ w', run_reader_event (R_status status details) w = (Ret tt, w') ∧
    reader_state created req raws R_over sw' w'.
Proof.
  intros (st & det & Hobj & Hst & Hinf & Hdel & Hrel) Hend.
  destruct w as [o inf strt rel c d]. simpl in *. subst o inf strt rel d.
  unfold run_reader_event, reader_complete, complete_batch, Streaming_call_session_exec,
    delete_object, Streaming_call_session_destroy, release_metadata, unref_call. unfold_st.
  destruct (decide (status = GRPC_STATUS_OK)); simpl in Hend; unfold_st; rewrite Hend; unfold_st.
  all: eexists; split; [reflexivity|]; exists (Some status), (Some details).
  all: split; [done|]; split; [done|]; split; [done|]; split; [done|].
  all: simpl; by rewrite app_nil_r, <- !app_assoc.
Qed.

Lemma reader_attach created req raws ph sw sw' w q h p :
  reader_state created req raws ph sw w →
  run_stream_event on_reply (E_attach q h) (reader_prom ph) sw = (Ret p, sw') →
  ∃ w', run_reader_event (R_attach q h) w = (Ret tt, w') ∧
    reader_state created req raws ph sw' w'.
Proof.
  intros (st & det & Hobj & Hrest) Hatt. pose proof (attach_keeps_promise _ _ _ _ _ _ _ Hatt) as ->.
  destruct w as [o inf strt rel c d]. cbn [obj started inflight deleted released] in *.
  subst o.
  unfold run_reader_event. revert Hatt. generalize (run_stream_event on_reply (E_attach q h)).
  intros m Hatt. unfold reader_prom in Hatt. unfold_st. rewrite Hatt. eexists. split; [reflexivity|]. exists st, det. by split.
Qed.

(** Any legal event. *)
Lemma reader_step created req raws ph sw sw' w ev p :
  reader_state created req raws ph sw w → reader_legal ph ev →
  run_stream on_reply (reader_stream_events ev) (reader_prom ph) sw = (Ret p, sw') →
  p = reader_prom (next_reader_phase ev ph) ∧
  ∃ w', run_reader_event ev w = (Ret tt, w') ∧
    reader_state created req (raws ++ reader_messages ev) (next_reader_phase ev ph) sw' w'.
Proof.
  intros Hst Hleg Hrun. destruct ev as [q h|[raw|]|status details]; simpl in Hleg.
  - apply run_stream_single in Hrun. cbn [reader_messages next_reader_phase].
    rewrite app_nil_r. split; [by eapply attach_keeps_promise|]. by eapply reader_attach.
  - destruct Hleg as [-> [v Hraw]]. cbn [reader_stream_events] in Hrun. rewrite Hraw in Hrun.
    apply run_stream_single in Hrun. pose proof (push_keeps_promise _ _ _ _ _ _ Hrun) as ->.
    split; [done|]. by eapply reader_message.
  - subst ph. injection Hrun as <- <-. split; [done|]. cbn [reader_messages].
    rewrite app_nil_r. by eapply reader_no_message.
  - subst ph. apply run_stream_single in Hrun. cbn [reader_messages]. rewrite app_nil_r.
    assert (p = false) as ->.
    { unfold run_stream_event in Hrun. destruct (decide _).
      - by eapply complete_ends_promise.
      - apply runs_bind_inv in Hrun as (? & ? & _ & Hrun).
        apply runs_bind_inv in Hrun as (? & ? & _ & Hrun). by injection Hrun as <- _. }
    split; [done|]. by eapply reader_status.
Qed.

Lemma readers_run created req evs : ∀ raws ph sw w p sw',
  reader_state created req raws ph sw w → readers_legal ph evs →
  run_stream on_reply (evs ≫= reader_stream_events) (reader_prom ph) sw = (Ret p, sw') →
  ∃ w', for_each_in run_reader_event evs w = (Ret tt, w') ∧
    reader_state created req (raws ++ (evs ≫= reader_messages))
      (foldl (λ ph ev, next_reader_phase ev ph) ph evs) sw' w'.
Proof.
  induction evs as [|ev evs IH]; intros raws ph sw w p sw' Hst Hleg Hrun.
  - injection Hrun as <- <-. exists w. simpl. by rewrite app_nil_r.
  - destruct Hleg as [Hleg Hlegs]. rewrite bind_cons in Hrun.
    rewrite (run_stream_app on_reply _ _ _ sw) in Hrun.
    apply runs_bind_inv in Hrun as (p1 & sw1 & Hrun1 & Hrun2).
    destruct (reader_step _ _ _ _ _ _ _ _ _ Hst Hleg Hrun1) as (-> & w1 & Hw1 & Hst1).
    destruct (IH _ _ _ _ _ _ Hst1 Hlegs Hrun2) as (w2 & Hw2 & Hst2).
    exists w2. cbn [for_each_in]. unfold mbind, M_bind. rewrite Hw1, Hw2. split; [done|].
    rewrite bind_cons, app_assoc. exact Hst2.
Qed.

(** A call that starts, with the program's stream not allocated yet. *)
Definition reader_new (sw : stream_world RepT H U) : world :=
  call_init (ClientCall None (Streaming_call_session_init sw)).
Definition fresh_stream (sw : stream_world RepT H U) : stream_world RepT H U :=
  set_final Future_storage_init (set_stream Stream_storage_init sw).

Lemma start_reader_runs ch tag req options q sw :
  completion_queue options = Some q →
  ∃ w, start_server_streaming_call ch tag req options (reader_new sw) = (Ret tt, w) ∧
    reader_state (RegisteredCall (handle_ ch) tag q (deadline options)) req [] R_receiving
      (fresh_stream sw) w.
Proof.
  intros Hq. unfold start_server_streaming_call, start_server_streaming_begin,
    start_server_streaming_get_future, create_call. rewrite Hq.
  unfold_st. rewrite (start_batch_runs accepts _ _ _ Haccepts) by (by vm_compute).
  unfold_st. eexists. split; [reflexivity|]. exists None, None. split; [done|].
  split; [done|]. split; [|done]. eexists. split; [|reflexivity]. by constructor.
Qed.
End Reader.
Arguments reader_event : clear implicits.

(** A client that reads a stream of replies.  The program's stream sees exactly
    the messages received, in order, wherever the program attaches to it, and
    ends, with success, or with the call's status as an [Rpc_error]; one receive
    is pending at a time; the client half-closes and asks for the status after the
    last message; then every buffer has been released once and the session is
    deleted. *)
Theorem client_reader_delivers {ReqT RepT H U}
  `{!Serializer ReqT, !Serializer RepT, !FutureHandler unit H U}
  (on_reply : RepT → M U unit)
  (accepts : list batch → list batch → list grpc_op → bool)
  (Haccepts : grpc_accepts_allowed accepts)
  (ch : channel) (tag q : nat) (req : ReqT) (options : call_options)
  (sw sw' : stream_world RepT H U) (p : bool) (evs : list (reader_event H))
  (Hq : completion_queue options = Some q)
  (Hlegal : readers_legal (RepT:=RepT) R_receiving evs)
  (Hstream : run_stream on_reply (evs ≫= reader_stream_events) true (fresh_stream sw)
             = (Ret p, sw')) :
  let raws := evs ≫= reader_messages in
  ∃ w, (start_server_streaming_call on_reply accepts ch tag req options ;;
        for_each_in (run_reader_event on_reply accepts) evs) (reader_new sw) = (Ret tt, w) ∧
    reply_stream (session (obj w)) = sw' ∧
    created_with (obj w) = Some (RegisteredCall (handle_ ch) tag q (deadline options)) ∧
    length (inflight w) ≤ 1 ∧
    started w `prefix_of` reader_batches req (length raws) ++ [Batch close_ops 0] ∧
    (foldl (λ ph ev, next_reader_phase ev ph) R_receiving evs = R_over →
     started w = reader_batches req (length raws) ++ [Batch close_ops 0] ∧
     inflight w = [] ∧ deleted w = true ∧
     released w = [Release_buffer (serialize req)] ++ (Release_buffer <$> raws) ++
       [Release_metadata; Release_metadata; Release_call]).
Proof.
  intros raws.
  destruct (start_reader_runs on_reply accepts Haccepts ch tag req options q sw Hq)
    as (w1 & Hrun1 & Hst1).
  destruct (readers_run on_reply accepts Haccepts _ req evs [] R_receiving _ w1 p sw' Hst1
              Hlegal Hstream) as (w2 & Hrun2 & st & det & Hobj & Hstarted & Hinf & Hdel & Hrel).
  exists w2. split; [by eapply runs_bind|]. rewrite Hobj. split; [done|]. split; [done|].
  set (ph := foldl _ _ _) in *. split; [|split].
  - destruct ph; [destruct Hinf as (b & _ & ->)|rewrite Hinf..]; simpl; lia.
  - rewrite Hstarted. destruct ph; [|done..]. rewrite app_nil_r. by eexists.
  - intros ->. done.
Qed.

Lemma client_reader_delivers_witness :
  ∃ w, (start_server_streaming_call (λ b : Byte.byte, modify (λ l, l ++ [inl b])) batch_allowed
          (Channel (Some 1) None) 4 Byte.x07 (CallOptions (Some 3) None) ;;
        for_each_in (run_reader_event (λ b, modify (λ l, l ++ [inl b])) batch_allowed)
          [R_received (Some (ByteBuffer true [[Byte.x01]])); R_attach Immediate_queue tt;
           R_received (Some (ByteBuffer true [[Byte.x02]])); R_received None;
           R_status GRPC_STATUS_ABORTED "stop"])
         (reader_new (StreamWorld Stream_storage_init Future_storage_init [] [])) = (Ret tt, w) ∧
    client (reply_stream (session (obj w))) =
      [inl Byte.x01; inl Byte.x02; inr [Err (Rpc_error GRPC_STATUS_ABORTED "stop")]].
Proof.
  pose (evs := [R_received (Some (ByteBuffer true [[Byte.x01]])); R_attach Immediate_queue tt;
           R_received (Some (ByteBuffer true [[Byte.x02]])); R_received None;
           R_status GRPC_STATUS_ABORTED "stop"] : list (reader_event unit)).
  pose (sw := StreamWorld Stream_storage_init Future_storage_init [] []
              : stream_world Byte.byte unit (list (Byte.byte + finish_type unit))).
  pose (cb := λ b : Byte.byte, modify (λ l : list (Byte.byte + finish_type unit), l ++ [inl b])).
  destruct (client_reader_delivers cb batch_allowed batch_allowed_accepts (Channel (Some 1) None)
    4 3 Byte.x07 (CallOptions (Some 3) None) sw
    (snd (run_stream cb (evs ≫= reader_stream_events) true (fresh_stream sw))) false evs)
    as (w & Hrun & Hsw & _).
  - reflexivity.
  - repeat split; first [done | by eexists].
  - reflexivity.
  - exists w. split; [exact Hrun|]. rewrite Hsw. reflexivity.
Defined.

(** The shared state of the stream is allocated by [get_future], after the batch
    was started: a message that is received before that finds a promise without
    a state, and asserts. *)
Theorem client_reader_early_message_asserts {ReqT RepT H U}
  `{!Serializer ReqT, !Serializer RepT, !FutureHandler unit H U}
  (on_reply : RepT → M U unit)
  (accepts : list batch → list batch → list grpc_op → bool)
  (Haccepts : grpc_accepts_allowed accepts)
  (ch : channel) (tag q : nat) (req : ReqT) (options : call_options)
  (sw : stream_world RepT H U) (raw : byte_buffer) (v : RepT)
  (Hq : completion_queue options = Some q) (Hraw : deserialize raw = Some v) :
  ∃ w, (start_server_streaming_begin on_reply accepts ch tag req options ;;
        run_reader_event on_reply accepts (R_received (Some raw)) ;;
        start_server_streaming_get_future) (reader_new sw) = (Crash Assertion_failed, w).
Proof.
  unfold start_server_streaming_begin, create_call. rewrite Hq.
  unfold run_reader_event, reader_complete, complete_batch, Streaming_call_session_exec,
    with_stream_promise, on_reply_stream, st_set_promise, st_set_stream, st_set_buffer,
    modify_session, get_session, put_session, modify_obj, set_obj, releases. munfold. simpl.
  rewrite (start_batch_runs accepts _ _ _ Haccepts) by (by vm_compute). munfold. simpl.
  rewrite (start_batch_runs accepts _ _ _ Haccepts) by apply reader_recv_allowed. simpl.
  rewrite Hraw. munfold. simpl. by eexists.
Qed.

Lemma client_reader_early_message_asserts_witness :
  ∃ w, (start_server_streaming_begin (RepT:=Byte.byte) (H:=unit)
          (λ b : Byte.byte, modify (λ l : list (Byte.byte + finish_type unit), l ++ [inl b]))
          batch_allowed (Channel (Some 1) None) 4 Byte.x07 (CallOptions (Some 3) None) ;;
        run_reader_event (λ b, modify (λ l, l ++ [inl b])) batch_allowed
          (R_received (Some (ByteBuffer true [[Byte.x01]]))) ;;
        start_server_streaming_get_future)
         (reader_new (StreamWorld Stream_storage_init Future_storage_init [] []))
       = (Crash Assertion_failed, w).
Proof.
  apply (client_reader_early_message_asserts
    (λ b : Byte.byte, modify (λ l : list (Byte.byte + finish_type unit), l ++ [inl b]))
    batch_allowed batch_allowed_accepts (Channel (Some 1) None) 4 3 Byte.x07
    (CallOptions (Some 3) None) (StreamWorld Stream_storage_init Future_storage_init [] [])
    (ByteBuffer true [[Byte.x01]]) Byte.x01); reflexivity.
Defined.
