(* ===== verification/ClientWriter.v ===== *)
(** A client that writes a stream of requests and gets one reply
    (include/easy_grpc/client/stub_impl.h, [Client_streaming_call_session] and
    [start_client_streaming_call]). *)

From S2P Require Import Prelude Errors Effects FutureUtils FutureStorage Future Grpc.
From S2P Require Import StreamStorage StreamLaws CallHandler Client.

(** The members of [Client_streaming_call_session]; the request stream is the world
    around the session. *)
Record writer_session (RepT H U : Type) := WriterSession {
  cw_mtx_ : bool;
  cw_batch_in_flight_ : bool;
  cw_finished_ : bool;
  cw_end_sent_ : bool;
  cw_rep_ : promise;
  cw_reply : reply_world RepT H U;
  cw_recv_buffer_ : buffer_slot;
  cw_status_ : option grpc_status_code;
  cw_status_details_ : option string;
  cw_pending_ops_ : list grpc_op
}.
Arguments WriterSession {RepT H U} _ _ _ _ _ _ _ _ _ _.
Arguments cw_mtx_ {RepT H U} _.
Arguments cw_batch_in_flight_ {RepT H U} _.
Arguments cw_finished_ {RepT H U} _.
Arguments cw_end_sent_ {RepT H U} _.
Arguments cw_rep_ {RepT H U} _.
Arguments cw_reply {RepT H U} _.
Arguments cw_recv_buffer_ {RepT H U} _.
Arguments cw_status_ {RepT H U} _.
Arguments cw_status_details_ {RepT H U} _.
Arguments cw_pending_ops_ {RepT H U} _.

Section Writer.
Context {ReqT RepT H U : Type} `{!Serializer ReqT, !Serializer RepT}.
Context `{!FutureHandler RepT H U}.
Context (accepts : list batch → list batch → list grpc_op → bool).
Local Abbreviation wsession := (writer_session RepT H U).
Local Abbreviation world := (call_world (client_call wsession)).

Definition Client_streaming_call_session_init (u : U) : wsession :=
  WriterSession false false false false Reply_promise_init (reply_init u) Uninitialised
    None None [].

Definition cw_set_mtx b : M world unit :=
  modify_session (λ x : wsession, WriterSession b (cw_batch_in_flight_ x) (cw_finished_ x)
    (cw_end_sent_ x) (cw_rep_ x) (cw_reply x) (cw_recv_buffer_ x) (cw_status_ x)
    (cw_status_details_ x) (cw_pending_ops_ x)).
Definition cw_set_in_flight b : M world unit :=
  modify_session (λ x : wsession, WriterSession (cw_mtx_ x) b (cw_finished_ x)
    (cw_end_sent_ x) (cw_rep_ x) (cw_reply x) (cw_recv_buffer_ x) (cw_status_ x)
    (cw_status_details_ x) (cw_pending_ops_ x)).
Definition cw_set_finished : M world unit :=
  modify_session (λ x : wsession, WriterSession (cw_mtx_ x) (cw_batch_in_flight_ x) true
    (cw_end_sent_ x) (cw_rep_ x) (cw_reply x) (cw_recv_buffer_ x) (cw_status_ x)
    (cw_status_details_ x) (cw_pending_ops_ x)).
Definition cw_set_end_sent : M world unit :=
  modify_session (λ x : wsession, WriterSession (cw_mtx_ x) (cw_batch_in_flight_ x)
    (cw_finished_ x) true (cw_rep_ x) (cw_reply x) (cw_recv_buffer_ x) (cw_status_ x)
    (cw_status_details_ x) (cw_pending_ops_ x)).
Definition cw_set_rep p : M world unit :=
  modify_session (λ x : wsession, WriterSession (cw_mtx_ x) (cw_batch_in_flight_ x)
    (cw_finished_ x) (cw_end_sent_ x) p (cw_reply x) (cw_recv_buffer_ x) (cw_status_ x)
    (cw_status_details_ x) (cw_pending_ops_ x)).
Definition cw_set_reply r : M world unit :=
  modify_session (λ x : wsession, WriterSession (cw_mtx_ x) (cw_batch_in_flight_ x)
    (cw_finished_ x) (cw_end_sent_ x) (cw_rep_ x) r (cw_recv_buffer_ x) (cw_status_ x)
    (cw_status_details_ x) (cw_pending_ops_ x)).
Definition cw_set_pending q : M world unit :=
  modify_session (λ x : wsession, WriterSession (cw_mtx_ x) (cw_batch_in_flight_ x)
    (cw_finished_ x) (cw_end_sent_ x) (cw_rep_ x) (cw_reply x) (cw_recv_buffer_ x)
    (cw_status_ x) (cw_status_details_ x) q).
(** What the core writes with the last batch. *)
Definition cw_core_writes (o : option byte_buffer) (status : grpc_status_code)
  (details : string) : M world unit :=
  modify_session (λ x : wsession, WriterSession (cw_mtx_ x) (cw_batch_in_flight_ x)
    (cw_finished_ x) (cw_end_sent_ x) (cw_rep_ x) (cw_reply x) (received_slot o)
    (Some status) (Some details) (cw_pending_ops_ x)).

(** An operation of the promise of the reply. *)
Definition on_cw_reply {A} (m : M (reply_world RepT H U) A) : M world A := λ w,
  match m (cw_reply (session (obj w))) with
  | (o, r) => match cw_set_reply r w with (_, w') => (o, w') end
  end.
Definition with_rep (f : promise → M (reply_world RepT H U) promise) : M world unit :=
  x ← get_session;
  p ← on_cw_reply (f (cw_rep_ x));
  cw_set_rep p.

(** [std::lock_guard l(mtx_)] around a body. *)
Definition cw_with_lock {A} (m : M world A) : M world A :=
  x ← get_session;
  if cw_mtx_ x then crash_with Deadlock else
  cw_set_mtx true ;;
  a ← try_catch m (λ e, cw_set_mtx false ;; throw e);
  cw_set_mtx false ;;
  mret a.

Definition Client_streaming_flush_ : M world unit :=
  x ← get_session;
  if cw_batch_in_flight_ x then mret tt
  else
    cw_set_in_flight true ;;
    match cw_pending_ops_ x with
    | [] => crash_with Null_dereference
    | op :: rest =>
        cw_set_pending rest ;;
        massert (match op_data_ op with GRPC_OP_SEND_MESSAGE _ => true | _ => false end) ;;
        status ← grpc_call_start_batch accepts [op] 0;
        massert status ;;
        match op_data_ op with
        | GRPC_OP_SEND_MESSAGE b => releases (Release_buffer b)
        | _ => mret tt
        end
    end.

Definition writer_end_ops : list grpc_op :=
  [GrpcOp 0 GRPC_OP_SEND_CLOSE_FROM_CLIENT; GrpcOp 0 GRPC_OP_RECV_MESSAGE;
   GrpcOp 0 GRPC_OP_RECV_STATUS_ON_CLIENT].

Definition Client_streaming_send_end : M world unit :=
  status ← grpc_call_start_batch accepts writer_end_ops 0;
  massert status ;;
  cw_set_end_sent.

(** The two closures given to the request stream. *)
Definition Client_streaming_request (req : ReqT) : M world unit :=
  cw_with_lock (
    let op := op_send_message (serialize req) in
    x ← get_session;
    cw_set_pending (cw_pending_ops_ x ++ [op]) ;;
    Client_streaming_flush_).

(** The second takes an [expected<void>] that has no name: an error of the request
    stream ends it like its completion. *)
Definition Client_streaming_finished (f : finish_type unit) : M world unit :=
  match f with
  | [_] =>
      cw_with_lock (
        cw_set_finished ;;
        x ← get_session;
        when (negb (cw_batch_in_flight_ x)) Client_streaming_send_end)
  | _ => crash_with Assertion_failed
  end.

Definition Client_streaming_call_session_exec (success : bool) (flags : Z) : M world bool :=
  cw_with_lock (
    cw_set_in_flight false ;;
    x ← get_session;
    match cw_pending_ops_ x with
    | _ :: _ => Client_streaming_flush_ ;; mret false
    | [] =>
        if cw_finished_ x then
          if cw_end_sent_ x then
            status ← read_member (cw_status_ x);
            (if decide (status = GRPC_STATUS_OK) then
               v ← deserialize_slot (cw_recv_buffer_ x);
               with_rep (Reply_promise_set_value v)
             else
               str ← read_member (cw_status_details_ x);
               with_rep (Reply_promise_set_exception (Rpc_error status str))) ;;
            mret true
          else Client_streaming_send_end ;; mret false
        else mret false
    end).

(** [assert(pending_ops_.empty())], and the members after the body. *)
Definition Client_streaming_call_session_destroy : M world unit :=
  x ← get_session;
  massert (match cw_pending_ops_ x with [] => true | _ => false end) ;;
  release_metadata ;;
  release_slot (cw_recv_buffer_ x) ;;
  unref_call ;;
  on_cw_reply (Reply_promise_destroy (cw_rep_ x)).

Definition writer_handler : FutureHandler unit unit world.
Proof.
  refine {| handler_fields _ := [Fvoid];
            handler_fullfill _ v := Client_streaming_finished (fullfill_to_finish [Fvoid] 0 v);
            handler_finish _ f := Client_streaming_finished f |}.
  done.
Defined.
#[local] Existing Instance writer_handler.

Definition writer_metadata_ops : list grpc_op :=
  [GrpcOp 0 (GRPC_OP_SEND_INITIAL_METADATA []); GrpcOp 0 GRPC_OP_RECV_INITIAL_METADATA].

(** The constructor, in two parts: the first batch is started, its result ignored,
    before the flag is set, and without the mutex. *)
Definition Client_streaming_session_begin : M world unit :=
  status ← grpc_call_start_batch accepts writer_metadata_ops 0;
  mret tt.

Local Abbreviation system := (stream_world ReqT unit world).

Definition Client_streaming_session_end : M system unit :=
  zoom client set_client (cw_set_in_flight true) ;;
  req_ ← Basic_stream_promise_get_future Basic_stream_promise_init;
  Basic_stream_future_for_each Client_streaming_request true Immediate_queue ;;
  stream_finally tt.

(** [start_client_streaming_call]: it returns the promise of the requests and the
    future of the reply. *)
Definition start_client_streaming_call (ch : channel) (tag : nat) (options : call_options) :
  M system unit :=
  zoom client set_client (create_call ch tag options ;; Client_streaming_session_begin) ;;
  Client_streaming_session_end ;;
  zoom client set_client (with_rep Reply_promise_get_future).

(** *** What happens to a call *)

(** The program writes, ends its requests (with success or not), attaches to the
    reply; the batch in flight completes, the last one with what was received. *)
Inductive writer_event :=
| W_push (v : ReqT)
| W_end (r : option exn)
| W_attach (h : H)
| W_sent
| W_done (o : option byte_buffer) (status : grpc_status_code) (details : string).

Definition writer_complete : M world unit :=
  complete_batch Client_streaming_call_session_exec Client_streaming_call_session_destroy 0 true.

Definition writer_sent : M world unit := λ w,
  match inflight w with
  | [Batch ops _] => if decide (ops = writer_end_ops) then (Ret tt, w) else writer_complete w
  | _ => (Ret tt, w)
  end.

Definition writer_done (o : option byte_buffer) (status : grpc_status_code)
  (details : string) : M world unit :=
  cw_core_writes o status details ;; writer_complete.

Definition run_writer_event (ev : writer_event) : M system unit :=
  match ev with
  | W_push v => Stream_storage_push (H:=unit) Client_streaming_request v
  | W_end None => Stream_storage_complete (H:=unit) Client_streaming_request
  | W_end (Some e) => Stream_storage_fail (H:=unit) Client_streaming_request e
  | W_attach h => zoom client set_client (on_cw_reply (reply_attach h))
  | W_sent => zoom client set_client writer_sent
  | W_done o status details => zoom client set_client (writer_done o status details)
  end.
End Writer.
