(* ===== verification/ClientWriterLaws.v ===== *)
(** The client's stream of requests under every interleaving with the completions of
    its batches: requests leave in order, one batch at a time, then the end, and
    the reply is delivered once.  The constructor's race with its first
    completion. *)

From S2P Require Import Prelude Errors Effects FutureUtils FutureStorage Future Grpc.
From S2P Require Import StreamStorage StreamLaws CallHandler Client ClientUnary ClientWriter.

Ltac unfold_cw :=
  unfold cw_with_lock, cw_set_mtx, cw_set_in_flight, cw_set_finished, cw_set_end_sent,
    cw_set_rep, cw_set_reply, cw_set_pending, cw_core_writes, on_cw_reply, with_rep,
    modify_session, get_session, put_session, modify_obj, set_obj, releases; munfold; simpl.

Section Laws.
Context {ReqT RepT H U : Type} `{!Serializer ReqT, !Serializer RepT}.
Context `{!FutureHandler RepT H U}.
Context (accepts : list batch → list batch → list grpc_op → bool).
Context (Haccepts : grpc_accepts_allowed accepts).
Local Abbreviation world := (call_world (client_call (writer_session RepT H U))).

(** *** The batches of a call *)

Definition cw_send_op (v : ReqT) : grpc_op := op_send_message (serialize v).
Definition cw_message_batch (v : ReqT) : batch := Batch [cw_send_op v] 0.
Definition cw_metadata_batch : batch := Batch writer_metadata_ops 0.
Definition cw_end_batch : batch := Batch writer_end_ops 0.
Definition cw_batches (vs : list ReqT) : list batch :=
  cw_metadata_batch :: (cw_message_batch <$> vs) ++ [cw_end_batch].

Lemma cw_kinds vs x :
  x ∈ kinds_of (cw_metadata_batch :: (cw_message_batch <$> vs)) → x = 0 ∨ x = 4 ∨ x = 1.
Proof.
  intros (b & Hb & Hx)%kinds_of_elem_inv. apply elem_of_cons in Hb as [->|Hb].
  - simpl in Hx. rewrite !elem_of_cons, elem_of_nil in Hx. naive_solver.
  - apply list_elem_of_fmap in Hb as (v & -> & _). simpl in Hx.
    apply list_elem_of_singleton in Hx as ->. auto.
Qed.

Lemma cw_message_allowed vs v :
  batch_allowed [] (cw_metadata_batch :: (cw_message_batch <$> vs)) [cw_send_op v] = true.
Proof.
  apply allowed_intro; cbn [fmap list_fmap op_kind op_data_ cw_send_op op_send_message].
  - apply NoDup_singleton.
  - intros x _. by apply not_elem_of_nil.
  - intros x ->%list_elem_of_singleton. by left.
  - intros _. split; intros Hk%cw_kinds; naive_solver.
Qed.

Lemma cw_end_allowed vs :
  batch_allowed [] (cw_metadata_batch :: (cw_message_batch <$> vs)) writer_end_ops = true.
Proof.
  apply allowed_intro; cbn [fmap list_fmap op_kind op_data_ writer_end_ops].
  - by apply (bool_decide_unpack _).
  - intros x _. by apply not_elem_of_nil.
  - intros x Hx. rewrite !elem_of_cons, elem_of_nil in Hx.
    destruct Hx as [->|[->|[->|[]]]]; [right|by left|right]; intros Hk%cw_kinds; naive_solver.
  - rewrite !elem_of_cons, elem_of_nil. naive_solver.
Qed.

(** *** The states of a call *)

Inductive cw_phase := W_sending (b : batch) | W_idle | W_ending.

Section State.
Context (created : registered_call) (rw : reply_world RepT H U).

Definition cw_session (mt infl fin ending : bool) (q : list grpc_op) : writer_session RepT H U :=
  WriterSession mt infl fin ending (Promise true false (Some 0)) rw Uninitialised None None q.

Definition cw_call (x : writer_session RepT H U) (inf st : list batch) (vs : list ReqT) : world :=
  CallWorld (ClientCall (Some created) x) inf st (Release_buffer ∘ serialize <$> vs) 0 false.

(** [vs] were written, [k] of them were sent, [fin] says whether they ended. *)
Definition cw_state (vs : list ReqT) (k : nat) (fin : bool) (ph : cw_phase) : world :=
  cw_call (cw_session false (match ph with W_sending _ => true | _ => false end) fin
             (match ph with W_ending => true | _ => false end) (cw_send_op <$> drop k vs))
    (match ph with W_sending b => [b] | W_idle => [] | W_ending => [cw_end_batch] end)
    (cw_metadata_batch :: (cw_message_batch <$> take k vs) ++
       match ph with W_ending => [cw_end_batch] | _ => [] end)
    (take k vs).

Definition cw_phase_ok (vs : list ReqT) (k : nat) (fin : bool) (ph : cw_phase) : Prop :=
  k ≤ length vs ∧
  match ph with
  | W_sending b => batch_ops b ≠ writer_end_ops
  | W_idle => k = length vs ∧ fin = false
  | W_ending => k = length vs ∧ fin = true
  end.

Lemma cw_flush mt vs k fin v :
  vs !! k = Some v →
  Client_streaming_flush_ accepts
    (cw_call (cw_session mt false fin false (cw_send_op <$> drop k vs)) []
       (cw_metadata_batch :: (cw_message_batch <$> take k vs)) (take k vs)) =
  (Ret tt, cw_call (cw_session mt true fin false (cw_send_op <$> drop (S k) vs))
     [cw_message_batch v]
     (cw_metadata_batch :: (cw_message_batch <$> take (S k) vs)) (take (S k) vs)).
Proof.
  intros Hv. unfold Client_streaming_flush_, cw_call, cw_session.
  rewrite (drop_S_cons _ _ _ Hv), (take_S_r _ _ _ Hv), !fmap_app.
  cbn [fmap list_fmap]. unfold_cw. unfold grpc_call_start_batch. simpl.
  pose proof (Haccepts _ _ _ (cw_message_allowed (take k vs) v)) as Hacc.
  simpl in Hacc. rewrite Hacc. done.
Qed.

Lemma cw_send_end mt vs fin q rel :
  Client_streaming_send_end accepts
    (cw_call (cw_session mt false fin false q) []
       (cw_metadata_batch :: (cw_message_batch <$> vs)) rel) =
  (Ret tt, cw_call (cw_session mt false fin true q) [cw_end_batch]
     (cw_metadata_batch :: (cw_message_batch <$> vs) ++ [cw_end_batch]) rel).
Proof.
  unfold Client_streaming_send_end, cw_call, cw_session, grpc_call_start_batch. unfold_cw.
  pose proof (Haccepts _ _ _ (cw_end_allowed vs)) as Hacc. simpl in Hacc. by rewrite Hacc.
Qed.

Lemma cw_push_step vs k fin ph v :
  cw_phase_ok vs k fin ph → fin = false →
  ∃ k' ph', Client_streaming_request accepts v (cw_state vs k fin ph) =
      (Ret tt, cw_state (vs ++ [v]) k' fin ph') ∧ cw_phase_ok (vs ++ [v]) k' fin ph'.
Proof.
  intros [Hk Hph] Hfin. destruct ph as [b| |]; [| |by destruct Hph; congruence].
  - exists k, (W_sending b). unfold Client_streaming_request, cw_state. unfold_cw.
    unfold Client_streaming_flush_. unfold_cw.
    rewrite drop_app_le, fmap_app, take_app_le by done. split; [done|].
    split; [rewrite length_app; lia|done].
  - destruct Hph as [-> _]. exists (S (length vs)), (W_sending (cw_message_batch v)).
    assert ((vs ++ [v]) !! length vs = Some v) as Hv
      by (rewrite lookup_app_r by lia; by rewrite Nat.sub_diag).
    split; [|split; [rewrite length_app; simpl; lia|done]].
    pose proof (cw_flush true (vs ++ [v]) (length vs) fin v Hv) as Hfl.
    rewrite drop_app_length, take_app_length in Hfl.
    unfold Client_streaming_request, cw_state, cw_call in *. unfold_cw.
    rewrite drop_all, firstn_all, ?app_nil_r. simpl in Hfl |- *.
    change (op_send_message (serialize v)) with (cw_send_op v).
    unfold cw_session in Hfl |- *. rewrite Hfl. simpl. by rewrite ?app_nil_r.
Qed.

Lemma cw_end_step vs k ph (f : finish_elt unit) :
  cw_phase_ok vs k false ph →
  ∃ ph', Client_streaming_finished accepts [f] (cw_state vs k false ph) =
      (Ret tt, cw_state vs k true ph') ∧ cw_phase_ok vs k true ph'.
Proof.
  intros [Hk Hph]. destruct ph as [b| |]; [| |by destruct Hph; congruence].
  - exists (W_sending b). unfold Client_streaming_finished, cw_state, cw_call, cw_session.
    unfold_cw. by split.
  - destruct Hph as [-> _]. exists W_ending. split; [|done].
    pose proof (cw_send_end true vs true [] (take (length vs) vs)) as Hend.
    unfold Client_streaming_finished, cw_state, cw_call, cw_session in *. unfold_cw.
    rewrite drop_all, firstn_all, app_nil_r in *. simpl in *. by rewrite Hend.
Qed.

Definition cw_left (vs : list ReqT) (k : nat) (ph : cw_phase) : nat :=
  match ph with W_sending _ => length vs - k + 1 | _ => 0 end.

Lemma cw_sent_step vs k fin ph :
  cw_phase_ok vs k fin ph →
  ∃ k' ph', writer_sent accepts (cw_state vs k fin ph) = (Ret tt, cw_state vs k' fin ph') ∧
    cw_phase_ok vs k' fin ph' ∧ cw_left vs k' ph' ≤ pred (cw_left vs k ph).
Proof.
  intros [Hk Hph]. destruct ph as [b| |].
  2:{ exists k, W_idle. by repeat split; try apply Hph. }
  2:{ exists k, W_ending. split; [done|]. by repeat split; try apply Hph. }
  assert (writer_sent accepts (cw_state vs k fin (W_sending b)) =
          writer_complete accepts (cw_state vs k fin (W_sending b))) as ->.
  { unfold writer_sent, cw_state, cw_call. simpl. destruct b as [ops fl]. simpl in Hph.
    by rewrite decide_False. }
  unfold writer_complete, complete_batch, cw_state at 1, cw_call, cw_session.
  unfold Client_streaming_call_session_exec. simpl. unfold_cw.
  rewrite app_nil_r. destruct (decide (k = length vs)) as [->|Hne].
  - rewrite drop_all, firstn_all. simpl. destruct fin; unfold_cw.
    + exists (length vs), W_ending. pose proof (cw_send_end true vs true [] vs) as Hend.
      unfold cw_call, cw_session in Hend. rewrite Hend. simpl. split; [|split; [done|simpl; lia]].
      unfold cw_state, cw_call, cw_session. by rewrite drop_all, firstn_all.
    + exists (length vs), W_idle. split; [|split; [done|simpl; lia]].
      unfold cw_state, cw_call, cw_session. by rewrite drop_all, firstn_all, app_nil_r.
  - destruct (lookup_lt_is_Some_2 vs k) as [v Hv]; [lia|].
    exists (S k), (W_sending (cw_message_batch v)).
    pose proof (cw_flush true vs k fin v Hv) as Hfl. unfold cw_call, cw_session in Hfl.
    rewrite (drop_S_cons _ _ _ Hv) in Hfl |- *. simpl in Hfl |- *. rewrite Hfl. simpl.
    apply lookup_lt_Some in Hv. split; [|split; [split; [lia|done]|simpl; lia]].
    unfold cw_state, cw_call, cw_session. simpl. by rewrite app_nil_r.
Qed.
End State.

(** *** The last completion *)

(** The call is over; [u] is the program's state. *)
Definition cw_over (created : registered_call) (vs : list ReqT) (o : option byte_buffer) (u : U)
  (w : world) : Prop :=
  created_with (obj w) = Some created ∧ reply_client (cw_reply (session (obj w))) = u ∧
  inflight w = [] ∧ started w = cw_batches vs ∧ deleted w = true ∧
  released w = (Release_buffer ∘ serialize <$> vs) ++ [Release_metadata; Release_metadata] ++
    (match o with Some raw => [Release_buffer raw] | None => [] end) ++ [Release_call].

Lemma cw_done_step created vs h u u' o status details (r : expected RepT) :
  handler_fields h = [Fval] → core_outcome o status details r →
  handler_finish h (reply_result r) u = (Ret tt, u') →
  ∃ w, writer_done accepts o status details
         (cw_state created (ReplyWorld (waiting_reply h) u) vs (length vs) true W_ending)
       = (Ret tt, w) ∧ cw_over created vs o u' w.
Proof.
  intros Hfields Hout Hh.
  pose proof (settle_waiting h Hfields r u) as Hset. rewrite Hh in Hset.
  unfold writer_done, writer_complete, complete_batch, Client_streaming_call_session_exec,
    delete_object, Client_streaming_call_session_destroy, release_metadata, unref_call,
    cw_state, cw_call, cw_session.
  rewrite drop_all, firstn_all. unfold_cw.
  destruct Hout as [raw details v Hraw|o status details Hst].
  - unfold reply_settle in Hset. simpl. rewrite Hraw. unfold_cw. rewrite Hset. unfold_cw.
    eexists. split; [reflexivity|]. repeat split. simpl. by rewrite <- !app_assoc.
  - rewrite decide_False by done. unfold reply_settle in Hset. unfold_cw. rewrite Hset.
    unfold_cw. destruct o as [raw|]; simpl; unfold_cw;
      (eexists; split; [reflexivity|]; repeat split; simpl; by rewrite <- !app_assoc).
Qed.

(** *** The call together with the program's request stream *)

Local Abbreviation system := (stream_world ReqT unit world).
#[local] Instance cw_end_handler : FutureHandler unit unit world := writer_handler accepts.

(** The program's writes, the end of them, and completions of what was sent. *)
Fixpoint cw_legal (fin : bool) (evs : list (writer_event (ReqT:=ReqT) (H:=H))) : Prop :=
  match evs with
  | [] => True
  | W_push _ :: evs => fin = false ∧ cw_legal fin evs
  | W_end _ :: evs => fin = false ∧ cw_legal true evs
  | W_sent :: evs => cw_legal fin evs
  | W_attach _ :: _ | W_done _ _ _ :: _ => False
  end.

Definition cw_written (evs : list (writer_event (ReqT:=ReqT) (H:=H))) : list ReqT :=
  omap (λ ev, match ev with W_push v => Some v | _ => None end) evs.
Definition cw_ended (fin : bool) (evs : list (writer_event (ReqT:=ReqT) (H:=H))) : bool :=
  fin || existsb (λ ev, match ev with W_end _ => true | _ => false end) evs.

Lemma cw_run created rw evs : ∀ (s : system) vs k fin ph,
  (fin = false → attached_to tt s) → client s = cw_state created rw vs k fin ph →
  cw_phase_ok vs k fin ph → cw_legal fin evs →
  ∃ s' k' ph', for_each_in (run_writer_event accepts) evs s = (Ret tt, s') ∧
    client s' = cw_state created rw (vs ++ cw_written evs) k' (cw_ended fin evs) ph' ∧
    cw_phase_ok (vs ++ cw_written evs) k' (cw_ended fin evs) ph'.
Proof.
  unfold cw_ended.
  induction evs as [|[v|r|h| |o st det] evs IH]; intros s vs k fin ph Hat Hc Hph Hleg;
    [| | |by destruct Hleg| |by destruct Hleg].
  - exists s, k, ph. simpl. by rewrite app_nil_r, orb_false_r.
  - destruct Hleg as [-> Hleg].
    destruct (cw_push_step created rw vs k false ph v Hph eq_refl) as (k1 & ph1 & Hrun & Hph1).
    cbn [for_each_in]. unfold mbind, M_bind. cbn [run_writer_event].
    rewrite (attached_push (Client_streaming_request accepts) tt v s (Hat eq_refl)).
    unfold zoom. rewrite Hc, Hrun.
    destruct (IH (set_client (cw_state created rw (vs ++ [v]) k1 false ph1) s) _ _ _ _
                (λ _, attached_set_client tt _ s (Hat eq_refl)) eq_refl Hph1 Hleg)
      as (s2 & k2 & ph2 & Hrun2 & Hc2 & Hph2).
    rewrite <- app_assoc in Hc2, Hph2. by exists s2, k2, ph2.
  - destruct Hleg as [-> Hleg].
    destruct (cw_end_step created rw vs k ph
      (match r with None => Val None | Some e => Err e end) Hph) as (ph1 & Hrun & Hph1).
    rewrite <- Hc in Hrun.
    assert (∃ s1, run_writer_event accepts (W_end r) s = (Ret tt, s1) ∧
              client s1 = cw_state created rw vs k true ph1) as (s1 & Hrun1 & Hc1).
    { destruct r as [e|].
      - by apply (attached_fail (FutureHandler0:=cw_end_handler)
          (Client_streaming_request accepts) tt e _ s (Hat eq_refl)).
      - by apply (attached_complete (FutureHandler0:=cw_end_handler)
          (Client_streaming_request accepts) tt eq_refl _ s (Hat eq_refl)). }
    destruct (IH s1 vs k true ph1 ltac:(done) Hc1 Hph1 Hleg)
      as (s2 & k2 & ph2 & Hrun2 & Hc2 & Hph2).
    exists s2, k2, ph2. cbn [for_each_in]. unfold mbind, M_bind. by rewrite Hrun1, Hrun2.
  - destruct (cw_sent_step created rw vs k fin ph Hph) as (k1 & ph1 & Hrun & Hph1 & _).
    cbn [for_each_in]. unfold mbind, M_bind. cbn [run_writer_event]. unfold zoom.
    rewrite Hc, Hrun.
    destruct (IH (set_client (cw_state created rw vs k1 fin ph1) s) _ _ _ _
                (λ Hf, attached_set_client tt _ s (Hat Hf)) eq_refl Hph1 Hleg)
      as (s2 & k2 & ph2 & Hrun2 & Hc2 & Hph2). by exists s2, k2, ph2.
Qed.

Lemma cw_complete_all created rw vs n : ∀ k ph,
  cw_phase_ok vs k true ph → cw_left vs k ph ≤ n →
  for_each_in (λ _ : unit, writer_sent accepts) (replicate n tt) (cw_state created rw vs k true ph)
  = (Ret tt, cw_state created rw vs (length vs) true W_ending).
Proof.
  induction n as [|n IH]; intros k ph Hph Hn.
  - destruct Hph as [Hk Hph]. destruct ph; simpl in *; [lia| |].
    + by destruct Hph.
    + by destruct Hph as [-> _].
  - destruct (cw_sent_step created rw vs k true ph Hph) as (k1 & ph1 & Hrun & Hph1 & Hdec).
    cbn [for_each_in replicate]. unfold mbind, M_bind. rewrite Hrun. apply IH; [done|]. lia.
Qed.

Definition cw_new (u : U) : system :=
  StreamWorld Stream_storage_init Future_storage_init
    (call_init (ClientCall None (Client_streaming_call_session_init u))) [].

Lemma cw_start_runs ch tag options q u :
  completion_queue options = Some q →
  ∃ s, start_client_streaming_call accepts ch tag options (cw_new u) = (Ret tt, s) ∧
    attached_to tt s ∧
    client s = cw_state (RegisteredCall (handle_ ch) tag q (deadline options))
      (ReplyWorld Future_storage_init u) [] 0 false (W_sending cw_metadata_batch).
Proof.
  intros Hq. unfold start_client_streaming_call, Client_streaming_session_begin,
    Client_streaming_session_end, create_call, cw_new. rewrite Hq.
  unfold Basic_stream_promise_get_future. unfold_cw.
  rewrite (start_batch_runs accepts _ _ _ Haccepts) by (by vm_compute). unfold_cw.
  eexists. split; [reflexivity|]. split; [|done]. split; [by eexists _, _|done].
Qed.

Lemma cw_attach_runs created h (s : system) u vs k fin ph :
  client s = cw_state created (ReplyWorld Future_storage_init u) vs k fin ph →
  run_writer_event accepts (W_attach h) s =
  (Ret tt, set_client (cw_state created (ReplyWorld (waiting_reply h) u) vs k fin ph) s).
Proof. intros Hc. unfold run_writer_event, zoom. by rewrite Hc. Qed.
End Laws.

(** C36: a client that writes requests and gets one reply.  Under every interleaving
    of its writes, and of their end (successful or not), with the completions of
    batches, nothing asserts, at most one batch is in flight, and the batches are,
    in order, a prefix of: the metadata, one message per request in the order they
    were written, and the end with the request for the reply and the status.  Once
    the requests have ended, completing the batches sends what is left; then what
    the core reports is delivered to the future's handler, once, everything is
    released once, and the session is deleted. *)
Theorem client_writer_sends_and_gets_reply {ReqT RepT H U}
  `{!Serializer ReqT, !Serializer RepT, !FutureHandler RepT H U}
  (accepts : list batch → list batch → list grpc_op → bool)
  (Haccepts : grpc_accepts_allowed accepts)
  (ch : channel) (tag q : nat) (options : call_options) (h : H) (u u' : U)
  (evs : list writer_event) (o : option byte_buffer) (status : grpc_status_code)
  (details : string) (r : expected RepT)
  (Hfields : handler_fields h = [Fval]) (Hq : completion_queue options = Some q)
  (Hlegal : cw_legal (ReqT:=ReqT) (H:=H) false evs)
  (Hout : core_outcome o status details r)
  (Hhandler : handler_finish h (reply_result r) u = (Ret tt, u')) :
  let vs := cw_written evs in
  let created := RegisteredCall (handle_ ch) tag q (deadline options) in
  ∃ s, (start_client_streaming_call accepts ch tag options ;;
        run_writer_event accepts (W_attach h) ;;
        for_each_in (run_writer_event accepts) evs) (cw_new u) = (Ret tt, s) ∧
    started (client s) `prefix_of` cw_batches vs ∧
    length (inflight (client s)) ≤ 1 ∧
    (cw_ended false evs = true →
     ∃ w, (for_each_in (λ _ : unit, writer_sent accepts) (replicate (length vs + 1) tt) ;;
           writer_done accepts o status details) (client s) = (Ret tt, w) ∧
       cw_over created vs o u' w).
Proof.
  intros vs created.
  destruct (cw_start_runs (ReqT:=ReqT) (RepT:=RepT) (H:=H) accepts Haccepts ch tag options q u Hq) as (s0 & Hrun0 & Hat & Hc0).
  pose proof (cw_attach_runs accepts created h s0 u _ _ _ _ Hc0) as Hrun1.
  destruct (cw_run accepts Haccepts created (ReplyWorld (waiting_reply h) u) evs _ [] 0 false
    (W_sending cw_metadata_batch) (λ _, attached_set_client tt _ s0 Hat) eq_refl)
    as (s & k & ph & Hrun & Hc & Hph); [by split|done|].
  exists s. split.
  { eapply runs_bind; [exact Hrun0|]. eapply runs_bind; [exact Hrun1|exact Hrun]. }
  change ([] ++ cw_written evs) with vs in *. rewrite Hc. split; [|split].
  - unfold cw_batches. apply prefix_cons. destruct Hph as [Hk Hph].
    rewrite <- (take_drop k vs) at 2. rewrite fmap_app, <- app_assoc. apply prefix_app.
    destruct ph; try apply prefix_nil. destruct Hph as [-> _]. by rewrite drop_all.
  - destruct ph; simpl; lia.
  - intros Hend. rewrite Hend in *.
    destruct (cw_done_step accepts created vs h u u' o status details r Hfields Hout Hhandler)
      as (w & Hdone & Hover).
    exists w. split; [|done]. eapply runs_bind; [|exact Hdone].
    apply (cw_complete_all accepts Haccepts); [done|]. destruct ph; simpl; lia.
Qed.

(** A handler for the witnesses. *)
Definition cw_demo_events : list (writer_event (ReqT:=Byte.byte) (H:=unit)) :=
  [W_push Byte.x01; W_sent; W_push Byte.x02; W_end None].

Lemma client_writer_sends_and_gets_reply_witness :
  ∃ s, (start_client_streaming_call batch_allowed (Channel (Some 1) None) 4
          (CallOptions (Some 3) None) ;;
        run_writer_event batch_allowed (W_attach tt) ;;
        for_each_in (run_writer_event batch_allowed) cw_demo_events)
         (cw_new (RepT:=Byte.byte) (U:=reply_log Byte.byte) []) = (Ret tt, s) ∧
    (∃ w, (for_each_in (λ _ : unit, writer_sent batch_allowed) (replicate 3 tt) ;;
           writer_done batch_allowed (Some (ByteBuffer true [[Byte.x09]])) GRPC_STATUS_OK "")
            (client s) = (Ret tt, w) ∧
       cw_over (RegisteredCall (Some 1) 4 3 None) [Byte.x01; Byte.x02]
         (Some (ByteBuffer true [[Byte.x09]])) [[Val (Some Byte.x09)]] w).
Proof.
  destruct (client_writer_sends_and_gets_reply (FutureHandler0:=reply_logger) batch_allowed
    batch_allowed_accepts (Channel (Some 1) None) 4 3 (CallOptions (Some 3) None) tt
    [] [[Val (Some Byte.x09)]] cw_demo_events (Some (ByteBuffer true [[Byte.x09]]))
    GRPC_STATUS_OK "" (Val Byte.x09)) as (s & Hrun & _ & _ & Hend).
  - reflexivity.
  - reflexivity.
  - simpl. tauto.
  - by constructor.
  - reflexivity.
  - exists s. split; [exact Hrun|]. exact (Hend eq_refl).
Defined.

Section Race.
Context {ReqT RepT H U : Type} `{!Serializer ReqT, !Serializer RepT}.
Context `{!FutureHandler RepT H U}.
Context (accepts : list batch → list batch → list grpc_op → bool).

(** A session that believes a batch is in flight when none is. *)
Definition cw_stuck (created : registered_call) (rw : reply_world RepT H U) (fin : bool)
  (vs : list ReqT) : call_world (client_call (writer_session RepT H U)) :=
  cw_call (ReqT:=ReqT) created (cw_session rw false true fin false (cw_send_op <$> vs)) []
    [cw_metadata_batch] [].

Lemma stuck_pushes created rw vs : ∀ vs0 (s : stream_world ReqT unit _),
  attached_to tt s → client s = cw_stuck created rw false vs0 →
  ∃ s', for_each_in (run_writer_event accepts) (W_push <$> vs) s = (Ret tt, s') ∧
    attached_to tt s' ∧ client s' = cw_stuck created rw false (vs0 ++ vs).
Proof.
  induction vs as [|v vs IH]; intros vs0 s Hat Hc.
  - exists s. by rewrite app_nil_r.
  - assert (Client_streaming_request accepts v (client s) =
            (Ret tt, cw_stuck created rw false (vs0 ++ [v]))) as Hpush.
    { rewrite Hc. unfold Client_streaming_request, cw_stuck, cw_call, cw_session.
      unfold_cw. unfold Client_streaming_flush_. unfold_cw. by rewrite fmap_app. }
    cbn [fmap list_fmap for_each_in]. unfold mbind, M_bind. cbn [run_writer_event].
    rewrite (attached_push (Client_streaming_request accepts) tt v s Hat).
    unfold zoom. rewrite Hpush.
    destruct (IH (vs0 ++ [v]) (set_client (cw_stuck created rw false (vs0 ++ [v])) s))
      as (s' & Hrun & Hat' & Hc'); [by apply attached_set_client|done|].
    exists s'. split; [exact Hrun|]. split; [done|]. by rewrite <- app_assoc in Hc'.
Qed.
End Race.

(** The constructor starts its first batch before it notes that a batch is in
    flight, and without its mutex.  When that batch completes in between, the note
    stays: whatever the client writes is queued, its end too, and nothing is in
    flight, so that no request ever leaves and the call never ends. *)
Theorem client_writer_start_race_stuck {ReqT RepT H U}
  `{!Serializer ReqT, !Serializer RepT, !FutureHandler RepT H U}
  (accepts : list batch → list batch → list grpc_op → bool)
  (Haccepts : grpc_accepts_allowed accepts)
  (ch : channel) (tag q : nat) (options : call_options) (u : U) (vs : list ReqT)
  (Hq : completion_queue options = Some q) :
  ∃ s, (zoom client set_client (create_call ch tag options ;;
          Client_streaming_session_begin accepts) ;;
        zoom client set_client (writer_sent accepts) ;;
        Client_streaming_session_end accepts ;;
        zoom client set_client (with_rep Reply_promise_get_future) ;;
        for_each_in (run_writer_event accepts) (W_push <$> vs) ;;
        run_writer_event accepts (W_end None)) (cw_new (RepT:=RepT) (H:=H) u) = (Ret tt, s) ∧
    inflight (client s) = [] ∧ started (client s) = [cw_metadata_batch] ∧
    deleted (client s) = false ∧
    cw_pending_ops_ (session (obj (client s))) = cw_send_op <$> vs.
Proof.
  set (created := RegisteredCall (handle_ ch) tag q (deadline options)).
  set (rw := ReplyWorld Future_storage_init u : reply_world RepT H U).
  set (s1 := StreamWorld (StreamStorage (Some (ForeachHandler Immediate_queue true)) false [] None 1)
    (FutureStorage (Some tt) None 1) (cw_stuck (ReqT:=ReqT) created rw false []) []
    : stream_world ReqT unit (call_world (client_call (writer_session RepT H U)))).
  assert (attached_to tt s1) as Hat1 by (split; [by eexists _, _|done]).
  destruct (stuck_pushes accepts created rw vs [] s1 Hat1 eq_refl) as (s2 & Hrun2 & Hat2 & Hc2).
  destruct (attached_complete (FutureHandler0:=writer_handler accepts)
    (Client_streaming_request accepts) tt eq_refl (cw_stuck created rw true vs) s2 Hat2)
    as (s3 & Hrun3 & Hc3).
  { rewrite Hc2. cbn [handler_finish writer_handler Client_streaming_finished].
    unfold cw_stuck, cw_call, cw_session. by unfold_cw. }
  exists s3. rewrite Hc3. split; [|done].
  set (w0 := cw_call (ReqT:=ReqT) created (WriterSession false false false false Reply_promise_init
    rw Uninitialised None None []) [cw_metadata_batch] [cw_metadata_batch] []).
  eapply (runs_bind _ _ _ tt (set_client w0 (cw_new u))).
  { unfold runs, zoom, Client_streaming_session_begin, create_call. rewrite Hq. unfold_cw.
    by rewrite (start_batch_runs accepts _ _ _ Haccepts) by (by vm_compute). }
  set (w1 := cw_call (ReqT:=ReqT) created (WriterSession false false false false Reply_promise_init
    rw Uninitialised None None []) [] [cw_metadata_batch] []).
  assert (writer_sent accepts w0 = (Ret tt, w1)) as Hsent.
  { unfold writer_sent. change (inflight w0) with [Batch writer_metadata_ops 0]. cbv iota beta.
    rewrite decide_False by done. unfold w0, w1, cw_call, cw_metadata_batch, writer_complete, complete_batch, Client_streaming_call_session_exec. by unfold_cw. }
  eapply (runs_bind _ _ _ tt (set_client w1 (cw_new u))).
  { unfold runs, zoom. change (client (set_client w0 (cw_new u))) with w0. by rewrite Hsent. }
  eapply (runs_bind _ _ _ tt (set_client (cw_call (ReqT:=ReqT) created
    (WriterSession false true false false Reply_promise_init rw Uninitialised None None [])
    [] [cw_metadata_batch] []) s1)); [reflexivity|].
  eapply (runs_bind _ _ _ tt s1); [reflexivity|].
  eapply runs_bind; [exact Hrun2|exact Hrun3].
Qed.

Lemma client_writer_start_race_stuck_witness :
  ∃ s, (zoom client set_client (create_call (Channel (Some 1) None) 4 (CallOptions (Some 3) None) ;;
          Client_streaming_session_begin batch_allowed) ;;
        zoom client set_client (writer_sent batch_allowed) ;;
        Client_streaming_session_end batch_allowed ;;
        zoom client set_client (with_rep Reply_promise_get_future) ;;
        for_each_in (run_writer_event batch_allowed) (W_push <$> [Byte.x01; Byte.x02]) ;;
        run_writer_event batch_allowed (W_end None))
         (cw_new (RepT:=Byte.byte) (H:=unit) (U:=reply_log Byte.byte) []) = (Ret tt, s) ∧
    inflight (client s) = [] ∧ started (client s) = [cw_metadata_batch] ∧
    deleted (client s) = false ∧
    cw_pending_ops_ (session (obj (client s))) = cw_send_op <$> [Byte.x01; Byte.x02].
Proof.
  apply (client_writer_start_race_stuck (FutureHandler0:=reply_logger) batch_allowed
    batch_allowed_accepts (Channel (Some 1) None) 4 3 (CallOptions (Some 3) None) []
    [Byte.x01; Byte.x02]).
  reflexivity.
Defined.
