(* ===== verification/ClientBidir.v ===== *)
(** Bidirectional calls of a client (include/easy_grpc/client/stub_impl.h,
    [Bidir_streaming_call_session] and [start_bidir_streaming_call]). *)

From S2P Require Import Prelude Errors Effects FutureUtils FutureStorage Future Grpc.
From S2P Require Import StreamStorage StreamLaws CallHandler Client.

(** The members of [Bidir_streaming_call_session]: the promise of the replies with
    the stream it feeds, the mutex, the flags, and what the core writes;
    [error_string_] is a [const char*] that may be null. *)
Record bidir_session (RepT H U : Type) := BidirSession {
  cb_rep_ : bool;
  cb_replies : stream_world RepT H U;
  cb_mtx_ : bool;
  can_send_ : bool;
  finished_sending_ : bool;
  finished_receiving_ : bool;
  cb_end_sent_ : bool;
  cb_recv_buffer_ : buffer_slot;
  cb_status_ : option grpc_status_code;
  error_string_ : option (option string);
  cb_pending_ops_ : list grpc_op
}.
Arguments BidirSession {RepT H U} _ _ _ _ _ _ _ _ _ _ _.
Arguments cb_rep_ {RepT H U} _.
Arguments cb_replies {RepT H U} _.
Arguments cb_mtx_ {RepT H U} _.
Arguments can_send_ {RepT H U} _.
Arguments finished_sending_ {RepT H U} _.
Arguments finished_receiving_ {RepT H U} _.
Arguments cb_end_sent_ {RepT H U} _.
Arguments cb_recv_buffer_ {RepT H U} _.
Arguments cb_status_ {RepT H U} _.
Arguments error_string_ {RepT H U} _.
Arguments cb_pending_ops_ {RepT H U} _.

Section Bidir.
Context {ReqT RepT H U : Type} `{!Serializer ReqT, !Serializer RepT}.
Context `{!FutureHandler unit H U}.
(** The callback the program gives to [for_each] on the replies. *)
Context (on_reply : RepT → M U unit).
Context (accepts : list batch → list batch → list grpc_op → bool).
Local Abbreviation bsession := (bidir_session RepT H U).
Local Abbreviation world := (call_world (client_call bsession)).

Definition Bidir_streaming_call_session_init (sw : stream_world RepT H U) : bsession :=
  BidirSession Basic_stream_promise_init sw false false false false false Uninitialised
    None None [].

Definition cb_set_rep p : M world unit :=
  modify_session (λ x : bsession, BidirSession p (cb_replies x) (cb_mtx_ x) (can_send_ x)
    (finished_sending_ x) (finished_receiving_ x) (cb_end_sent_ x) (cb_recv_buffer_ x)
    (cb_status_ x) (error_string_ x) (cb_pending_ops_ x)).
Definition cb_set_replies r : M world unit :=
  modify_session (λ x : bsession, BidirSession (cb_rep_ x) r (cb_mtx_ x) (can_send_ x)
    (finished_sending_ x) (finished_receiving_ x) (cb_end_sent_ x) (cb_recv_buffer_ x)
    (cb_status_ x) (error_string_ x) (cb_pending_ops_ x)).
Definition cb_set_mtx b : M world unit :=
  modify_session (λ x : bsession, BidirSession (cb_rep_ x) (cb_replies x) b (can_send_ x)
    (finished_sending_ x) (finished_receiving_ x) (cb_end_sent_ x) (cb_recv_buffer_ x)
    (cb_status_ x) (error_string_ x) (cb_pending_ops_ x)).
Definition cb_set_can_send b : M world unit :=
  modify_session (λ x : bsession, BidirSession (cb_rep_ x) (cb_replies x) (cb_mtx_ x) b
    (finished_sending_ x) (finished_receiving_ x) (cb_end_sent_ x) (cb_recv_buffer_ x)
    (cb_status_ x) (error_string_ x) (cb_pending_ops_ x)).
Definition cb_set_finished_sending : M world unit :=
  modify_session (λ x : bsession, BidirSession (cb_rep_ x) (cb_replies x) (cb_mtx_ x)
    (can_send_ x) true (finished_receiving_ x) (cb_end_sent_ x) (cb_recv_buffer_ x)
    (cb_status_ x) (error_string_ x) (cb_pending_ops_ x)).
Definition cb_set_finished_receiving : M world unit :=
  modify_session (λ x : bsession, BidirSession (cb_rep_ x) (cb_replies x) (cb_mtx_ x)
    (can_send_ x) (finished_sending_ x) true (cb_end_sent_ x) (cb_recv_buffer_ x)
    (cb_status_ x) (error_string_ x) (cb_pending_ops_ x)).
Definition cb_set_end_sent : M world unit :=
  modify_session (λ x : bsession, BidirSession (cb_rep_ x) (cb_replies x) (cb_mtx_ x)
    (can_send_ x) (finished_sending_ x) (finished_receiving_ x) true (cb_recv_buffer_ x)
    (cb_status_ x) (error_string_ x) (cb_pending_ops_ x)).
Definition cb_set_buffer b : M world unit :=
  modify_session (λ x : bsession, BidirSession (cb_rep_ x) (cb_replies x) (cb_mtx_ x)
    (can_send_ x) (finished_sending_ x) (finished_receiving_ x) (cb_end_sent_ x) b
    (cb_status_ x) (error_string_ x) (cb_pending_ops_ x)).
Definition cb_set_pending q : M world unit :=
  modify_session (λ x : bsession, BidirSession (cb_rep_ x) (cb_replies x) (cb_mtx_ x)
    (can_send_ x) (finished_sending_ x) (finished_receiving_ x) (cb_end_sent_ x)
    (cb_recv_buffer_ x) (cb_status_ x) (error_string_ x) q).
(** What the core writes with the status. *)
Definition cb_core_status (status : grpc_status_code) (error_string : option string) :
  M world unit :=
  modify_session (λ x : bsession, BidirSession (cb_rep_ x) (cb_replies x) (cb_mtx_ x)
    (can_send_ x) (finished_sending_ x) (finished_receiving_ x) (cb_end_sent_ x)
    (cb_recv_buffer_ x) (Some status) (Some error_string) (cb_pending_ops_ x)).

Definition on_replies {A} (m : M (stream_world RepT H U) A) : M world A := λ w,
  match m (cb_replies (session (obj w))) with
  | (o, s) => match cb_set_replies s w with (_, w') => (o, w') end
  end.
Definition with_replies (f : bool → M (stream_world RepT H U) bool) : M world unit :=
  x ← get_session;
  p ← on_replies (f (cb_rep_ x));
  cb_set_rep p.

Definition cb_with_lock {A} (m : M world A) : M world A :=
  x ← get_session;
  if cb_mtx_ x then crash_with Deadlock else
  cb_set_mtx true ;;
  a ← try_catch m (λ e, cb_set_mtx false ;; throw e);
  cb_set_mtx false ;;
  mret a.

Definition cb_metadata_ops : list grpc_op :=
  [GrpcOp 0 (GRPC_OP_SEND_INITIAL_METADATA []); GrpcOp 0 GRPC_OP_RECV_INITIAL_METADATA].
Definition cb_close_ops : list grpc_op := [GrpcOp 0 GRPC_OP_SEND_CLOSE_FROM_CLIENT].
Definition cb_status_ops : list grpc_op := [GrpcOp 0 GRPC_OP_RECV_STATUS_ON_CLIENT].

Definition Bidir_session_flush_ : M world unit :=
  x ← get_session;
  if can_send_ x then
    cb_set_can_send false ;;
    match cb_pending_ops_ x with
    | [] => crash_with Null_dereference
    | op :: rest =>
        cb_set_pending rest ;;
        massert (match op_data_ op with GRPC_OP_SEND_MESSAGE _ => true | _ => false end) ;;
        status ← grpc_call_start_batch accepts [op] 1;
        massert status ;;
        match op_data_ op with
        | GRPC_OP_SEND_MESSAGE b => releases (Release_buffer b)
        | _ => mret tt
        end
    end
  else mret tt.

Definition send_client_end : M world unit :=
  status ← grpc_call_start_batch accepts cb_close_ops 4;
  massert status ;;
  cb_set_end_sent.

Definition Bidir_session_finish : M world unit :=
  status ← grpc_call_start_batch accepts cb_status_ops 8;
  massert status ;;
  cb_set_end_sent.

(** The closures given to the request stream. *)
Definition Bidir_session_request (req : ReqT) : M world unit :=
  cb_with_lock (
    let op := op_send_message (serialize req) in
    x ← get_session;
    cb_set_pending (cb_pending_ops_ x ++ [op]) ;;
    Bidir_session_flush_).

Definition Bidir_session_finished (f : finish_type unit) : M world unit :=
  match f with
  | [s] =>
      cb_with_lock (
        (match s with Err _ => grpc_call_cancel_with_status | Val _ => mret tt end) ;;
        cb_set_finished_sending ;;
        x ← get_session;
        when (can_send_ x) send_client_end)
  | _ => crash_with Assertion_failed
  end.

Definition cb_recv_ops : list grpc_op := [GrpcOp 0 GRPC_OP_RECV_MESSAGE].

(** The branches of [exec]. *)
Definition Bidir_session_exec_closing : M world unit :=
  x ← get_session;
  status ← read_member (cb_status_ x);
  if decide (status = GRPC_STATUS_OK) then
    with_replies (Basic_stream_promise_complete on_reply)
  else
    str ← read_member (error_string_ x);
    match str with
    | Some str =>
        with_replies (λ p, Basic_stream_promise_set_exception on_reply p (Rpc_error status str))
    | None => crash_with Null_dereference
    end.

Definition Bidir_session_exec_handshake : M world unit :=
  cb_set_can_send true ;;
  x ← get_session;
  (match cb_pending_ops_ x with [] => mret tt | _ :: _ => Bidir_session_flush_ end) ;;
  call_status ← grpc_call_start_batch accepts cb_recv_ops 0;
  massert call_status.

Definition Bidir_session_exec_write : M world unit :=
  cb_set_can_send true ;;
  x ← get_session;
  match cb_pending_ops_ x with
  | _ :: _ => Bidir_session_flush_
  | [] => when (finished_sending_ x) send_client_end
  end.

Definition Bidir_session_exec_read : M world unit :=
  x ← get_session;
  match cb_recv_buffer_ x with
  | Uninitialised => crash_with Uninitialised_read
  | Buffer data =>
      cb_set_buffer Null_buffer ;;
      call_status ← grpc_call_start_batch accepts cb_recv_ops 0;
      massert call_status ;;
      v ← deserialize_slot (Buffer data);
      with_replies (λ p, Basic_stream_promise_push on_reply p v) ;;
      releases (Release_buffer data)
  | Null_buffer =>
      cb_set_finished_receiving ;;
      x ← get_session;
      when (finished_sending_ x && cb_end_sent_ x) Bidir_session_finish
  end.

(** [exec]: replies are pushed with the mutex held. *)
Definition Bidir_streaming_call_session_exec (success : bool) (flags : Z) : M world bool :=
  let write_op := Z.testbit flags 0 in
  let handshake := Z.testbit flags 1 in
  let ending := Z.testbit flags 2 in
  let closing := Z.testbit flags 3 in
  if closing then Bidir_session_exec_closing ;; mret true
  else
    cb_with_lock (
      if handshake then Bidir_session_exec_handshake
      else if ending then
        x ← get_session;
        when (finished_receiving_ x) Bidir_session_finish
      else if write_op then Bidir_session_exec_write
      else Bidir_session_exec_read) ;;
    mret false.

Definition Bidir_streaming_call_session_destroy : M world unit :=
  x ← get_session;
  massert (match cb_pending_ops_ x with [] => true | _ => false end) ;;
  release_metadata ;;
  release_slot (cb_recv_buffer_ x) ;;
  unref_call ;;
  on_replies (Basic_stream_promise_destroy on_reply (cb_rep_ x)).

Definition bidir_session_handler : FutureHandler unit unit world.
Proof.
  refine {| handler_fields _ := [Fvoid];
            handler_fullfill _ v := Bidir_session_finished (fullfill_to_finish [Fvoid] 0 v);
            handler_finish _ f := Bidir_session_finished f |}.
  done.
Defined.
#[local] Existing Instance bidir_session_handler.

Local Abbreviation system := (stream_world ReqT unit world).

(** The constructor; the result of its batch is ignored. *)
Definition Bidir_session_construct : M system unit :=
  zoom client set_client (
    cb_set_can_send false ;;
    status ← grpc_call_start_batch accepts cb_metadata_ops 2;
    mret tt) ;;
  Basic_stream_future_for_each Bidir_session_request true Immediate_queue ;;
  stream_finally tt.

(** [start_bidir_streaming_call]: the request stream's state exists before the
    session, the reply stream's only once the batch was started. *)
Definition start_bidir_streaming_call (ch : channel) (tag : nat) (options : call_options) :
  M system unit :=
  zoom client set_client (create_call ch tag options) ;;
  req ← Basic_stream_promise_get_future Basic_stream_promise_init;
  Bidir_session_construct ;;
  zoom client set_client (with_replies Basic_stream_promise_get_future).

(** The completion of the batch with the given flags. *)
Definition bidir_session_complete (flags : Z) : M world unit := λ w,
  match list_find (λ b, batch_flags b = flags) (inflight w) with
  | None => (Ret tt, w)
  | Some (i, _) =>
      complete_batch Bidir_streaming_call_session_exec Bidir_streaming_call_session_destroy i
        true w
  end.

(** What happens to a call: the program writes or ends its requests; a batch of the
    sending direction completes (2: metadata, 1: message, 4: end); a message or the
    end of the messages is received; the status is; or the program attaches to its
    replies. *)
Inductive cb_event :=
| CB_push (v : ReqT)
| CB_end (r : option exn)
| CB_sent (flags : Z)
| CB_received (o : option byte_buffer)
| CB_status (status : grpc_status_code) (error_string : option string)
| CB_attach (q : queue) (h : H).

Definition run_cb_event (ev : cb_event) : M system unit :=
  match ev with
  | CB_push v => Stream_storage_push (H:=unit) Bidir_session_request v
  | CB_end None => Stream_storage_complete (H:=unit) Bidir_session_request
  | CB_end (Some e) => Stream_storage_fail (H:=unit) Bidir_session_request e
  | CB_sent flags => zoom client set_client (bidir_session_complete flags)
  | CB_received o =>
      zoom client set_client (cb_set_buffer (received_slot o) ;; bidir_session_complete 0)
  | CB_status status error_string =>
      zoom client set_client (
        cb_core_status status error_string ;; bidir_session_complete 8)
  | CB_attach q h =>
      zoom client set_client (with_replies (run_stream_event on_reply (E_attach q h)))
  end.
End Bidir.
