(* ===== verification/ClientBidirLaws.v ===== *)
(** The client's bidirectional session refines a small machine that says what is
    sent, received and finished, under every interleaving of the two directions
    but two: the end of the replies that is received while the half-close is in
    flight ([client_bidir_double_finish]), and requests that end before the metadata
    has been exchanged with none written ([client_bidir_early_end_lost]). *)

From S2P Require Import Prelude Errors Effects FutureUtils FutureStorage Future Grpc.
From S2P Require Import StreamStorage StreamLaws CallHandler Client ClientReader ClientBidir.

Ltac unfold_cb :=
  unfold cb_with_lock, cb_set_rep, cb_set_replies, cb_set_mtx, cb_set_can_send,
    cb_set_finished_sending, cb_set_finished_receiving, cb_set_end_sent, cb_set_buffer,
    cb_set_pending, cb_core_status, with_replies, on_replies, modify_session, get_session,
    put_session, modify_obj, set_obj, releases; munfold; simpl.

(** *** The machine *)

Section Machine.
Context {ReqT RepT H : Type} `{!Serializer ReqT, !Serializer RepT}.

Inductive cb_phase := CHandshake | CSending (v : ReqT) | CIdle | CClosing | CClosed.
Inductive cr_phase := CNot_started | CPending | CEnded.
Inductive ct_phase := CNo_status | CStatus | COver.

(** [m_vs] requests were written, [m_k] of them sent, [m_raws] were received. *)
Record cb_machine := CbMachine {
  m_vs : list ReqT;
  m_k : nat;
  m_fin : bool;
  m_ph : cb_phase;
  m_r : cr_phase;
  m_t : ct_phase;
  m_raws : list byte_buffer;
  m_cancels : nat
}.

Definition cb_start : cb_machine := CbMachine [] 0 false CHandshake CNot_started CNo_status [] 0.

(** The sending direction goes on with the next request, or the end. *)
Definition cb_next (vs : list ReqT) (k : nat) (fin : bool) : nat * cb_phase :=
  match vs !! k with
  | Some v => (S k, CSending v)
  | None => (k, if fin then CClosing else CIdle)
  end.
Definition cb_advance (m : cb_machine) : cb_machine :=
  let kph := cb_next (m_vs m) (m_k m) (m_fin m) in
  CbMachine (m_vs m) (fst kph) (m_fin m) (snd kph) (m_r m) (m_t m) (m_raws m) (m_cancels m).
Definition cb_advance_idle (m : cb_machine) : cb_machine :=
  match m_ph m with CIdle => cb_advance m | _ => m end.

(** What an event does, where it can happen and the session can take it.  Two that
    can happen are refused: requests that end in [CHandshake] with none written, whose
    half-close is never sent ([client_bidir_early_end_lost]), and the end of the replies
    in [CClosing], which makes the session ask twice for the status
    ([client_bidir_double_finish]).  The others refused are those that the request
    promise or the core cannot produce: a request or an end after the end, a completion
    of a batch that is not in flight, or a message that does not parse, on which
    [deserialize] throws out of [exec]. *)
Definition cb_machine_step (ev : cb_event (ReqT:=ReqT) (H:=H)) (m : cb_machine) :
  option cb_machine :=
  let '(CbMachine vs k fin ph r t raws c) := m in
  match ev with
  | CB_push v =>
      if fin then None else
      Some (cb_advance_idle (CbMachine (vs ++ [v]) k fin ph r t raws c))
  | CB_end e =>
      match fin, ph, vs with
      | true, _, _ | false, CHandshake, [] => None
      | false, _, _ =>
          Some (cb_advance_idle (CbMachine vs k true ph r t raws
                  (match e with None => c | Some _ => S c end)))
      end
  | CB_sent f =>
      match ph with
      | CHandshake =>
          if decide (f = 2%Z) then
            Some (cb_advance (CbMachine vs k fin ph CPending t raws c))
          else None
      | CSending _ =>
          if decide (f = 1%Z) then Some (cb_advance m) else None
      | CClosing =>
          if decide (f = 4%Z) then
            Some (CbMachine vs k fin CClosed r
                    (match r with CEnded => CStatus | _ => t end) raws c)
          else None
      | CIdle | CClosed => None
      end
  | CB_received (Some raw) =>
      match r, deserialize (T:=RepT) raw with
      | CPending, Some _ => Some (CbMachine vs k fin ph r t (raws ++ [raw]) c)
      | _, _ => None
      end
  | CB_received None =>
      match r, ph with
      | CPending, CClosing => None
      | CPending, CClosed => Some (CbMachine vs k fin ph CEnded CStatus raws c)
      | CPending, _ => Some (CbMachine vs k fin ph CEnded t raws c)
      | _, _ => None
      end
  | CB_status status error_string =>
      match t with
      | CStatus =>
          if decide (status = GRPC_STATUS_OK ∨ error_string ≠ None) then
            Some (CbMachine vs k fin ph r COver raws c)
          else None
      | _ => None
      end
  | CB_attach _ _ => Some m
  end.

Fixpoint cb_machine_run (evs : list (cb_event (ReqT:=ReqT) (H:=H))) (m : cb_machine) :
  option cb_machine :=
  match evs with
  | [] => Some m
  | ev :: evs => cb_machine_step ev m ≫= cb_machine_run evs
  end.

(** What the replies' stream gets. *)
Definition cb_stream_events (ev : cb_event (ReqT:=ReqT) (H:=H)) : list (stream_event RepT H) :=
  match ev with
  | CB_received (Some raw) =>
      match deserialize raw with Some v => [E_push v] | None => [] end
  | CB_status status error_string =>
      [E_end (if decide (status = GRPC_STATUS_OK) then None
              else Some (Rpc_error status (default ""%string error_string)))]
  | CB_attach q h => [E_attach q h]
  | _ => []
  end.

(** The batches of each part, in flight and since the start. *)
Definition cb_send_op (v : ReqT) : grpc_op := op_send_message (serialize v).
Definition cb_metadata : batch := Batch cb_metadata_ops 2.
Definition cb_message (v : ReqT) : batch := Batch [cb_send_op v] 1.
Definition cb_close : batch := Batch cb_close_ops 4.
Definition cb_status : batch := Batch cb_status_ops 8.
Definition cb_recv : batch := Batch cb_recv_ops 0.

Definition cb_send_part (ph : cb_phase) : list batch :=
  match ph with
  | CHandshake => [cb_metadata]
  | CSending v => [cb_message v]
  | CClosing => [cb_close]
  | CIdle | CClosed => []
  end.
Definition cb_recv_part (r : cr_phase) : list batch :=
  match r with CPending => [cb_recv] | _ => [] end.
Definition cb_tail_part (t : ct_phase) : list batch :=
  match t with CStatus => [cb_status] | _ => [] end.
Definition cb_closed (ph : cb_phase) : bool :=
  match ph with CClosing | CClosed => true | _ => false end.
Definition cb_ready (ph : cb_phase) : bool :=
  match ph with CHandshake | CSending _ => false | _ => true end.
Definition cb_asked (t : ct_phase) : bool := match t with CNo_status => false | _ => true end.
Definition cb_live (t : ct_phase) : bool := match t with COver => false | _ => true end.
Definition cr_ended (r : cr_phase) : bool := match r with CEnded => true | _ => false end.

Definition cb_in_flight (m : cb_machine) : list batch :=
  cb_send_part (m_ph m) ++ cb_recv_part (m_r m) ++ cb_tail_part (m_t m).
Definition cb_control_batches (m : cb_machine) : list batch :=
  cb_metadata :: (cb_message <$> take (m_k m) (m_vs m)) ++
    (if cb_closed (m_ph m) then [cb_close] else []) ++
    (if cb_asked (m_t m) then [cb_status] else []).
(** What has been released, the members at the end. *)
Definition cb_released (m : cb_machine) : list release :=
  (Release_buffer ∘ serialize <$> take (m_k m) (m_vs m)) ++ (Release_buffer <$> m_raws m) ++
    (if cb_live (m_t m) then [] else [Release_metadata; Release_metadata; Release_call]).

(** Which states occur. *)
Record cb_machine_ok (m : cb_machine) : Prop := {
  mok_len : m_k m ≤ length (m_vs m);
  mok_ph : match m_ph m with
    | CHandshake => m_k m = 0 ∧ m_r m = CNot_started ∧ (m_fin m = true → m_vs m ≠ [])
    | CSending _ => m_r m ≠ CNot_started
    | CIdle => m_k m = length (m_vs m) ∧ m_fin m = false ∧ m_r m ≠ CNot_started
    | CClosing | CClosed => m_k m = length (m_vs m) ∧ m_fin m = true ∧ m_r m ≠ CNot_started
    end;
  mok_t : (m_t m = CNo_status ∧ (m_ph m = CClosed → m_r m ≠ CEnded)) ∨
          (m_t m ≠ CNo_status ∧ m_ph m = CClosed ∧ m_r m = CEnded)
}.

Lemma cb_advance_ok m :
  m_k m ≤ length (m_vs m) → m_r m ≠ CNot_started → m_t m = CNo_status →
  cb_machine_ok (cb_advance m).
Proof.
  intros Hlen Hr Ht. unfold cb_advance, cb_next.
  destruct (m_vs m !! m_k m) as [v|] eqn:Hv; split; simpl.
  - by apply lookup_lt_Some in Hv.
  - done.
  - by left.
  - done.
  - apply lookup_ge_None in Hv. destruct (m_fin m); (split; [lia|]); by split.
  - left. split; [done|]. by destruct (m_fin m).
Qed.

(** The machine's requests are the ones written. *)
Definition cb_written (evs : list (cb_event (ReqT:=ReqT) (H:=H))) : list ReqT :=
  omap (λ ev, match ev with CB_push v => Some v | _ => None end) evs.

Lemma cb_advance_vs m : m_vs (cb_advance_idle m) = m_vs m.
Proof. by destruct m as [? ? ? [] ? ? ? ?]. Qed.

Lemma cb_machine_vs evs : ∀ m m',
  cb_machine_run evs m = Some m' → m_vs m' = m_vs m ++ cb_written evs.
Proof.
  induction evs as [|ev evs IH]; intros m m'; simpl.
  - intros [= <-]. by rewrite app_nil_r.
  - intros (m1 & Hm1 & Hrun)%bind_Some. rewrite (IH _ _ Hrun). clear IH Hrun.
    destruct m as [vs k fin ph r t raws c].
    destruct ev as [v|e|f|[raw|]|st er|q h]; simpl in Hm1 |- *; repeat case_match;
      simplify_eq/=; rewrite ?cb_advance_vs; simpl; by rewrite <- ?app_assoc.
Qed.

(** Where it ends, everything was sent. *)
Lemma cb_over_batches m :
  cb_machine_ok m → m_t m = COver →
  cb_control_batches m = cb_metadata :: (cb_message <$> m_vs m) ++ [cb_close; cb_status] ∧
  cb_in_flight m = [].
Proof.
  intros [_ Hph Ht] Hover. rewrite Hover in Ht. destruct Ht as [[? _]|(_ & Hc & Hr)]; [done|].
  rewrite Hc in Hph. destruct Hph as (Hk & _ & _).
  unfold cb_control_batches, cb_in_flight. rewrite Hover, Hc, Hr, Hk, firstn_all. done.
Qed.
End Machine.
Arguments cb_phase : clear implicits.
Arguments cb_machine : clear implicits.

(** *** The session implements the machine *)

Ltac cb_fields := cbn [m_vs m_k m_fin m_ph m_r m_t m_raws m_cancels] in *.

Section Laws.
Context {ReqT RepT H U : Type} `{!Serializer ReqT, !Serializer RepT}.
Context `{!FutureHandler unit H U}.
Context (on_reply : RepT → M U unit).
Context (accepts : list batch → list batch → list grpc_op → bool).
Context (Haccepts : grpc_accepts_allowed accepts).
Local Abbreviation world := (call_world (client_call (bidir_session RepT H U))).
Local Abbreviation reader_world := (stream_world RepT H U).
Local Abbreviation machine := (cb_machine ReqT).
Local Abbreviation event := (cb_event (ReqT:=ReqT) (H:=H)).

(** The kinds of operations that may have been started. *)
Definition cb_kinds_ok (m : machine) (strt : list batch) : Prop :=
  ∀ x, x ∈ kinds_of strt →
    x = 0 ∨ x = 4 ∨ x = 1 ∨ x = 5 ∨ (x = 2 ∧ cb_closed (m_ph m) = true) ∨
    (x = 6 ∧ cb_asked (m_t m) = true).

Record cb_refines (created : registered_call) (m : machine) (rd : reader_world) (w : world) : Prop := {
  cb_obj : ∃ slot st es, obj w = ClientCall (Some created) (BidirSession
      (cb_live (m_t m)) rd false (cb_ready (m_ph m)) (m_fin m) (cr_ended (m_r m))
      (cb_closed (m_ph m)) slot st es (cb_send_op <$> drop (m_k m) (m_vs m))) ∧
      (m_r m = CEnded → slot = Null_buffer);
  cb_inflight : inflight w ≡ₚ cb_in_flight m;
  cb_controls : filter is_control (started w) = cb_control_batches m;
  cb_kinds : cb_kinds_ok m (started w);
  cb_release : released w ≡ₚ cb_released m;
  cb_cancelled : cancels w = m_cancels m;
  cb_deleted : deleted w = negb (cb_live (m_t m));
  cb_ok : cb_machine_ok m
}.

Lemma cb_kinds_inflight (m : machine) inf x :
  inf ≡ₚ cb_in_flight m → x ∈ kinds_of inf →
  x ∈ kinds_of (cb_send_part (m_ph m)) ∨ (x = 5 ∧ m_r m = CPending) ∨ (x = 6 ∧ m_t m = CStatus).
Proof.
  intros Hinf (b & Hb & Hx)%kinds_of_elem_inv.
  rewrite Hinf in Hb. unfold cb_in_flight in Hb. rewrite !elem_of_app in Hb.
  destruct Hb as [Hb|[Hb|Hb]].
  - left. by eapply kinds_of_elem.
  - right; left. destruct (m_r m); simpl in Hb; try by apply elem_of_nil in Hb.
    apply list_elem_of_singleton in Hb as ->. by apply list_elem_of_singleton in Hx.
  - right; right. destruct (m_t m); simpl in Hb; try by apply elem_of_nil in Hb.
    apply list_elem_of_singleton in Hb as ->. by apply list_elem_of_singleton in Hx.
Qed.

(** *** Batches that are accepted *)

Lemma cb_single_allowed infl strt op :
  op_kind op ∉ kinds_of infl → (repeatable (op_kind op) = true ∨ op_kind op ∉ kinds_of strt) →
  (op_kind op = 1 → (2 ∉ kinds_of strt) ∧ (3 ∉ kinds_of strt)) →
  batch_allowed infl strt [op] = true.
Proof.
  intros Hi Hs Hm. apply allowed_intro; cbn [fmap list_fmap].
  - apply NoDup_singleton.
  - intros x Hx%list_elem_of_singleton. by rewrite Hx.
  - intros x Hx%list_elem_of_singleton. by rewrite Hx.
  - intros Hx%list_elem_of_singleton. by apply Hm.
Qed.

Lemma cb_no_close_yet (m : machine) strt :
  cb_kinds_ok m strt → cb_closed (m_ph m) = false → 2 ∉ kinds_of strt.
Proof. intros Hk Hc Hx. destruct (Hk _ Hx) as [?|[?|[?|[?|[[? ?]|[? ?]]]]]]; congruence. Qed.

Lemma cb_no_status_yet (m : machine) strt :
  cb_kinds_ok m strt → cb_asked (m_t m) = false → 6 ∉ kinds_of strt.
Proof. intros Hk Hc Hx. destruct (Hk _ Hx) as [?|[?|[?|[?|[[? ?]|[? ?]]]]]]; congruence. Qed.

Lemma cb_never_three (m : machine) strt : cb_kinds_ok m strt → 3 ∉ kinds_of strt.
Proof. intros Hk Hx. destruct (Hk _ Hx) as [?|[?|[?|[?|[[? ?]|[? ?]]]]]]; congruence. Qed.

Lemma cb_kinds_ok_snoc (m m' : machine) strt op fl :
  cb_kinds_ok m strt →
  (cb_closed (m_ph m) = true → cb_closed (m_ph m') = true) →
  (cb_asked (m_t m) = true → cb_asked (m_t m') = true) →
  (op_kind op = 1 ∨ op_kind op = 5 ∨ (op_kind op = 2 ∧ cb_closed (m_ph m') = true) ∨
    (op_kind op = 6 ∧ cb_asked (m_t m') = true)) →
  cb_kinds_ok m' (strt ++ [Batch [op] fl]).
Proof.
  intros Hst Hph Ht Hb x. rewrite kinds_of_app, elem_of_app. intros [Hx|Hx].
  - destruct (Hst x Hx) as [?|[?|[?|[?|[[? ?]|[? ?]]]]]]; tauto.
  - apply list_elem_of_singleton in Hx as ->. tauto.
Qed.

Lemma cb_kinds_ok_mono (m m' : machine) strt :
  cb_kinds_ok m strt →
  (cb_closed (m_ph m) = true → cb_closed (m_ph m') = true) →
  (cb_asked (m_t m) = true → cb_asked (m_t m') = true) → cb_kinds_ok m' strt.
Proof.
  intros Hst Hph Ht x Hx. destruct (Hst x Hx) as [?|[?|[?|[?|[[? ?]|[? ?]]]]]]; tauto.
Qed.

(** *** The parts of a world *)

Definition cb_world created mt ready fin ended es slot st er q inf strt rel c rd : world :=
  CallWorld (ClientCall (Some created)
    (BidirSession true rd mt ready fin ended es slot st er q)) inf strt rel c false.

(** The sending direction goes on: the next request, or the half-close. *)
Lemma cb_advance_runs created ready (fin : bool) ended slot st er inf strt rel c rd (vs : list ReqT) k :
  (∀ v, vs !! k = Some v → batch_allowed inf strt [cb_send_op v] = true) →
  (fin = true → batch_allowed inf strt cb_close_ops = true) → k ≤ length vs →
  let kph := cb_next vs k fin in
  Bidir_session_exec_write accepts
    (cb_world created true ready fin ended false slot st er (cb_send_op <$> drop k vs)
       inf strt rel c rd) =
  (Ret tt, cb_world created true (cb_ready (snd kph)) fin ended (cb_closed (snd kph)) slot st er
     (cb_send_op <$> drop (fst kph) vs) (inf ++ cb_send_part (snd kph))
     (strt ++ cb_send_part (snd kph))
     (rel ++ (Release_buffer ∘ serialize <$> drop k (take (fst kph) vs))) c rd).
Proof.
  intros Hmsg Hclose Hlen kph. subst kph. unfold cb_next.
  destruct (vs !! k) as [v|] eqn:Hv.
  - rewrite (drop_S_cons _ _ _ Hv). cbn [fst snd]. rewrite (take_S_r _ _ _ Hv).
    rewrite drop_app_le, (drop_ge (take k vs)) by (rewrite length_take; lia).
    unfold Bidir_session_exec_write, cb_world. unfold_cb. unfold Bidir_session_flush_. unfold_cb.
    rewrite (start_batch_runs accepts _ _ _ Haccepts) by (by apply Hmsg). by unfold_cb.
  - apply lookup_ge_None in Hv. cbn [fst snd]. rewrite (drop_ge vs) by done.
    rewrite (drop_ge (take k vs)) by (rewrite length_take; lia).
    unfold Bidir_session_exec_write, cb_world. unfold_cb. destruct fin; simpl; unfold_cb.
    + unfold send_client_end. unfold_cb.
      rewrite (start_batch_runs accepts _ _ _ Haccepts) by exact (Hclose eq_refl).
      unfold_cb. by rewrite app_nil_r.
    + by rewrite !app_nil_r.
Qed.

(** A world made of parts that is one of the machine's. *)
Lemma cb_refines_intro created (m : machine) ready fin ended es slot st er q inf strt rel c rd :
  ready = cb_ready (m_ph m) → fin = m_fin m → ended = cr_ended (m_r m) →
  es = cb_closed (m_ph m) → q = cb_send_op <$> drop (m_k m) (m_vs m) → m_t m ≠ COver →
  (m_r m = CEnded → slot = Null_buffer) → inf ≡ₚ cb_in_flight m →
  filter is_control strt = cb_control_batches m → cb_kinds_ok m strt → rel ≡ₚ cb_released m →
  c = m_cancels m → cb_machine_ok m →
  cb_refines created m rd (cb_world created false ready fin ended es slot st er q inf strt rel c rd).
Proof.
  intros -> -> -> -> -> Ht Hslot Hinf Hst Hk Hrel -> Hok.
  assert (cb_live (m_t m) = true) as Hl by (by destruct (m_t m)).
  split; simpl; try done.
  - exists slot, st, er. by rewrite Hl.
  - by rewrite Hl.
Qed.

Lemma cb_refines_world created m rd w :
  cb_refines created m rd w → m_t m ≠ COver →
  ∃ slot st er inf strt rel, w = cb_world created false (cb_ready (m_ph m)) (m_fin m)
      (cr_ended (m_r m)) (cb_closed (m_ph m)) slot st er
      (cb_send_op <$> drop (m_k m) (m_vs m)) inf strt rel (m_cancels m) rd ∧
    (m_r m = CEnded → slot = Null_buffer) ∧ inf ≡ₚ cb_in_flight m ∧
    filter is_control strt = cb_control_batches m ∧ cb_kinds_ok m strt ∧
    rel ≡ₚ cb_released m ∧ cb_machine_ok m.
Proof.
  intros [(slot & st & er & Hobj & Hslot) Hinf Hst Hk Hrel Hc Hdel Hok] Ht.
  assert (cb_live (m_t m) = true) as Hl by (by destruct (m_t m)).
  rewrite Hl in *. destruct w as [o inf strt rel c d]. simpl in *. subst o c d.
  by exists slot, st, er, inf, strt, rel.
Qed.

(** What the sending direction finds where it can go on. *)
Definition cb_can_advance (m : machine) (slot : buffer_slot) (inf strt : list batch)
  (rel : list release) : Prop :=
  m_k m ≤ length (m_vs m) ∧ m_r m ≠ CNot_started ∧ m_t m = CNo_status ∧ cb_closed (m_ph m) = false ∧
  (m_r m = CEnded → slot = Null_buffer) ∧ inf ≡ₚ cb_recv_part (m_r m) ∧
  filter is_control strt = cb_metadata :: (cb_message <$> take (m_k m) (m_vs m)) ∧
  cb_kinds_ok m strt ∧ rel ≡ₚ cb_released m.

Lemma cb_only_recv_kinds inf r x : inf ≡ₚ cb_recv_part r → x ∈ kinds_of inf → x = 5.
Proof.
  intros Hp (b & Hb & Hx)%kinds_of_elem_inv. rewrite Hp in Hb.
  destruct r; simpl in Hb; try by apply elem_of_nil in Hb.
  apply list_elem_of_singleton in Hb as ->. by apply list_elem_of_singleton in Hx.
Qed.

Lemma cb_advance_step created (m : machine) ready slot st er inf strt rel rd :
  cb_can_advance m slot inf strt rel →
  ∃ q inf' strt' rel' ready' es', Bidir_session_exec_write accepts
    (cb_world created true ready (m_fin m) (cr_ended (m_r m)) false slot st er
       (cb_send_op <$> drop (m_k m) (m_vs m)) inf strt rel (m_cancels m) rd) =
  (Ret tt, cb_world created true ready' (m_fin m) (cr_ended (m_r m)) es' slot st er q
     inf' strt' rel' (m_cancels m) rd) ∧
  cb_refines created (cb_advance m) rd (cb_world created false ready' (m_fin m)
     (cr_ended (m_r m)) es' slot st er q inf' strt' rel' (m_cancels m) rd).
Proof.
  intros (Hlen & Hr & Ht & Hcl & Hslot & Hinf & Hst & Hk & Hrel). do 6 eexists. split.
  - apply cb_advance_runs; [| |done].
    + intros v _. apply cb_single_allowed; simpl; [|by left|].
      * by intros ?%(cb_only_recv_kinds _ _ _ Hinf).
      * intros _. split; [by eapply cb_no_close_yet|by eapply cb_never_three].
    + intros _. apply cb_single_allowed; simpl; [|right|done].
      * by intros ?%(cb_only_recv_kinds _ _ _ Hinf).
      * by eapply cb_no_close_yet.
  - pose proof (cb_advance_ok m Hlen Hr Ht) as Hok'.
    destruct m as [vs k fin ph r t raws c]. cbn in Hr, Ht, Hcl, Hslot, Hinf, Hst, Hlen.
    subst t. unfold cb_advance, cb_next in *.
    cb_fields.
    unfold cb_released in Hrel. cbn in Hrel. rewrite app_nil_r in Hrel.
    destruct (vs !! k) as [v|] eqn:Hv; [|destruct fin]; cbn [fst snd] in *;
      apply cb_refines_intro; try done; unfold cb_in_flight, cb_control_batches, cb_released;
      cbn [m_vs m_k m_fin m_ph m_r m_t m_raws m_cancels cb_send_part cb_tail_part cb_closed
           cb_asked cb_live].
    + rewrite Hinf, app_nil_r. by rewrite (comm (++)).
    + rewrite filter_app, Hst, filter_cons_True by done. cbn [filter list_filter].
      rewrite (take_S_r _ _ _ Hv), fmap_app, <- !app_assoc. done.
    + eapply cb_kinds_ok_snoc; [exact Hk|cbn; congruence|done|]. by left.
    + rewrite Hrel, (take_S_r _ _ _ Hv), drop_app_le, (drop_ge (take k vs))
        by (rewrite length_take; lia).
      rewrite !fmap_app, app_nil_r. cbn [app fmap list_fmap]. rewrite <- !app_assoc. apply Permutation_app_head.
      apply (comm (++)).
    + rewrite Hinf, app_nil_r. by rewrite (comm (++)).
    + rewrite filter_app, Hst, filter_cons_True by done. done.
    + eapply cb_kinds_ok_snoc; [exact Hk|cbn; congruence|done|]. simpl. auto.
    + rewrite Hrel, (drop_ge (take k vs)) by (rewrite length_take; lia). by rewrite !app_nil_r.
    + by rewrite Hinf, !app_nil_r.
    + by rewrite filter_app, Hst, !app_nil_r.
    + rewrite app_nil_r. eapply cb_kinds_ok_mono; [exact Hk|cbn; congruence|done].
    + rewrite Hrel, (drop_ge (take k vs)) by (rewrite length_take; lia). by rewrite !app_nil_r.
Qed.

(** *** The program's side *)

Lemma cb_with_lock_runs (body : M world unit) created ready fin ended es slot st er q inf strt
  rel c rd ready' fin' ended' es' slot' q' inf' strt' rel' c' rd' :
  body (cb_world created true ready fin ended es slot st er q inf strt rel c rd) =
    (Ret tt, cb_world created true ready' fin' ended' es' slot' st er q' inf' strt' rel' c' rd') →
  cb_with_lock body (cb_world created false ready fin ended es slot st er q inf strt rel c rd) =
    (Ret tt, cb_world created false ready' fin' ended' es' slot' st er q' inf' strt' rel' c' rd').
Proof. unfold cb_world. unfold_cb. by intros ->. Qed.

(** Where nothing is being sent, writing or ending makes the sending direction go on. *)
Lemma cb_request_idle created fin ended slot st er q inf strt rel c rd (v : ReqT) :
  (x ← get_session;
   cb_set_pending (cb_pending_ops_ x ++ [op_send_message (serialize v)]) ;;
   Bidir_session_flush_ accepts)
    (cb_world created true true fin ended false slot st er q inf strt rel c rd) =
  Bidir_session_exec_write accepts
    (cb_world created true true fin ended false slot st er (q ++ [cb_send_op v]) inf strt rel c rd).
Proof.
  unfold Bidir_session_exec_write, cb_world. unfold_cb. by destruct q.
Qed.

Lemma cb_request_step created (m m' : machine) rd w v :
  cb_refines created m rd w → cb_machine_step (RepT:=RepT) (CB_push v : event) m = Some m' →
  ∃ w', Bidir_session_request accepts v w = (Ret tt, w') ∧ cb_refines created m' rd w'.
Proof.
  intros Href Hstep. destruct m as [vs k fin ph r t raws c]. simpl in Hstep.
  destruct fin; [done|]. injection Hstep as <-.
  pose proof (cb_ok _ _ _ _ Href) as [Hlen Hph Htail]. simpl in Hlen, Hph, Htail.
  assert (cb_closed ph = false) as Hcl by (destruct ph; try done; by destruct_and?).
  assert (t = CNo_status) as ->.
  { destruct Htail as [[-> _]|(_ & -> & _)]; done. }
  destruct (cb_refines_world _ _ _ _ Href) as (slot & st & er & inf & strt & rel & -> & Hslot &
    Hinf & Hst & Hk & Hrel & Hok); [done|]. simpl in *.
  assert (ph = CIdle ∨ cb_ready ph = false) as [->|Hready] by (destruct ph; auto).
  - destruct Hph as (-> & _ & Hr).
    assert (cb_can_advance (CbMachine (vs ++ [v]) (length vs) false CIdle r CNo_status raws c)
              slot inf strt rel) as Hcan.
    { unfold cb_can_advance. cbn [m_vs m_k m_fin m_ph m_r m_t]. split_and!; try done.
      - rewrite length_app. lia.
      - rewrite Hinf. unfold cb_in_flight. simpl. by rewrite app_nil_r.
      - rewrite Hst. unfold cb_control_batches. simpl.
        by rewrite take_app_length, firstn_all, app_nil_r.
      - rewrite Hrel. unfold cb_released. simpl. by rewrite take_app_length, firstn_all. }
    destruct (cb_advance_step created _ true slot st er inf strt rel rd Hcan)
      as (q' & inf' & strt' & rel' & ready' & es' & Hrun & Href').
    eexists. split; [|exact Href'].
    apply cb_with_lock_runs. rewrite cb_request_idle. simpl in Hrun.
    rewrite drop_app_length in Hrun. by rewrite drop_all.
  - assert (cb_advance_idle (CbMachine (vs ++ [v]) k false ph r CNo_status raws c) =
            CbMachine (vs ++ [v]) k false ph r CNo_status raws c) as -> by (by destruct ph).
    eexists. split.
    + rewrite Hready. apply cb_with_lock_runs. unfold cb_world. unfold_cb.
      unfold Bidir_session_flush_. unfold_cb. reflexivity.
    + apply cb_refines_intro; try done.
      * cb_fields. by rewrite drop_app_le, fmap_app by done.
      * by rewrite Hst; unfold cb_control_batches; simpl; rewrite take_app_le.
      * by rewrite Hrel; unfold cb_released; simpl; rewrite take_app_le.
      * split; simpl; [rewrite length_app; lia| |done].
        destruct ph; try done. destruct Hph as (? & ? & _). by split_and!.
Qed.

Lemma cb_finished_idle created ended slot st er q inf strt rel c rd (e : option exn) :
  q = [] →
  ((match e with Some _ => grpc_call_cancel_with_status | None => mret tt end) ;;
   cb_set_finished_sending ;;
   x ← get_session;
   when (can_send_ x) (send_client_end accepts))
    (cb_world created true true false ended false slot st er q inf strt rel c rd) =
  Bidir_session_exec_write accepts
    (cb_world created true true true ended false slot st er q inf strt rel
       (match e with Some _ => S c | None => c end) rd).
Proof.
  intros ->. unfold Bidir_session_exec_write, cb_world, grpc_call_cancel_with_status. unfold_cb.
  by destruct e.
Qed.

Definition cb_end_event (e : option exn) : finish_elt unit :=
  match e with None => Val None | Some e => Err e end.

Lemma cb_end_step created (m m' : machine) rd w e :
  cb_refines created m rd w → cb_machine_step (RepT:=RepT) (CB_end e : event) m = Some m' →
  ∃ w', Bidir_session_finished accepts [cb_end_event e] w = (Ret tt, w') ∧
    cb_refines created m' rd w'.
Proof.
  intros Href Hstep. destruct m as [vs k fin ph r t raws c]. simpl in Hstep.
  destruct fin; [done|].
  assert (m' = cb_advance_idle (CbMachine vs k true ph r t raws
            (match e with None => c | Some _ => S c end)) ∧ (ph = CHandshake → vs ≠ []))
    as [-> Hvs].
  { destruct ph, vs; try (by injection Hstep as <-); try done; by injection Hstep as <-. }
  pose proof (cb_ok _ _ _ _ Href) as [Hlen Hph Htail]. cb_fields.
  assert (cb_closed ph = false) as Hcl by (destruct ph; try done; by destruct_and?).
  assert (t = CNo_status) as ->.
  { destruct Htail as [[-> _]|(_ & -> & _)]; done. }
  destruct (cb_refines_world _ _ _ _ Href) as (slot & st & er & inf & strt & rel & -> & Hslot &
    Hinf & Hst & Hk & Hrel & Hok); [done|]. cb_fields.
  assert (Bidir_session_finished accepts [cb_end_event e] =
          cb_with_lock ((match e with Some _ => grpc_call_cancel_with_status | None => mret tt end) ;;
            cb_set_finished_sending ;;
            x ← get_session;
            when (can_send_ x) (send_client_end accepts)) :> M world unit) as ->.
  { by destruct e. }
  assert (ph = CIdle ∨ cb_ready ph = false) as [->|Hready] by (destruct ph; auto).
  - destruct Hph as (-> & _ & Hr).
    assert (cb_can_advance (CbMachine vs (length vs) true CIdle r CNo_status raws
              (match e with None => c | Some _ => S c end)) slot inf strt rel) as Hcan.
    { unfold cb_can_advance. cb_fields. split_and!; try done.
      - rewrite Hinf. unfold cb_in_flight. simpl. by rewrite app_nil_r.
      - rewrite Hst. unfold cb_control_batches. simpl. by rewrite app_nil_r. }
    destruct (cb_advance_step created _ true slot st er inf strt rel rd Hcan)
      as (q' & inf' & strt' & rel' & ready' & es' & Hrun & Href').
    eexists. split; [|exact Href'].
    apply cb_with_lock_runs. rewrite cb_finished_idle by (by rewrite drop_all).
    cb_fields. rewrite <- Hrun. by destruct e.
  - assert (∀ c, cb_advance_idle (CbMachine vs k true ph r CNo_status raws c) =
            CbMachine vs k true ph r CNo_status raws c) as -> by (by destruct ph).
    rewrite Hready. destruct e as [e|]; eexists.
    all: split; [apply cb_with_lock_runs; unfold cb_world, grpc_call_cancel_with_status;
                 unfold_cb; reflexivity|].
    all: apply cb_refines_intro; try done; cb_fields.
    all: split; cb_fields; [done| |done].
    all: destruct ph; try done; destruct Hph as (? & ? & _); by auto.
Qed.

(** *** Completions *)

(** What runs when the batch with these flags completes. *)
Definition cb_completion (f : Z) : M world unit :=
  kill ← noexcept (Bidir_streaming_call_session_exec on_reply accepts true f);
  when kill (delete_object (Bidir_streaming_call_session_destroy on_reply)).

Lemma cb_complete b rest (w : world) :
  inflight w ≡ₚ b :: rest → (∀ b', b' ∈ rest → batch_flags b' ≠ batch_flags b) →
  deleted w = false →
  ∃ inf, inf ≡ₚ rest ∧ bidir_session_complete on_reply accepts (batch_flags b) w =
    cb_completion (batch_flags b)
      (CallWorld (obj w) inf (started w) (released w) (cancels w) false).
Proof.
  intros Hp Hrest Hdel. destruct (find_flags _ _ _ _ Hp eq_refl Hrest) as (i & Hfind & Hi & Hd).
  exists (delete i (inflight w)). split; [done|].
  unfold bidir_session_complete. rewrite Hfind. unfold complete_batch. by rewrite Hi, Hdel.
Qed.

Lemma cb_other_flags (m : machine) b rest b' :
  cb_machine_ok m → cb_in_flight m ≡ₚ b :: rest → b' ∈ rest → batch_flags b' ≠ batch_flags b.
Proof.
  intros Hok Hp Hb'. assert (NoDup (batch_flags <$> cb_in_flight m)) as Hnd.
  { destruct m as [vs k fin ph r t raws c]. destruct Hok as [_ Hph Ht]. cb_fields.
    unfold cb_in_flight. cb_fields.
    destruct ph, r, t; simpl; try (by apply (bool_decide_unpack _));
      destruct_and?; destruct Ht as [[? ?]|(? & ? & ?)]; done. }
  rewrite Hp in Hnd. simpl in Hnd. apply NoDup_cons in Hnd as [Hnot _].
  intros Heq. apply Hnot. rewrite <- Heq. by apply list_elem_of_fmap_2.
Qed.

(** The completion of a batch, from a state of the machine. *)
Lemma cb_complete_refined created m rd w b f rest :
  cb_refines created m rd w → m_t m ≠ COver → cb_in_flight m ≡ₚ b :: rest → batch_flags b = f →
  ∃ slot st er inf strt rel, bidir_session_complete on_reply accepts f w =
    cb_completion f (cb_world created false (cb_ready (m_ph m)) (m_fin m)
      (cr_ended (m_r m)) (cb_closed (m_ph m)) slot st er
      (cb_send_op <$> drop (m_k m) (m_vs m)) inf strt rel (m_cancels m) rd) ∧
    (m_r m = CEnded → slot = Null_buffer) ∧ inf ≡ₚ rest ∧
    filter is_control strt = cb_control_batches m ∧ cb_kinds_ok m strt ∧ rel ≡ₚ cb_released m ∧
    slot = cb_recv_buffer_ (session (obj w)) ∧ st = cb_status_ (session (obj w)) ∧
    er = error_string_ (session (obj w)).
Proof.
  intros Href Ht Hp <-.
  destruct (cb_refines_world _ _ _ _ Href Ht) as (slot & st & er & inf & strt & rel & -> & Hslot &
    Hinf & Hst & Hk & Hrel & Hok).
  destruct (cb_complete b rest (cb_world created false (cb_ready (m_ph m)) (m_fin m)
      (cr_ended (m_r m)) (cb_closed (m_ph m)) slot st er
      (cb_send_op <$> drop (m_k m) (m_vs m)) inf strt rel (m_cancels m) rd))
    as (inf' & Hinf' & Hrun).
  - simpl. by rewrite Hinf.
  - intros b' Hb'. by eapply cb_other_flags.
  - done.
  - exists slot, st, er, inf', strt, rel. by split_and!.
Qed.

(** A completion that keeps the session is its branch of [exec]. *)
Lemma cb_completion_keeps f (branch : M world unit) w w' :
  Bidir_streaming_call_session_exec on_reply accepts true f w =
    (cb_with_lock branch ;; mret false) w →
  cb_with_lock branch w = (Ret tt, w') → cb_completion f w = (Ret tt, w').
Proof.
  intros Hexec Hrun. unfold cb_completion, noexcept, try_catch, mbind at 1, M_bind at 1.
  rewrite Hexec. unfold mbind at 1, M_bind at 1. by rewrite Hrun.
Qed.

(** A sent message. *)
Lemma cb_sent_message created (m : machine) rd w v :
  cb_refines created m rd w → m_ph m = CSending v →
  ∃ w', bidir_session_complete on_reply accepts 1 w = (Ret tt, w') ∧
    cb_refines created (cb_advance m) rd w'.
Proof.
  intros Href Hph. pose proof (cb_ok _ _ _ _ Href) as Hok.
  assert (m_t m = CNo_status) as Ht.
  { destruct (mok_t _ Hok) as [[-> _]|(_ & ? & _)]; congruence. }
  pose proof (mok_ph _ Hok) as Hr. rewrite Hph in Hr.
  destruct (cb_complete_refined created m rd w (cb_message v) 1 (cb_recv_part (m_r m)))
    as (slot & st & er & inf & strt & rel & -> & Hslot & Hinf & Hst & Hk & Hrel & Hslots).
  { done. }
  { by rewrite Ht. }
  { unfold cb_in_flight. rewrite Hph, Ht. simpl. by rewrite app_nil_r. }
  { done. }
  assert (cb_can_advance m slot inf strt rel) as Hcan.
  { unfold cb_can_advance. split_and!; try done; [by destruct Hok|by rewrite Hph|].
    rewrite Hst. unfold cb_control_batches. rewrite Hph, Ht. simpl. by rewrite app_nil_r. }
  destruct (cb_advance_step created m false slot st er inf strt rel rd Hcan)
    as (q' & inf' & strt' & rel' & ready' & es' & Hrun & Href').
  eexists. split; [|exact Href'].
  eapply (cb_completion_keeps 1 (Bidir_session_exec_write accepts)); [done|].
  apply cb_with_lock_runs. rewrite Hph. exact Hrun.
Qed.

(** Asking for the next message. *)
Lemma cb_ask_message created mt ready fin ended es slot st er q inf strt rel c rd :
  5 ∉ kinds_of inf →
  grpc_call_start_batch accepts cb_recv_ops 0
    (cb_world created mt ready fin ended es slot st er q inf strt rel c rd) =
  (Ret true, cb_world created mt ready fin ended es slot st er q (inf ++ [cb_recv])
     (strt ++ [cb_recv]) rel c rd).
Proof.
  intros Hno. rewrite (start_batch_runs accepts _ _ _ Haccepts); [done|].
  apply cb_single_allowed; simpl; [done|by left|done].
Qed.

Lemma cb_controls_recv strt : filter is_control (strt ++ [cb_recv]) = filter is_control strt.
Proof. rewrite filter_app, filter_cons_False; [by rewrite app_nil_r|by intros ?]. Qed.

(** The metadata has been exchanged. *)
Lemma cb_sent_metadata created vs fin raws c rd w :
  let m := CbMachine vs 0 fin CHandshake CNot_started CNo_status raws c in
  cb_refines created m rd w →
  ∃ w', bidir_session_complete on_reply accepts 2 w = (Ret tt, w') ∧
    cb_refines created (cb_advance (CbMachine vs 0 fin CHandshake CPending CNo_status raws c)) rd w'.
Proof.
  intros m Href. pose proof (cb_ok _ _ _ _ Href) as Hok.
  destruct (mok_ph _ Hok) as (_ & _ & Hfin). subst m. cb_fields.
  destruct (cb_complete_refined created _ rd w cb_metadata 2 [] Href)
    as (slot & st & er & inf & strt & rel & -> & _ & Hinf & Hst & Hk & Hrel & Hslots); [done..|].
  apply Permutation_nil_r in Hinf as ->. cb_fields.
  assert (cb_machine_ok (cb_advance (CbMachine vs 0 fin CHandshake CPending CNo_status raws c)))
    as Hok' by (apply cb_advance_ok; [simpl; lia|done..]).
  assert (2 ∉ kinds_of strt) as Htwo by (by eapply cb_no_close_yet).
  assert (3 ∉ kinds_of strt) as Hthree by (by eapply cb_never_three).
  destruct vs as [|v vs].
  - assert (fin = false) as -> by (destruct fin; [by destruct Hfin|done]).
    eexists. split.
    + eapply (cb_completion_keeps 2 (Bidir_session_exec_handshake accepts)); [done|].
      apply cb_with_lock_runs.
      pose proof (cb_ask_message created true true false false false slot st er [] [] strt rel c rd)
        as Hask.
      unfold Bidir_session_exec_handshake, cb_world in *. unfold_cb. rewrite Hask by (by apply not_elem_of_nil).
      unfold_cb. reflexivity.
    + apply cb_refines_intro; try done.
      * by rewrite cb_controls_recv.
      * eapply cb_kinds_ok_snoc; [exact Hk|done|done|]. simpl. auto.
  - eexists. split.
    + eapply (cb_completion_keeps 2 (Bidir_session_exec_handshake accepts)); [done|].
      apply cb_with_lock_runs.
      unfold Bidir_session_exec_handshake, cb_world. unfold_cb.
      unfold Bidir_session_flush_. unfold_cb.
      rewrite (start_batch_runs accepts _ _ _ Haccepts)
        by (apply cb_single_allowed; simpl; [apply not_elem_of_nil|by left|done]).
      unfold_cb.
      rewrite (start_batch_runs accepts _ _ _ Haccepts)
        by (apply cb_single_allowed; simpl;
            [by intros ?%list_elem_of_singleton|by left|done]).
      unfold_cb. reflexivity.
    + apply cb_refines_intro; try done.
      * change (Batch cb_recv_ops 0) with cb_recv. rewrite cb_controls_recv, filter_app, Hst.
        by rewrite filter_cons_True by done.
      * apply (cb_kinds_ok_snoc (CbMachine (v :: vs) 0 fin CIdle CPending CNo_status raws c));
          [|done|done|by auto].
        eapply cb_kinds_ok_snoc; [exact Hk|done|done|]. by left.
      * rewrite Hrel. unfold cb_released, cb_advance. simpl. rewrite !app_nil_r.
        by rewrite (Permutation_app_comm (_ <$> raws)).
Qed.

(** Asking for the status. *)
Lemma cb_ask_status created mt ready fin ended es slot st er q inf strt rel c rd (m : machine) :
  6 ∉ kinds_of inf → cb_kinds_ok m strt → m_t m = CNo_status →
  Bidir_session_finish accepts
    (cb_world created mt ready fin ended es slot st er q inf strt rel c rd) =
  (Ret tt, cb_world created mt ready fin ended true slot st er q (inf ++ [cb_status])
     (strt ++ [cb_status]) rel c rd).
Proof.
  intros Hno Hk Ht. unfold Bidir_session_finish, cb_world. unfold_cb.
  rewrite (start_batch_runs accepts _ _ _ Haccepts); [by unfold_cb|].
  apply cb_single_allowed; simpl; [done|right|done].
  eapply cb_no_status_yet; [exact Hk|by rewrite Ht].
Qed.

(** The half-close was sent. *)
Lemma cb_sent_close created vs k fin r t raws c rd w :
  cb_refines created (CbMachine vs k fin CClosing r t raws c) rd w →
  ∃ w', bidir_session_complete on_reply accepts 4 w = (Ret tt, w') ∧
    cb_refines created (CbMachine vs k fin CClosed r
      (match r with CEnded => CStatus | _ => t end) raws c) rd w'.
Proof.
  intros Href. pose proof (cb_ok _ _ _ _ Href) as Hok.
  destruct (mok_ph _ Hok) as (Hlen & Hfin & Hr). cb_fields. subst k fin.
  destruct (mok_t _ Hok) as [[Ht _]|(_ & ? & _)]; [|done]. cb_fields. subst t.
  destruct (cb_complete_refined created _ rd w cb_close 4 (cb_recv_part r) Href)
    as (slot & st & er & inf & strt & rel & -> & Hslot & Hinf & Hst & Hk & Hrel & Hslots); [done| |done|].
  { unfold cb_in_flight. simpl. by rewrite app_nil_r. }
  cb_fields.
  assert (cb_machine_ok (CbMachine vs (length vs) true CClosed r
            (match r with CEnded => CStatus | _ => CNo_status end) raws c)) as Hok'.
  { split; cb_fields; [done|done|]. destruct r; [done| |]; [by left|by right]. }
  destruct (cr_ended r) eqn:Hended.
  - assert (r = CEnded) as -> by (by destruct r). apply Permutation_nil_r in Hinf as ->.
    eexists. split.
    + eapply (cb_completion_keeps 4); [reflexivity|]. apply cb_with_lock_runs.
      pose proof (cb_ask_status created true true true true true slot st er [] [] strt rel c rd _
                    (not_elem_of_nil _) Hk eq_refl) as Hask.
      unfold cb_world in *. unfold_cb. rewrite drop_all. simpl. rewrite Hask. reflexivity.
    + apply cb_refines_intro; try done.
      * cb_fields. by rewrite drop_all.
      * rewrite filter_app, Hst. unfold cb_control_batches. simpl.
        by rewrite <- app_assoc.
      * eapply cb_kinds_ok_snoc; [exact Hk|done|done|]. simpl. auto.
  - eexists. split.
    + eapply (cb_completion_keeps 4); [reflexivity|]. apply cb_with_lock_runs.
      unfold cb_world in *. unfold_cb. reflexivity.
    + destruct r; try done; apply cb_refines_intro; try done.
Qed.

(** *** The replies *)

Lemma cb_buffer_refines created m rd w b :
  cb_refines created m rd w → m_r m ≠ CEnded →
  cb_set_buffer b w = (Ret tt, snd (cb_set_buffer b w)) ∧
  cb_refines created m rd (snd (cb_set_buffer b w)) ∧
  cb_recv_buffer_ (session (obj (snd (cb_set_buffer b w)))) = b.
Proof.
  intros [(slot & st & er & Hobj & Hslot) Hinf Hst Hk Hrel Hc Hdel Hok] Hr.
  destruct w as [o inf strt rel c d]. simpl in *. subst o. split; [done|]. split; [|done].
  split; try done. simpl. by exists b, st, er.
Qed.

Lemma cb_send_kinds inf (ph : cb_phase ReqT) x :
  inf ≡ₚ cb_send_part ph → x ∈ kinds_of inf → x ≤ 4.
Proof.
  intros Hp (b & Hb & Hx)%kinds_of_elem_inv. rewrite Hp in Hb.
  destruct ph; simpl in Hb; try (by apply elem_of_nil in Hb);
    apply list_elem_of_singleton in Hb as ->; simpl in Hx;
    rewrite ?elem_of_cons, elem_of_nil in Hx; destruct_or? Hx; subst; cbn; (done || lia).
Qed.

Lemma cb_received_message created vs k fin ph t raws c rd rd' w raw (v : RepT) :
  cb_refines created (CbMachine vs k fin ph CPending t raws c) rd w →
  deserialize raw = Some v →
  Basic_stream_promise_push on_reply true v rd = (Ret true, rd') →
  ∃ w', (cb_set_buffer (received_slot (Some raw)) ;;
         bidir_session_complete on_reply accepts 0) w = (Ret tt, w') ∧
    cb_refines created (CbMachine vs k fin ph CPending t (raws ++ [raw]) c) rd' w'.
Proof.
  intros Href Hv Hpush. pose proof (cb_ok _ _ _ _ Href) as Hok.
  assert (t = CNo_status) as ->.
  { by destruct (mok_t _ Hok) as [[Ht _]|(_ & _ & ?)]. }
  destruct (cb_buffer_refines _ _ _ _ (received_slot (Some raw)) Href) as (Hset & Href1 & Hbuf);
    [done|].
  unfold mbind at 1, M_bind at 1. rewrite Hset. revert Href1 Hbuf.
  generalize (cb_set_buffer (received_slot (Some raw)) w).2 as w1. intros w1 Href1 Hbuf.
  destruct (cb_complete_refined created _ rd w1 cb_recv 0 (cb_send_part ph) Href1)
    as (slot & st & er & inf & strt & rel & -> & _ & Hinf & Hst & Hk & Hrel & Hslot & _); [done| |done|].
  { unfold cb_in_flight. simpl. symmetry; apply Permutation_cons_append. }
  rewrite Hbuf in Hslot. cb_fields. subst slot.
  eexists. split.
  - eapply (cb_completion_keeps 0 (Bidir_session_exec_read on_reply accepts)); [reflexivity|].
    apply cb_with_lock_runs.
    pose proof (cb_ask_message created true (cb_ready ph) fin false (cb_closed ph) Null_buffer
                  st er (cb_send_op <$> drop k vs) inf strt rel c rd) as Hask.
    unfold Bidir_session_exec_read, cb_world in *. unfold_cb. rewrite Hask.
    2:{ intros Hx%(cb_send_kinds _ _ _ Hinf). lia. }
    unfold_cb. rewrite Hv. unfold_cb. rewrite Hpush. unfold_cb. reflexivity.
  - apply cb_refines_intro; try done.
    + rewrite Hinf. unfold cb_in_flight. simpl. done.
    + rewrite cb_controls_recv, Hst. done.
    + eapply cb_kinds_ok_snoc; [exact Hk|done|done|]. simpl. auto.
    + rewrite Hrel. unfold cb_released. simpl. by rewrite !app_nil_r, fmap_app, app_assoc.
    + destruct Hok. by split.
Qed.

Lemma cb_received_end created m m' rd w :
  cb_refines created m rd w → cb_machine_step (RepT:=RepT) (CB_received None : event) m = Some m' →
  ∃ w', (cb_set_buffer (received_slot None) ;;
         bidir_session_complete on_reply accepts 0) w = (Ret tt, w') ∧
    cb_refines created m' rd w'.
Proof.
  intros Href Hstep. pose proof (cb_ok _ _ _ _ Href) as Hok.
  destruct m as [vs k fin ph r t raws c]. simpl in Hstep.
  assert (r = CPending) as -> by (by destruct r, ph).
  assert (t = CNo_status) as ->.
  { by destruct (mok_t _ Hok) as [[Ht _]|(_ & _ & ?)]. }
  destruct (cb_buffer_refines _ _ _ _ (received_slot None) Href) as (Hset & Href1 & Hbuf);
    [done|].
  unfold mbind at 1, M_bind at 1. rewrite Hset. revert Href1 Hbuf.
  generalize (cb_set_buffer (received_slot None) w).2 as w1. intros w1 Href1 Hbuf.
  destruct (cb_complete_refined created _ rd w1 cb_recv 0 (cb_send_part ph) Href1)
    as (slot & st & er & inf & strt & rel & -> & _ & Hinf & Hst & Hk & Hrel & Hslot & _); [done| |done|].
  { unfold cb_in_flight. simpl. symmetry; apply Permutation_cons_append. }
  rewrite Hbuf in Hslot. cb_fields. subst slot. clear Href Href1 Hset Hbuf w w1.
  pose proof (mok_ph _ Hok) as Hph. pose proof (mok_len _ Hok) as Hlen. cb_fields.
  destruct (cb_closed ph) eqn:Hclosed.
  - assert (ph = CClosed) as -> by (by destruct ph). injection Hstep as <-.
    destruct Hph as (-> & -> & _). apply Permutation_nil_r in Hinf as ->.
    eexists. split.
    + eapply (cb_completion_keeps 0 (Bidir_session_exec_read on_reply accepts)); [reflexivity|].
      apply cb_with_lock_runs.
      pose proof (cb_ask_status created true true true true true Null_buffer st er [] [] strt rel
                    c rd _ (not_elem_of_nil _) Hk eq_refl) as Hask.
      unfold Bidir_session_exec_read, cb_world in *. unfold_cb. rewrite drop_all. simpl.
      rewrite Hask. reflexivity.
    + apply cb_refines_intro; try done.
      * cb_fields. by rewrite drop_all.
      * rewrite filter_app, Hst. unfold cb_control_batches. simpl. by rewrite <- app_assoc.
      * eapply cb_kinds_ok_snoc; [exact Hk|done|done|]. simpl. auto.
      * split; cb_fields; [done|by split_and!|by right].
  - assert (m' = CbMachine vs k fin ph CEnded CNo_status raws c) as ->.
    { destruct ph; try done; by injection Hstep as <-. }
    eexists. split.
    + eapply (cb_completion_keeps 0 (Bidir_session_exec_read on_reply accepts)); [reflexivity|].
      apply cb_with_lock_runs. unfold Bidir_session_exec_read, cb_world. unfold_cb.
      destruct fin; simpl; unfold_cb; reflexivity.
    + apply cb_refines_intro; try done.
      * rewrite Hinf. unfold cb_in_flight. simpl. by rewrite app_nil_r.
      * split; cb_fields; [done| |left; split; [done|by intros ->]].
        destruct ph; try done; destruct_and?; by split_and!.
Qed.

(** The status ends the call: the replies' stream ends, and the session with it. *)
Lemma cb_status_step created vs k fin ph r raws c rd rd' w status error_string p :
  cb_refines created (CbMachine vs k fin ph r CStatus raws c) rd w →
  status = GRPC_STATUS_OK ∨ error_string ≠ None →
  run_stream_event (H:=H) on_reply (E_end (if decide (status = GRPC_STATUS_OK) then None
     else Some (Rpc_error status (default ""%string error_string)))) true rd = (Ret p, rd') →
  p = false ∧
  ∃ w', (cb_core_status status error_string ;;
         bidir_session_complete on_reply accepts 8) w = (Ret tt, w') ∧
    cb_refines created (CbMachine vs k fin ph r COver raws c) rd' w'.
Proof.
  intros Href Hstatus Hend. pose proof (cb_ok _ _ _ _ Href) as Hok.
  destruct (mok_t _ Hok) as [[? _]|(_ & Hph & Hr)]; [done|]. cb_fields. subst ph r.
  destruct (mok_ph _ Hok) as (Hk' & Hfin & _). cb_fields. subst k fin.
  assert (cb_refines created (CbMachine vs (length vs) true CClosed CEnded CStatus raws c) rd
            (snd (cb_core_status status error_string w)) ∧
          cb_core_status status error_string w =
            (Ret tt, snd (cb_core_status status error_string w)) ∧
          cb_status_ (session (obj (snd (cb_core_status status error_string w)))) = Some status ∧
          error_string_ (session (obj (snd (cb_core_status status error_string w)))) =
            Some error_string) as (Href1 & Hset & Hst1 & Her1).
  { destruct Href as [(slot & st & er & Hobj & Hslot) ? ? ? ? ? ? ?].
    destruct w as [o inf strt rel c' d]. simpl in *. subst o. split; [|done].
    split; try done. simpl. by exists slot, (Some status), (Some error_string). }
  unfold mbind at 1, M_bind at 1. rewrite Hset. revert Href1 Hst1 Her1.
  generalize (cb_core_status status error_string w).2 as w1. intros w1 Href1 Hst1 Her1.
  destruct (cb_complete_refined created _ rd w1 cb_status 8 [] Href1)
    as (slot & st & er & inf & strt & rel & -> & Hslot & Hinf & Hst & Hk & Hrel & _ & -> & ->);
    [done..|].
  rewrite Hst1, Her1. specialize (Hslot eq_refl). cb_fields. subst slot.
  apply Permutation_nil_r in Hinf as ->. clear Href Href1 Hset Hst1 Her1 w w1.
  unfold cb_completion, Bidir_streaming_call_session_exec, Bidir_session_exec_closing,
    delete_object, Bidir_streaming_call_session_destroy, release_metadata, unref_call, cb_world.
  rewrite drop_all. unfold run_stream_event in Hend.
  destruct (decide (status = GRPC_STATUS_OK)) as [->|Hne].
  - assert (p = false) as -> by (by eapply complete_ends_promise). split; [done|].
    unfold_cb. rewrite Hend. unfold_cb. eexists. split; [reflexivity|].
    split; try done; cb_fields.
    + exists Null_buffer, (Some GRPC_STATUS_OK), (Some error_string). by rewrite drop_all.
    + simpl. rewrite Hrel. unfold cb_released. simpl. by rewrite app_nil_r, <- !app_assoc.
    + by destruct Hok; split; try done; right.
  - destruct error_string as [str|]; [|by destruct Hstatus].
    assert (p = false) as -> by (by eapply fail_ends_promise). split; [done|].
    simpl in Hend. unfold_cb. rewrite decide_False by done. unfold_cb. rewrite Hend. unfold_cb.
    eexists. split; [reflexivity|].
    split; try done; cb_fields.
    + exists Null_buffer, (Some status), (Some (Some str)). by rewrite drop_all.
    + simpl. rewrite Hrel. unfold cb_released. simpl. by rewrite app_nil_r, <- !app_assoc.
    + by destruct Hok; split; try done; right.
Qed.

(** *** Any event *)

(** An event, seen from the session. *)
Definition run_cb_session (ev : event) : M world unit :=
  match ev with
  | CB_push v => Bidir_session_request accepts v
  | CB_end e => Bidir_session_finished accepts [cb_end_event e]
  | CB_sent flags => bidir_session_complete on_reply accepts flags
  | CB_received o =>
      cb_set_buffer (received_slot o) ;; bidir_session_complete on_reply accepts 0
  | CB_status status error_string =>
      cb_core_status status error_string ;; bidir_session_complete on_reply accepts 8
  | CB_attach q h => with_replies (run_stream_event on_reply (E_attach q h))
  end.

Lemma cb_attach_step created m rd rd' w q h p :
  cb_refines created m rd w →
  run_stream_event on_reply (E_attach q h) (cb_live (m_t m)) rd = (Ret p, rd') →
  p = cb_live (m_t m) ∧
  ∃ w', run_cb_session (CB_attach q h) w = (Ret tt, w') ∧ cb_refines created m rd' w'.
Proof.
  intros Href Hatt. pose proof (attach_keeps_promise _ _ _ _ _ _ _ Hatt) as ->. split; [done|].
  destruct Href as [(slot & st & er & Hobj & Hslot) ? ? ? ? ? ? ?].
  destruct w as [o inf strt rel c d]. simpl in Hobj. subst o.
  unfold run_cb_session. revert Hatt.
  generalize (run_stream_event on_reply (E_attach q h)). intros body Hatt.
  unfold_cb. rewrite Hatt. eexists. split; [reflexivity|]. split; try done.
  simpl. by exists slot, st, er.
Qed.

Lemma cb_sent_step created m m' rd w f :
  cb_refines created m rd w → cb_machine_step (RepT:=RepT) (CB_sent f : event) m = Some m' →
  ∃ w', bidir_session_complete on_reply accepts f w = (Ret tt, w') ∧ cb_refines created m' rd w'.
Proof.
  intros Href Hstep. pose proof (cb_ok _ _ _ _ Href) as Hok.
  destruct m as [vs k fin ph r t raws c]. simpl in Hstep. destruct ph as [|v| | |]; try done.
  - destruct (decide (f = 2%Z)) as [->|]; [|done]. injection Hstep as <-.
    destruct (mok_ph _ Hok) as (? & ? & _). cb_fields. subst k r.
    assert (t = CNo_status) as ->.
    { by destruct (mok_t _ Hok) as [[Ht _]|(_ & _ & ?)]. }
    by apply cb_sent_metadata.
  - destruct (decide (f = 1%Z)) as [->|]; [|done]. injection Hstep as <-.
    by eapply cb_sent_message.
  - destruct (decide (f = 4%Z)) as [->|]; [|done]. injection Hstep as <-.
    by apply cb_sent_close.
Qed.

Lemma cb_step created m m' rd rd' w ev p :
  cb_refines created m rd w → cb_machine_step (RepT:=RepT) ev m = Some m' →
  run_stream on_reply (cb_stream_events ev) (cb_live (m_t m)) rd = (Ret p, rd') →
  p = cb_live (m_t m') ∧ ∃ w', run_cb_session ev w = (Ret tt, w') ∧ cb_refines created m' rd' w'.
Proof.
  intros Href Hstep Hrun. pose proof (cb_ok _ _ _ _ Href) as Hok.
  assert (∀ m1 : machine, m_t (cb_advance_idle m1) = m_t m1) as Hidle
    by (by intros [? ? ? [] ? ? ? ?]).
  destruct ev as [v|e|f|[raw|]|status error_string|q h].
  - injection Hrun as <- <-. split; [|by eapply cb_request_step].
    destruct m as [vs k [] ph r t raws c]; [done|]. injection Hstep as <-. by rewrite Hidle.
  - injection Hrun as <- <-. split; [|by eapply cb_end_step].
    destruct m as [vs k [] ph r t raws c]; [done|].
    destruct ph, vs; try done; injection Hstep as <-; by rewrite ?Hidle.
  - injection Hrun as <- <-. split; [|by eapply cb_sent_step].
    destruct m as [vs k fin ph r t raws c], ph; simpl in Hstep; try done;
      destruct (decide _); try done; injection Hstep as <-; try done.
    destruct (mok_t _ Hok) as [[Ht _]|(_ & ? & _)]; [|done]. cb_fields. subst t. by destruct r.
  - destruct m as [vs k fin ph r t raws c]. simpl in Hstep, Hrun.
    destruct r; try done. destruct (deserialize raw) as [v|] eqn:Hv; [|done].
    injection Hstep as <-. apply run_stream_single in Hrun.
    assert (t = CNo_status) as ->.
    { by destruct (mok_t _ Hok) as [[Ht _]|(_ & _ & ?)]. }
    pose proof (push_keeps_promise _ _ _ _ _ _ Hrun) as ->. split; [done|].
    by eapply cb_received_message.
  - injection Hrun as <- <-. split; [|by eapply cb_received_end].
    destruct m as [vs k fin ph r t raws c]. simpl in Hstep.
    destruct r; try done.
    assert (t = CNo_status) as ->.
    { by destruct (mok_t _ Hok) as [[Ht _]|(_ & _ & ?)]. }
    destruct ph; try done; by injection Hstep as <-.
  - destruct m as [vs k fin ph r t raws c]. simpl in Hstep. destruct t; try done.
    destruct (decide _) as [Hs|]; [|done]. injection Hstep as <-.
    apply run_stream_single in Hrun. by eapply cb_status_step.
  - assert (m' = m) as -> by (destruct m; by injection Hstep). apply run_stream_single in Hrun. by eapply cb_attach_step.
Qed.

(** *** The call together with the program's request stream *)

Local Abbreviation system := (stream_world ReqT unit world).
#[local] Instance cb_end_handler : FutureHandler unit unit world := bidir_session_handler accepts.

Lemma cb_system_step created m m' rd' (s : system) ev w' :
  (m_fin m = false → attached_to tt s) → run_cb_session ev (client s) = (Ret tt, w') →
  cb_machine_step (RepT:=RepT) ev m = Some m' → cb_refines created m' rd' w' →
  ∃ s', run_cb_event on_reply accepts ev s = (Ret tt, s') ∧ client s' = w' ∧
    (m_fin m' = false → attached_to tt s').
Proof.
  intros Hat Hrun Hstep Href.
  assert (∀ m1 : machine, m_fin (cb_advance_idle m1) = m_fin m1) as Hidle
    by (by intros [? ? ? [] ? ? ? ?]).
  assert (∀ body : M world unit, body (client s) = (Ret tt, w') → m_fin m' = m_fin m →
    ∃ s', zoom client set_client body s = (Ret tt, s') ∧ client s' = w' ∧
      (m_fin m' = false → attached_to tt s')) as Hzoom.
  { intros body Hbody Hfin. exists (set_client w' s). unfold zoom. rewrite Hbody.
    split; [done|]. split; [done|]. rewrite Hfin. intros Hf. by apply attached_set_client, Hat. }
  destruct m as [vs k fin ph r t raws c]. destruct ev as [v|e|f|o|st er|q h]; simpl in Hstep.
  - destruct fin; [done|]. injection Hstep as <-. rewrite Hidle. simpl.
    rewrite (attached_push (Bidir_session_request accepts) tt v s (Hat eq_refl)).
    apply Hzoom in Hrun as (s' & ? & ? & Hat'); [|by rewrite Hidle].
    rewrite Hidle in Hat'. by exists s'.
  - assert (fin = false ∧ m_fin m' = true) as [-> Hfin'].
    { destruct fin; [done|]. split; [done|].
      destruct ph, vs; try done; injection Hstep as <-; by rewrite ?Hidle. }
    rewrite Hfin'. simpl in Hrun.
    assert (∃ s', run_cb_event on_reply accepts (CB_end e) s = (Ret tt, s') ∧ client s' = w')
      as (s' & ? & ?); [|by exists s'].
    destruct e as [e|].
    + by apply (attached_fail (FutureHandler0:=cb_end_handler)
        (Bidir_session_request accepts) tt e _ s (Hat eq_refl)).
    + by apply (attached_complete (FutureHandler0:=cb_end_handler)
        (Bidir_session_request accepts) tt eq_refl _ s (Hat eq_refl)).
  - apply (Hzoom _ Hrun). simpl. destruct ph; try done; destruct (decide _); try done;
      by injection Hstep as <-.
  - apply (Hzoom _ Hrun). simpl. destruct o as [raw|], r; try done.
    + destruct (deserialize raw); [|done]. by injection Hstep as <-.
    + destruct ph; try done; by injection Hstep as <-.
  - apply (Hzoom _ Hrun). simpl. destruct t; try done. destruct (decide _); [|done].
    by injection Hstep as <-.
  - apply (Hzoom _ Hrun). by injection Hstep as <-.
Qed.

Lemma cb_system_run created evs : ∀ m m' rd rd' (s : system) p,
  (m_fin m = false → attached_to tt s) → cb_refines created m rd (client s) →
  cb_machine_run (RepT:=RepT) evs m = Some m' →
  run_stream on_reply (evs ≫= cb_stream_events) (cb_live (m_t m)) rd = (Ret p, rd') →
  ∃ s', for_each_in (run_cb_event on_reply accepts) evs s = (Ret tt, s') ∧
    cb_refines created m' rd' (client s').
Proof.
  induction evs as [|ev evs IH]; intros m m' rd rd' s p Hat Href Hm Hrun.
  - injection Hm as <-. injection Hrun as _ <-. by exists s.
  - apply bind_Some in Hm as (m1 & Hm1 & Hm).
    change ((ev :: evs) ≫= cb_stream_events)
      with (cb_stream_events ev ++ (evs ≫= cb_stream_events)) in Hrun.
    rewrite (run_stream_app on_reply _ _ _ rd) in Hrun.
    apply runs_bind_inv in Hrun as (p1 & rd1 & Hrun1 & Hrun2).
    destruct (cb_step _ _ _ _ _ _ _ _ Href Hm1 Hrun1) as (-> & w1 & Hw1 & Href1).
    destruct (cb_system_step _ _ _ _ s ev w1 Hat Hw1 Hm1 Href1) as (s1 & Hs1 & Hc & Hat1).
    rewrite <- Hc in Href1.
    destruct (IH m1 m' rd1 rd' s1 p Hat1 Href1 Hm Hrun2) as (s2 & Hs2 & Href2).
    exists s2. split; [|done]. cbn [for_each_in]. unfold mbind, M_bind. by rewrite Hs1, Hs2.
Qed.

Definition cb_new (sw : reader_world) : system :=
  StreamWorld Stream_storage_init Future_storage_init
    (call_init (ClientCall None (Bidir_streaming_call_session_init sw))) [].

Lemma cb_start_runs ch tag options q sw :
  completion_queue options = Some q →
  ∃ s, start_bidir_streaming_call accepts ch tag options (cb_new sw) = (Ret tt, s) ∧
    attached_to tt s ∧
    cb_refines (RegisteredCall (handle_ ch) tag q (deadline options)) cb_start (fresh_stream sw)
      (client s).
Proof.
  intros Hq. unfold start_bidir_streaming_call, Bidir_session_construct, create_call, cb_new.
  rewrite Hq. unfold Basic_stream_promise_get_future. unfold_cb.
  rewrite (start_batch_runs accepts _ _ _ Haccepts) by (by vm_compute). unfold_cb.
  eexists. split; [reflexivity|]. split; [split; [by eexists _, _|done]|].
  split; try done.
  - simpl. by exists Uninitialised, None, None.
  - intros x (b & Hb & Hx)%kinds_of_elem_inv. apply list_elem_of_singleton in Hb as ->.
    simpl in Hx. rewrite !elem_of_cons, elem_of_nil in Hx. naive_solver.
  - split; [done|done|by left].
Qed.

(** The end of the replies while the half-close is in flight: the status is asked
    for; when the half-close completes it is asked for again. *)
Lemma cb_double_finish created m rd w :
  (∀ inf strt, 6 ∈ kinds_of inf → accepts inf strt cb_status_ops = false) →
  cb_refines created m rd w → m_ph m = CClosing → m_r m = CPending →
  ∃ w', (run_cb_session (CB_received None) ;; run_cb_session (CB_sent 4)) w =
    (Crash Assertion_failed, w').
Proof.
  intros Hrefuse Href Hph Hr. pose proof (cb_ok _ _ _ _ Href) as Hok.
  destruct m as [vs k fin ph r t raws c]. cb_fields. subst ph r.
  destruct (mok_ph _ Hok) as (Hk' & Hfin & _). cb_fields. subst k fin.
  assert (t = CNo_status) as ->.
  { by destruct (mok_t _ Hok) as [[Ht _]|(_ & _ & ?)]. }
  destruct (cb_buffer_refines _ _ _ _ (received_slot None) Href) as (Hset & Href1 & Hbuf);
    [done|].
  unfold run_cb_session. unfold mbind at 2, M_bind at 2. unfold mbind at 1, M_bind at 1.
  rewrite Hset. revert Href1 Hbuf.
  generalize (cb_set_buffer (received_slot None) w).2 as w1. intros w1 Href1 Hbuf.
  destruct (cb_complete_refined created _ rd w1 cb_recv 0 [cb_close] Href1)
    as (slot & st & er & inf & strt & rel & -> & _ & Hinf & Hst & Hk & Hrel & Hslot & _);
    [done|by apply Permutation_swap|done|].
  rewrite Hbuf in Hslot. cb_fields. subst slot. clear Href Href1 Hset Hbuf w w1.
  apply Permutation_singleton_r in Hinf as ->.
  set (x := cb_world created false true true true true Null_buffer st er
              (cb_send_op <$> drop (length vs) vs) [cb_close; cb_status]
              (strt ++ [cb_status]) rel c rd).
  assert (cb_completion 0 (cb_world created false true true false true Null_buffer st er
            (cb_send_op <$> drop (length vs) vs) [cb_close] strt rel c rd) = (Ret tt, x)) as Hrun.
  { eapply (cb_completion_keeps 0 (Bidir_session_exec_read on_reply accepts)); [reflexivity|].
    apply cb_with_lock_runs.
    pose proof (cb_ask_status created true true true true true Null_buffer st er [] [cb_close]
                  strt rel c rd _ ltac:(by intros ?%list_elem_of_singleton) Hk eq_refl) as Hask.
    unfold Bidir_session_exec_read, cb_world in *. unfold_cb. rewrite drop_all. simpl.
    rewrite Hask. reflexivity. }
  cbn [cb_ready cb_closed cr_ended received_slot]. rewrite Hrun. subst x.
  destruct (cb_complete cb_close [cb_status] (cb_world created false true true true true
    Null_buffer st er (cb_send_op <$> drop (length vs) vs) [cb_close; cb_status]
    (strt ++ [cb_status]) rel c rd)) as (inf & Hinf & Hcomp).
  { done. }
  { by intros b' ->%list_elem_of_singleton. }
  { done. }
  change (batch_flags cb_close) with 4%Z in Hcomp. rewrite Hcomp.
  apply Permutation_singleton_r in Hinf as ->.
  pose proof (Hrefuse [cb_status] (strt ++ [cb_status]) ltac:(by constructor)) as Href.
  unfold cb_completion, Bidir_streaming_call_session_exec, Bidir_session_finish,
    grpc_call_start_batch, cb_world. unfold_cb. rewrite Href. unfold_cb. by eexists.
Qed.

(** Requests that end before the metadata has been exchanged, with none written: the
    closure finds [can_send_] unset, and the completion of the metadata only looks at the
    pending messages.  The half-close is not sent, so the end of the replies does not ask
    for the status. *)
Lemma cb_early_end created rd w e :
  cb_refines created cb_start rd w →
  ∃ w1 w2, Bidir_session_finished accepts [cb_end_event e] w = (Ret tt, w1) ∧
    (run_cb_session (CB_sent 2) ;; run_cb_session (CB_received None)) w1 = (Ret tt, w2) ∧
    filter is_control (started w2) = [cb_metadata] ∧ inflight w2 = [] ∧ deleted w2 = false.
Proof.
  intros Href.
  destruct (cb_refines_world _ _ _ _ Href) as (slot & st & er & inf & strt & rel & -> & _ &
    Hinf & Hst & Hk & _ & _); [done|]. cb_fields.
  unfold cb_in_flight in Hinf. simpl in Hinf. apply Permutation_singleton_r in Hinf as ->.
  unfold cb_control_batches in Hst. simpl in Hst.
  assert (accepts [] strt cb_recv_ops = true) as Hrecv.
  { apply Haccepts, cb_single_allowed; simpl; [apply not_elem_of_nil|by left|done]. }
  destruct e as [e|]; unfold Bidir_session_finished, cb_world; unfold_cb; do 2 eexists;
    (split; [reflexivity|]).
  all: split; [unfold run_cb_session, bidir_session_complete, complete_batch;
    unfold_cb; unfold Bidir_streaming_call_session_exec, Bidir_session_exec_handshake,
      Bidir_session_exec_read, grpc_call_start_batch; unfold_cb; rewrite Hrecv; unfold_cb;
    reflexivity|].
  all: split; [simpl|done]; change (Batch cb_recv_ops 0) with cb_recv;
    by rewrite cb_controls_recv.
Qed.

(** The machine, from the start of a call. *)
Lemma client_bidir_refines ch tag q options (sw rd : reader_world) p (evs : list event) (m : machine)
  (Hq : completion_queue options = Some q)
  (Hmachine : cb_machine_run (RepT:=RepT) evs cb_start = Some m)
  (Hstream : run_stream on_reply (evs ≫= cb_stream_events) true (fresh_stream sw) = (Ret p, rd)) :
  ∃ s, (start_bidir_streaming_call accepts ch tag options ;;
        for_each_in (run_cb_event on_reply accepts) evs) (cb_new sw) = (Ret tt, s) ∧
    cb_refines (RegisteredCall (handle_ ch) tag q (deadline options)) m rd (client s) ∧
    (m_t m = COver →
     filter is_control (started (client s)) =
       cb_metadata :: (cb_message <$> cb_written evs) ++ [cb_close; cb_status] ∧
     inflight (client s) = [] ∧ deleted (client s) = true).
Proof.
  destruct (cb_start_runs ch tag options q sw Hq) as (s0 & Hrun0 & Hat & Href0).
  destruct (cb_system_run _ evs cb_start m _ rd s0 p (λ _, Hat) Href0 Hmachine Hstream)
    as (s & Hrun & Href).
  exists s. split; [by eapply runs_bind|]. split; [done|]. intros Hover.
  destruct Href as [_ Hinf Hst _ _ _ Hdel Hok].
  destruct (cb_over_batches m Hok Hover) as [Hbs Hempty].
  rewrite (cb_machine_vs evs cb_start m Hmachine) in Hbs. rewrite Hempty in Hinf.
  split; [by rewrite Hst, Hbs|]. split; [by apply Permutation_nil_r|]. by rewrite Hdel, Hover.
Qed.
End Laws.

(** C14: a bidirectional call of a client refines the machine.  In every interleaving
    the machine allows of writes, completions, messages received and attachments,
    nothing asserts; the batches of the sending direction are, in order, the
    metadata, one message per request written, the half-close and the request for
    the status; what is in flight, cancelled and released is what the machine says;
    and the program's stream of replies gets exactly the messages received and then
    the status.  Where the machine is over every request was sent, nothing is in
    flight and the session is deleted. *)
Theorem client_bidir_refines_machine {ReqT RepT H U}
  `{!Serializer ReqT, !Serializer RepT, !FutureHandler unit H U}
  (on_reply : RepT → M U unit)
  (accepts : list batch → list batch → list grpc_op → bool)
  (Haccepts : grpc_accepts_allowed accepts)
  (ch : channel) (tag q : nat) (options : call_options)
  (sw rd : stream_world RepT H U) (p : bool)
  (evs : list (cb_event (ReqT:=ReqT) (H:=H))) (m : cb_machine ReqT)
  (Hq : completion_queue options = Some q)
  (Hmachine : cb_machine_run (RepT:=RepT) evs cb_start = Some m)
  (Hstream : run_stream on_reply (evs ≫= cb_stream_events) true (fresh_stream sw) = (Ret p, rd)) :
  ∃ s, (start_bidir_streaming_call accepts ch tag options ;;
        for_each_in (run_cb_event on_reply accepts) evs) (cb_new sw) = (Ret tt, s) ∧
    cb_refines (RegisteredCall (handle_ ch) tag q (deadline options)) m rd (client s) ∧
    (m_t m = COver →
     filter is_control (started (client s)) =
       cb_metadata :: (cb_message <$> cb_written evs) ++ [cb_close; cb_status] ∧
     inflight (client s) = [] ∧ deleted (client s) = true).
Proof. by apply client_bidir_refines with (p := p). Qed.

(** C37: the end of the replies that is received while the half-close is in flight
    asks for the status, and the completion of the half-close asks for it again:
    the core refuses the second request and the session asserts. *)
Theorem client_bidir_double_finish {ReqT RepT H U}
  `{!Serializer ReqT, !Serializer RepT, !FutureHandler unit H U}
  (on_reply : RepT → M U unit)
  (accepts : list batch → list batch → list grpc_op → bool)
  (Haccepts : grpc_accepts_allowed accepts)
  (Hrefuses : ∀ inf strt, 6 ∈ kinds_of inf → accepts inf strt cb_status_ops = false)
  (ch : channel) (tag q : nat) (options : call_options)
  (sw rd : stream_world RepT H U) (p : bool)
  (evs : list (cb_event (ReqT:=ReqT) (H:=H))) (m : cb_machine ReqT)
  (Hq : completion_queue options = Some q)
  (Hmachine : cb_machine_run (RepT:=RepT) evs cb_start = Some m)
  (Hclosing : m_ph m = CClosing) (Hpending : m_r m = CPending)
  (Hstream : run_stream on_reply (evs ≫= cb_stream_events) true (fresh_stream sw) = (Ret p, rd)) :
  ∃ s, (start_bidir_streaming_call accepts ch tag options ;;
        for_each_in (run_cb_event on_reply accepts) evs ;;
        run_cb_event on_reply accepts (CB_received None) ;;
        run_cb_event on_reply accepts (CB_sent 4)) (cb_new sw) = (Crash Assertion_failed, s).
Proof.
  destruct (cb_start_runs (ReqT:=ReqT) (H:=H) accepts Haccepts ch tag options q sw Hq)
    as (s0 & Hrun0 & Hat & Href0).
  destruct (cb_system_run on_reply accepts Haccepts _ evs cb_start m _ rd s0 p (λ _, Hat) Href0
              Hmachine Hstream) as (s & Hrun & Href).
  destruct (cb_double_finish on_reply accepts Haccepts _ m rd (client s) Hrefuses Href Hclosing
              Hpending) as (w & Hcrash).
  exists (set_client w s). unfold mbind, M_bind. rewrite Hrun0, Hrun.
  destruct s as [st fin cl po]. revert Hcrash.
  unfold run_cb_event, run_cb_session, zoom, mbind, M_bind, set_client. cbn [client].
  destruct (cb_set_buffer (received_slot None) cl) as [[[]|e|c] w1]; cbn [client];
    [|by intros [=]|by intros [= -> ->]].
  destruct (bidir_session_complete on_reply accepts 0 w1) as [[[]|e|c] w2]; cbn [client];
    [|by intros [=]|by intros [= -> ->]].
  destruct (bidir_session_complete on_reply accepts 4 w2) as [[[]|e|c] w3]; cbn [client];
    [by intros [=]|by intros [=]|by intros [= -> ->]].
Qed.

(** The requests end before the metadata has been exchanged and none was written: the
    half-close is never sent.  Once the metadata is exchanged and the server has ended its
    replies nothing is in flight, the status was not asked for, and the session is not
    deleted: the stream of replies never ends. *)
Theorem client_bidir_early_end_lost {ReqT RepT H U}
  `{!Serializer ReqT, !Serializer RepT, !FutureHandler unit H U}
  (on_reply : RepT → M U unit)
  (accepts : list batch → list batch → list grpc_op → bool)
  (Haccepts : grpc_accepts_allowed accepts)
  (ch : channel) (tag q : nat) (options : call_options)
  (sw : stream_world RepT H U) (e : option exn)
  (Hq : completion_queue options = Some q) :
  ∃ s, (start_bidir_streaming_call (ReqT:=ReqT) (H:=H) accepts ch tag options ;;
        for_each_in (run_cb_event on_reply accepts) [CB_end e; CB_sent 2; CB_received None])
         (cb_new sw) = (Ret tt, s) ∧
    filter is_control (started (client s)) = [cb_metadata] ∧
    inflight (client s) = [] ∧ deleted (client s) = false.
Proof.
  destruct (cb_start_runs (ReqT:=ReqT) (H:=H) accepts Haccepts ch tag options q sw Hq)
    as (s0 & Hrun0 & Hat & Href0).
  destruct (cb_early_end on_reply accepts Haccepts _ _ _ e Href0) as (w1 & w2 & H1 & H2 & Hend).
  assert (∃ s1, run_cb_event on_reply accepts (CB_end e) s0 = (Ret tt, s1) ∧ client s1 = w1)
    as (s1 & Hs1 & <-).
  { destruct e as [e|].
    - by apply (attached_fail (FutureHandler0:=cb_end_handler accepts)
        (Bidir_session_request accepts) tt e _ s0 Hat).
    - by apply (attached_complete (FutureHandler0:=cb_end_handler accepts)
        (Bidir_session_request accepts) tt eq_refl _ s0 Hat). }
  exists (set_client w2 s1). split; [|by destruct s1].
  eapply runs_bind; [exact Hrun0|]. cbn [for_each_in]. eapply runs_bind; [exact Hs1|].
  apply runs_bind_inv in H2 as ([] & w3 & H2 & H3). unfold runs in H2, H3.
  destruct s1 as [st fin cl po]. simpl in H2. unfold run_cb_session in H2, H3.
  unfold runs, run_cb_event, zoom, set_client, mbind, M_bind. simpl. rewrite H2. simpl.
  unfold mbind, M_bind in H3. simpl in H3. by rewrite H3.
Qed.

(** Two requests, one reply, both directions ended. *)
Definition cb_demo_on_reply (b : Byte.byte) : M (list (Byte.byte + finish_type unit)) unit :=
  modify (λ log, log ++ [inl b]).
Definition cb_demo_sw : stream_world Byte.byte unit (list (Byte.byte + finish_type unit)) :=
  StreamWorld Stream_storage_init Future_storage_init [] [].
Definition cb_demo_closing : list (cb_event (ReqT:=Byte.byte) (H:=unit)) :=
  [CB_push Byte.x01; CB_attach Immediate_queue tt; CB_sent 2; CB_push Byte.x02;
   CB_received (Some (ByteBuffer true [[Byte.x07]])); CB_sent 1; CB_end None; CB_sent 1].
Definition cb_demo_events : list (cb_event (ReqT:=Byte.byte) (H:=unit)) :=
  cb_demo_closing ++ [CB_sent 4; CB_received None; CB_status GRPC_STATUS_ABORTED (Some "stop")].

Lemma client_bidir_refines_machine_witness :
  ∃ s, (start_bidir_streaming_call (ReqT:=Byte.byte) (H:=unit) batch_allowed (Channel (Some 1) None) 4
          (CallOptions (Some 3) None) ;;
        for_each_in (run_cb_event cb_demo_on_reply batch_allowed) cb_demo_events)
         (cb_new cb_demo_sw) = (Ret tt, s) ∧
    filter is_control (started (client s)) =
      [cb_metadata; cb_message Byte.x01; cb_message Byte.x02; cb_close; cb_status] ∧
    client (cb_replies (session (obj (client s)))) =
      [inl Byte.x07; inr [Err (Rpc_error GRPC_STATUS_ABORTED "stop")]] ∧
    deleted (client s) = true.
Proof.
  pose (m := CbMachine [Byte.x01; Byte.x02] 2 true CClosed CEnded COver
               [ByteBuffer true [[Byte.x07]]] 0).
  pose (rd := snd (run_stream cb_demo_on_reply (cb_demo_events ≫= cb_stream_events) true
                (fresh_stream cb_demo_sw))).
  destruct (client_bidir_refines_machine cb_demo_on_reply batch_allowed batch_allowed_accepts
    (Channel (Some 1) None) 4 3 (CallOptions (Some 3) None) cb_demo_sw rd false cb_demo_events m)
    as (s & Hrun & Href & Hover).
  - reflexivity.
  - reflexivity.
  - reflexivity.
  - destruct (Hover eq_refl) as (Hst & _ & Hdel). exists s. split; [exact Hrun|].
    split; [exact Hst|]. split; [|exact Hdel].
    destruct Href as [(slot & st & er & -> & _) _ _ _ _ _ _ _]. reflexivity.
Defined.

Lemma client_bidir_double_finish_witness :
  ∃ s, (start_bidir_streaming_call (ReqT:=Byte.byte) (H:=unit) batch_allowed (Channel (Some 1) None) 4
          (CallOptions (Some 3) None) ;;
        for_each_in (run_cb_event cb_demo_on_reply batch_allowed) cb_demo_closing ;;
        run_cb_event cb_demo_on_reply batch_allowed (CB_received None) ;;
        run_cb_event cb_demo_on_reply batch_allowed (CB_sent 4)) (cb_new cb_demo_sw) =
       (Crash Assertion_failed, s).
Proof.
  pose (m := CbMachine [Byte.x01; Byte.x02] 2 true CClosing CPending CNo_status
               [ByteBuffer true [[Byte.x07]]] 0).
  pose (rd := snd (run_stream cb_demo_on_reply (cb_demo_closing ≫= cb_stream_events) true
                (fresh_stream cb_demo_sw))).
  apply (client_bidir_double_finish cb_demo_on_reply batch_allowed batch_allowed_accepts)
    with (q := 3) (rd := rd) (p := true) (m := m).
  - intros inf strt H6. unfold batch_allowed. cbn.
    by rewrite (bool_decide_eq_false_2 (6 ∉ kinds_of inf)) by (intros Hn; by apply Hn).
  - reflexivity.
  - reflexivity.
  - reflexivity.
  - reflexivity.
  - reflexivity.
Defined.

Lemma client_bidir_early_end_lost_witness :
  ∃ s, (start_bidir_streaming_call (ReqT:=Byte.byte) (H:=unit) batch_allowed
          (Channel (Some 1) None) 4 (CallOptions (Some 3) None) ;;
        for_each_in (run_cb_event cb_demo_on_reply batch_allowed)
          [CB_end None; CB_sent 2; CB_received None]) (cb_new cb_demo_sw) = (Ret tt, s) ∧
    filter is_control (started (client s)) = [cb_metadata] ∧
    inflight (client s) = [] ∧ deleted (client s) = false.
Proof.
  by apply (client_bidir_early_end_lost cb_demo_on_reply batch_allowed batch_allowed_accepts)
    with (q := 3).
Defined.
