(* ===== verification/Reflection.v ===== *)
(** The reflection service (src/easy_grpc_reflection/reflection_impl.cpp,
    reflection.proto and include/easy_grpc_reflection/reflection.h): what it answers
    about services and descriptors, and how it answers a stream of requests.  The
    descriptors come from protobuf's pool, which is a parameter. *)

From S2P Require Import Prelude Errors Effects FutureUtils FutureStorage StreamStorage StreamLaws.
From S2P Require Import ServiceConfig.
From stdpp Require Import gmap sets.

(** ** Messages (reflection.proto) *)

Record extension_request := ExtensionRequest {
  containing_type : string;
  extension_number : Z
}.

Inductive reflection_request :=
| file_by_filename (name : string)
| file_containing_symbol (symbol : string)
| file_containing_extension (r : extension_request)
| all_extension_numbers_of_type (type : string)
| list_services_request (content : string)
| message_request_not_set.

Inductive reflection_response :=
| file_descriptor_response (file_descriptor_proto : list string)
| all_extension_numbers_response (base_type_name : string) (numbers : list Z)
| list_services_response (service : list string).

(** ** Descriptors *)

(** What the service asks protobuf: [FileDescriptor::name], its [dependency(i)], the
    serialisation of [CopyTo]'s copy, and the pool's searches. *)
Record descriptor_pool (File Desc Field : Type) := DescriptorPool {
  FindFileByName : string → option File;
  FindFileContainingSymbol : string → option File;
  FindMessageTypeByName : string → option Desc;
  FindExtensionByNumber : Desc → Z → option Field;
  FindAllExtensions : Desc → list Field
}.
Arguments FindFileByName {File Desc Field} _ _.
Arguments FindFileContainingSymbol {File Desc Field} _ _.
Arguments FindMessageTypeByName {File Desc Field} _ _.
Arguments FindExtensionByNumber {File Desc Field} _ _ _.
Arguments FindAllExtensions {File Desc Field} _ _.

(** The promise the closures share, and the stream of responses it feeds. *)
Record reflection_world (H U : Type) := ReflectionWorld {
  rf_prom : bool;
  rf_replies : stream_world reflection_response H U
}.
Arguments ReflectionWorld {H U} _ _.
Arguments rf_prom {H U} _.
Arguments rf_replies {H U} _.

Section Reflection.
Context {File Desc Field : Type}.
Context (file_name : File → string).
Context (dependency : File → list File).
Context (serialized : File → string).
Context (field_file : Field → File).
Context (field_number : Field → Z).

(** [Reflection_impl]. *)
Record reflection_impl := ReflectionImpl {
  services_ : list string;
  descriptor_pool_ : option (descriptor_pool File Desc Field)
}.

Definition Reflection_impl_init (generated_pool : descriptor_pool File Desc Field)
  (services : list string) : reflection_impl :=
  ReflectionImpl services (Some generated_pool).

(** The response that is filled, and the names seen. *)
Record fill_state := FillState {
  file_descriptor_protos : list string;
  seen_files : gset string
}.

Definition see (name : string) : M fill_state unit :=
  modify (λ s, FillState (file_descriptor_protos s) ({[name]} ∪ seen_files s)).
Definition add_file_descriptor_proto (data : string) : M fill_state unit :=
  modify (λ s, FillState (file_descriptor_protos s ++ [data]) (seen_files s)).

Fixpoint fill_file_response (fuel : nat) (file_desc : File) : M fill_state unit :=
  match fuel with
  | 0 => crash_with Out_of_fuel
  | S fuel =>
      s ← get_state;
      if decide (file_name file_desc ∈ seen_files s) then mret tt else
      see (file_name file_desc) ;;
      add_file_descriptor_proto (serialized file_desc) ;;
      for_each_in (fill_file_response fuel) (dependency file_desc)
  end.

(** Enough fuel for the files of the pool. *)
Context (fuel : nat).

(** A fresh response and a fresh set of names. *)
Definition fill_from {S} (file_desc : File) : M S reflection_response := λ s,
  match fill_file_response fuel file_desc (FillState [] ∅) with
  | (Ret _, st) => (Ret (file_descriptor_response (file_descriptor_protos st)), s)
  | (Throw e, _) => (Throw e, s)
  | (Crash c, _) => (Crash c, s)
  end.

Section Answers.
Context {S : Type} (impl : reflection_impl).

Definition get_pool : M S (descriptor_pool File Desc Field) :=
  match descriptor_pool_ impl with
  | None => throw (error_cancelled "no descriptor info available")
  | Some pool => mret pool
  end.

Definition found {A} (o : option A) (what : string) : M S A :=
  match o with Some a => mret a | None => throw (error_not_found what) end.

Definition list_services : M S reflection_response :=
  mret (list_services_response
          (services_ impl ++ ["grpc.reflection.v1alpha.ServerReflection"%string])).

Definition get_file_by_name (filename : string) : M S reflection_response :=
  pool ← get_pool;
  file_desc ← found (FindFileByName pool filename) "File not found";
  fill_from file_desc.

Definition get_file_containing_symbol (symbol : string) : M S reflection_response :=
  pool ← get_pool;
  file_desc ← found (FindFileContainingSymbol pool symbol) "Symbol not found";
  fill_from file_desc.

Definition get_file_containing_extension (r : extension_request) : M S reflection_response :=
  pool ← get_pool;
  desc ← found (FindMessageTypeByName pool (containing_type r)) "Type not found";
  field_desc ← found (FindExtensionByNumber pool desc (extension_number r))
                 "Extension not found";
  fill_from (field_file field_desc).

Definition get_all_extension_numbers (type : string) : M S reflection_response :=
  pool ← get_pool;
  desc ← found (FindMessageTypeByName pool type) "Type not found";
  mret (all_extension_numbers_response type (field_number <$> FindAllExtensions pool desc)).

(** The [switch] on the request. *)
Definition reflection_answer (req : reflection_request) : M S reflection_response :=
  match req with
  | file_by_filename name => get_file_by_name name
  | file_containing_symbol symbol => get_file_containing_symbol symbol
  | file_containing_extension r => get_file_containing_extension r
  | all_extension_numbers_of_type type => get_all_extension_numbers type
  | list_services_request _ => list_services
  | message_request_not_set => throw (error_unimplemented "reflection method missing")
  end.
End Answers.

(** ** The stream of requests *)

Section Stream.
Context {H U : Type} `{!FutureHandler unit H U}.
Context (on_response : reflection_response → M U unit).
Context (impl : reflection_impl).
Local Abbreviation world := (reflection_world H U).

(** [prom->...]: an operation of the promise. *)
Definition with_prom (f : bool → M (stream_world reflection_response H U) bool) : M world unit :=
  λ w, match f (rf_prom w) (rf_replies w) with
  | (Ret p, r) => (Ret tt, ReflectionWorld p r)
  | (Throw e, r) => (Throw e, ReflectionWorld (rf_prom w) r)
  | (Crash c, r) => (Crash c, ReflectionWorld (rf_prom w) r)
  end.

(** The closures given to the requests. *)
Definition ServerReflectionInfo_request (req : reflection_request) : M world unit :=
  try_catch
    (rep ← reflection_answer impl req;
     with_prom (λ p, Basic_stream_promise_push on_response p rep))
    (λ e, with_prom (λ p, Basic_stream_promise_set_exception on_response p e)).

Definition ServerReflectionInfo_finished (f : finish_type unit) : M world unit :=
  w ← get_state;
  if Basic_stream_promise_bool (rf_prom w)
  then with_prom (Basic_stream_promise_complete on_response)
  else mret tt.

(** The promise and its future, before the closures are given to the requests. *)
Definition ServerReflectionInfo_begin : M world unit :=
  with_prom Basic_stream_promise_get_future.
End Stream.

(** ** The feature *)

(** [Reflection_feature]; [get_config] is the generated service description. *)
Record Reflection_feature := ReflectionFeature { rf_impl_ : option reflection_impl }.

Definition Reflection_feature_init : Reflection_feature := ReflectionFeature None.
(** The moves: the new value and what is left. *)
Definition Reflection_feature_move (rhs : Reflection_feature) :
  Reflection_feature * Reflection_feature := (rhs, ReflectionFeature None).
Definition Reflection_feature_assign_move (lhs rhs : Reflection_feature) :
  Reflection_feature * Reflection_feature := (ReflectionFeature (rf_impl_ rhs), ReflectionFeature None).

Definition Reflection_feature_add_to_config {F} (generated_pool : descriptor_pool File Desc Field)
  (get_config : reflection_impl → service_config) (f : Reflection_feature) (cfg : config F) :
  Reflection_feature * config F :=
  let impl := Reflection_impl_init generated_pool (sc_name_ <$> get_services cfg) in
  (ReflectionFeature (Some impl), add_service_of get_config impl cfg).
End Reflection.
