(* ===== verification/ReflectionLaws.v ===== *)
(** What the reflection service answers: a file comes with exactly the files it
    depends on, once each, in whatever way they depend on each other; and a stream
    of requests gets a stream of answers until the first error. *)

From S2P Require Import Prelude Errors Effects FutureUtils FutureStorage StreamStorage StreamLaws.
From S2P Require Import ServiceConfig Server Reflection.
From stdpp Require Import gmap sets relations.

Section Files.
Context {File Desc Field : Type}.
Context (file_name : File → string).
Context (dependency : File → list File).
Context (serialized : File → string).

Local Abbreviation fill := (fill_file_response file_name dependency serialized).

(** The dependencies, direct or not. *)
Definition depends_on : File → File → Prop := rtc (λ f g, g ∈ dependency f).

Lemma depends_on_trans f g h : depends_on f g → depends_on g h → depends_on f h.
Proof. unfold depends_on. intros. by etrans. Qed.

Definition names (fs : list File) : gset string := list_to_set (file_name <$> fs).

(** The files [fs] that a traversal added, having already seen the names [seen]. *)
Record visited (from : File → Prop) (seen : gset string) (fs : list File) : Prop := {
  visited_once : NoDup (file_name <$> fs);
  visited_new : ∀ g, g ∈ fs → file_name g ∉ seen;
  visited_from : ∀ g, g ∈ fs → from g;
  visited_closed : ∀ g d, g ∈ fs → d ∈ dependency g → file_name d ∈ seen ∪ names fs
}.

Lemma elem_of_names fs n : n ∈ names fs ↔ ∃ g, g ∈ fs ∧ file_name g = n.
Proof.
  unfold names. rewrite elem_of_list_to_set, list_elem_of_fmap. naive_solver.
Qed.

Lemma names_app fs gs : names (fs ++ gs) = names fs ∪ names gs.
Proof. unfold names. by rewrite fmap_app, list_to_set_app_L. Qed.

Lemma names_nil : names [] = ∅.
Proof. done. Qed.

Lemma names_cons f fs : names (f :: fs) = {[file_name f]} ∪ names fs.
Proof. done. Qed.

Lemma visited_nil from seen : visited from seen [].
Proof. split; [by apply NoDup_nil_2|set_solver..]. Qed.

Lemma visited_app from seen fs gs :
  visited from seen fs → visited from (seen ∪ names fs) gs → visited from seen (fs ++ gs).
Proof.
  intros [Hnd Hnew Hfrom Hcl] [Hnd' Hnew' Hfrom' Hcl']. split.
  - rewrite fmap_app. apply NoDup_app. split; [done|]. split; [|done].
    intros n (g & -> & Hg)%list_elem_of_fmap (h & Hn & Hh)%list_elem_of_fmap.
    apply (Hnew' h Hh). rewrite <- Hn. apply elem_of_union_r, elem_of_names. eauto.
  - intros g [Hg|Hg]%elem_of_app; [by apply Hnew|]. specialize (Hnew' g Hg). set_solver.
  - intros g [Hg|Hg]%elem_of_app; auto.
  - intros g d [Hg|Hg]%elem_of_app Hd; rewrite names_app.
    + specialize (Hcl g d Hg Hd). set_solver.
    + specialize (Hcl' g d Hg Hd). set_solver.
Qed.

Lemma visited_weaken (from from' : File → Prop) seen fs :
  (∀ g, from g → from' g) → visited from seen fs → visited from' seen fs.
Proof. intros Hle [? ? ? ?]. split; auto. Qed.

(** A traversal from [fs], whose names are in [univ]: it ends with this much fuel. *)
Definition fill_ok (univ : gset string) (n : nat) : Prop := ∀ f st,
  (∀ g, depends_on f g → file_name g ∈ univ) → size (univ ∖ seen_files st) < n →
  ∃ fs, fill n f st = (Ret tt, FillState (file_descriptor_protos st ++ (serialized <$> fs))
                                 (seen_files st ∪ names fs)) ∧
    visited (depends_on f) (seen_files st) fs ∧
    file_name f ∈ seen_files st ∪ names fs ∧
    (file_name f ∉ seen_files st → head fs = Some f).

Lemma fill_list_ok univ n (Hn : fill_ok univ n) f l : ∀ st,
  (∀ d, d ∈ l → depends_on f d) → (∀ g, depends_on f g → file_name g ∈ univ) →
  size (univ ∖ seen_files st) < n →
  ∃ fs, for_each_in (fill n) l st =
      (Ret tt, FillState (file_descriptor_protos st ++ (serialized <$> fs))
                 (seen_files st ∪ names fs)) ∧
    visited (depends_on f) (seen_files st) fs ∧
    (∀ d, d ∈ l → file_name d ∈ seen_files st ∪ names fs).
Proof.
  induction l as [|d l IH]; intros st Hl Huniv Hsize.
  - exists []. split; [|split; [apply visited_nil|by intros d ?%elem_of_nil]].
    destruct st. simpl. rewrite app_nil_r, names_nil, (right_id_L ∅ _). reflexivity.
  - assert (depends_on f d) as Hd by (apply Hl; by constructor).
    destruct (Hn d st) as (fs & Hrun & Hvis & Hin & _); [|done|].
    { intros g Hg. apply Huniv. by eapply depends_on_trans. }
    destruct (IH (FillState (file_descriptor_protos st ++ (serialized <$> fs))
                   (seen_files st ∪ names fs))) as (gs & Hrun' & Hvis' & Hin').
    { intros d' Hd'. apply Hl. by constructor. }
    { done. }
    { eapply Nat.le_lt_trans; [|exact Hsize]. apply subseteq_size. simpl. set_solver. }
    simpl in Hvis', Hin'. exists (fs ++ gs). split; [|split].
    + cbn [for_each_in]. unfold mbind, M_bind. rewrite Hrun, Hrun'. simpl.
      by rewrite fmap_app, app_assoc, names_app, (assoc_L (∪)).
    + apply visited_app; [|done]. eapply visited_weaken; [|done].
      intros g Hg. by eapply depends_on_trans.
    + intros d' [->|Hd']%elem_of_cons; rewrite names_app; [set_solver|].
      specialize (Hin' d' Hd'). set_solver.
Qed.

Lemma fill_all_ok univ n : fill_ok univ n.
Proof.
  induction n as [|n IH]; intros f st Huniv Hsize; [lia|].
  cbn [fill_file_response]. unfold mbind at 1, M_bind at 1, get_state.
  destruct (decide (file_name f ∈ seen_files st)) as [Hseen|Hnew].
  - exists []. destruct st as [ps seen]. simpl in *. rewrite app_nil_r, names_nil, (right_id_L ∅ _).
    split; [done|]. split; [apply visited_nil|]. done.
  - destruct (fill_list_ok univ n IH f (dependency f)
      (FillState (file_descriptor_protos st ++ [serialized f]) ({[file_name f]} ∪ seen_files st)))
      as (fs & Hrun & Hvis & Hin).
    + intros d Hd. by apply rtc_once.
    + done.
    + simpl. assert (file_name f ∈ univ) as Hf by (by apply Huniv).
      apply Nat.lt_le_trans with (size (univ ∖ seen_files st)); [|lia].
      apply subset_size. set_solver.
    + simpl in Hrun, Hvis, Hin. exists (f :: fs).
      unfold see, add_file_descriptor_proto, modify, mbind, M_bind. simpl. rewrite Hrun.
      rewrite names_cons. split; [|split; [|split]].
      * rewrite <- app_assoc. simpl. do 2 f_equal. set_solver.
      * destruct Hvis as [Hnd Hnew' Hfrom Hcl]. split.
        -- simpl. constructor; [|done]. intros (g & Heq & Hg)%list_elem_of_fmap.
           apply (Hnew' g Hg). rewrite <- Heq. set_solver.
        -- intros g [->|Hg]%elem_of_cons; [done|]. specialize (Hnew' g Hg). set_solver.
        -- intros g [->|Hg]%elem_of_cons; [apply rtc_refl|auto].
        -- rewrite names_cons. intros g d [->|Hg]%elem_of_cons Hd.
           ++ specialize (Hin d Hd). set_solver.
           ++ specialize (Hcl g d Hg Hd). set_solver.
      * set_solver.
      * done.
Qed.

(** From nothing seen: the files reached, once each. *)
Lemma fill_reaches (univ : gset string) fuel f :
  (∀ g, depends_on f g → file_name g ∈ univ) → size univ < fuel →
  (∀ g h, depends_on f g → depends_on f h → file_name g = file_name h → g = h) →
  ∃ fs, fill fuel f (FillState [] ∅) = (Ret tt, FillState (serialized <$> fs) (names fs)) ∧
    NoDup fs ∧ (∀ g, g ∈ fs ↔ depends_on f g) ∧ head fs = Some f.
Proof.
  intros Huniv Hfuel Hinj.
  destruct (fill_all_ok univ fuel f (FillState [] ∅)) as (fs & Hrun & Hvis & Hin & Hhead).
  { done. }
  { simpl. by rewrite difference_empty_L. }
  simpl in *. rewrite (left_id_L ∅ (∪)) in *. exists fs. split; [done|].
  destruct Hvis as [Hnd _ Hfrom Hcl].
  split; [by eapply NoDup_fmap_1|]. split; [|by apply Hhead, not_elem_of_empty].
  assert (∀ a b, rtc (λ f g, g ∈ dependency f) a b → depends_on f a → a ∈ fs → b ∈ fs) as Hall.
  { intros a b Hab. induction Hab as [a|a c b Hac Hcb IH]; [done|]. intros Ha Hafs.
    assert (depends_on f c) as Hc by (eapply depends_on_trans; [exact Ha|by apply rtc_once]).
    apply IH; [done|]. specialize (Hcl a c Hafs Hac). rewrite (left_id_L ∅ (∪)) in Hcl.
    apply elem_of_names in Hcl as (c' & Hc' & Heq).
    rewrite <- (Hinj c' c (Hfrom _ Hc') Hc Heq). done. }
  intros g. split; [apply Hfrom|]. intros Hg. apply (Hall f g Hg); [apply rtc_refl|].
  apply elem_of_names in Hin as (f' & Hf' & Heq).
  rewrite <- (Hinj f' f (Hfrom _ Hf') (rtc_refl _ _) Heq). done.
Qed.
End Files.

(** *** The answers *)

Section Answers.
Context {File Desc Field : Type}.
Context (file_name : File → string).
Context (dependency : File → list File).
Context (serialized : File → string).
Context (field_file : Field → File).
Context (field_number : Field → Z).
Context (fuel : nat).
Context (impl : reflection_impl (File:=File) (Desc:=Desc) (Field:=Field)).

Local Abbreviation answer S := (reflection_answer (S:=S) file_name dependency serialized
  field_file field_number fuel impl).

(** The answer depends on nothing but the request, and changes nothing. *)
Definition answer_of (req : reflection_request) : outcome reflection_response :=
  fst (answer unit req tt).

Lemma answer_pure {S} req (s : S) : answer S req s = (answer_of req, s).
Proof.
  unfold answer_of. destruct req as [name|sym|r|ty|c|]; simpl; unfold get_file_by_name,
    get_file_containing_symbol, get_file_containing_extension, get_all_extension_numbers,
    get_pool, fill_from; munfold; destruct (descriptor_pool_ impl) as [pool|]; simpl; try done.
  - destruct (FindFileByName pool name); simpl; [|done].
    by destruct (fill_file_response _ _ _ _ _ _) as [[]].
  - destruct (FindFileContainingSymbol pool sym); simpl; [|done].
    by destruct (fill_file_response _ _ _ _ _ _) as [[]].
  - destruct (FindMessageTypeByName pool _); simpl; [|done].
    destruct (FindExtensionByNumber pool _ _); simpl; [|done].
    by destruct (fill_file_response _ _ _ _ _ _) as [[]].
  - by destruct (FindMessageTypeByName pool ty).
Qed.

(** The file a request asks for, or what is missing. *)
Definition file_asked (pool : descriptor_pool File Desc Field) (req : reflection_request) :
  option (expected File) :=
  match req with
  | file_by_filename name =>
      Some (match FindFileByName pool name with
            | Some f => Val f | None => Err (error_not_found "File not found") end)
  | file_containing_symbol symbol =>
      Some (match FindFileContainingSymbol pool symbol with
            | Some f => Val f | None => Err (error_not_found "Symbol not found") end)
  | file_containing_extension r =>
      Some (match FindMessageTypeByName pool (containing_type r) with
            | None => Err (error_not_found "Type not found")
            | Some d =>
                match FindExtensionByNumber pool d (extension_number r) with
                | None => Err (error_not_found "Extension not found")
                | Some fd => Val (field_file fd)
                end
            end)
  | _ => None
  end.

Lemma answer_of_file pool req r :
  descriptor_pool_ impl = Some pool → file_asked pool req = Some r →
  answer_of req = match r with
    | Err e => Throw e
    | Val f => fst (fill_from (S:=unit) file_name dependency serialized fuel f tt)
    end.
Proof.
  intros Hpool. unfold answer_of. destruct req as [name|sym|x|ty|c|]; simpl; try done;
    unfold get_file_by_name, get_file_containing_symbol, get_file_containing_extension, get_pool;
    rewrite Hpool; munfold; intros [= <-].
  - by destruct (FindFileByName pool name).
  - by destruct (FindFileContainingSymbol pool sym).
  - destruct (FindMessageTypeByName pool _); [|done]. simpl.
    by destruct (FindExtensionByNumber pool _ _).
Qed.
End Answers.

(** C30: a request for a file, by its name, a symbol or an extension, is answered by
    the serialised file together with exactly the files it depends on, directly or
    not, each once, the file itself first, or by [NOT_FOUND] when the pool has no
    such thing.  The traversal ends on any finite graph of dependencies, cyclic
    ones included. *)
Theorem reflection_sends_file_with_dependencies {File Desc Field S}
  (file_name : File → string) (dependency : File → list File) (serialized : File → string)
  (field_file : Field → File) (field_number : Field → Z) (fuel : nat)
  (generated_pool : descriptor_pool File Desc Field) (services : list string)
  (univ : gset string) (req : reflection_request) (r : expected File) (s : S)
  (Hasked : file_asked field_file generated_pool req = Some r)
  (Hfinite : ∀ f g, r = Val f → depends_on dependency f g → file_name g ∈ univ)
  (Hfuel : size univ < fuel)
  (Hnames : ∀ f g h, r = Val f → depends_on dependency f g → depends_on dependency f h →
     file_name g = file_name h → g = h) :
  let answer := reflection_answer file_name dependency serialized field_file field_number fuel
                  (Reflection_impl_init generated_pool services) req s in
  match r with
  | Err e => answer = (Throw e, s)
  | Val f => ∃ fs, answer = (Ret (file_descriptor_response (serialized <$> fs)), s) ∧
      NoDup fs ∧ (∀ g, g ∈ fs ↔ depends_on dependency f g) ∧ head fs = Some f
  end.
Proof.
  intros answer. unfold answer.
  rewrite answer_pure, (answer_of_file file_name dependency serialized field_file field_number fuel
    (Reflection_impl_init generated_pool services) generated_pool req r eq_refl Hasked).
  destruct r as [f|e]; [|done].
  destruct (fill_reaches file_name dependency serialized univ fuel f)
    as (fs & Hrun & Hnd & Hfs & Hhead); [eauto..|].
  exists fs. split; [|done]. unfold fill_from. by rewrite Hrun.
Qed.

(** Three files in a cycle, each with its own name. *)
Definition demo_dependency (f : nat) : list nat :=
  match f with 0 => [1; 2] | 1 => [2] | 2 => [0] | _ => [] end.
Definition demo_file_name (f : nat) : string :=
  match f with 0 => "a" | 1 => "b" | 2 => "c" | _ => "d" end.
Definition demo_pool : descriptor_pool nat unit nat :=
  DescriptorPool nat unit nat (λ n, if decide (n = "a"%string) then Some 0 else None) (λ _, None)
    (λ _, None) (λ _ _, None) (λ _, []).

Lemma demo_depends f g : depends_on demo_dependency f g → f < 3 → g < 3.
Proof.
  induction 1 as [f|f g h Hfg _ IH]; [done|]. intros Hf. apply IH.
  destruct f as [|[|[|f]]]; simpl in Hfg; [..|lia];
    rewrite ?elem_of_cons, elem_of_nil in Hfg; lia.
Qed.

Lemma reflection_sends_file_with_dependencies_witness :
  ∃ fs, reflection_answer demo_file_name demo_dependency demo_file_name id Z.of_nat 5
          (Reflection_impl_init demo_pool []) (file_by_filename "a") tt =
        (Ret (file_descriptor_response (demo_file_name <$> fs)), tt) ∧
    NoDup fs ∧ (∀ g, g ∈ fs ↔ depends_on demo_dependency 0 g) ∧ head fs = Some 0.
Proof.
  apply (reflection_sends_file_with_dependencies demo_file_name demo_dependency demo_file_name id
    Z.of_nat 5 demo_pool [] {["a"; "b"; "c"]} (file_by_filename "a") (Val 0) tt).
  - reflexivity.
  - intros f g [= <-] Hg%demo_depends; [|lia]. destruct g as [|[|[|g]]]; [..|lia]; set_solver.
  - apply Nat.ltb_lt. vm_compute. reflexivity.
  - intros f g h [= <-] Hg%demo_depends Hh%demo_depends; [|lia..].
    destruct g as [|[|[|g]]], h as [|[|[|h]]]; simpl; done || lia.
Defined.

(** *** The stream of requests *)

Section Stream.
Context {File Desc Field H U : Type} `{!FutureHandler unit H U}.
Context (file_name : File → string).
Context (dependency : File → list File).
Context (serialized : File → string).
Context (field_file : Field → File).
Context (field_number : Field → Z).
Context (fuel : nat).
Context (on_response : reflection_response → M U unit).
Context (impl : reflection_impl (File:=File) (Desc:=Desc) (Field:=Field)).
Local Abbreviation world := (reflection_world H U).
Local Abbreviation request := (ServerReflectionInfo_request file_name dependency serialized
  field_file field_number fuel on_response impl).
Local Abbreviation outcome_of := (answer_of file_name dependency serialized field_file
  field_number fuel impl).

(** The answers, as what happens to the stream of responses. *)
Definition answer_event (req : reflection_request) : list (stream_event reflection_response H) :=
  match outcome_of req with
  | Ret rep => [E_push rep]
  | Throw e => [E_end (Some e)]
  | Crash _ => []
  end.

Definition answered (req : reflection_request) : Prop := ∃ rep, outcome_of req = Ret rep.

Lemma request_event req (w : world) p r :
  (∀ c, outcome_of req ≠ Crash c) → rf_prom w = true →
  run_stream on_response (answer_event req) true (rf_replies w) = (Ret p, r) →
  request req w = (Ret tt, ReflectionWorld p r).
Proof.
  destruct w as [prom rd]. simpl. intros Hno -> Hrun.
  unfold answer_event in Hrun. unfold ServerReflectionInfo_request, try_catch, mbind, M_bind.
  rewrite answer_pure. destruct (outcome_of req) as [rep|e|c]; [| |by destruct (Hno c)].
  - apply run_stream_single in Hrun. unfold run_stream_event in Hrun.
    unfold with_prom. simpl. by rewrite Hrun.
  - apply run_stream_single in Hrun. unfold run_stream_event in Hrun.
    unfold with_prom. simpl. by rewrite Hrun.
Qed.

Lemma requests_answered reqs : ∀ (w : world) p r,
  Forall answered reqs → rf_prom w = true →
  run_stream on_response (reqs ≫= answer_event) true (rf_replies w) = (Ret p, r) →
  p = true ∧ for_each_in request reqs w = (Ret tt, ReflectionWorld true r).
Proof.
  induction reqs as [|req reqs IH]; intros w p r Hall Hw Hrun.
  - injection Hrun as <- <-. split; [done|]. destruct w. simpl in *. by subst.
  - apply Forall_cons in Hall as [[rep Hrep] Hall].
    change ((req :: reqs) ≫= answer_event) with (answer_event req ++ (reqs ≫= answer_event)) in Hrun.
    rewrite (run_stream_app on_response _ _ _ (rf_replies w)) in Hrun.
    apply runs_bind_inv in Hrun as (p1 & r1 & Hrun1 & Hrun2).
    pose proof Hrun1 as Hpush. unfold answer_event in Hpush. rewrite Hrep in Hpush.
    apply run_stream_single, push_keeps_promise in Hpush as ->.
    destruct (IH (ReflectionWorld true r1) p r Hall eq_refl Hrun2) as [-> Hrest].
    split; [done|]. cbn [for_each_in]. unfold mbind, M_bind.
    rewrite (request_event req w true r1); [done| |done|done]. by rewrite Hrep.
Qed.
End Stream.

Lemma answered_events {H} (out : reflection_request → outcome reflection_response) reqs reps
  (event : reflection_request → list (stream_event reflection_response H)) :
  (∀ req rep, out req = Ret rep → event req = [E_push rep]) →
  Forall2 (λ req rep, out req = Ret rep) reqs reps →
  reqs ≫= event = E_push <$> reps.
Proof.
  intros Hev. induction 1 as [|req rep reqs reps Hrep _ IH]; [done|].
  change ((req :: reqs) ≫= event) with (event req ++ (reqs ≫= event)). by rewrite IH, (Hev _ _ Hrep).
Qed.

(** C31: the stream of responses.  Requests that can be answered are answered in
    order; the end of the requests ends the responses; a request that cannot be
    answered ends them with its error, and the end of the requests then does
    nothing. *)
Theorem reflection_answers_in_order {File Desc Field H U} `{!FutureHandler unit H U}
  (file_name : File → string) (dependency : File → list File) (serialized : File → string)
  (field_file : Field → File) (field_number : Field → Z) (fuel : nat)
  (on_response : reflection_response → M U unit)
  (impl : reflection_impl (File:=File) (Desc:=Desc) (Field:=Field))
  (w : reflection_world H U) (r : stream_world reflection_response H U) (p : bool)
  (reqs : list reflection_request) (reps : list reflection_response)
  (failing : option (reflection_request * exn)) (f : finish_type unit) :
  let answer req := reflection_answer file_name dependency serialized field_file field_number
                      fuel impl req tt in
  let request := ServerReflectionInfo_request file_name dependency serialized field_file
                   field_number fuel on_response impl in
  Forall2 (λ req rep, answer req = (Ret rep, tt)) reqs reps →
  (∀ req e, failing = Some (req, e) → answer req = (Throw e, tt)) →
  run_stream on_response ((E_push <$> reps) ++ [E_end (snd <$> failing)]) true
    (set_final Future_storage_init (set_stream Stream_storage_init (rf_replies w))) = (Ret p, r) →
  (ServerReflectionInfo_begin ;;
   for_each_in request (reqs ++ (match failing with Some (req, _) => [req] | None => [] end)) ;;
   ServerReflectionInfo_finished on_response f) w = (Ret tt, ReflectionWorld p r).
Proof.
  intros answer request Hreqs Hfail Hrun.
  rewrite (run_stream_app on_response _ _ _ _) in Hrun.
  apply runs_bind_inv in Hrun as (p1 & r1 & Hrun1 & Hrun2). apply run_stream_single in Hrun2.
  set (out := answer_of file_name dependency serialized field_file field_number fuel impl).
  assert (Forall2 (λ req rep, out req = Ret rep) reqs reps) as Hout.
  { eapply Forall2_impl; [exact Hreqs|]. intros req rep Hreq. unfold out, answer_of.
    unfold answer in Hreq. by rewrite Hreq. }
  rewrite <- (answered_events out reqs reps (answer_event file_name dependency serialized
    field_file field_number fuel impl)) in Hrun1; [|by unfold out, answer_event; intros req rep ->|done].
  assert (Forall (answered file_name dependency serialized field_file field_number fuel impl)
            reqs) as Hall.
  { clear -Hout. induction Hout as [|req rep reqs reps Hrep _ IH]; constructor; [|done].
    by exists rep. }
  set (w1 := ReflectionWorld true (set_final Future_storage_init
               (set_stream Stream_storage_init (rf_replies w)))).
  destruct (requests_answered file_name dependency serialized field_file field_number fuel
              on_response impl reqs w1 p1 r1 Hall eq_refl Hrun1) as [-> Hrequests].
  assert (ServerReflectionInfo_begin w = (Ret tt, w1)) as Hbegin by done.
  unfold mbind at 1, M_bind at 1. rewrite Hbegin.
  unfold mbind at 1, M_bind at 1. rewrite (for_each_in_app _ _ _ w1).
  unfold mbind at 1, M_bind at 1. fold request in Hrequests. rewrite Hrequests.
  destruct failing as [[req e]|]; cbn [for_each_in].
  - pose proof (Hfail req e eq_refl) as Hreq.
    assert (request req (ReflectionWorld true r1) = (Ret tt, ReflectionWorld p r)) as Hlast.
    { apply (request_event file_name dependency serialized field_file field_number fuel
        on_response impl req (ReflectionWorld true r1) p r); [|done|].
      - intros c. unfold answer_of. unfold answer in Hreq. by rewrite Hreq.
      - unfold answer_event, answer_of. unfold answer in Hreq. rewrite Hreq. simpl.
        cbn [run_stream]. unfold mbind, M_bind. simpl in Hrun2. by rewrite Hrun2. }
    unfold mbind, M_bind. rewrite Hlast.
    simpl in Hrun2. apply fail_ends_promise in Hrun2 as ->. done.
  - simpl. unfold ServerReflectionInfo_finished, mbind, M_bind, get_state, mret, M_ret, with_prom.
    simpl in Hrun2 |- *. by rewrite Hrun2.
Qed.

(** A request that follows one that could not be answered asserts: the promise
    the closures share has given up its state. *)
Theorem reflection_request_after_error_asserts {File Desc Field H U} `{!FutureHandler unit H U}
  (file_name : File → string) (dependency : File → list File) (serialized : File → string)
  (field_file : Field → File) (field_number : Field → Z) (fuel : nat)
  (on_response : reflection_response → M U unit)
  (impl : reflection_impl (File:=File) (Desc:=Desc) (Field:=Field))
  (w : reflection_world H U) (p : bool) (r : stream_world reflection_response H U)
  (bad req : reflection_request) (e : exn) :
  let answer req := reflection_answer file_name dependency serialized field_file field_number
                      fuel impl req tt in
  let request := ServerReflectionInfo_request file_name dependency serialized field_file
                   field_number fuel on_response impl in
  answer bad = (Throw e, tt) → (∀ c s, answer req ≠ (Crash c, s)) →
  Basic_stream_promise_set_exception on_response (rf_prom w) e (rf_replies w) = (Ret p, r) →
  (request bad ;; request req) w = (Crash Assertion_failed, ReflectionWorld false r).
Proof.
  intros answer request Hbad Hreq Hset. pose proof (fail_ends_promise _ _ _ _ _ _ Hset) as ->.
  assert (request bad w = (Ret tt, ReflectionWorld false r)) as Hfirst.
  { unfold request, ServerReflectionInfo_request, try_catch, mbind, M_bind.
    rewrite answer_pure. unfold answer_of. unfold answer in Hbad. rewrite Hbad. simpl.
    unfold with_prom. by rewrite Hset. }
  unfold mbind at 1, M_bind at 1. rewrite Hfirst.
  unfold request, ServerReflectionInfo_request, try_catch, mbind, M_bind.
  rewrite answer_pure. unfold answer_of. unfold answer in Hreq.
  destruct (reflection_answer _ _ _ _ _ _ _ req tt) as [[rep|e'|c] s]; simpl; [done|done|].
  by destruct (Hreq c s).
Qed.

Definition demo_replies : stream_world reflection_response unit (list reflection_response) :=
  StreamWorld Stream_storage_init Future_storage_init [] [].
#[local] Instance demo_end_handler : FutureHandler unit unit (list reflection_response).
Proof.
  refine {| handler_fields _ := [Fvoid];
            handler_fullfill _ _ := mret tt; handler_finish _ _ := mret tt |}.
  done.
Defined.
Definition demo_on_response (rep : reflection_response) : M (list reflection_response) unit :=
  modify (λ log, log ++ [rep]).
Definition demo_request := ServerReflectionInfo_request (H:=unit) demo_file_name demo_dependency
  demo_file_name id Z.of_nat 5 demo_on_response (Reflection_impl_init demo_pool ["svc"%string]).

Lemma reflection_answers_in_order_witness :
  ∃ p r, (ServerReflectionInfo_begin ;;
    for_each_in demo_request
      [list_services_request ""; file_by_filename "a"; file_by_filename "zzz"] ;;
    ServerReflectionInfo_finished demo_on_response [Val None])
      (ReflectionWorld false demo_replies) = (Ret tt, ReflectionWorld p r) ∧
    stream_fullfilled_ (stream r) =
      [list_services_response ["svc"; "grpc.reflection.v1alpha.ServerReflection"];
       file_descriptor_response ["a"; "b"; "c"]]%string.
Proof.
  pose (reps := [list_services_response ["svc"; "grpc.reflection.v1alpha.ServerReflection"];
       file_descriptor_response ["a"; "b"; "c"]]%string).
  pose (bad := Some (file_by_filename "zzz", error_not_found "File not found")).
  exists false, (snd (run_stream (H:=unit) demo_on_response
    ((E_push <$> reps) ++ [E_end (snd <$> bad)]) true
    (set_final Future_storage_init (set_stream Stream_storage_init demo_replies)))). split.
  - apply (reflection_answers_in_order demo_file_name demo_dependency demo_file_name id Z.of_nat 5
      demo_on_response (Reflection_impl_init demo_pool ["svc"%string])
      (ReflectionWorld false demo_replies) _ false
      [list_services_request ""; file_by_filename "a"] reps bad [Val None]).
    + constructor; [vm_compute; reflexivity|]. constructor; [vm_compute; reflexivity|constructor].
    + intros req e [= <- <-]. vm_compute. reflexivity.
    + vm_compute. reflexivity.
  - vm_compute. reflexivity.
Defined.

Lemma reflection_request_after_error_asserts_witness :
  ∃ r, (demo_request message_request_not_set ;; demo_request (list_services_request ""))
         (ReflectionWorld true demo_replies) = (Crash Assertion_failed, ReflectionWorld false r).
Proof.
  eexists.
  apply (reflection_request_after_error_asserts demo_file_name demo_dependency demo_file_name id
    Z.of_nat 5 demo_on_response (Reflection_impl_init demo_pool ["svc"%string])
    (ReflectionWorld true demo_replies) false _ message_request_not_set
    (list_services_request "") (error_unimplemented "reflection method missing")).
  - reflexivity.
  - intros c s. discriminate.
  - reflexivity.
Defined.

(** The services listed are the ones the configuration had when the feature was
    added, and the reflection service it adds itself. *)
Theorem reflection_feature_lists_services {File Desc Field S}
  (generated_pool : descriptor_pool File Desc Field)
  (get_config : reflection_impl (File:=File) (Desc:=Desc) (Field:=Field) → service_config)
  (f : Reflection_feature (File:=File) (Desc:=Desc) (Field:=Field)) 
  (cfg : config (Reflection_feature (File:=File) (Desc:=Desc) (Field:=Field))) (s : S)
  (Hgenerated : ∀ impl, sc_name_ (get_config impl) = "grpc.reflection.v1alpha.ServerReflection"%string) :
  ∃ impl cfg', add_features (Reflection_feature_add_to_config generated_pool get_config) [f] cfg =
      ([ReflectionFeature (Some impl)], cfg') ∧
    list_services impl s =
      (Ret (list_services_response (sc_name_ <$> get_services cfg')), s).
Proof.
  eexists _, _. split; [reflexivity|]. unfold list_services. simpl. unfold mret, M_ret.
  by rewrite fmap_app, <- (Hgenerated (Reflection_impl_init generated_pool
    (sc_name_ <$> get_services cfg))).
Qed.
