(* ===== verification/Plugin.v ===== *)
(** The protoc plugin (src/protoc_plugin/main.cpp): the C++ it generates for the
    services of a .proto file.  Protobuf's descriptors are given by what the plugin
    reads of them, and its output streams by the files that are opened. *)

From S2P Require Import Prelude Errors Effects.
From Stdlib Require Import Ascii String.
Local Open Scope string_scope.

(** ** Text *)

Definition nl : string := String (ascii_of_nat 10) "".
(** A double quote. *)
Definition dq : string := String (ascii_of_nat 34) "".

(** What is written to a stream: a piece may throw while it is computed. *)
Definition text : Type := expected string.
Definition lit (s : string) : text := Val s.
Coercion lit : string >-> text.

(** [dst << a << b << ...], from left to right. *)
Fixpoint out (pieces : list text) : text :=
  match pieces with
  | [] => Val ""
  | p :: pieces => s ← p; rest ← out pieces; Val (s ++ rest)%string
  end.

(** The loops over the methods and services. *)
Definition for_each_text {A} (f : A → text) (l : list A) : text := out (f <$> l).

(** ** Strings *)

(** [s.find(c, pos)]: [None] is [npos]. *)
Fixpoint find_from (c : ascii) (s : string) (pos : nat) : option nat :=
  match s, pos with
  | EmptyString, _ => None
  | String a s', 0 => if decide (a = c) then Some 0 else S <$> find_from c s' 0
  | String a s', S pos => S <$> find_from c s' pos
  end.

(** [s.substr(pos)]: [std::out_of_range] past the end. *)
Fixpoint substr_from (s : string) (pos : nat) : text :=
  match pos, s with
  | 0, s => Val s
  | S pos, String _ s => substr_from s pos
  | S _, EmptyString => Err (Std_exception "basic_string::substr")
  end.

(** [s.substr(pos, n)], for a [pos] in the string. *)
Definition substr (s : string) (pos n : nat) : string := String.substring pos n s.

(** A character as the [char] of the platform, signed. *)
Definition char_of (c : ascii) : Z :=
  let n := Z.of_nat (nat_of_ascii c) in if (n <? 128)%Z then n else (n - 256)%Z.

(** [std::isalnum] in the C locale. *)
Definition isalnum (c : ascii) : bool :=
  let n := nat_of_ascii c in
  (((48 <=? n) && (n <=? 57)) || ((65 <=? n) && (n <=? 90)) || ((97 <=? n) && (n <=? 122)))%nat.

(** [<< std::hex << int(c)]: the value as an unsigned 32-bit number. *)
Definition hex_digit (d : Z) : ascii :=
  ascii_of_nat (Z.to_nat (if (d <? 10)%Z then 48 + d else 87 + d)%Z).
Fixpoint hex_loop (fuel : nat) (n : Z) (acc : string) : string :=
  match fuel with
  | 0 => acc
  | S fuel =>
      let acc := String (hex_digit (n mod 16)) acc in
      if (n / 16 =? 0)%Z then acc else hex_loop fuel (n / 16) acc
  end.
(** Eight digits are enough for 32 bits. *)
Definition to_hex (i : Z) : string := hex_loop 8 (i mod 2 ^ 32) "".

(** [path(name).stem().string()]: the part after the last slash without its last
    extension. *)
Fixpoint filename (s : string) (current : string) : string :=
  match s with
  | EmptyString => current
  | String c s =>
      if decide (c = "/"%char) then filename s "" else filename s (current ++ String c "")
  end.
Fixpoint last_dot (s : string) (pos : nat) (found : option nat) : option nat :=
  match s with
  | EmptyString => found
  | String c s => last_dot s (S pos) (if decide (c = "."%char) then Some pos else found)
  end.
Definition path_stem (s : string) : string :=
  let f := filename s "" in
  if decide (f = "." ∨ f = "..") then f else
  match last_dot f 0 None with
  | None | Some 0 => f
  | Some n => substr f 0 n
  end.

(** ** Descriptors *)

(** [Descriptor]: its full name and the message it is nested in. *)
Inductive Descriptor := Message (full_name : string) (containing_type : option Descriptor).

Definition full_name (d : Descriptor) : string := match d with Message n _ => n end.
Definition containing_type (d : Descriptor) : option Descriptor :=
  match d with Message _ o => o end.

Record MethodDescriptor := Method {
  method_name : string;
  input_type : Descriptor;
  output_type : Descriptor;
  client_streaming : bool;
  server_streaming : bool
}.

Record ServiceDescriptor := Service {
  service_name : string;
  service_full_name : string;
  service_file_package : string;
  methods : list MethodDescriptor
}.

Record FileDescriptor := File {
  file_name : string;
  package : string;
  services : list ServiceDescriptor
}.

Definition header_extension := ".egrpc.pb.h".
Definition source_extension := ".egrpc.pb.cc".
Definition pb_header_extension := ".pb.h".

Inductive Method_mode := UNARY | CLIENT_STREAM | SERVER_STREAM | BIDIR_STREAM.

Definition get_mode (m : MethodDescriptor) : Method_mode :=
  let c_stream := client_streaming m in
  let s_stream := server_streaming m in
  if c_stream && s_stream then BIDIR_STREAM
  else if c_stream then CLIENT_STREAM
  else if s_stream then SERVER_STREAM
  else UNARY.

(** The [while] loop of [class_name]. *)
Fixpoint outermost (d : Descriptor) : Descriptor :=
  match d with
  | Message _ (Some o) => outermost o
  | Message n None => d
  end.

(** The two loops over the characters: every dot is replaced. *)
Fixpoint replace_dots (by_ : string) (s : string) : string :=
  match s with
  | EmptyString => ""
  | String c s =>
      if decide (c = "."%char) then by_ ++ replace_dots by_ s else String c (replace_dots by_ s)
  end.

Definition class_name (desc : Descriptor) : text :=
  let outer_name := full_name (outermost desc) in
  inner_name ← substr_from (full_name desc) (String.length outer_name);
  Val ("::" ++ replace_dots "::" outer_name ++ replace_dots "_" inner_name)%string.

Fixpoint header_guard (file_name : string) : string :=
  match file_name with
  | EmptyString => ""
  | String c s =>
      if isalnum c then String c (header_guard s) else to_hex (char_of c) ++ header_guard s
  end.

(** The loop of [tokenize], for strings shorter than 2^31 ([current] is an [int]);
    [next] is compared with it only where it is [npos], which is never equal.
    [None]: out of fuel. *)
Fixpoint tokenize_loop (fuel : nat) (str : string) (c : ascii) (current : nat)
  (next : option nat) (result : list string) : option (list string) :=
  match next with
  | None => Some (result ++ [substr str current (String.length str - current)])%list
  | Some next =>
      match fuel with
      | 0 => None
      | S fuel =>
          tokenize_loop fuel str c (S next) (find_from c str (S next))
            (result ++ [substr str current (next - current)])%list
      end
  end.

Definition tokenize (str : string) (c : ascii) : option (list string) :=
  match str with
  | EmptyString => Some []
  | _ => tokenize_loop (String.length str) str c 0 (find_from c str 0) []
  end.

Definition package_parts (file : FileDescriptor) : list string :=
  default [] (tokenize (package file) "."%char).

(** ** Services *)

Definition method_name_cste (service : ServiceDescriptor) (m : MethodDescriptor) : string :=
  "k" ++ service_name service ++ "_" ++ method_name m ++ "_name".

(** The bodies of the loops of [generate_service_header]. *)
Definition header_constant (service : ServiceDescriptor) (m : MethodDescriptor) : text :=
  out [lit "  static const char * "; lit (method_name_cste service m); lit (";" ++ nl)].

Definition header_method (m : MethodDescriptor) : text :=
  let input := input_type m in
  let output := output_type m in
  match get_mode m with
  | UNARY =>
      out [lit "  virtual ::easy_grpc::Future<"; class_name output; lit "> ";
           lit (method_name m); lit "("; class_name input; lit (") = 0;" ++ nl)]
  | CLIENT_STREAM =>
      out [lit "  virtual ::easy_grpc::Future<"; class_name output; lit "> ";
           lit (method_name m); lit "(::easy_grpc::Stream_future<"; class_name input;
           lit (">) = 0;" ++ nl)]
  | SERVER_STREAM =>
      out [lit "  virtual ::easy_grpc::Stream_future<"; class_name output; lit "> ";
           lit (method_name m); lit "("; class_name input; lit (") = 0;" ++ nl)]
  | BIDIR_STREAM =>
      out [lit "  virtual ::easy_grpc::Stream_future<"; class_name output; lit "> ";
           lit (method_name m); lit "(::easy_grpc::Stream_future<"; class_name input;
           lit (">) = 0;" ++ nl)]
  end.

Definition header_stub_interface_method (m : MethodDescriptor) : text :=
  let input := input_type m in
  let output := output_type m in
  match get_mode m with
  | UNARY =>
      out [lit "    virtual ::easy_grpc::Future<"; class_name output; lit "> ";
           lit (method_name m); lit "("; class_name input;
           lit (", ::easy_grpc::client::Call_options={}) = 0;" ++ nl)]
  | CLIENT_STREAM =>
      out [lit "    virtual std::tuple<::easy_grpc::Stream_promise<"; class_name input;
           lit ">, ::easy_grpc::Future<"; class_name output; lit ">> ";
           lit (method_name m); lit ("(::easy_grpc::client::Call_options={}) = 0;" ++ nl)]
  | SERVER_STREAM =>
      out [lit "    virtual ::easy_grpc::Stream_future<"; class_name output; lit "> ";
           lit (method_name m); lit "("; class_name input;
           lit (", ::easy_grpc::client::Call_options={}) = 0;" ++ nl)]
  | BIDIR_STREAM =>
      out [lit "    virtual std::tuple<::easy_grpc::Stream_promise<"; class_name input;
           lit ">, ::easy_grpc::Stream_future<"; class_name output; lit ">> ";
           lit (method_name m); lit ("(::easy_grpc::client::Call_options={}) = 0;" ++ nl)]
  end.

Definition header_stub_method (m : MethodDescriptor) : text :=
  let input := input_type m in
  let output := output_type m in
  match get_mode m with
  | UNARY =>
      out [lit "    ::easy_grpc::Future<"; class_name output; lit "> ";
           lit (method_name m); lit "("; class_name input;
           lit (", ::easy_grpc::client::Call_options={}) override;" ++ nl)]
  | CLIENT_STREAM =>
      out [lit "    std::tuple<::easy_grpc::Stream_promise<"; class_name input;
           lit ">, ::easy_grpc::Future<"; class_name output; lit ">> ";
           lit (method_name m); lit ("(::easy_grpc::client::Call_options={}) override;" ++ nl)]
  | SERVER_STREAM =>
      out [lit "    ::easy_grpc::Stream_future<"; class_name output; lit "> ";
           lit (method_name m); lit "("; class_name input;
           lit (", ::easy_grpc::client::Call_options={}) override;" ++ nl)]
  | BIDIR_STREAM =>
      out [lit "    std::tuple<::easy_grpc::Stream_promise<"; class_name input;
           lit ">, ::easy_grpc::Stream_future<"; class_name output; lit ">> ";
           lit (method_name m); lit ("(::easy_grpc::client::Call_options={}) override;" ++ nl)]
  end.

Definition header_tag (m : MethodDescriptor) : text :=
  out [lit "    void* "; lit (method_name m); lit ("_tag_;" ++ nl)].

Definition header_add_method (service : ServiceDescriptor) (m : MethodDescriptor) : text :=
  let input := input_type m in
  match get_mode m with
  | UNARY | SERVER_STREAM =>
      out [lit "    result.add_method("; lit (method_name_cste service m); lit ", [&impl](";
           class_name input; lit " req){return impl."; lit (method_name m);
           lit ("(std::move(req));});" ++ nl)]
  | CLIENT_STREAM | BIDIR_STREAM =>
      out [lit "    result.add_method("; lit (method_name_cste service m);
           lit ", [&impl](::easy_grpc::Stream_future<"; class_name input;
           lit "> req){return impl."; lit (method_name m); lit ("(std::move(req));});" ++ nl)]
  end.

Definition generate_service_header (service : ServiceDescriptor) : text :=
  let name := service_name service in
  let full_name := service_full_name service in
  out [
    lit "class "; lit name; lit (" {" ++ nl);
    lit ("public:" ++ nl);
    lit "  using service_type = "; lit name; lit (";" ++ nl ++ nl);
    lit "  virtual ~"; lit name; lit ("() {}" ++ nl ++ nl);
    for_each_text (header_constant service) (methods service);
    lit nl;
    for_each_text header_method (methods service);
    lit nl;
    lit ("  class Stub_interface {" ++ nl);
    lit ("  public:" ++ nl);
    lit ("    virtual ~Stub_interface() {}" ++ nl ++ nl);
    for_each_text header_stub_interface_method (methods service);
    lit ("  };" ++ nl ++ nl);
    lit ("  class Stub final : public Stub_interface {" ++ nl);
    lit ("  public:" ++ nl);
    lit "    Stub(::easy_grpc::client::Channel*, ";
    lit ("::easy_grpc::Completion_queue* = nullptr);" ++ nl ++ nl);
    for_each_text header_stub_method (methods service);
    lit nl;
    lit ("  private:" ++ nl);
    lit ("    ::easy_grpc::client::Channel* channel_;" ++ nl);
    lit ("    ::easy_grpc::Completion_queue* default_queue_;" ++ nl ++ nl);
    for_each_text header_tag (methods service);
    lit ("  };" ++ nl ++ nl);
    lit ("  template<typename ImplT>" ++ nl);
    lit ("  static ::easy_grpc::server::Service_config get_config(ImplT& impl) {" ++ nl);
    lit ("    ::easy_grpc::server::Service_config result(" ++ dq); lit full_name;
    lit (dq ++ ");" ++ nl ++ nl);
    for_each_text (header_add_method service) (methods service);
    lit (nl ++ "    return result;" ++ nl);
    lit ("  }" ++ nl);
    lit ("};" ++ nl ++ nl)].

(** The path under which a method is registered, with its service's file's package. *)
Definition method_path (service : ServiceDescriptor) (m : MethodDescriptor) : string :=
  "/" ++ service_file_package service ++ "." ++ service_name service ++ "/" ++ method_name m.

(** The bodies of the loops of [generate_service_source]. *)
Definition source_constant (service : ServiceDescriptor) (m : MethodDescriptor) : text :=
  out [lit "const char* "; lit (service_name service); lit "::";
       lit (method_name_cste service m); lit (" = " ++ dq); lit (method_path service m);
       lit (dq ++ ";" ++ nl)].

Definition source_register (service : ServiceDescriptor) (m : MethodDescriptor) : text :=
  out [lit (nl ++ "  , "); lit (method_name m); lit "_tag_(c->register_method(";
       lit (method_name_cste service m); lit "))"].

Definition source_default_queue : string :=
  "  if(!options.completion_queue) { options.completion_queue = " ++ "default_queue_; }" ++ nl.

Definition source_method (service : ServiceDescriptor) (m : MethodDescriptor) : text :=
  let name := service_name service in
  let input := input_type m in
  let output := output_type m in
  out [
    lit "// "; lit (method_name m); lit nl;
    match get_mode m with
    | UNARY =>
        out [lit "::easy_grpc::Future<"; class_name output; lit "> "; lit name;
             lit "::Stub::"; lit (method_name m); lit "("; class_name input;
             lit (" req, ::easy_grpc::client::Call_options options) {" ++ nl);
             lit source_default_queue;
             lit "  return ::easy_grpc::client::start_unary_call<";
             class_name output; lit ">(channel_, "; lit (method_name m);
             lit ("_tag_, std::move(req), std::move(options));" ++ nl);
             lit ("}" ++ nl ++ nl)]
    | CLIENT_STREAM =>
        out [lit "std::tuple<::easy_grpc::Stream_promise<"; class_name input;
             lit ">, ::easy_grpc::Future<"; class_name output; lit ">> ";
             lit name; lit "::Stub::"; lit (method_name m);
             lit ("(::easy_grpc::client::Call_options options) {" ++ nl);
             lit source_default_queue;
             lit "  return ::easy_grpc::client::start_client_streaming_call<";
             class_name output; lit ", "; class_name input; lit ">(channel_, ";
             lit (method_name m); lit ("_tag_, std::move(options));" ++ nl);
             lit ("}" ++ nl ++ nl)]
    | SERVER_STREAM =>
        out [lit "::easy_grpc::Stream_future<"; class_name output; lit "> "; lit name;
             lit "::Stub::"; lit (method_name m); lit "("; class_name input;
             lit (" req, ::easy_grpc::client::Call_options options) {" ++ nl);
             lit source_default_queue;
             lit "  return ::easy_grpc::client::start_server_streaming_call<";
             class_name output; lit ">(channel_, "; lit (method_name m);
             lit ("_tag_, std::move(req), std::move(options));" ++ nl);
             lit ("}" ++ nl ++ nl)]
    | BIDIR_STREAM =>
        out [lit "std::tuple<::easy_grpc::Stream_promise<"; class_name input;
             lit ">, ::easy_grpc::Stream_future<"; class_name output; lit ">> "; lit name;
             lit "::Stub::"; lit (method_name m);
             lit ("(::easy_grpc::client::Call_options options) {" ++ nl);
             lit source_default_queue;
             lit "  return ::easy_grpc::client::start_bidir_streaming_call<";
             class_name output; lit ", "; class_name input; lit ">(channel_, ";
             lit (method_name m); lit ("_tag_, std::move(options));" ++ nl);
             lit ("}" ++ nl ++ nl)]
    end].

Definition generate_service_source (service : ServiceDescriptor) : text :=
  let name := service_name service in
  out [
    lit "// ********** "; lit name; lit (" ********** //" ++ nl ++ nl);
    for_each_text (source_constant service) (methods service);
    lit nl;
    lit name;
    lit "::Stub::Stub(::easy_grpc::client::Channel* c, ";
    lit ("::easy_grpc::Completion_queue* default_queue)" ++ nl);
    lit "  : channel_(c), default_queue_(default_queue ? default_queue : ";
    lit "c->default_queue())";
    for_each_text (source_register service) (methods service);
    lit (" {}" ++ nl ++ nl);
    for_each_text (source_method service) (methods service)].

(** ** Files *)

(** The namespaces around the services. *)
Definition open_namespaces (package : list string) : text :=
  match package with
  | [] => lit ""
  | _ => out [for_each_text (λ p, out [lit "namespace "; lit p; lit (" {" ++ nl)]) package; lit nl]
  end.
Definition close_namespaces (package : list string) : text :=
  match package with
  | [] => lit ""
  | _ => out [for_each_text (λ p, out [lit "} // namespace"; lit p; lit nl]) package; lit nl]
  end.

Definition generate_header (file : FileDescriptor) : text :=
  let file_name := path_stem (file_name file) in
  let package := package_parts file in
  out [
    lit ("// This code was generated by the easy_grpc protoc plugin." ++ nl);
    lit "#ifndef EASY_GRPC_"; lit (header_guard file_name); lit ("_INCLUDED_H" ++ nl);
    lit "#define EASY_GRPC_"; lit (header_guard file_name); lit ("_INCLUDED_H" ++ nl);
    lit nl;
    lit ("#include " ++ dq); lit file_name; lit pb_header_extension; lit dq; lit (nl ++ nl);
    lit ("#include " ++ dq ++ "easy_grpc/ext_protobuf/gen_support.h" ++ dq); lit (nl ++ nl);
    lit ("#include <memory>" ++ nl ++ nl);
    open_namespaces package;
    for_each_text generate_service_header (services file);
    close_namespaces package;
    lit ("#endif" ++ nl)].

Definition generate_source (file : FileDescriptor) : text :=
  let file_name := path_stem (file_name file) in
  let package := package_parts file in
  out [
    lit ("// This code was generated by the easy_grpc protoc plugin." ++ nl ++ nl);
    lit ("#include " ++ dq); lit file_name; lit header_extension; lit dq; lit (nl ++ nl);
    open_namespaces package;
    for_each_text generate_service_source (services file);
    close_namespaces package].

(** [Generator::Generate]: the files opened in the context with what is written to
    them, and [*error]; the result says whether it succeeded. *)
Record generator_context := GeneratorContext {
  opened : list (string * string);
  error : option string
}.

Definition write_file (name : string) (data : text) : M generator_context unit :=
  match data with
  | Err e => throw e
  | Val s => modify (λ c, GeneratorContext (opened c ++ [(name, s)])%list (error c))
  end.

(** [e.what()], for the exceptions that are [std::exception]s. *)
Definition what (e : exn) : option string :=
  match e with
  | Rpc_error _ w | Std_exception w => Some w
  | Other_exception => None
  end.

Definition Generate (file : FileDescriptor) : M generator_context bool :=
  try_catch (
    let file_name := path_stem (file_name file) in
    write_file (file_name ++ header_extension) (generate_header file) ;;
    write_file (file_name ++ source_extension) (generate_source file) ;;
    mret true)
  (λ e, match what e with
        | Some w => modify (λ c, GeneratorContext (opened c) (Some w)) ;; mret false
        | None => throw e
        end).
