(* ===== verification/PluginLaws.v ===== *)
(** What the plugin generates: packages are split into their parts, every message
    gets the name protobuf's C++ generator gives it, the callbacks it registers
    select the handler of their method's mode, and both files are written. *)

From S2P Require Import Prelude Errors Effects FunctionTraits ServiceConfig Plugin.
From Stdlib Require Import Ascii String.
Local Open Scope string_scope.

(** ** Strings *)

Fixpoint sdrop (n : nat) (s : string) : string :=
  match n, s with
  | 0, s => s
  | S n, String _ s => sdrop n s
  | S _, EmptyString => ""
  end.

Fixpoint occurs (c : ascii) (s : string) : bool :=
  match s with
  | EmptyString => false
  | String a s => bool_decide (a = c) || occurs c s
  end.

(** The parts of a string between the separators. *)
Fixpoint split_on (c : ascii) (s : string) : list string :=
  match s with
  | EmptyString => [""]
  | String a s =>
      if decide (a = c) then "" :: split_on c s else
      match split_on c s with
      | [] => [String a ""]
      | p :: ps => String a p :: ps
      end
  end.

Lemma split_on_cons c s : ∃ p ps, split_on c s = p :: ps.
Proof.
  induction s as [|a s (p & ps & IH)]; simpl; [eauto|].
  destruct (decide (a = c)); [eauto|]. rewrite IH. eauto.
Qed.

Lemma string_append_cons a s1 s2 : String a s1 ++ s2 = String a (s1 ++ s2).
Proof. done. Qed.

Lemma string_append_nil_r s : s ++ "" = s.
Proof. induction s as [|a s IH]; [done|]. by rewrite string_append_cons, IH. Qed.

Lemma string_append_assoc s1 s2 s3 : (s1 ++ s2) ++ s3 = s1 ++ (s2 ++ s3).
Proof. induction s1 as [|a s1 IH]; [done|]. by rewrite !string_append_cons, IH. Qed.

Lemma string_length_append s1 s2 :
  String.length (s1 ++ s2) = (String.length s1 + String.length s2)%nat.
Proof. induction s1 as [|a s1 IH]; [done|]. rewrite string_append_cons. simpl. by rewrite IH. Qed.

(** The parts joined again are the string, and hold no separator. *)
Lemma split_on_join c s : String.concat (String c "") (split_on c s) = s.
Proof.
  induction s as [|a s IH]; [done|]. simpl.
  destruct (split_on_cons c s) as (p & ps & Hs). rewrite Hs in *.
  destruct (decide (a = c)) as [->|Hne].
  - change (String c (String.concat (String c "") (p :: ps)) = String c s). by rewrite IH.
  - rewrite <- IH. by destruct ps.
Qed.

Lemma split_on_parts c s p : p ∈ split_on c s → occurs c p = false.
Proof.
  revert p. induction s as [|a s IH]; intros p; simpl.
  - by intros ->%list_elem_of_singleton.
  - destruct (split_on_cons c s) as (q & qs & Hs). rewrite Hs in *.
    destruct (decide (a = c)) as [->|Hne].
    + intros [->|Hp]%elem_of_cons; [done|by apply IH].
    + intros [->|Hp]%elem_of_cons; simpl.
      * rewrite bool_decide_eq_false_2 by done. apply IH. by constructor.
      * apply IH. by constructor.
Qed.

Lemma sdrop_all n s : (String.length s ≤ n)%nat → sdrop n s = "".
Proof.
  revert s. induction n as [|n IH]; intros [|a s] Hn; simpl in *; try done; try lia.
  apply IH. lia.
Qed.

Lemma sdrop_sdrop n m s : sdrop n (sdrop m s) = sdrop (m + n)%nat s.
Proof.
  revert s. induction m as [|m IH]; intros s; [done|]. destruct s as [|a s]; simpl; [|apply IH].
  by destruct n.
Qed.

Lemma sdrop_length n s : String.length (sdrop n s) = (String.length s - n)%nat.
Proof.
  revert s. induction n as [|n IH]; intros [|a s]; try done. simpl. apply IH.
Qed.

Lemma substr_sdrop s pos n : substr s pos n = substr (sdrop pos s) 0 n.
Proof.
  unfold substr. revert s. induction pos as [|pos IH]; intros [|a s]; simpl; try done.
  by destruct n.
Qed.

Lemma substr_all s : substr s 0 (String.length s) = s.
Proof. unfold substr. induction s as [|a s IH]; [done|]. simpl. by rewrite IH. Qed.

Lemma find_from_sdrop c s pos :
  find_from c s pos = (λ i, pos + i)%nat <$> find_from c (sdrop pos s) 0.
Proof.
  revert s. induction pos as [|pos IH]; intros [|a s]; simpl; try done.
  - by destruct (decide (a = c)); [|destruct (find_from c s 0)].
  - rewrite IH. by destruct (find_from c (sdrop pos s) 0).
Qed.

Lemma split_on_find c s :
  split_on c s = match find_from c s 0 with
    | None => [s]
    | Some n => substr s 0 n :: split_on c (sdrop (S n) s)
    end.
Proof.
  unfold substr. induction s as [|a s IH]; [done|]. simpl.
  destruct (decide (a = c)) as [->|Hne]; [by destruct s|].
  rewrite IH. by destruct (find_from c s 0) as [n|].
Qed.

Lemma find_from_lt c s n : find_from c s 0 = Some n → (n < String.length s)%nat.
Proof.
  revert n. induction s as [|a s IH]; intros n; simpl; [done|].
  destruct (decide (a = c)); [intros [= <-]; lia|].
  destruct (find_from c s 0) as [m|]; [|done]. intros [= <-]. specialize (IH m eq_refl). lia.
Qed.

Lemma tokenize_loop_split str c fuel : ∀ current result,
  (String.length str - current ≤ fuel)%nat → (current ≤ String.length str)%nat →
  tokenize_loop fuel str c current (find_from c str current) result =
  Some (result ++ split_on c (sdrop current str))%list.
Proof.
  induction fuel as [|fuel IH]; intros current result Hfuel Hcur;
    rewrite (split_on_find c (sdrop current str)), find_from_sdrop;
    destruct (find_from c (sdrop current str) 0) as [n|] eqn:Hn;
    cbn [fmap option_fmap option_map tokenize_loop].
  - apply find_from_lt in Hn. rewrite sdrop_length in Hn. lia.
  - rewrite substr_sdrop, <- sdrop_length. by rewrite substr_all.
  - apply find_from_lt in Hn. rewrite sdrop_length in Hn.
    rewrite IH by lia. rewrite <- app_assoc. cbn [app].
    rewrite (substr_sdrop str current), sdrop_sdrop.
    replace (current + n - current)%nat with n by lia.
    by replace (current + S n)%nat with (S (current + n)) by lia.
  - rewrite substr_sdrop, <- sdrop_length. by rewrite substr_all.
Qed.

Lemma tokenize_split str c : str ≠ "" → tokenize str c = Some (split_on c str).
Proof.
  intros Hne. unfold tokenize. destruct str as [|a str]; [done|].
  rewrite (tokenize_loop_split (String a str) c) by (simpl; lia). done.
Qed.

(** C33: [tokenize] ends on every string and its parts are the ones between the
    separators: joined again they are the string, none holds a separator, and only
    the empty string has none. *)
Theorem tokenize_parts (str : string) (c : ascii) :
  ∃ parts, tokenize str c = Some parts ∧
    String.concat (String c "") parts = str ∧
    (∀ p, p ∈ parts → occurs c p = false) ∧ (parts = [] ↔ str = "").
Proof.
  destruct (decide (str = "")) as [->|Hne].
  - exists []. split; [done|]. split; [done|]. split; [|done]. by intros p ?%elem_of_nil.
  - exists (split_on c str). split; [by apply tokenize_split|].
    split; [apply split_on_join|]. split; [apply split_on_parts|].
    destruct (split_on_cons c str) as (p & ps & ->). done.
Qed.

(** ** Text *)

Definition is_text (t : text) : Prop := ∃ s, t = Val s.

Lemma out_cons p ps : out (p :: ps) = (s ← p; rest ← out ps; Val (s ++ rest)%string).
Proof. done. Qed.

Lemma out_val pieces : Forall is_text pieces → is_text (out pieces).
Proof.
  induction 1 as [|p ps [s ->] _ [rest IH]]; [by eexists|].
  rewrite out_cons, IH. by eexists.
Qed.

Lemma lit_val s : is_text (lit s).
Proof. by eexists. Qed.

Lemma for_each_text_val {A} (f : A → text) l :
  (∀ x, x ∈ l → is_text (f x)) → is_text (for_each_text f l).
Proof.
  intros Hf. apply out_val, Forall_fmap, Forall_forall. exact Hf.
Qed.

#[local] Hint Resolve lit_val : egrpc.

(** A piece of text made of pieces that do not throw. *)
Ltac text_val :=
  repeat first
    [ apply lit_val
    | eassumption
    | match goal with
      | |- is_text (out _) => apply out_val
      | |- is_text (for_each_text _ _) => apply for_each_text_val; intros ? ?
      | |- Forall is_text (_ :: _) => constructor
      | |- Forall is_text [] => constructor
      end ].

(** ** Names of messages *)

(** What protobuf says of nested messages: their name is the outer one's, a dot, and
    a name without dots. *)
Inductive descriptor_ok : Descriptor → Prop :=
| ok_top name : descriptor_ok (Message name None)
| ok_nested outer name :
    descriptor_ok outer → occurs "."%char name = false →
    descriptor_ok (Message (full_name outer ++ "." ++ name) (Some outer)).

Lemma substr_from_append s t : substr_from (s ++ t) (String.length s) = Val t.
Proof. induction s as [|a s IH]; [by destruct t|]. by rewrite string_append_cons. Qed.

Lemma replace_dots_append r s t : replace_dots r (s ++ t) = replace_dots r s ++ replace_dots r t.
Proof.
  induction s as [|a s IH]; [done|]. rewrite string_append_cons. simpl.
  destruct (decide (a = "."%char)); rewrite IH; [by rewrite string_append_assoc|done].
Qed.

Lemma replace_dots_none r s : occurs "."%char s = false → replace_dots r s = s.
Proof.
  induction s as [|a s IH]; [done|]. simpl. intros [Ha Hs]%orb_false_iff.
  apply bool_decide_eq_false in Ha. rewrite decide_False by done. by rewrite IH.
Qed.

Lemma descriptor_prefix d :
  descriptor_ok d → ∃ inner, full_name d = full_name (outermost d) ++ inner.
Proof.
  induction 1 as [name|outer name _ [inner IH] _]; simpl.
  - exists "". by rewrite string_append_nil_r.
  - exists (inner ++ "." ++ name). by rewrite IH at 1; rewrite string_append_assoc.
Qed.

Lemma class_name_split d inner :
  full_name d = full_name (outermost d) ++ inner →
  class_name d = Val ("::" ++ replace_dots "::" (full_name (outermost d)) ++
                      replace_dots "_" inner).
Proof. intros Hd. unfold class_name. by rewrite Hd, substr_from_append. Qed.

Lemma class_name_val d : descriptor_ok d → is_text (class_name d).
Proof.
  intros Hd. destruct (descriptor_prefix d Hd) as [inner Hinner].
  rewrite (class_name_split d inner Hinner). by eexists.
Qed.

(** The C++ name of a message: the parts of a top-level message's name are joined
    by [::], the names of nested messages are appended after an underscore. *)
Theorem class_name_of_nested outer name :
  descriptor_ok outer → occurs "."%char name = false →
  class_name (Message (full_name outer ++ "." ++ name) (Some outer)) =
  (s ← class_name outer; Val (s ++ "_" ++ name)%string).
Proof.
  intros Houter Hname. destruct (descriptor_prefix outer Houter) as [inner Hinner].
  rewrite (class_name_split outer inner Hinner).
  rewrite (class_name_split _ (inner ++ "." ++ name)).
  - simpl. rewrite !replace_dots_append. simpl. rewrite (replace_dots_none _ name Hname).
    f_equal. by rewrite !string_append_assoc.
  - simpl. by rewrite Hinner at 1; rewrite string_append_assoc.
Qed.

(** ** The callbacks of a service *)

(** A type, as the plugin writes it. *)
Fixpoint cpp_text (t : cpp_type) : string :=
  match t with
  | T_value name => name
  | T_Future t => "::easy_grpc::Future<" ++ cpp_text t ++ ">"
  | T_Stream_future t => "::easy_grpc::Stream_future<" ++ cpp_text t ++ ">"
  | T_ref t => cpp_text t ++ "&"
  | T_pointer _ t => cpp_text t ++ "*"
  end.

(** The argument and result of the callback registered for a method. *)
Definition method_traits (m : MethodDescriptor) (input output : string) : function_traits :=
  FunctionTraits
    (if client_streaming m then T_Stream_future (T_value input) else T_value input)
    (if server_streaming m then T_Stream_future (T_value output) else T_Future (T_value output)).

Definition mode_template (mode : Method_mode) : handler_template :=
  match mode with
  | UNARY => Unary_call_handler
  | CLIENT_STREAM => Client_streaming_call_handler
  | SERVER_STREAM => Server_streaming_call_handler
  | BIDIR_STREAM => Bidir_streaming_call_handler
  end.

Lemma bind_val {A B} (a : A) (f : A → expected B) : (Val a ≫= f) = f a.
Proof. done. Qed.

(** C32: the plugin and the library agree.  For every method, the generated interface
    declares a function, and [get_config] registers a callback that returns what it
    returns, whose types, as written, make [add_method] select the handler of the
    method's mode, with the method's messages as its types, answering
    asynchronously. *)
Theorem plugin_callbacks_select_mode (service : ServiceDescriptor) (m : MethodDescriptor)
  (input output : string) (queues : list nat) (sc : service_config)
  (Hinput : class_name (input_type m) = Val input)
  (Houtput : class_name (output_type m) = Val output) :
  let cb := method_traits m input output in
  header_method m = Val ("  virtual " ++ cpp_text (result_type cb) ++ " " ++ method_name m ++
    "(" ++ cpp_text (arg_type cb) ++ ") = 0;" ++ nl) ∧
  header_add_method service m = Val ("    result.add_method(" ++ method_name_cste service m ++
    ", [&impl](" ++ cpp_text (arg_type cb) ++ " req){return impl." ++ method_name m ++
    "(std::move(req));});" ++ nl) ∧
  ∃ sm, sc_methods_ (add_method (method_path service m) cb queues sc) =
      (sc_methods_ sc ++ [sm])%list ∧
    sm_name_ sm = method_path service m ∧ sm_template sm = mode_template (get_mode m) ∧
    sm_in sm = T_value input ∧ sm_out sm = T_value output ∧ sm_sync sm = false.
Proof.
  intros cb. subst cb. unfold header_method, header_add_method, get_mode, method_traits.
  rewrite Hinput, Houtput.
  destruct (client_streaming m), (server_streaming m); simpl;
    rewrite ?string_append_assoc, ?string_append_nil_r;
    (split; [done|]; split; [done|]; by eexists).
Qed.

(** ** Paths *)

(** gRPC's path of a method: the full name of its service and its own name. *)
Definition grpc_path (service : ServiceDescriptor) (m : MethodDescriptor) : string :=
  "/" ++ service_full_name service ++ "/" ++ method_name m.

(** What protobuf says of the full name of a service. *)
Definition service_ok (service : ServiceDescriptor) : Prop :=
  service_full_name service =
  (if decide (service_file_package service = "") then service_name service
   else service_file_package service ++ "." ++ service_name service).

(** C38: the path under which the generated code registers a method, on both sides,
    is gRPC's path exactly when the file has a package: without one it has a dot
    too many, and other implementations do not find the method. *)
Theorem plugin_path_correct_iff_packaged (service : ServiceDescriptor) (m : MethodDescriptor)
  (Hok : service_ok service) :
  method_path service m = grpc_path service m ↔ service_file_package service ≠ "".
Proof.
  unfold method_path, grpc_path. rewrite Hok.
  destruct (decide (service_file_package service = "")) as [Hp|Hp].
  - split; [|done]. intros Heq. exfalso. rewrite Hp in Heq.
    apply (f_equal String.length) in Heq. revert Heq. rewrite !string_length_append. simpl. lia.
  - split; [done|]. intros _. by rewrite !string_append_assoc.
Qed.

Lemma plugin_path_correct_iff_packaged_witness :
  method_path (Service "Greeter" "pkg.Greeter" "pkg" [])
    (Method "Hello" (Message "pkg.A" None) (Message "pkg.B" None) false false) = "/pkg.Greeter/Hello" ∧
  method_path (Service "Greeter" "Greeter" "" [])
    (Method "Hello" (Message "A" None) (Message "B" None) false false) = "/.Greeter/Hello" ∧
  (method_path (Service "Greeter" "Greeter" "" [])
    (Method "Hello" (Message "A" None) (Message "B" None) false false) =
   grpc_path (Service "Greeter" "Greeter" "" [])
    (Method "Hello" (Message "A" None) (Message "B" None) false false) ↔ "" ≠ "").
Proof.
  split; [reflexivity|]. split; [reflexivity|].
  apply (plugin_path_correct_iff_packaged (Service "Greeter" "Greeter" "" [])).
  reflexivity.
Defined.

(** ** Files *)

Definition method_ok (m : MethodDescriptor) : Prop :=
  descriptor_ok (input_type m) ∧ descriptor_ok (output_type m).
Definition file_ok (file : FileDescriptor) : Prop :=
  ∀ s m, s ∈ services file → m ∈ methods s → method_ok m.

Lemma method_texts service m :
  method_ok m →
  is_text (header_method m) ∧ is_text (header_stub_interface_method m) ∧
  is_text (header_stub_method m) ∧ is_text (header_add_method service m) ∧
  is_text (source_method service m).
Proof.
  intros [Hin Hout]. apply class_name_val in Hin, Hout.
  unfold header_method, header_stub_interface_method, header_stub_method, header_add_method,
    source_method.
  destruct (get_mode m); split_and!; text_val.
Qed.

Lemma service_header_text service :
  (∀ m, m ∈ methods service → method_ok m) → is_text (generate_service_header service).
Proof.
  intros Hok. unfold generate_service_header, header_constant, header_tag.
  text_val; match goal with H : _ ∈ _ |- _ => apply Hok, (method_texts service) in H end;
    by destruct_and?.
Qed.

Lemma service_source_text service :
  (∀ m, m ∈ methods service → method_ok m) → is_text (generate_service_source service).
Proof.
  intros Hok. unfold generate_service_source, source_constant, source_register.
  text_val; match goal with H : _ ∈ _ |- _ => apply Hok, (method_texts service) in H end;
    by destruct_and?.
Qed.

Lemma namespaces_text p : is_text (open_namespaces p) ∧ is_text (close_namespaces p).
Proof. unfold open_namespaces, close_namespaces. split; destruct p; text_val. Qed.

Lemma header_text file : file_ok file → is_text (generate_header file).
Proof.
  intros Hok. destruct (namespaces_text (package_parts file)). unfold generate_header. text_val.
  apply service_header_text. intros m Hm. by eapply Hok.
Qed.

Lemma source_text file : file_ok file → is_text (generate_source file).
Proof.
  intros Hok. destruct (namespaces_text (package_parts file)). unfold generate_source. text_val.
  apply service_source_text. intros m Hm. by eapply Hok.
Qed.

(** The generator writes the two files of any file whose messages are named as
    protobuf names them, under the names its header and source expect, and reports
    success; when a message cannot be named the failure is reported in [*error] and
    nothing is written. *)
Theorem generate_writes_both_files (file : FileDescriptor) (ctx : generator_context) :
  (file_ok file → ∃ header source,
     generate_header file = Val header ∧ generate_source file = Val source ∧
     Generate file ctx = (Ret true, GeneratorContext
       (opened ctx ++ [((path_stem (file_name file) ++ ".egrpc.pb.h")%string, header);
                       ((path_stem (file_name file) ++ ".egrpc.pb.cc")%string, source)])%list
       (error ctx))) ∧
  (∀ e w, generate_header file = Err e → what e = Some w →
     Generate file ctx = (Ret false, GeneratorContext (opened ctx) (Some w))).
Proof.
  split.
  - intros Hok. destruct (header_text file Hok) as [header Hh].
    destruct (source_text file Hok) as [source Hs]. exists header, source.
    split; [done|]. split; [done|].
    unfold Generate, write_file. rewrite Hh, Hs. munfold. simpl. by rewrite <- app_assoc.
  - intros e w He Hw. unfold Generate, write_file. rewrite He. munfold. by rewrite Hw.
Qed.

(** ** Header guards *)

Fixpoint all_alnum (s : string) : bool :=
  match s with EmptyString => true | String c s => isalnum c && all_alnum s end.

Lemma all_alnum_append s t : all_alnum (s ++ t) = all_alnum s && all_alnum t.
Proof.
  induction s as [|a s IH]; [done|]. rewrite string_append_cons. simpl.
  by rewrite IH, andb_assoc.
Qed.

Lemma hex_digit_alnum d : (0 ≤ d < 16)%Z → isalnum (hex_digit d) = true.
Proof.
  intros Hd.
  assert (d ∈ [0; 1; 2; 3; 4; 5; 6; 7; 8; 9; 10; 11; 12; 13; 14; 15]%Z) as Hin.
  { rewrite !elem_of_cons. lia. }
  repeat (apply elem_of_cons in Hin as [->|Hin]; [done|]). by apply elem_of_nil in Hin.
Qed.

Lemma hex_loop_alnum fuel : ∀ n acc,
  all_alnum acc = true → all_alnum (hex_loop fuel n acc) = true.
Proof.
  induction fuel as [|fuel IH]; intros n acc Hacc; [done|]. cbn [hex_loop].
  assert (all_alnum (String (hex_digit (n mod 16)) acc) = true) as Hacc'.
  { simpl. rewrite hex_digit_alnum, Hacc; [done|]. by apply Z.mod_pos_bound. }
  destruct (n / 16 =? 0)%Z; [done|]. by apply IH.
Qed.

(** The guard of any file name can be part of a macro's name; but different files may
    have the same guard, and then only one of their headers can be included. *)
Theorem header_guard_identifier (name : string) :
  all_alnum (header_guard name) = true ∧
  (all_alnum name = true → header_guard name = name) ∧
  header_guard "my-file" = header_guard "my2dfile".
Proof.
  split; [|split; [|done]].
  - induction name as [|c s IH]; [done|]. simpl. destruct (isalnum c) eqn:Hc; simpl.
    + by rewrite Hc, IH.
    + rewrite all_alnum_append, IH. unfold to_hex. by rewrite hex_loop_alnum.
  - induction name as [|c s IH]; [done|]. simpl. intros [Hc Hs]%andb_true_iff.
    by rewrite Hc, IH.
Qed.

(** A message nested twice, in a package. *)
Definition demo_outer : Descriptor := Message "pkg.sub.Outer" None.
Definition demo_inner : Descriptor := Message "pkg.sub.Outer.Inner" (Some demo_outer).
Definition demo_method : MethodDescriptor := Method "Get" demo_outer demo_inner false true.
Definition demo_service : ServiceDescriptor :=
  Service "Store" "pkg.sub.Store" "pkg.sub" [demo_method].

Lemma plugin_callbacks_select_mode_witness :
  header_method demo_method = Val
    ("  virtual ::easy_grpc::Stream_future<::pkg::sub::Outer_Inner> Get(::pkg::sub::Outer) = 0;" ++ nl) ∧
  ∃ sm, sc_methods_ (add_method (method_path demo_service demo_method)
      (method_traits demo_method "::pkg::sub::Outer" "::pkg::sub::Outer_Inner") []
      (Service_config_init "pkg.sub.Store")) = [sm] ∧
    sm_name_ sm = "/pkg.sub.Store/Get" ∧ sm_template sm = Server_streaming_call_handler.
Proof.
  destruct (plugin_callbacks_select_mode demo_service demo_method "::pkg::sub::Outer"
    "::pkg::sub::Outer_Inner" [] (Service_config_init "pkg.sub.Store")) as (Hh & _ & sm & Hsm).
  - reflexivity.
  - reflexivity.
  - split; [exact Hh|]. exists sm. destruct Hsm as (Hm & Hn & Ht & _).
    split; [exact Hm|]. split; [exact Hn|exact Ht].
Defined.

Lemma generate_writes_both_files_witness :
  ∃ header source,
    Generate (File "dir/store.proto" "pkg.sub" [demo_service]) (GeneratorContext [] None) =
      (Ret true, GeneratorContext [("store.egrpc.pb.h", header); ("store.egrpc.pb.cc", source)] None).
Proof.
  destruct (generate_writes_both_files (File "dir/store.proto" "pkg.sub" [demo_service])
    (GeneratorContext [] None)) as [Hok _].
  destruct Hok as (header & source & _ & _ & Hgen).
  - intros s m Hs Hm. apply list_elem_of_singleton in Hs as ->.
    apply list_elem_of_singleton in Hm as ->.
    assert (descriptor_ok demo_outer) as Houter by constructor.
    split; [exact Houter|]. apply (ok_nested demo_outer "Inner"); [exact Houter|reflexivity].
  - exists header, source. exact Hgen.
Defined.
