(* ===== verification/EndToEnd.v ===== *)
(** Calls from end to end: a client of this library talking to a server of this
    library.  What travels between them is the core's business; the interface
    [Transport] states what gRPC documents about it. *)

From S2P Require Import Prelude Errors Effects FutureUtils FutureStorage Future Grpc.
From S2P Require Import StreamStorage StreamLaws CallHandler ServerStreaming ServerStreamingLaws.
From S2P Require Import ClientStreaming ClientStreamingLaws.
From S2P Require Import Client ClientUnary ClientReader ClientWriter ClientWriterLaws.

(** ** The interface of the core *)

(** The messages and the status in the batches one side has started. *)
Definition op_message (op : grpc_op) : option byte_buffer :=
  match op_data_ op with GRPC_OP_SEND_MESSAGE b => Some b | _ => None end.
Definition op_status (op : grpc_op) : option (grpc_status_code * string) :=
  match op_data_ op with
  | GRPC_OP_SEND_STATUS_FROM_SERVER code details => Some (code, default "" details)
  | _ => None
  end.
Definition sent_messages (bs : list batch) : list byte_buffer :=
  omap op_message (bs ≫= batch_ops).
Definition sent_status (bs : list batch) : option (grpc_status_code * string) :=
  head (omap op_status (bs ≫= batch_ops)).

Class Transport := {
  (** The server is given these requests, and then their end. *)
  gives_requests : list batch → list byte_buffer → Prop;
  (** The client is given these messages, and then this status. *)
  gives_replies : list batch → list byte_buffer → grpc_status_code → string → Prop;

  (** Messages are not reordered, duplicated or invented; the last ones are missing
      when the call breaks. *)
  gives_requests_prefix bs ms : gives_requests bs ms → ms `prefix_of` sent_messages bs;
  gives_replies_prefix bs ms s d : gives_replies bs ms s d → ms `prefix_of` sent_messages bs;
  (** A status is the server's, after all its messages, or the core's own, which
      is an error: the call was cancelled, its deadline passed, it broke. *)
  gives_replies_status bs ms s d :
    gives_replies bs ms s d →
    (sent_status bs = Some (s, d) ∧ ms = sent_messages bs) ∨ s ≠ GRPC_STATUS_OK
}.

(** An error as the other side gets it: its code and its text. *)
Definition remote_error (e : exn) : exn := Rpc_error (get_error_details e).1 (get_error_details e).2.
Definition remote_result {A} (r : expected A) : expected A :=
  match r with Val v => Val v | Err e => Err (remote_error e) end.

(** An error that does not claim to be a success. *)
Definition is_failure (e : exn) : Prop := (get_error_details e).1 ≠ GRPC_STATUS_OK.

(** ** Unary calls *)

Section Unary.
Context {ReqT RepT H U : Type} `{!Serializer ReqT, !Serializer RepT}.
Context `{!SerializerOk ReqT, !SerializerOk RepT, !FutureHandler RepT H U} {transport : Transport}.

Lemma unary_request_sent (req : ReqT) (payload : byte_buffer) :
  gives_requests [Batch (unary_ops (serialize req)) 0] [payload] → payload = serialize req.
Proof. intros [rest Hrest]%gives_requests_prefix. by injection Hrest. Qed.

Lemma unary_answer_sent (md : list (string * string)) (rep : expected RepT) :
  sent_messages [Batch (unary_answer md rep) 0] =
    match rep with Val v => [serialize v] | Err _ => [] end ∧
  sent_status [Batch (unary_answer md rep) 0] =
    Some (match rep with Val _ => (GRPC_STATUS_OK, "") | Err e => get_error_details e end).
Proof. destruct rep as [v|e]; [done|]. by destruct e. Qed.

(** What the client makes of the end of a call that is answered with [rep]. *)
Lemma reply_outcome (bs : list batch) (rep : expected RepT) (o : option byte_buffer) status details :
  (∀ e, rep = Err e → is_failure e) →
  sent_messages bs = match rep with Val v => [serialize v] | Err _ => [] end →
  sent_status bs =
    Some (match rep with Val _ => (GRPC_STATUS_OK, "") | Err e => get_error_details e end) →
  gives_replies bs (option_list o) status details →
  ∃ r, core_outcome o status details r ∧
    (r = remote_result rep ∨ (status ≠ GRPC_STATUS_OK ∧ r = Err (Rpc_error status details))).
Proof.
  intros Hfail Hm Hs Hgives.
  destruct (gives_replies_status _ _ _ _ Hgives) as [[Hst Hms]|Hst].
  2: { exists (Err (Rpc_error status details)). split; [by constructor|by right]. }
  rewrite Hs in Hst. rewrite Hm in Hms.
  exists (remote_result rep). split; [|by left]. destruct rep as [v|e]; simpl.
  - destruct o as [raw|]; [|done]. simplify_eq/=. constructor. apply deserialize_serialize.
  - destruct o; [done|]. injection Hst as Hst. unfold remote_error. rewrite Hst. constructor.
    specialize (Hfail e eq_refl). unfold is_failure in Hfail. by rewrite Hst in Hfail.
Qed.

(** The client's side once its call has started and its handler is attached. *)
Lemma unary_client_starts accepts (Haccepts : grpc_accepts_allowed accepts)
  (stub : method_stub) (options : call_options) (q : nat) (req : ReqT) (h : H) (u : U) :
  completion_queue (Method_stub_options stub options) = Some q →
  (Method_stub_call (H:=H) accepts stub req options ;; unary_attach h) (unary_new u) =
  (Ret tt, unary_started (RegisteredCall (handle_ (channel_ stub)) (tag_ stub) q
     (deadline (Method_stub_options stub options))) req (waiting_reply h) u).
Proof.
  intros Hq. eapply runs_bind; [by apply start_unary_runs|reflexivity].
Qed.
End Unary.

(** C5: a unary call from end to end.  The server's program gets the very request
    the client's program passed; the client's future gets what the server's
    program returned, or the code and text of what it threw, unless the call
    breaks, and then it gets that error; the client's handler runs once, and both
    sides have deleted what served the call. *)
Theorem unary_call_end_to_end {ReqT RepT H U} `{!Serializer ReqT, !Serializer RepT}
  `{!SerializerOk ReqT, !SerializerOk RepT, !FutureHandler RepT H U} {transport : Transport}
  (accepts : list batch → list batch → list grpc_op → bool)
  (Haccepts : grpc_accepts_allowed accepts)
  (stub : method_stub) (options : call_options) (q : nat) (req : ReqT)
  (handler : ReqT → expected RepT) {rmd : list (string * string)} (md : list (string * string)) (h : H) (u : U)
  (Hq : completion_queue (Method_stub_options stub options) = Some q)
  (Hfail : ∀ e, handler req = Err e → is_failure e)
  (Hfields : handler_fields h = [Fval])
  (Hhandler : ∀ r, ∃ u', handler_finish h (reply_result r) u = (Ret tt, u')) :
  ∃ wc, (Method_stub_call accepts stub req options ;; unary_attach h) (unary_new u)
          = (Ret tt, wc) ∧
    ∀ payload, gives_requests (started wc) [payload] →
    ∃ ws, (Unary_call_handler_perform_sync accepts handler ;; unary_complete)
            (unary_incoming (rmd:=rmd) payload md) = (Ret tt, ws) ∧
      deleted ws = true ∧ inflight ws = [] ∧
      ∀ o status details, gives_replies (started ws) (option_list o) status details →
      ∃ r wc', unary_finishes o status details wc = (Ret tt, wc') ∧
        deleted wc' = true ∧ inflight wc' = [] ∧
        (r = remote_result (handler req) ∨
         (status ≠ GRPC_STATUS_OK ∧ r = Err (Rpc_error status details))) ∧
        handler_finish h (reply_result r) u = (Ret tt, reply_client (uc_reply (session (obj wc')))).
Proof.
  eexists. split; [by apply unary_client_starts|].
  intros payload Hpayload. apply unary_request_sent in Hpayload as ->.
  destruct (unary_sync_whole (rmd:=rmd) accepts Haccepts handler (serialize req) md req
    (deserialize_serialize req))
    as (ws & Hserve & Hinf & Hst & Hdel & _).
  exists ws. split; [done|]. split; [done|]. split; [done|].
  intros o status details Hgives. rewrite Hst in Hgives.
  destruct (unary_answer_sent md (handler req)) as [Hm Hs].
  destruct (reply_outcome _ (handler req) o status details Hfail Hm Hs Hgives)
    as (r & Hout & Hr).
  destruct (Hhandler r) as [u' Hu'].
  destruct (unary_finishes_runs
    (RegisteredCall (handle_ (channel_ stub)) (tag_ stub) q
       (deadline (Method_stub_options stub options))) req
    (waiting_reply h) (waiting_reply h) o status details r u u' Hout) as (w & Hrun & Hover & _).
  { by rewrite (settle_waiting h Hfields), Hu'. }
  exists r, w. split; [exact Hrun|]. destruct Hover as (_ & Hcl & Hinf' & _ & Hdel' & _).
  by rewrite Hcl.
Qed.

(** A core that always delivers. *)
Definition reliable_transport : Transport.
Proof.
  refine {| gives_requests bs ms := ms = sent_messages bs;
            gives_replies bs ms s d := ms = sent_messages bs ∧ sent_status bs = Some (s, d) |}.
  - by intros bs ms ->.
  - by intros bs ms s d [-> _].
  - intros bs ms s d [-> Hs]. by left.
Defined.

Lemma unary_call_end_to_end_witness :
  ∃ wc ws wc',
    (Method_stub_call (RepT:=Byte.byte) batch_allowed
       (MethodStub (Channel (Some 1) (Some 2)) (Some 3) 4) Byte.x07 Call_options_init ;;
     unary_attach tt) (unary_new []) = (Ret tt, wc) ∧
    (Unary_call_handler_perform_sync batch_allowed (λ b : Byte.byte, Val Byte.x2a) ;;
     unary_complete) (unary_incoming (rmd:=[]) (serialize Byte.x07) []) = (Ret tt, ws) ∧
    unary_finishes (Some (ByteBuffer true [[Byte.x2a]])) GRPC_STATUS_OK "" wc = (Ret tt, wc') ∧
    reply_client (uc_reply (session (obj wc'))) = [[Val (Some Byte.x2a)]].
Proof.
  destruct (unary_call_end_to_end (rmd:=[]) (transport:=reliable_transport)
    (FutureHandler0:=reply_logger) batch_allowed
    batch_allowed_accepts (MethodStub (Channel (Some 1) (Some 2)) (Some 3) 4)
    Call_options_init 3 Byte.x07 (λ b : Byte.byte, Val Byte.x2a) [] tt [] eq_refl
    ltac:(done) eq_refl ltac:(by eexists)) as (wc & Hwc & Hserver).
  destruct (Hserver (serialize Byte.x07)) as (ws & Hws & _ & _ & Hclient).
  { by pose proof (f_equal snd Hwc : _ = wc) as <-. }
  destruct (Hclient (Some (ByteBuffer true [[Byte.x2a]])) GRPC_STATUS_OK "")
    as (r & wc' & Hwc' & _ & _ & Hr & Hlog).
  { pose proof (f_equal snd Hws : _ = ws) as <-. by split. }
  exists wc, ws, wc'. split; [exact Hwc|]. split; [exact Hws|]. split; [exact Hwc'|].
  destruct Hr as [->|[Hr _]]; [|done]. exact (eq_sym (f_equal snd Hlog)).
Defined.

(** A program may throw an [Rpc_error] whose code is OK: the server then sends the
    status OK and no message, and the client reads a reply it has not got. *)
Theorem unary_ok_error_crashes_client {ReqT RepT H U}
  `{!Serializer ReqT, !Serializer RepT, !FutureHandler RepT H U}
  (md : list (string * string)) (e : exn) (created : registered_call) (req : ReqT)
  (rep : future_storage RepT H) (u : U)
  (Hok : ¬ is_failure e) :
  let sent := [Batch (unary_answer (RepT:=RepT) md (Err e)) 0] in
  ∃ details, sent_messages sent = [] ∧ sent_status sent = Some (GRPC_STATUS_OK, details) ∧
    (unary_finishes None GRPC_STATUS_OK details (unary_started created req rep u)).1 =
      Crash Null_dereference.
Proof.
  exists (get_error_details e).2. destruct (unary_answer_sent (RepT:=RepT) md (Err e)) as [Hm Hs].
  split; [done|]. split; [|reflexivity]. rewrite Hs. f_equal. unfold is_failure in Hok.
  destruct (decide ((get_error_details e).1 = GRPC_STATUS_OK)) as [Heq|]; [|done].
  rewrite <- Heq. by destruct (get_error_details e).
Qed.

Lemma unary_ok_error_crashes_client_witness :
  ∃ details, sent_messages [Batch (unary_answer (RepT:=Byte.byte) []
      (Err (Rpc_error GRPC_STATUS_OK "fine"))) 0] = [] ∧
    sent_status [Batch (unary_answer (RepT:=Byte.byte) []
      (Err (Rpc_error GRPC_STATUS_OK "fine"))) 0] = Some (GRPC_STATUS_OK, details) ∧
    (unary_finishes (H:=unit) None GRPC_STATUS_OK details
       (unary_started (RegisteredCall (Some 1) 4 3 None) Byte.x07
          (Future_storage_init : future_storage Byte.byte unit) [])).1 = Crash Null_dereference.
Proof.
  apply (unary_ok_error_crashes_client (FutureHandler0:=reply_logger) []
    (Rpc_error GRPC_STATUS_OK "fine")). by intros [].
Defined.

(** ** Server-streaming calls *)

(** Attaching somewhere in the life of a stream changes neither what is legal nor
    what is delivered. *)
Lemma attach_anywhere {V H} (h : H) (evs1 evs2 : list (stream_event V H)) : ∀ ended,
  stream_legal h true ended (evs1 ++ evs2) →
  stream_legal h false ended (evs1 ++ E_attach Immediate_queue h :: evs2).
Proof.
  induction evs1 as [|[v|r|q h'] evs1 IH]; intros ended; simpl; [done| | |by intros [??]];
    intros [Hended Hleg]; (split; [done|]); by apply IH.
Qed.

Lemma pushed_attach {V H} q (h : H) (evs1 evs2 : list (stream_event V H)) :
  pushed (evs1 ++ E_attach q h :: evs2) = pushed (evs1 ++ evs2) ∧
  ending (evs1 ++ E_attach q h :: evs2) = ending (evs1 ++ evs2).
Proof. unfold pushed, ending. by rewrite !omap_app. Qed.

Section Streaming.
Context {ReqT RepT H U : Type} `{!Serializer ReqT, !Serializer RepT}.
Context `{!SerializerOk ReqT, !SerializerOk RepT, !FutureHandler unit H U} {transport : Transport}.

Lemma messages_of_messages (vs : list RepT) :
  sent_messages (message_batch <$> vs) = serialize <$> vs ∧
  omap op_status ((message_batch <$> vs) ≫= batch_ops) = [].
Proof.
  unfold sent_messages. induction vs as [|v vs [IH1 IH2]]; [done|].
  split; [|exact IH2]. cbn. by f_equal.
Qed.

Lemma streaming_answer_sent (md : list (string * string)) (vs : list RepT) :
  sent_messages (ss_batches md vs) = serialize <$> vs ∧
  sent_status (ss_batches md vs) = Some (GRPC_STATUS_OK, "").
Proof.
  destruct (messages_of_messages vs) as [Hm Hs].
  unfold sent_messages, sent_status, ss_batches in *.
  rewrite bind_cons, bind_app, !omap_app, Hm, Hs. simpl. by rewrite app_nil_r.
Qed.

(** The events of a client that is given these messages and then this status. *)
Definition reply_events (ms : list byte_buffer) (status : grpc_status_code) (details : string) :
  list (reader_event H) :=
  ((λ raw, R_received (Some raw)) <$> ms) ++ [R_received None; R_status status details].

Definition status_end (status : grpc_status_code) (details : string) : option exn :=
  if decide (status = GRPC_STATUS_OK) then None else Some (Rpc_error status details).

Lemma readers_legal_attach q (h : H) (evs1 evs2 : list (reader_event H)) : ∀ ph,
  readers_legal (RepT:=RepT) ph (evs1 ++ evs2) →
  readers_legal (RepT:=RepT) ph (evs1 ++ R_attach q h :: evs2).
Proof.
  induction evs1 as [|ev evs1 IH]; intros ph; simpl; [done|]. intros [Hev Hevs].
  split; [done|]. by apply IH.
Qed.

Lemma reply_events_spec (vs : list RepT) status details :
  let evs := reply_events (serialize <$> vs) status details in
  readers_legal (RepT:=RepT) R_receiving evs ∧
  evs ≫= reader_stream_events = (E_push <$> vs) ++ [E_end (status_end status details)] ∧
  foldl (λ ph ev, next_reader_phase ev ph) R_receiving evs = R_over.
Proof.
  induction vs as [|v vs (IH1 & IH2 & IH3)]; [done|]. split; [|split].
  - split; [|exact IH1]. split; [done|]. exists v. apply deserialize_serialize.
  - change (reply_events (serialize <$> v :: vs) status details)
      with (R_received (Some (serialize v)) :: reply_events (serialize <$> vs) status details).
    rewrite bind_cons. cbn [reader_stream_events]. rewrite deserialize_serialize.
    cbv zeta in IH2. by rewrite IH2.
  - exact IH3.
Qed.

Lemma pushes_then_end (h : H) (vs : list RepT) (r : option exn) :
  let evs := (E_push <$> vs) ++ [E_end r] in
  stream_legal h true false evs ∧ pushed evs = vs ∧ ending evs = Some r.
Proof.
  induction vs as [|v vs (IH1 & IH2 & IH3)]; [done|]. split; [by split|].
  split; [|exact IH3]. exact (f_equal (cons v) IH2).
Qed.

(** The server's side, to its end. *)
Lemma streaming_serves {rmd} accepts (Haccepts : grpc_accepts_allowed accepts)
  (handler : ReqT → expected (stream_storage RepT)) (req : ReqT) md vs0 ended
  (evs : list (ss_event RepT)) :
  handler req = Val (returned_stream vs0 ended) → ss_legal ended evs →
  finished_after ended evs = true →
  let vs := vs0 ++ ss_pushed evs in
  ∃ ws, (Server_streaming_perform accepts handler ;;
         for_each_in (run_sys_event accepts) evs ;;
         zoom client set_client (for_each_in (run_ss_event accepts)
           (replicate (length vs + 2) (SS_complete true))))
          (ss_incoming (rmd:=rmd) (serialize req) md) = (Ret tt, ws) ∧
    client ws = ss_state (rmd:=rmd) md (serialize req) vs (length vs) true Gone.
Proof.
  intros Hreturns Hlegal Hends vs.
  destruct (perform_state (rmd:=rmd) accepts Haccepts handler (serialize req) req md vs0 ended)
    as (w1 & k1 & ph1 & Hrun1 & Hat1 & Hc1 & Hph1); [apply deserialize_serialize|done|].
  destruct (run_sys_inv accepts Haccepts md (serialize req) evs w1 vs0 k1 ended ph1
              Hat1 Hc1 Hph1 Hlegal) as (w2 & k2 & ph2 & Hrun2 & Hc2 & Hph2 & _).
  rewrite Hends in Hc2, Hph2.
  exists (set_client (ss_state (rmd:=rmd) md (serialize req) vs (length vs) true Gone) w2).
  split; [|by destruct w2]. eapply runs_bind; [exact Hrun1|]. eapply runs_bind; [exact Hrun2|].
  unfold runs, zoom. rewrite Hc2.
  rewrite (run_ss_complete_all accepts Haccepts md (serialize req) _ _ k2 ph2 Hph2); [done|].
  destruct Hph2 as [Hk _]. fold vs in Hk |- *. destruct ph2; simpl; lia.
Qed.

(** What the client is given of a stream of replies that ended in success. *)
Lemma replies_outcome (bs : list batch) (vs : list RepT) ms status details :
  sent_messages bs = serialize <$> vs → sent_status bs = Some (GRPC_STATUS_OK, "") →
  gives_replies bs ms status details →
  ∃ vs', ms = serialize <$> vs' ∧
    ((vs' = vs ∧ status_end status details = None) ∨
     (status ≠ GRPC_STATUS_OK ∧ vs' `prefix_of` vs ∧
      status_end status details = Some (Rpc_error status details))).
Proof.
  intros Hm Hs Hgives. unfold status_end.
  pose proof (gives_replies_prefix _ _ _ _ Hgives) as Hpre. rewrite Hm in Hpre.
  destruct (gives_replies_status _ _ _ _ Hgives) as [[Hst Hms]|Hst].
  - rewrite Hs in Hst. injection Hst as <- <-. rewrite Hm in Hms.
    exists vs. split; [done|]. by left.
  - destruct Hpre as [rest Hrest].
    apply fmap_app_inv in Hrest as (vs' & vs'' & -> & _ & ->).
    exists vs'. split; [done|]. right. rewrite decide_False by done.
    split; [done|]. split; [by exists vs''|done].
Qed.

(** What the server is given of a stream of requests. *)
Lemma requests_outcome (bs : list batch) (vs : list ReqT) (raws : list byte_buffer) :
  sent_messages bs = serialize <$> vs → gives_requests bs raws →
  ∃ reqs, reqs `prefix_of` vs ∧ raws = serialize <$> reqs.
Proof.
  intros Hsent [rest Hrest]%gives_requests_prefix.
  rewrite Hsent in Hrest. apply fmap_app_inv in Hrest as (reqs & more & -> & _ & ->).
  exists reqs. split; [by exists more|done].
Qed.

(** A client whose program attaches anywhere among those events. *)
Lemma reader_gets (on_reply : RepT → M U unit) (h : H) (vs : list RepT) status details
  (evs1 evs2 : list (reader_event H)) (sw : stream_world RepT H U) (u' : U) :
  handler_fields h = [Fvoid] →
  evs1 ++ evs2 = reply_events (serialize <$> vs) status details →
  deliver_stream on_reply h vs (Some (status_end status details)) (client sw) = (Ret tt, u') →
  let evs := evs1 ++ R_attach Immediate_queue h :: evs2 in
  readers_legal (RepT:=RepT) R_receiving evs ∧
  foldl (λ ph ev, next_reader_phase ev ph) R_receiving evs = R_over ∧
  ∃ p sw', run_stream on_reply (evs ≫= reader_stream_events) true (fresh_stream sw) = (Ret p, sw') ∧
    client sw' = u'.
Proof.
  intros Hfields Hevs Hdel evs.
  destruct (reply_events_spec vs status details) as (Hleg & Hbind & Hph).
  rewrite <- Hevs in Hleg, Hbind, Hph.
  destruct (pushes_then_end h vs (status_end status details)) as (Hsleg & Hpush & Hend).
  split; [by apply readers_legal_attach|]. split.
  { unfold evs. rewrite foldl_app in Hph |- *. exact Hph. }
  unfold evs. rewrite bind_app, bind_cons. cbn [reader_stream_events app].
  rewrite bind_app in Hbind. rewrite <- Hbind in Hsleg, Hpush, Hend.
  destruct (pushed_attach Immediate_queue h (evs1 ≫= reader_stream_events)
    (evs2 ≫= reader_stream_events)) as [Hp He].
  apply (run_detached on_reply h Hfields _ []); [by destruct sw| |].
  - by apply attach_anywhere.
  - cbn [app]. rewrite Hp, He, Hpush, Hend. by destruct sw.
Qed.
End Streaming.

(** C2: a server-streaming call from end to end.  Whatever the server's program
    pushes, and however its pushes interleave with the completion of batches, the
    client's program, wherever it attaches, sees on its stream exactly these
    values, in order, and then success; when the call breaks it sees a prefix of
    them and then the error; and both sides have deleted what served the call. *)
Theorem streaming_call_end_to_end {ReqT RepT H U} `{!Serializer ReqT, !Serializer RepT}
  `{!SerializerOk ReqT, !SerializerOk RepT, !FutureHandler unit H U} {transport : Transport}
  (accepts : list batch → list batch → list grpc_op → bool)
  (Haccepts : grpc_accepts_allowed accepts)
  (handler : ReqT → expected (stream_storage RepT)) (req : ReqT) {rmd : list (string * string)}
  (md : list (string * string))
  (vs0 : list RepT) (ended : bool) (evs : list (ss_event RepT))
  (on_reply : RepT → M U unit) (ch : channel) (tag q : nat) (options : call_options)
  (h : H) (sw : stream_world RepT H U)
  (Hreturns : handler req = Val (returned_stream vs0 ended))
  (Hlegal : ss_legal ended evs) (Hends : finished_after ended evs = true)
  (Hq : completion_queue options = Some q) (Hfields : handler_fields h = [Fvoid])
  (Hclient : ∀ vs r, ∃ u', deliver_stream on_reply h vs (Some r) (client sw) = (Ret tt, u')) :
  let vs := vs0 ++ ss_pushed evs in
  ∃ ws, (Server_streaming_perform accepts handler ;;
         for_each_in (run_sys_event accepts) evs ;;
         zoom client set_client (for_each_in (run_ss_event accepts)
           (replicate (length vs + 2) (SS_complete true))))
          (ss_incoming (rmd:=rmd) (serialize req) md) = (Ret tt, ws) ∧
    deleted (client ws) = true ∧ inflight (client ws) = [] ∧
    ∀ ms status details (evs1 evs2 : list (reader_event H)),
      gives_replies (started (client ws)) ms status details →
      evs1 ++ evs2 = reply_events ms status details →
      ∃ wc vs' r,
        (start_server_streaming_call on_reply accepts ch tag req options ;;
         for_each_in (run_reader_event on_reply accepts)
           (evs1 ++ R_attach Immediate_queue h :: evs2)) (reader_new sw) = (Ret tt, wc) ∧
        deleted wc = true ∧ inflight wc = [] ∧
        deliver_stream on_reply h vs' (Some r) (client sw) =
          (Ret tt, client (reply_stream (session (obj wc)))) ∧
        ((vs' = vs ∧ r = None) ∨
         (status ≠ GRPC_STATUS_OK ∧ vs' `prefix_of` vs ∧ r = Some (Rpc_error status details))).
Proof.
  intros vs.
  destruct (streaming_serves (rmd:=rmd) accepts Haccepts handler req md vs0 ended evs Hreturns Hlegal Hends)
    as (ws & Hws & Hcs).
  exists ws. split; [exact Hws|]. rewrite Hcs. split; [done|]. split; [done|].
  intros ms status details evs1 evs2 Hgives Hevs.
  destruct (streaming_answer_sent md vs) as [Hm Hs].
  destruct (replies_outcome (ss_batches md vs) vs ms status details Hm Hs) as (vs' & -> & Hvs').
  { by rewrite <- (firstn_all vs). }
  destruct (Hclient vs' (status_end status details)) as [u' Hu'].
  destruct (reader_gets on_reply h vs' status details evs1 evs2 sw u' Hfields Hevs Hu')
    as (Hrlegal & Hover & p & sw' & Hrun & Hsw').
  destruct (start_reader_runs on_reply accepts Haccepts ch tag req options q sw Hq)
    as (w1 & Hrun1 & Hst1).
  destruct (readers_run on_reply accepts Haccepts _ req _ [] R_receiving _ w1 p sw' Hst1
              Hrlegal Hrun) as (wc & Hrun2 & st & det & Hobj & _ & Hinf & Hdel & _).
  rewrite Hover in Hinf, Hdel, Hobj.
  exists wc, vs', (status_end status details). split; [by eapply runs_bind|].
  split; [done|]. split; [done|]. rewrite Hobj. cbn [session reply_stream]. by rewrite Hsw'.
Qed.

Definition log_reply (v : Byte.byte) : M (list (Byte.byte + finish_type unit)) unit :=
  modify (λ log, log ++ [inl v]).

Lemma log_stream_total vs r log :
  ∃ u', deliver_stream log_reply tt vs r log = (Ret tt, u').
Proof.
  revert log. unfold deliver_stream. induction vs as [|v vs IH]; intros log; [|apply IH].
  destruct r; by eexists.
Qed.

(** Two values, one pushed before the stream is returned and one after; the client
    attaches between them. *)
Lemma streaming_call_end_to_end_witness :
  ∃ ws wc,
    (Server_streaming_perform batch_allowed
       (λ _ : Byte.byte, Val (returned_stream [Byte.x01] false)) ;;
     for_each_in (run_sys_event batch_allowed) [SS_push Byte.x02; SS_complete true; SS_finish] ;;
     zoom client set_client (for_each_in (run_ss_event batch_allowed)
       (replicate 4 (SS_complete true)))) (ss_incoming (rmd:=[]) (serialize Byte.x07) []) = (Ret tt, ws) ∧
    (start_server_streaming_call log_reply batch_allowed
       (Channel (Some 1) (Some 2)) 4 Byte.x07 (CallOptions (Some 3) None) ;;
     for_each_in (run_reader_event log_reply batch_allowed)
       [R_received (Some (serialize Byte.x01)); R_attach Immediate_queue tt;
        R_received (Some (serialize Byte.x02)); R_received None; R_status GRPC_STATUS_OK ""])
      (reader_new (StreamWorld Stream_storage_init Future_storage_init [] [])) = (Ret tt, wc) ∧
    client (reply_stream (session (obj wc))) = [inl Byte.x01; inl Byte.x02; inr [Val None]].
Proof.
  destruct (streaming_call_end_to_end (rmd:=[]) (transport:=reliable_transport) batch_allowed
    batch_allowed_accepts (λ _ : Byte.byte, Val (returned_stream [Byte.x01] false)) Byte.x07 []
    [Byte.x01] false [SS_push Byte.x02; SS_complete true; SS_finish]
    log_reply (Channel (Some 1) (Some 2)) 4 3
    (CallOptions (Some 3) None) tt
    (StreamWorld Stream_storage_init Future_storage_init [] []))
    as (ws & Hws & _ & _ & Hclient); [done|by repeat split|done|done|done| |].
  { intros vs r. apply log_stream_total. }
  match type of Hws with context [replicate (?n + 2)] => change (n + 2) with 4 in Hws end.
  destruct (Hclient [serialize Byte.x01; serialize Byte.x02] GRPC_STATUS_OK ""
    [R_received (Some (serialize Byte.x01))]
    [R_received (Some (serialize Byte.x02)); R_received None; R_status GRPC_STATUS_OK ""])
    as (wc & vs' & r & Hwc & _ & _ & Hlog & Hvs); [|done|].
  { assert (started (client ws) = ss_batches [] [Byte.x01; Byte.x02]) as ->; [|by split].
    change ws with (snd (Ret (A:=unit) tt, ws)). rewrite <- Hws. vm_compute. reflexivity. }
  exists ws, wc. split; [exact Hws|]. split; [exact Hwc|].
  destruct Hvs as [[-> ->]|[Hst _]]; [|destruct (Hst eq_refl)].
  rewrite <- (f_equal snd Hlog : _ = client _). vm_compute. reflexivity.
Defined.

(** ** Client-streaming calls *)

Section Client_streaming.
Context {ReqT RepT H U H' U' : Type} `{!Serializer ReqT, !Serializer RepT}.
Context `{!SerializerOk ReqT, !SerializerOk RepT}.
Context `{!FutureHandler RepT H U, !FutureHandler unit H' U'} {transport : Transport}.

Lemma writer_requests_sent (vs : list ReqT) (raws : list byte_buffer) :
  gives_requests (cw_batches vs) raws →
  ∃ reqs, reqs `prefix_of` vs ∧ raws = serialize <$> reqs.
Proof.
  apply requests_outcome. destruct (messages_of_messages vs) as [Hm _].
  unfold sent_messages, cw_batches in *. rewrite bind_cons, bind_app, !omap_app.
  change (cw_message_batch <$> vs) with (message_batch <$> vs). rewrite Hm. simpl.
  by rewrite app_nil_r.
Qed.

Lemma streaming_reply_sent (md : list (string * string)) (n : nat) (rep : expected RepT) :
  let bs := cs_first_batch md :: replicate n recv_batch ++ [reply_batch rep] in
  sent_messages bs = match rep with Val v => [serialize v] | Err _ => [] end ∧
  sent_status bs =
    Some (match rep with Val _ => (GRPC_STATUS_OK, "") | Err e => get_error_details e end).
Proof.
  assert (omap op_message (replicate n recv_batch ≫= batch_ops) = [] ∧
          omap op_status (replicate n recv_batch ≫= batch_ops) = []) as [Hm Hs].
  { induction n as [|n [IH1 IH2]]; [done|]. split; [exact IH1|exact IH2]. }
  unfold sent_messages, sent_status. cbv zeta. rewrite bind_cons, bind_app, !omap_app, Hm, Hs.
  destruct rep as [v|e]; [done|]. simpl. by destruct (get_error_details e).
Qed.

(** A stream that is attached sees the messages, and then their end. *)
Lemma attached_sees (on_request : ReqT → M U' unit) (h' : H') (reqs : list ReqT)
  (rd0 : stream_world ReqT H' U') (u1 : U') :
  handler_fields h' = [Fvoid] → attached_to h' rd0 →
  deliver_stream on_request h' reqs (Some None) (client rd0) = (Ret tt, u1) →
  ∃ rd1, run_stream on_request ((E_push <$> reqs) ++ [E_end None]) true rd0 = (Ret false, rd1) ∧
    client rd1 = u1.
Proof.
  intros Hfields Hat Hdel. destruct (pushes_then_end h' reqs None) as (Hleg & Hp & He).
  destruct (run_attached on_request h' Hfields _ rd0 u1 Hat Hleg) as (p & rd1 & Hrun & Hc).
  { by rewrite Hp, He. }
  exists rd1. split; [|done]. rewrite Hrun.
  rewrite (run_stream_app on_request _ _ true rd0) in Hrun.
  apply runs_bind_inv in Hrun as (p1 & rd2 & _ & Hend). apply run_stream_single in Hend.
  by rewrite (complete_ends_promise _ _ _ _ _ Hend).
Qed.

(** ... and before their end, the messages so far. *)
Lemma attached_sees_some (on_request : ReqT → M U' unit) (h' : H') (reqs : list ReqT)
  (rd0 : stream_world ReqT H' U') (u1 : U') :
  handler_fields h' = [Fvoid] → attached_to h' rd0 →
  deliver_stream on_request h' reqs None (client rd0) = (Ret tt, u1) →
  ∃ rd1, run_stream on_request (E_push <$> reqs) true rd0 = (Ret true, rd1) ∧ client rd1 = u1.
Proof.
  intros Hfields Hat Hdel.
  assert (∀ vs : list ReqT, stream_legal h' true false (E_push <$> vs) ∧
    pushed (H:=H') (E_push <$> vs) = vs ∧ ending (V:=ReqT) (H:=H') (E_push <$> vs) = None) as Hpush.
  { induction vs as [|v vs (IH1 & IH2 & IH3)]; [done|]. split; [by split|].
    split; [exact (f_equal (cons v) IH2)|exact IH3]. }
  destruct (Hpush reqs) as (Hleg & Hp & He).
  destruct (run_attached on_request h' Hfields _ rd0 u1 Hat Hleg) as (p & rd1 & Hrun & Hc).
  { by rewrite Hp, He. }
  exists rd1. split; [|done]. pose proof (pushes_keep_promise _ _ _ _ _ _ Hrun) as ->. exact Hrun.
Qed.

(** The server's side, from the first message to the deletion of the handler. *)
Lemma client_streaming_serves {rmd} accepts (Haccepts : grpc_accepts_allowed accepts)
  (on_request : ReqT → M U' unit) cb md rd rd0 rd1 fut (reqs : list ReqT) (rep : expected RepT) :
  cb (fresh_reader rd) = (Ret fut, rd0) → implements fut Cell_empty →
  run_stream on_request ((E_push <$> reqs) ++ [E_end None]) true rd0 = (Ret false, rd1) →
  ∃ w, (Client_streaming_perform accepts cb ;;
        for_each_in (client_streaming_receive on_request accepts 0)
          ((Some <$> (serialize <$> reqs)) ++ [None]) ;;
        client_streaming_settle accepts rep ;;
        client_streaming_complete on_request accepts 0) (cs_incoming (rmd:=rmd) md rd) = (Ret tt, w) ∧
    reader (ext (obj w)) = rd1 ∧ inflight w = [] ∧ deleted w = true ∧
    started w = cs_first_batch md :: replicate (length reqs) recv_batch ++ [reply_batch rep].
Proof.
  intros Hcb Hfut Hstream.
  assert (Forall2 (λ raw (req : ReqT), deserialize raw = Some req) (serialize <$> reqs) reqs) as Hraws.
  { induction reqs as [|req reqs' IH] in |- *; [done|]. simpl.
    constructor; [apply deserialize_serialize|done]. }
  destruct (client_streaming_whole (rmd:=rmd) on_request accepts Haccepts cb md rd rd0 rd1 fut _ reqs
    rep Hcb Hfut Hraws Hstream) as (w & Hrun & Hreader & Hinf & Hdel & Hst & _).
  rewrite length_fmap in Hst. by exists w.
Qed.

(** The client's side, up to the last batch. *)
Lemma writer_sends_all accepts (Haccepts : grpc_accepts_allowed accepts)
  ch tag q options (h : H) (u : U) (evs : list (writer_event (ReqT:=ReqT) (H:=H))) :
  completion_queue options = Some q → cw_legal false evs → cw_ended false evs = true →
  let vs := cw_written evs in
  ∃ s, (start_client_streaming_call accepts ch tag options ;;
        run_writer_event accepts (W_attach h) ;;
        for_each_in (run_writer_event accepts) evs ;;
        zoom client set_client (for_each_in (λ _ : unit, writer_sent accepts)
          (replicate (length vs + 1) tt))) (cw_new (RepT:=RepT) u) = (Ret tt, s) ∧
    client s = cw_state (RegisteredCall (handle_ ch) tag q (deadline options))
      (ReplyWorld (waiting_reply h) u) vs (length vs) true W_ending.
Proof.
  intros Hq Hlegal Hend vs. set (created := RegisteredCall (handle_ ch) tag q (deadline options)).
  destruct (cw_start_runs (ReqT:=ReqT) (RepT:=RepT) (H:=H) accepts Haccepts ch tag options q u Hq)
    as (s0 & Hrun0 & Hat & Hc0).
  pose proof (cw_attach_runs accepts created h s0 u _ _ _ _ Hc0) as Hrun1.
  destruct (cw_run accepts Haccepts created (ReplyWorld (waiting_reply h) u) evs _ [] 0 false
    (W_sending cw_metadata_batch) (λ _, attached_set_client tt _ s0 Hat) eq_refl)
    as (s & k & ph & Hrun & Hc & Hph); [by split|done|].
  change ([] ++ cw_written evs) with vs in *. rewrite Hend in Hc, Hph.
  eexists. split.
  { eapply runs_bind; [exact Hrun0|]. eapply runs_bind; [exact Hrun1|].
    eapply runs_bind; [exact Hrun|]. unfold runs, zoom. rewrite Hc.
    rewrite (cw_complete_all accepts Haccepts created _ _ _ k ph Hph); [reflexivity|].
    destruct ph; simpl; lia. }
  by destruct s.
Qed.
End Client_streaming.

(** C3: a client-streaming call from end to end.  However the client's writes
    interleave with the completion of batches, the server's program sees them on
    its stream in order and then their end (fewer of them, when the call breaks),
    and the client's future gets what the program replied from what it has seen,
    or the code and text of its error, or the error the call broke with, once;
    both sides have deleted what served the call. *)
Theorem client_streaming_call_end_to_end {ReqT RepT H U H' U'}
  `{!Serializer ReqT, !Serializer RepT, !SerializerOk ReqT, !SerializerOk RepT}
  `{!FutureHandler RepT H U, !FutureHandler unit H' U'} {transport : Transport}
  (accepts : list batch → list batch → list grpc_op → bool)
  (Haccepts : grpc_accepts_allowed accepts)
  (ch : channel) (tag q : nat) (options : call_options) (h : H) (u : U)
  (evs : list (writer_event (ReqT:=ReqT) (H:=H)))
  (on_request : ReqT → M U' unit) (h' : H')
  (cb : M (stream_world ReqT H' U') (future_storage RepT unit)) (reply : U' → expected RepT)
  {rmd : list (string * string)} (md : list (string * string)) (rd rd0 : stream_world ReqT H' U')
  (fut : future_storage RepT unit)
  (Hq : completion_queue options = Some q) (Hfields : handler_fields h = [Fval])
  (Hhandler : ∀ r, ∃ u', handler_finish h (reply_result r) u = (Ret tt, u'))
  (Hlegal : cw_legal false evs) (Hends : cw_ended false evs = true)
  (Hcb : cb (fresh_reader rd) = (Ret fut, rd0)) (Hfut : implements fut Cell_empty)
  (Hat : attached_to h' rd0) (Hfields' : handler_fields h' = [Fvoid])
  (Hprogram : ∀ reqs, ∃ u1, deliver_stream on_request h' reqs (Some None) (client rd0) = (Ret tt, u1))
  (Hfail : ∀ u1 e, reply u1 = Err e → is_failure e) :
  let vs := cw_written evs in
  ∃ wc, (start_client_streaming_call accepts ch tag options ;;
         run_writer_event accepts (W_attach h) ;;
         for_each_in (run_writer_event accepts) evs ;;
         zoom client set_client (for_each_in (λ _ : unit, writer_sent accepts)
           (replicate (length vs + 1) tt))) (cw_new (RepT:=RepT) u) = (Ret tt, wc) ∧
    ∀ raws, gives_requests (started (client wc)) raws →
    ∃ reqs u1 ws, raws = serialize <$> reqs ∧ reqs `prefix_of` vs ∧
      deliver_stream on_request h' reqs (Some None) (client rd0) = (Ret tt, u1) ∧
      (Client_streaming_perform accepts cb ;;
       for_each_in (client_streaming_receive on_request accepts 0) ((Some <$> raws) ++ [None]) ;;
       client_streaming_settle accepts (reply u1) ;;
       client_streaming_complete on_request accepts 0) (cs_incoming (rmd:=rmd) md rd) = (Ret tt, ws) ∧
      client (reader (ext (obj ws))) = u1 ∧ deleted ws = true ∧ inflight ws = [] ∧
      ∀ o status details, gives_replies (started ws) (option_list o) status details →
      ∃ r wd, writer_done accepts o status details (client wc) = (Ret tt, wd) ∧
        deleted wd = true ∧ inflight wd = [] ∧
        (r = remote_result (reply u1) ∨
         (status ≠ GRPC_STATUS_OK ∧ r = Err (Rpc_error status details))) ∧
        handler_finish h (reply_result r) u = (Ret tt, reply_client (cw_reply (session (obj wd)))).
Proof.
  intros vs.
  destruct (writer_sends_all accepts Haccepts ch tag q options h u evs Hq Hlegal Hends)
    as (wc & Hwc & Hc).
  exists wc. split; [exact Hwc|]. intros raws Hraws. rewrite Hc.
  destruct (writer_requests_sent vs raws) as (reqs & Hpre & ->).
  { revert Hraws. rewrite Hc. cbn [started cw_state cw_call]. by rewrite firstn_all. }
  destruct (Hprogram reqs) as [u1 Hu1].
  destruct (attached_sees on_request h' reqs rd0 u1 Hfields' Hat Hu1) as (rd1 & Hstream & Hrd1).
  destruct (client_streaming_serves (rmd:=rmd) accepts Haccepts on_request cb md rd rd0 rd1 fut reqs (reply u1)
    Hcb Hfut Hstream) as (ws & Hws & Hreader & Hinf & Hdel & Hst).
  exists reqs, u1, ws. rewrite Hreader. split_and!; [reflexivity|exact Hpre|exact Hu1|exact Hws|exact Hrd1
    |exact Hdel|exact Hinf|].
  intros o status details Hgives. rewrite Hst in Hgives.
  destruct (streaming_reply_sent md (length reqs) (reply u1)) as [Hm Hs].
  destruct (reply_outcome _ (reply u1) o status details (Hfail u1) Hm Hs Hgives)
    as (r & Hout & Hr).
  destruct (Hhandler r) as [u' Hu'].
  destruct (cw_done_step accepts (RegisteredCall (handle_ ch) tag q (deadline options)) vs h u u'
    o status details r Hfields Hout Hu') as (wd & Hdone & _ & Hcl & Hinf' & _ & Hdel' & _).
  exists r, wd. rewrite Hcl. split_and!; [exact Hdone|exact Hdel'|exact Hinf'|exact Hr|exact Hu'].
Qed.

(** The demo program of ClientStreamingLaws.v, which replies with the last request. *)
Definition last_request (log : demo_log) : expected Byte.byte :=
  default (Err (error_internal "no request"))
    (last (omap (λ x, match x with inl v => Some (Val v) | inr _ => None end) log)).

Lemma last_request_failure log e : last_request log = Err e → is_failure e.
Proof.
  unfold last_request. destruct (last _) as [[v|e']|] eqn:Hlast; simpl; intros Heq; [done| |].
  - apply last_Some_elem_of in Hlast. apply list_elem_of_omap in Hlast as ([v|f] & _ & Hx); done.
  - by injection Heq as <-.
Qed.

Lemma client_streaming_call_end_to_end_witness :
  ∃ wc ws wd,
    (start_client_streaming_call batch_allowed (Channel (Some 1) None) 4
       (CallOptions (Some 3) None) ;;
     run_writer_event batch_allowed (W_attach tt) ;;
     for_each_in (run_writer_event batch_allowed) cw_demo_events ;;
     zoom client set_client (for_each_in (λ _ : unit, writer_sent batch_allowed)
       (replicate 3 tt))) (cw_new (RepT:=Byte.byte) []) = (Ret tt, wc) ∧
    (Client_streaming_perform batch_allowed demo_program ;;
     for_each_in (client_streaming_receive demo_on_request batch_allowed 0)
       ((Some <$> [serialize Byte.x01; serialize Byte.x02]) ++ [None]) ;;
     client_streaming_settle batch_allowed (Val Byte.x02) ;;
     client_streaming_complete demo_on_request batch_allowed 0) (cs_incoming (rmd:=[]) [] demo_reader)
      = (Ret tt, ws) ∧
    writer_done batch_allowed (Some (serialize Byte.x02)) GRPC_STATUS_OK "" (client wc)
      = (Ret tt, wd) ∧
    reply_client (cw_reply (session (obj wd))) = [[Val (Some Byte.x02)]].
Proof.
  destruct (client_streaming_call_end_to_end (rmd:=[]) (transport:=reliable_transport)
    (FutureHandler0:=reply_logger) batch_allowed batch_allowed_accepts (Channel (Some 1) None) 4 3
    (CallOptions (Some 3) None) tt [] cw_demo_events demo_on_request tt demo_program last_request
    [] demo_reader (snd (demo_program (fresh_reader demo_reader))) Future_storage_init)
    as (wc & Hwc & Hserver).
  { reflexivity. } { reflexivity. } { by eexists. } { simpl. tauto. } { reflexivity. }
  { reflexivity. } { exact init_implements. } { by split; [eexists _, _|]. } { reflexivity. }
  { intros reqs. exact (log_stream_total reqs (Some None) _). } { exact last_request_failure. }
  match type of Hwc with context [replicate (?n + 1)] => change (n + 1) with 3 in Hwc end.
  destruct (Hserver [serialize Byte.x01; serialize Byte.x02])
    as (reqs & u1 & ws & Hreqs & _ & Hu1 & Hws & Hseen & _ & _ & Hclient).
  { change wc with (snd (Ret (A:=unit) tt, wc)). rewrite <- Hwc. vm_compute. reflexivity. }
  destruct reqs as [|r1 [|r2 [|r3 reqs]]]; try discriminate Hreqs.
  injection Hreqs as <- <-.
  assert (last_request u1 = Val Byte.x02) as Hrep.
  { rewrite <- (f_equal snd Hu1 : _ = u1). vm_compute. reflexivity. }
  rewrite Hrep in Hws, Hclient.
  destruct (Hclient (Some (serialize Byte.x02)) GRPC_STATUS_OK "")
    as (r & wd & Hwd & _ & _ & Hr & Hlog).
  { change ws with (snd (Ret (A:=unit) tt, ws)). rewrite <- Hws. vm_compute. by split. }
  exists wc, ws, wd. split; [exact Hwc|]. split; [exact Hws|]. split; [exact Hwd|].
  destruct Hr as [->|[Hst _]]; [|destruct (Hst eq_refl)].
  exact (eq_sym (f_equal snd Hlog)).
Defined.
