(* ===== verification/EndToEndBidir.v ===== *)
(** Bidirectional calls from end to end: a client of this library and a server of
    this library that both write and read. *)

From S2P Require Import Prelude Errors Effects FutureUtils FutureStorage Future Grpc.
From S2P Require Import StreamStorage StreamLaws CallHandler ServerStreaming ServerStreamingLaws.
From S2P Require Import BidirStreaming BidirLaws.
From S2P Require Import Client ClientReader ClientBidir ClientBidirLaws EndToEnd.

(** Batches that only receive carry no message and no status. *)
Lemma sent_of_control (bs : list batch) :
  sent_messages bs = sent_messages (filter is_control bs) ∧
  sent_status bs = sent_status (filter is_control bs).
Proof.
  unfold sent_messages, sent_status.
  assert (omap op_message (bs ≫= batch_ops) = omap op_message (filter is_control bs ≫= batch_ops) ∧
          omap op_status (bs ≫= batch_ops) = omap op_status (filter is_control bs ≫= batch_ops))
    as [-> ->]; [|done].
  induction bs as [|b bs [IH1 IH2]]; [done|]. rewrite filter_cons, bind_cons, !omap_app.
  destruct (decide (is_control b)) as [Hb|Hb]; [by rewrite bind_cons, !omap_app, IH1, IH2|].
  assert (omap op_message (batch_ops b) = [] ∧ omap op_status (batch_ops b) = []) as [-> ->]; [|done].
  unfold is_control in Hb. destruct b as [ops fl]. simpl in *.
  induction ops as [|[n [?|?| |? ?| | | |]] ops IH]; simpl in *; try done; by apply IH.
Qed.

Section Bidir.
Context {ReqT RepT H U H' U' : Type} `{!Serializer ReqT, !Serializer RepT}.
Context `{!SerializerOk ReqT, !SerializerOk RepT}.
Context `{!FutureHandler unit H U, !FutureHandler unit H' U'} {transport : Transport}.

(** *** What each side sends *)

Lemma bidir_requests_sent (vs : list ReqT) :
  sent_messages (cb_metadata :: (cb_message <$> vs) ++ [cb_close; cb_status]) = serialize <$> vs.
Proof.
  destruct (messages_of_messages vs) as [Hm _]. unfold sent_messages in *.
  rewrite bind_cons, bind_app, !omap_app.
  change (cb_message <$> vs) with ((λ v : ReqT, Batch [op_send_message (serialize v)] 1) <$> vs).
  assert (((λ v : ReqT, Batch [op_send_message (serialize v)] 1) <$> vs) ≫= batch_ops =
          (message_batch <$> vs) ≫= batch_ops) as ->.
  { clear Hm. induction vs as [|v vs IH]; [done|]. rewrite !fmap_cons, !bind_cons, IH. done. }
  rewrite Hm. simpl. by rewrite app_nil_r.
Qed.

Lemma bidir_replies_sent md (vs : list RepT) :
  let bs := bd_handshake md :: (bd_message <$> vs) ++ [bd_end] in
  sent_messages bs = serialize <$> vs ∧ sent_status bs = Some (GRPC_STATUS_OK, "").
Proof.
  destruct (messages_of_messages vs) as [Hm Hs]. unfold sent_messages, sent_status in *.
  cbv zeta. rewrite bind_cons, bind_app, !omap_app.
  assert ((bd_message <$> vs) ≫= batch_ops = (message_batch <$> vs) ≫= batch_ops) as ->.
  { clear Hm Hs. induction vs as [|v vs IH]; [done|]. rewrite !fmap_cons, !bind_cons, IH. done. }
  rewrite Hm, Hs. simpl. by rewrite app_nil_r.
Qed.

(** *** What each side receives *)

Definition received_requests (evs : list (bidir_event RepT)) : list byte_buffer :=
  omap (λ ev, match ev with BD_received o => o | _ => None end) evs.

Definition received_replies (evs : list (cb_event (ReqT:=ReqT) (H:=H))) : list byte_buffer :=
  omap (λ ev, match ev with CB_received o => o | _ => None end) evs.

Definition received_status (evs : list (cb_event (ReqT:=ReqT) (H:=H))) :
  option (grpc_status_code * string) :=
  head (omap (λ ev, match ev with CB_status st er => Some (st, default "" er) | _ => None end) evs).

Definition attachments (evs : list (cb_event (ReqT:=ReqT) (H:=H))) : list (queue * H) :=
  omap (λ ev, match ev with CB_attach q h => Some (q, h) | _ => None end) evs.

Lemma deserialize_all {T} `{!Serializer T, !SerializerOk T} (raws : list byte_buffer) (vs vs' : list T) :
  Forall2 (λ raw v, deserialize raw = Some v) raws vs → raws = serialize <$> vs' → vs = vs'.
Proof.
  intros Hall ->. revert vs Hall. induction vs' as [|v' vs' IH]; intros vs Hall.
  - by apply Forall2_nil_inv_l in Hall.
  - apply Forall2_cons_inv_l in Hall as (v & vs1 & Hv & Hall & ->).
    rewrite deserialize_serialize in Hv. injection Hv as <-. f_equal. by apply IH.
Qed.

(** The server's stream of requests. *)
Lemma server_stream (h' : H') (evs : list (bidir_event RepT)) : ∀ q r fin,
  bd_legal (ReqT:=ReqT) q r fin evs →
  let ses := evs ≫= bd_requests (ReqT:=ReqT) in
  stream_legal h' true (negb (rd_prom r)) ses ∧
  Forall2 (λ raw v, deserialize raw = Some v) (received_requests evs) (pushed ses) ∧
  (recv_after r evs = REnded → rd_prom r = true → ending ses = Some None).
Proof.
  induction evs as [|ev evs IH]; intros q r fin Hleg ses.
  { simpl in *. subst ses. split; [done|]. split; [constructor|]. by intros ->. }
  destruct Hleg as [Hev Hleg]. destruct (IH _ _ _ Hleg) as (Hs & Hp & He). subst ses.
  rewrite bind_cons.
  destruct ev as [v| |f|[raw|]]; simpl in Hev; cbn [bd_requests app].
  - split; [exact Hs|by split].
  - split; [exact Hs|by split].
  - assert (rd_prom (next_recv (BD_sent (RepT:=RepT) f) r) = rd_prom r) as Hr.
    { destruct r; simpl; try done. by destruct (f =? 8)%Z. }
    rewrite Hr in Hs, He. split; [exact Hs|by split].
  - destruct Hev as [-> [v Hv]]. rewrite Hv. split; [by split|].
    split; [by constructor|exact He].
  - subst r. split; [by split|]. by split.
Qed.

(** It never ends with an error. *)
Lemma server_stream_no_error (evs : list (bidir_event RepT)) :
  let ses := evs ≫= bd_requests (ReqT:=ReqT) (H:=H') in
  ending ses = None ∨ ending ses = Some None.
Proof.
  induction evs as [|ev evs IH]; intros ses; [by left|]. subst ses. rewrite bind_cons.
  destruct ev as [v| |f|[raw|]]; cbn [bd_requests app]; try done; [|by right].
  by destruct (deserialize raw).
Qed.

(** The client's stream of replies. *)
Definition status_after (m : cb_machine ReqT) : Prop :=
  m_t m ≠ CNo_status → m_r m = CEnded ∧ m_ph m = CClosed.

Lemma status_after_step (ev : cb_event (ReqT:=ReqT) (H:=H)) m m' :
  cb_machine_step (RepT:=RepT) ev m = Some m' → status_after m → status_after m'.
Proof.
  destruct m as [vs k fin ph r t raws c]. unfold status_after.
  destruct ev as [v|e|f|[raw|]|st er|q h]; simpl; intros Hstep Hm;
    repeat case_match; simplify_eq/=; try done;
    try (intros Ht; destruct (Hm Ht); simplify_eq/=; done).
  - destruct ph; simpl in *; intros Ht; destruct (Hm Ht); simplify_eq/=; done.
  - intros _. by apply Hm.
Qed.

(** The status is the last thing that happens to the replies. *)
Lemma live_step (ev : cb_event (ReqT:=ReqT) (H:=H)) m m' :
  cb_machine_step (RepT:=RepT) ev m = Some m' → status_after m →
  match ev with
  | CB_status _ _ => cb_live (m_t m) = true ∧ cb_live (m_t m') = false
  | CB_received o => cb_live (m_t m) = true ∧ cb_live (m_t m') = true ∧
      match o with Some raw => is_Some (deserialize (T:=RepT) raw) | None => True end
  | _ => cb_live (m_t m') = cb_live (m_t m)
  end.
Proof.
  destruct m as [vs k fin ph r t raws c]. unfold status_after. intros Hstep Hm.
  assert (r ≠ CEnded ∨ ph ≠ CClosed → t = CNo_status) as Ht.
  { intros Hor. destruct t; try done; destruct (Hm ltac:(done)); simpl in *; by destruct Hor. }
  destruct ev as [v|e|f|[raw|]|st er|q h]; simpl in *;
    repeat case_match; simplify_eq/=; try done;
    try (rewrite Ht in * by (by (left + right)); done).
  by destruct ph.
Qed.

Lemma client_stream (h : H) (evs : list (cb_event (ReqT:=ReqT) (H:=H))) : ∀ m m' (att : bool),
  cb_machine_run (RepT:=RepT) evs m = Some m' → status_after m →
  attachments evs = (if att then [] else [(Immediate_queue, h)]) →
  let ses := evs ≫= cb_stream_events (RepT:=RepT) in
  stream_legal h att (negb (cb_live (m_t m))) ses ∧
  Forall2 (λ raw v, deserialize raw = Some v) (received_replies evs) (pushed ses) ∧
  (cb_live (m_t m') = false → cb_live (m_t m) = true → ∃ st d, received_status evs = Some (st, d) ∧
     ending ses = Some (status_end st d)).
Proof.
  induction evs as [|ev evs IH]; intros m m' att Hrun Hm Hatt ses.
  { injection Hrun as <-. destruct att; [|done]. split; [done|]. split; [constructor|]. congruence. }
  apply bind_Some in Hrun as (m1 & Hm1 & Hrun).
  pose proof (live_step _ _ _ Hm1 Hm) as Hlive. pose proof (status_after_step _ _ _ Hm1 Hm) as Hs1.
  specialize (λ att, IH m1 m' att Hrun Hs1). subst ses. rewrite bind_cons.
  destruct ev as [v|e|f|[raw|]|st er|q h']; cbn [cb_stream_events app].
  1-3: destruct (IH att Hatt) as (Hl & Hp & He); rewrite Hlive in Hl, He; split; [exact Hl|by split].
  - destruct Hlive as (Hl0 & Hl1 & [v Hv]). destruct (IH att Hatt) as (Hl & Hp & He).
    rewrite Hl1 in Hl, He. rewrite Hv, Hl0. split; [by split|]. split; [by constructor|].
    intros Hov _. by apply He.
  - destruct Hlive as (Hl0 & Hl1 & _). destruct (IH att Hatt) as (Hl & Hp & He).
    rewrite Hl1 in Hl, He. rewrite Hl0. split; [exact Hl|]. by split.
  - destruct Hlive as (Hl0 & Hl1). destruct (IH att Hatt) as (Hl & Hp & He).
    rewrite Hl1 in Hl. rewrite Hl0. split; [by split|]. split; [exact Hp|].
    intros _ _. by exists st, (default "" er).
  - destruct att; [done|]. injection Hatt as -> -> Hatt.
    destruct (IH true Hatt) as (Hl & Hp & He). rewrite Hlive in Hl, He.
    split; [by split|]. by split.
Qed.

(** *** The two sides *)

(** The client's program attaches [h] to the replies somewhere, writes its
    requests, ends them, and the call goes on until its status. *)
Lemma bidir_client_runs (on_reply : RepT → M U unit) accepts
  (Haccepts : grpc_accepts_allowed accepts) ch tag q options (sw : stream_world RepT H U) (h : H)
  (evs : list (cb_event (ReqT:=ReqT) (H:=H))) m :
  completion_queue options = Some q → cb_machine_run (RepT:=RepT) evs cb_start = Some m →
  m_t m = COver → attachments evs = [(Immediate_queue, h)] → handler_fields h = [Fvoid] →
  (∀ vs r, ∃ u', deliver_stream on_reply h vs (Some r) (client sw) = (Ret tt, u')) →
  ∃ s replies st d,
    (start_bidir_streaming_call accepts ch tag options ;;
     for_each_in (run_cb_event on_reply accepts) evs) (cb_new sw) = (Ret tt, s) ∧
    deleted (client s) = true ∧ inflight (client s) = [] ∧
    sent_messages (started (client s)) = serialize <$> cb_written evs ∧
    Forall2 (λ raw v, deserialize raw = Some v) (received_replies evs) replies ∧
    received_status evs = Some (st, d) ∧
    deliver_stream on_reply h replies (Some (status_end st d)) (client sw) =
      (Ret tt, client (cb_replies (session (obj (client s))))).
Proof.
  intros Hq Hmachine Hover Hatt Hfields Htotal.
  destruct (client_stream h evs cb_start m false Hmachine) as (Hl & Hp & He); [by intros []|done|].
  destruct He as (st & d & Hst & Hend); [by rewrite Hover|done|].
  destruct (Htotal (pushed (evs ≫= cb_stream_events (RepT:=RepT))) (status_end st d)) as [u' Hu'].
  destruct (run_detached on_reply h Hfields (evs ≫= cb_stream_events) [] (fresh_stream sw) u')
    as (p & rd & Hrun & Hrd); [by destruct sw|done|by rewrite Hend; destruct sw|].
  destruct (client_bidir_refines on_reply accepts Haccepts ch tag q options sw rd p evs m
    Hq Hmachine Hrun) as (s & Hs & [(slot & st' & er & Hobj & _) _ _ _ _ _ _ _] & Hctl).
  destruct (Hctl Hover) as (Hsent & Hinf & Hdel).
  exists s, (pushed (evs ≫= cb_stream_events (RepT:=RepT))), st, d.
  rewrite (proj1 (sent_of_control _)), Hsent, bidir_requests_sent, Hobj. cbn [session cb_replies].
  rewrite Hrd. done.
Qed.

(** The server's program attaches [h'] to its requests, replies, and ends its
    replies; the client ends its requests. *)
Lemma bidir_server_runs {rmd} (on_request : ReqT → M U' unit) accepts
  (Haccepts : grpc_accepts_allowed accepts) cb md (rd rd0 : stream_world ReqT H' U') (h' : H')
  (vs0 : list RepT) (evs : list (bidir_event RepT)) :
  cb (bd_fresh_reader rd) = (Ret (bd_returned vs0 false), rd0) → attached_to h' rd0 →
  handler_fields h' = [Fvoid] → bd_legal (ReqT:=ReqT) (has_replies vs0) RNot_started false evs →
  fin_after false evs = true → recv_after RNot_started evs = REnded →
  (∀ reqs, ∃ u1, deliver_stream on_request h' reqs (Some None) (client rd0) = (Ret tt, u1)) →
  let vs := vs0 ++ (evs ≫= bd_replies) in
  ∃ s w requests,
    (Bidir_perform accepts cb ;; for_each_in (run_bd_sys on_request accepts) evs)
      (bd_incoming (rmd:=rmd) md rd) = (Ret tt, s) ∧
    for_each_in (run_bidir_event on_request accepts)
      (concat (replicate (length vs + 2) [BD_sent 2; BD_sent 4])) (client s) = (Ret tt, w) ∧
    deleted w = true ∧ inflight w = [] ∧
    sent_messages (started w) = serialize <$> vs ∧ sent_status (started w) = Some (GRPC_STATUS_OK, "") ∧
    Forall2 (λ raw v, deserialize raw = Some v) (received_requests evs) requests ∧
    deliver_stream on_request h' requests (Some None) (client rd0) =
      (Ret tt, client (bd_reader (ext (obj w)))).
Proof.
  intros Hcb Hat Hfields Hlegal Hfin Hended Htotal vs.
  destruct (server_stream h' evs _ RNot_started false Hlegal) as (Hl & Hp & He).
  specialize (He Hended eq_refl).
  destruct (Htotal (pushed (evs ≫= bd_requests (ReqT:=ReqT) (H:=H')))) as [u1 Hu1].
  destruct (run_attached on_request h' Hfields (evs ≫= bd_requests) rd0 u1 Hat Hl)
    as (p & rd1 & Hrun & Hrd1); [by rewrite He|].
  destruct (bidir_streaming_runs (rmd:=rmd) on_request accepts Haccepts cb md rd rd0 rd1 p vs0 evs
    Hcb Hlegal Hrun) as (s & Hs & _ & _ & Hdone).
  destruct (Hdone Hfin Hended) as (w & Hw & Hsent & Hinf & Hdel & Hreader). fold vs in Hw, Hsent.
  destruct (bidir_replies_sent md vs) as [Hm Hst].
  destruct (sent_of_control (started w)) as [Hmw Hsw].
  exists s, w, (pushed (evs ≫= bd_requests (ReqT:=ReqT) (H:=H'))).
  rewrite Hmw, Hsw, Hsent, Hm, Hst, Hreader, Hrd1. done.
Qed.
End Bidir.

(** C4: a bidirectional call from end to end, where both programs end what they send.
    On either side the writes, their end, the receptions and the completions interleave
    in any way but those in which the side itself goes wrong.  At the client the replies
    end while its half-close is in flight ([client_bidir_double_finish]), or its requests
    end before its metadata was exchanged with none written
    ([client_bidir_early_end_lost]); at the server the replies end before its metadata
    was sent with none pushed ([bidir_streaming_early_end_lost]), or its status completes
    before the client has ended its requests ([bidir_early_close_use_after_free]).  Then
    the server's program sees the client's requests on its stream, in order,
    and then their end (fewer of them when the call breaks), the client's program,
    wherever it attaches, sees the server's replies, in order, and then success (a
    prefix of them and then the error, when the call breaks), neither waits for the
    other, and both sides have deleted what served the call. *)
Theorem bidir_call_end_to_end {ReqT RepT H U H' U'}
  `{!Serializer ReqT, !Serializer RepT, !SerializerOk ReqT, !SerializerOk RepT}
  `{!FutureHandler unit H U, !FutureHandler unit H' U'} {transport : Transport}
  (accepts : list batch → list batch → list grpc_op → bool)
  (Haccepts : grpc_accepts_allowed accepts)
  (on_reply : RepT → M U unit) (ch : channel) (tag q : nat) (options : call_options)
  (sw : stream_world RepT H U) (h : H) (evs : list (cb_event (ReqT:=ReqT) (H:=H)))
  (m : cb_machine ReqT)
  (on_request : ReqT → M U' unit) (cb : M (stream_world ReqT H' U') (stream_storage RepT))
  {rmd : list (string * string)} (md : list (string * string)) (rd rd0 : stream_world ReqT H' U') (h' : H')
  (vs0 : list RepT) (evs' : list (bidir_event RepT))
  (Hq : completion_queue options = Some q)
  (Hmachine : cb_machine_run (RepT:=RepT) evs cb_start = Some m) (Hover : m_t m = COver)
  (Hatt : attachments evs = [(Immediate_queue, h)]) (Hfields : handler_fields h = [Fvoid])
  (Hclient : ∀ vs r, ∃ u', deliver_stream on_reply h vs (Some r) (client sw) = (Ret tt, u'))
  (Hcb : cb (bd_fresh_reader rd) = (Ret (bd_returned vs0 false), rd0)) (Hat : attached_to h' rd0)
  (Hfields' : handler_fields h' = [Fvoid])
  (Hlegal : bd_legal (ReqT:=ReqT) (has_replies vs0) RNot_started false evs')
  (Hends : fin_after false evs' = true) (Hended : recv_after RNot_started evs' = REnded)
  (Hserver : ∀ reqs, ∃ u1, deliver_stream on_request h' reqs (Some None) (client rd0) = (Ret tt, u1)) :
  let vs := vs0 ++ (evs' ≫= bd_replies) in
  ∃ sc ss ws,
    (start_bidir_streaming_call accepts ch tag options ;;
     for_each_in (run_cb_event on_reply accepts) evs) (cb_new sw) = (Ret tt, sc) ∧
    (Bidir_perform accepts cb ;; for_each_in (run_bd_sys on_request accepts) evs')
      (bd_incoming (rmd:=rmd) md rd) = (Ret tt, ss) ∧
    for_each_in (run_bidir_event on_request accepts)
      (concat (replicate (length vs + 2) [BD_sent 2; BD_sent 4])) (client ss) = (Ret tt, ws) ∧
    deleted (client sc) = true ∧ inflight (client sc) = [] ∧ deleted ws = true ∧ inflight ws = [] ∧
    (gives_requests (started (client sc)) (received_requests evs') →
     ∃ reqs, received_requests evs' = serialize <$> reqs ∧ reqs `prefix_of` cb_written evs ∧
       deliver_stream on_request h' reqs (Some None) (client rd0) =
         (Ret tt, client (bd_reader (ext (obj ws))))) ∧
    (∀ status details, received_status evs = Some (status, details) →
     gives_replies (started ws) (received_replies evs) status details →
     ∃ vs' r, deliver_stream on_reply h vs' (Some r) (client sw) =
         (Ret tt, client (cb_replies (session (obj (client sc))))) ∧
       ((vs' = vs ∧ r = None) ∨
        (status ≠ GRPC_STATUS_OK ∧ vs' `prefix_of` vs ∧ r = Some (Rpc_error status details)))).
Proof.
  intros vs.
  destruct (bidir_client_runs on_reply accepts Haccepts ch tag q options sw h evs m Hq Hmachine
    Hover Hatt Hfields Hclient) as (sc & replies & st & d & Hsc & Hcd & Hci & Hcm & Hcr & Hst & Hcs).
  destruct (bidir_server_runs (rmd:=rmd) on_request accepts Haccepts cb md rd rd0 h' vs0 evs' Hcb Hat Hfields'
    Hlegal Hends Hended Hserver) as (ss & ws & reqs & Hss & Hws & Hsd & Hsi & Hsm & Hsst & Hsr & Hsv).
  exists sc, ss, ws. split; [exact Hsc|]. split; [exact Hss|]. split; [exact Hws|].
  split; [exact Hcd|]. split; [exact Hci|]. split; [exact Hsd|]. split; [exact Hsi|]. split.
  - intros Hg. destruct (requests_outcome _ _ _ Hcm Hg) as (reqs' & Hpre & Hraws).
    exists reqs'. split; [exact Hraws|]. split; [exact Hpre|]. by rewrite <- (deserialize_all _ _ _ Hsr Hraws).
  - intros status details Hst' Hg. rewrite Hst in Hst'. injection Hst' as <- <-.
    destruct (replies_outcome _ _ _ _ _ Hsm Hsst Hg) as (vs' & Hraws & Hvs').
    rewrite <- (deserialize_all _ _ _ Hcr Hraws) in Hvs'.
    exists replies, (status_end st d). split; [exact Hcs|exact Hvs'].
Qed.

(** One request, and two replies of which one is ready before the call starts. *)
Definition bidir_demo_client : list (cb_event (ReqT:=Byte.byte) (H:=unit)) :=
  [CB_push Byte.x07; CB_attach Immediate_queue tt; CB_sent 2; CB_received (Some (serialize Byte.x01));
   CB_end None; CB_sent 1; CB_sent 4; CB_received (Some (serialize Byte.x02)); CB_received None;
   CB_status GRPC_STATUS_OK None].

Definition bidir_demo_server : list (bidir_event Byte.byte) :=
  [BD_push Byte.x02; BD_sent 8; BD_received (Some (serialize Byte.x07)); BD_finish; BD_sent 2;
   BD_received None].

Lemma bidir_call_end_to_end_witness :
  ∃ sc ss ws,
    (start_bidir_streaming_call batch_allowed (Channel (Some 1) None) 4 (CallOptions (Some 3) None) ;;
     for_each_in (run_cb_event cb_demo_on_reply batch_allowed) bidir_demo_client) (cb_new cb_demo_sw)
      = (Ret tt, sc) ∧
    (Bidir_perform batch_allowed (bd_demo_program [Byte.x01] false) ;;
     for_each_in (run_bd_sys bd_demo_on_request batch_allowed) bidir_demo_server)
      (bd_incoming (rmd:=[]) [] bd_demo_reader) = (Ret tt, ss) ∧
    for_each_in (run_bidir_event bd_demo_on_request batch_allowed)
      (concat (replicate 4 [BD_sent 2; BD_sent 4])) (client ss) = (Ret tt, ws) ∧
    client (bd_reader (ext (obj ws))) = [inl Byte.x07; inr [Val None]] ∧
    client (cb_replies (session (obj (client sc)))) = [inl Byte.x01; inl Byte.x02; inr [Val None]].
Proof.
  pose (m := CbMachine [Byte.x07] 1 true CClosed CEnded COver
               [serialize Byte.x01; serialize Byte.x02] 0).
  destruct (bidir_call_end_to_end (rmd:=[]) (transport:=reliable_transport) batch_allowed batch_allowed_accepts
    cb_demo_on_reply (Channel (Some 1) None) 4 3 (CallOptions (Some 3) None) cb_demo_sw tt
    bidir_demo_client m bd_demo_on_request (bd_demo_program [Byte.x01] false) [] bd_demo_reader
    (snd (bd_demo_program [Byte.x01] false (bd_fresh_reader bd_demo_reader))) tt [Byte.x01]
    bidir_demo_server)
    as (sc & ss & ws & Hsc & Hss & Hws & _ & _ & _ & _ & Hreq & Hrep).
  { reflexivity. } { reflexivity. } { reflexivity. } { reflexivity. } { reflexivity. }
  { intros vs r. exact (log_stream_total vs (Some r) _). } { reflexivity. } { by split; [eexists _, _|]. }
  { reflexivity. } { repeat split; first [done | by eexists]. } { reflexivity. } { reflexivity. }
  { intros reqs. exact (log_stream_total reqs (Some None) _). }
  match type of Hws with context [replicate (?n + 2)] => change (n + 2) with 4 in Hws end.
  exists sc, ss, ws. split; [exact Hsc|]. split; [exact Hss|]. split; [exact Hws|]. split.
  - destruct Hreq as (reqs & Hreqs & _ & Hlog).
    { change sc with (snd (Ret (A:=unit) tt, sc)). rewrite <- Hsc. vm_compute. reflexivity. }
    destruct reqs as [|r1 [|r2 reqs]]; try discriminate Hreqs. injection Hreqs as <-.
    rewrite <- (f_equal snd Hlog : _ = client _). vm_compute. reflexivity.
  - destruct (Hrep GRPC_STATUS_OK "") as (vs' & r & Hlog & Hvs').
    { reflexivity. }
    { change ws with (snd (Ret (A:=unit) tt, ws)). rewrite <- Hws.
      change ss with (snd (Ret (A:=unit) tt, ss)). rewrite <- Hss. vm_compute. by split. }
    destruct Hvs' as [[-> ->]|[Hst _]]; [|destruct (Hst eq_refl)].
    rewrite <- (f_equal snd Hlog : _ = client _). vm_compute. reflexivity.
Defined.
