(* ===== verification/StreamingServers.v ===== *)
(** The streaming handlers of a server's methods: calls arrive at a method, their
    streams and batches progress, and the server shuts down, in any order; every
    call goes as the laws of its handler say. *)

From S2P Require Import Prelude Errors Effects FutureUtils FutureStorage Future Grpc.
From S2P Require Import StreamStorage StreamLaws CallHandler ServerStreaming ServerStreamingLaws.
From S2P Require Import ClientStreaming ClientStreamingLaws BidirStreaming BidirLaws.
From S2P Require Import Listener HandlerHeap UnaryServer EndToEnd EndToEndBidir.

(** What the core writes into the members every handler has. *)
Definition received {X} (metadata : list (string * string)) (f : X → X)
  (c : call_world (call_handler X)) : call_world (call_handler X) :=
  CallWorld (CallHandler true metadata (cancelled_ (obj c)) (server_metadata_ (obj c)) (f (ext (obj c))))
    (inflight c) (started c) (released c) (cancels c) (deleted c).

(** ** Server-streaming methods *)

Section Server_streaming.
Context {ReqT RepT : Type} `{!Serializer ReqT, !Serializer RepT}.
Context (accepts : list batch → list batch → list grpc_op → bool).
Local Abbreviation call := (stream_world RepT unit (call_world (call_handler server_streaming))).

(** [new Server_streaming_call_handler]. *)
Definition ss_fresh : call :=
  StreamWorld Stream_storage_init Future_storage_init
    (call_init (Call_handler_init (server_streaming_init None))) [].

Definition ss_fill (i : unary_arrival) (c : call) : call :=
  set_client (received (arrived_metadata i)
    (λ x, ServerStreaming (Some (arrived_payload i)) (ss_mtx_ x) (ss_finished_ x)
            (batch_in_flight_ x) (ss_pending_ops_ x)) (client c)) c.

Definition ss_delete : M call unit := zoom client set_client (delete_object Server_streaming_destroy).

#[export] Instance server_streaming_kind :
  CallKind call (ReqT → expected (stream_storage RepT)) unary_arrival.
Proof.
  refine {| kind_payload := true; call_fresh := ss_fresh; call_fill := ss_fill;
            call_perform := Server_streaming_perform accepts; call_delete := ss_delete |}.
  by eexists.
Defined.

Context (Haccepts : grpc_accepts_allowed accepts).
Context (program : ReqT → expected (stream_storage RepT)).

(** A call that progressed: the batches started are the first of its batches, and
    when its stream has ended and nothing is in flight it was sent and freed. *)
Definition ss_progress (i : unary_arrival) (vs : list RepT) (ended : bool) (c : call) : Prop :=
  started (client c) `prefix_of` ss_batches [] vs ∧ length (inflight (client c)) ≤ 1 ∧
  (ended = true → inflight (client c) = [] →
   started (client c) = ss_batches [] vs ∧ deleted (client c) = true ∧
   released (client c) = Release_buffer (arrived_payload i) :: (Release_buffer ∘ serialize <$> vs) ++
     [Release_call; Release_metadata; Release_metadata]).

Lemma ss_call_alone i (req : ReqT) vs0 ended (evs : list (ss_event RepT)) :
  deserialize (arrived_payload i) = Some req → program req = Val (returned_stream vs0 ended) →
  ss_legal ended evs →
  ∃ c, call_alone program i (run_sys_event accepts <$> evs) call_fresh = (Ret tt, c) ∧
    ss_progress i (vs0 ++ ss_pushed evs) (finished_after ended evs) c.
Proof.
  intros Hreq Hprog Hlegal.
  destruct (perform_state (rmd:=arrived_metadata i) accepts Haccepts program (arrived_payload i) req []
    vs0 ended Hreq Hprog) as (w1 & k1 & ph1 & Hrun1 & Hat1 & Hc1 & Hph1).
  destruct (run_sys_inv accepts Haccepts [] (arrived_payload i) evs w1 vs0 k1 ended ph1
    Hat1 Hc1 Hph1 Hlegal) as (w2 & k2 & ph2 & Hrun2 & Hc2 & Hph2 & _).
  exists w2. split.
  - eapply runs_bind; [reflexivity|]. eapply runs_bind; [exact Hrun1|].
    unfold runs. by rewrite for_each_in_fmap.
  - destruct (ss_state_started (rmd:=arrived_metadata i) [] (arrived_payload i) _ _ _ _ Hph2)
      as (Hpre & Hlen & _).
    unfold ss_progress. rewrite Hc2. split; [done|]. split; [done|]. intros Hf Hinf.
    rewrite Hf in *. destruct Hph2 as [_ Hph2]. destruct ph2; try done; [by destruct Hph2|].
    destruct Hph2 as [-> _]. simpl. by rewrite firstn_all.
Qed.
End Server_streaming.

(** C9: a server-streaming method of a running server.  Calls arrive, each with a
    request that parses and for which the program returns a stream; the streams
    push and end, batches complete, more calls arrive and the server shuts down, in
    any order.  Every call has sent a prefix of its metadata, its program's values in
    order and the status, with at most one batch in flight; one whose stream has
    ended and that has nothing in flight has sent all of it and has freed what it
    took; no call touches another. *)
Theorem server_streaming_method_serves_calls {ReqT RepT} `{!Serializer ReqT, !Serializer RepT}
  (accepts : list batch → list batch → list grpc_op → bool)
  (Haccepts : grpc_accepts_allowed accepts)
  (accepts_request : call_request → bool)
  (Hrequest : ∀ r, req_payload r = true → accepts_request r = true)
  (program : ReqT → expected (stream_storage RepT)) (name : string) (server registration cq : nat)
  (evs : list (method_event (I:=unary_arrival))) (plan : nat → list (ss_event RepT))
  (Hlegal : method_legal 0 true evs)
  (Hplan : ∀ n, happened n evs = run_sys_event accepts <$> plan n)
  (Hprogram : ∀ n i, arrivals evs !! n = Some i → ∃ req vs0 ended,
     deserialize (arrived_payload i) = Some req ∧ program req = Val (returned_stream vs0 ended) ∧
     ss_legal ended (plan n)) :
  let kind := server_streaming_kind (ReqT:=ReqT) (RepT:=RepT) accepts in
  let handlers_of := heap_handler_type (CallKind0:=kind) accepts_request in
  ∃ l w1 w hs, Method_listen (HandlerType0:=handlers_of) (Method_init name program)
      server registration cq (HandlerHeap [] []) = (Ret l, w1) ∧
    for_each_in (run_method_event (CallKind0:=kind) accepts_request) evs (Listening l false w1)
      = (Ret tt, w) ∧
    listener_deleted w = negb (open_after evs) ∧ NoDup hs ∧
    ∀ n i, arrivals evs !! n = Some i → ∃ h c,
      hs !! n = Some h ∧ heap_calls (handlers w) !! h = Some c ∧
      ∃ req vs0 ended, deserialize (arrived_payload i) = Some req ∧ program req = Val (returned_stream vs0 ended) ∧
      ss_progress i (vs0 ++ ss_pushed (plan n)) (finished_after ended (plan n)) c.
Proof.
  intros kind handlers_of.
  apply (method_serves_each (CallKind0:=kind) accepts_request Hrequest program server registration
    cq name evs _ Hlegal).
  intros n i Hi. destruct (Hprogram n i Hi) as (req & vs0 & ended & Hreq & Hprog & Hleg).
  destruct (ss_call_alone accepts Haccepts program i req vs0 ended (plan n) Hreq Hprog Hleg)
    as (c & Hc & Hp).
  rewrite <- Hplan in Hc. exists c. split; [done|]. by exists req, vs0, ended.
Qed.

Lemma server_streaming_method_serves_calls_witness :
  let kind := server_streaming_kind (ReqT:=Byte.byte) (RepT:=Byte.byte) batch_allowed in
  let handlers_of := heap_handler_type (CallKind0:=kind) req_payload in
  let program b := Val (returned_stream [b] (Byte.eqb b Byte.x00)) in
  let i1 := UnaryArrival (ByteBuffer true [[Byte.x07]]) [] in
  let i2 := UnaryArrival (ByteBuffer true [[Byte.x00]]) [("k", "v")] in
  let ev := run_sys_event (RepT:=Byte.byte) batch_allowed in
  let evs := [Arrives i1; Happens 0 (ev (SS_push Byte.x09)); Arrives i2;
              Happens 1 (ev (SS_complete true)); Happens 0 (ev (SS_complete true)); Shuts_down;
              Happens 1 (ev (SS_complete true)); Happens 0 (ev SS_finish);
              Happens 1 (ev (SS_complete true))] in
  ∃ l w1 w hs, Method_listen (HandlerType0:=handlers_of) (Method_init "/s/m" program)
      1 2 3 (HandlerHeap [] []) = (Ret l, w1) ∧
    for_each_in (run_method_event (CallKind0:=kind) req_payload) evs (Listening l false w1)
      = (Ret tt, w) ∧
    listener_deleted w = true ∧ NoDup hs ∧
    (∃ h c, hs !! 1 = Some h ∧ heap_calls (handlers w) !! h = Some c ∧
      ss_progress i2 [Byte.x00] true c).
Proof.
  intros kind handlers_of program i1 i2 ev evs.
  destruct (server_streaming_method_serves_calls batch_allowed batch_allowed_accepts req_payload
    ltac:(done) program "/s/m" 1 2 3 evs
    (λ n, match n with
          | 0 => [SS_push Byte.x09; SS_complete true; SS_finish]
          | 1 => [SS_complete true; SS_complete true; SS_complete true]
          | _ => [] end)) as (l & w1 & w & hs & Hl & Hrun & Hdel & Hnd & Hcalls).
  - repeat split; lia.
  - intros [|[|n]]; reflexivity.
  - intros [|[|n]] i [= <-].
    + exists Byte.x07, [Byte.x07], false. repeat split.
    + exists Byte.x00, [Byte.x00], true. repeat split.
  - exists l, w1, w, hs. split; [exact Hl|]. split; [exact Hrun|]. split; [exact Hdel|].
    split; [exact Hnd|].
    destruct (Hcalls 1 i2 eq_refl) as (h & c & Hh & Hc & req & vs0 & ended & Hreq & Hprog & Hp).
    exists h, c. split; [exact Hh|]. split; [exact Hc|].
    change (Some Byte.x00 = Some req) in Hreq. injection Hreq as <-.
    injection Hprog as <- Hbits. destruct ended; [exact Hp|discriminate Hbits].
Defined.

(** ** Client-streaming methods *)

Section Client_streaming.
Context {ReqT RepT H U : Type} `{!Serializer ReqT, !Serializer RepT, !FutureHandler unit H U}.
Context (on_request : ReqT → M U unit).
Context (accepts : list batch → list batch → list grpc_op → bool).
(** The reader's side of each call: the state of the program's own code for it. *)
Context (rd : stream_world ReqT H U).
Local Abbreviation call := (call_world (call_handler (client_streaming ReqT RepT H U))).
Local Abbreviation callback := (M (stream_world ReqT H U) (future_storage RepT unit)).

(** [new Client_streaming_call_handler]. *)
Definition cs_fresh : call := call_init (Call_handler_init (ClientStreaming false rd None None)).

Definition cs_delete : M call unit := delete_object (Client_streaming_destroy on_request).

#[export] Instance client_streaming_kind : CallKind call callback (list (string * string)).
Proof.
  refine {| kind_payload := false; call_fresh := cs_fresh; call_fill md := received md (λ x, x);
            call_perform := Client_streaming_perform accepts; call_delete := cs_delete |}.
  by eexists.
Defined.

(** What happens to a call: its messages and their end, the program's reply, and the
    completion of the reply. *)
Definition cs_call_events (raws : list byte_buffer) (rep : expected RepT) : list (M call unit) :=
  (client_streaming_receive on_request accepts 0 <$> ((Some <$> raws) ++ [None])) ++
  [client_streaming_settle accepts rep; client_streaming_complete on_request accepts 0].

Context (Haccepts : grpc_accepts_allowed accepts) (program : callback).

(** A call after the first [k] of these: its stream gave the program the messages
    so far, in order, and their end once it was received; then the reply was sent,
    and with its completion everything was freed. *)
Definition cs_progress (h' : H) (u0 : U) (raws : list byte_buffer) (reqs : list ReqT)
  (rep : expected RepT) (k : nat) (c : call) : Prop :=
  let n := length raws in
  deliver_stream on_request h' (take k reqs) (if k <=? n then None else Some None) u0 =
    (Ret tt, client (reader (ext (obj c)))) ∧
  length (inflight c) ≤ 1 ∧
  started c = cs_first_batch [] :: replicate (k `min` n) recv_batch ++
    (if n + 2 <=? k then [reply_batch rep] else []) ∧
  released c = (Release_buffer <$> take k raws) ++
    (if n + 2 <=? k then [answer_release rep] else []) ++
    (if n + 3 <=? k then [Release_call; Release_metadata; Release_metadata] else []) ∧
  deleted c = (n + 3 <=? k) ∧ (deleted c = true → inflight c = []).

Lemma cs_progress_intro h' u0 raws (reqs : list ReqT) rep k c :
  length raws = length reqs →
  (∃ j : nat, k = length raws + j ∧
     deliver_stream on_request h' reqs (if j =? 0 then None else Some None) u0 =
       (Ret tt, client (reader (ext (obj c)))) ∧
     length (inflight c) ≤ 1 ∧
     started c = cs_first_batch [] :: replicate (length raws) recv_batch ++
       (if 2 <=? j then [reply_batch rep] else []) ∧
     released c = (Release_buffer <$> raws) ++ (if 2 <=? j then [answer_release rep] else []) ++
       (if 3 <=? j then [Release_call; Release_metadata; Release_metadata] else []) ∧
     deleted c = (3 <=? j) ∧ (deleted c = true → inflight c = [])) →
  cs_progress h' u0 raws reqs rep k c.
Proof.
  intros Hlen (j & -> & Hd & Hinf & Hst & Hrel & Hdel & Hdone). unfold cs_progress.
  rewrite !take_ge by lia. replace ((length raws + j) `min` length raws) with (length raws) by lia.
  assert (∀ m, (length raws + m <=? length raws + j) = (m <=? j)) as Hm.
  { intros m. destruct (Nat.leb_spec m j), (Nat.leb_spec (length raws + m) (length raws + j)); lia. }
  rewrite !Hm. replace (length raws + j <=? length raws) with (j =? 0); [done|].
  destruct (Nat.eqb_spec j 0), (Nat.leb_spec (length raws + j) (length raws)); lia.
Qed.

Section Call.
Context {md : list (string * string)} (rd0 : stream_world ReqT H U) (h' : H)
  (raws : list byte_buffer) (reqs : list ReqT) (rep : expected RepT).
Context (Hat : attached_to h' rd0) (Hfields : handler_fields h' = [Fvoid]).
Context (Hraws : Forall2 (λ raw (req : ReqT), deserialize raw = Some req) raws reqs).
Local Abbreviation performed fut := (cs_state (rmd:=md) [] true rd0 fut [cs_first_batch []] 0 []).

(** While messages arrive. *)
Lemma cs_receiving fut k u1 :
  k ≤ length raws → deliver_stream on_request h' (take k reqs) None (client rd0) = (Ret tt, u1) →
  ∃ c, for_each_in (λ m, m) (take k (cs_call_events raws rep)) (performed fut) = (Ret tt, c) ∧
    cs_progress h' (client rd0) raws reqs rep k c.
Proof.
  intros Hk Hu1.
  destruct (attached_sees_some on_request h' _ rd0 u1 Hfields Hat Hu1) as (rd1 & Hstream & Hrd1).
  destruct (receive_messages (rmd:=md) on_request accepts Haccepts [] fut (take k raws) (take k reqs)
    rd0 rd1 (cs_first_batch []) 0 [] eq_refl) as (b & _ & _ & Hrecv); [by apply Forall2_take|done|].
  eexists. split.
  - unfold cs_call_events.
    rewrite fmap_app, <- app_assoc, take_app_le by (by rewrite !length_fmap).
    rewrite <- !fmap_take, for_each_in_fmap. exact Hrecv.
  - unfold cs_progress.
    rewrite (proj2 (Nat.leb_le k (length raws)) Hk),
      (proj2 (Nat.leb_gt (length raws + 2) k) ltac:(lia)),
      (proj2 (Nat.leb_gt (length raws + 3) k) ltac:(lia)).
    cbn [reader ext obj cs_state inflight started released deleted length].
    rewrite length_take, !app_nil_r, Hrd1. repeat split; [exact Hu1|lia|done].
Qed.

(** Once their end has arrived. *)
Lemma cs_received fut j u1 :
  implements fut (Cell_attached tt) →
  deliver_stream on_request h' reqs (Some None) (client rd0) = (Ret tt, u1) →
  ∃ c, for_each_in (λ m, m) (take (length raws + S j) (cs_call_events raws rep)) (performed fut)
         = (Ret tt, c) ∧
    cs_progress h' (client rd0) raws reqs rep (length raws + S j) c.
Proof.
  intros Hfut Hu1. pose proof (Forall2_length _ _ _ Hraws) as Hlen.
  destruct (attached_sees on_request h' reqs rd0 u1 Hfields Hat Hu1) as (rd1 & Hstream & Hrd1).
  pose proof (receive_all (rmd:=md) on_request accepts Haccepts [] fut raws reqs rd0 rd1
    (cs_first_batch []) 0 [] eq_refl Hraws Hstream) as Hrecv.
  destruct (settle_reply (rmd:=md) accepts Haccepts [] false rd1 fut [] (length raws)
    (Release_buffer <$> raws) rep (reply_allowed [] _ rep) Hfut) as (fut2 & Hsettle).
  assert (∀ c, for_each_in (λ m, m) (take j [client_streaming_settle accepts rep;
      client_streaming_complete on_request accepts 0]) (cs_state (rmd:=md) [] false rd1 fut []
      (length raws) (Release_buffer <$> raws)) = (Ret tt, c) →
    for_each_in (λ m, m) (take (length raws + S j) (cs_call_events raws rep)) (performed fut)
      = (Ret tt, c)) as Hafter.
  { intros c Hms. unfold cs_call_events.
    replace (length raws + S j) with (length raws + 1 + j) by lia.
    rewrite take_app_add' by (by rewrite length_fmap, length_app, length_fmap).
    rewrite (for_each_in_app (λ m, m)). eapply runs_bind; [|exact Hms].
    unfold runs. rewrite for_each_in_fmap. exact Hrecv. }
  destruct j as [|[|j]].
  - eexists. split; [by apply Hafter|]. apply cs_progress_intro; [done|].
    exists 1. simpl. rewrite Hrd1, !app_nil_r. split_and!; first [exact Hu1|lia|done].
  - eexists. split; [apply Hafter; eapply runs_bind; [exact Hsettle|reflexivity]|].
    apply cs_progress_intro; [done|]. exists 2. simpl. rewrite Hrd1.
    split_and!; first [exact Hu1|lia|done].
  - eexists. split; [apply Hafter; eapply runs_bind; [exact Hsettle|]|].
    { eapply runs_bind; [apply complete_reply|by destruct j]. }
    apply cs_progress_intro; [done|]. exists (S (S (S j))). simpl. rewrite Hrd1, <- !app_assoc.
    split_and!; first [exact Hu1|lia|done].
Qed.
End Call.

Lemma cs_call_alone md (rd0 : stream_world ReqT H U) fut h' raws (reqs : list ReqT) rep k :
  program (fresh_reader rd) = (Ret fut, rd0) → implements fut Cell_empty →
  attached_to h' rd0 → handler_fields h' = [Fvoid] →
  Forall2 (λ raw (req : ReqT), deserialize raw = Some req) raws reqs →
  (∀ reqs r, r = None ∨ r = Some None →
     ∃ u1, deliver_stream on_request h' reqs r (client rd0) = (Ret tt, u1)) →
  ∃ c, call_alone program md (take k (cs_call_events raws rep)) call_fresh = (Ret tt, c) ∧
    cs_progress h' (client rd0) raws reqs rep k c.
Proof.
  intros Hcb Hfut Hat Hfields Hraws Htot.
  destruct (perform_runs (rmd:=md) accepts Haccepts program [] rd rd0 fut Hcb Hfut)
    as (fut1 & Hfut1 & Hperform).
  assert (∃ c, for_each_in (λ m, m) (take k (cs_call_events raws rep))
      (cs_state (rmd:=md) [] true rd0 fut1 [cs_first_batch []] 0 []) = (Ret tt, c) ∧
    cs_progress h' (client rd0) raws reqs rep k c) as (c & Hms & Hc).
  { destruct (decide (k ≤ length raws)) as [Hk|Hk].
    - destruct (Htot (take k reqs) None) as [u1 Hu1]; [by left|]. by eapply cs_receiving.
    - destruct (Htot reqs (Some None)) as [u1 Hu1]; [by right|].
      replace k with (length raws + S (k - S (length raws))) by lia. by eapply cs_received. }
  exists c. split; [|done]. eapply runs_bind; [reflexivity|]. by eapply runs_bind.
Qed.
End Client_streaming.

(** C10: a client-streaming method of a running server.  Calls arrive, messages arrive
    on each, programs reply, replies complete, more calls arrive and the server
    shuts down, in any order.  The program of every call has seen on its stream
    exactly the messages of that call so far, in order, and their end once it was
    received; one batch is in flight at a time; a call that got its program's reply
    has sent it once, and when that completed the handler freed what it took; no
    call touches another. *)
Theorem client_streaming_method_serves_calls {ReqT RepT H U}
  `{!Serializer ReqT, !Serializer RepT, !FutureHandler unit H U}
  (on_request : ReqT → M U unit)
  (accepts : list batch → list batch → list grpc_op → bool)
  (Haccepts : grpc_accepts_allowed accepts)
  (accepts_request : call_request → bool)
  (Hrequest : ∀ r, req_payload r = false → accepts_request r = true)
  (program : M (stream_world ReqT H U) (future_storage RepT unit))
  (rd rd0 : stream_world ReqT H U) (fut : future_storage RepT unit) (h' : H)
  (name : string) (server registration cq : nat)
  (evs : list (method_event (I:=list (string * string))))
  (messages : nat → list byte_buffer) (requests : nat → list ReqT) (reply : nat → expected RepT)
  (progress : nat → nat)
  (Hcb : program (fresh_reader rd) = (Ret fut, rd0)) (Hfut : implements fut Cell_empty)
  (Hat : attached_to h' rd0) (Hfields : handler_fields h' = [Fvoid])
  (Hprogram : ∀ reqs r, r = None ∨ r = Some None →
     ∃ u1, deliver_stream on_request h' reqs r (client rd0) = (Ret tt, u1))
  (Hlegal : method_legal 0 true evs)
  (Hparse : ∀ n, Forall2 (λ raw req, deserialize raw = Some req) (messages n) (requests n))
  (Hevents : ∀ n, happened n evs =
     take (progress n) (cs_call_events on_request accepts (messages n) (reply n))) :
  let kind := client_streaming_kind on_request accepts rd in
  let handlers_of := heap_handler_type (CallKind0:=kind) accepts_request in
  ∃ l w1 w hs, Method_listen (HandlerType0:=handlers_of) (Method_init name program)
      server registration cq (HandlerHeap [] []) = (Ret l, w1) ∧
    for_each_in (run_method_event (CallKind0:=kind) accepts_request) evs (Listening l false w1)
      = (Ret tt, w) ∧
    listener_deleted w = negb (open_after evs) ∧ NoDup hs ∧
    ∀ n md, arrivals evs !! n = Some md → ∃ h c,
      hs !! n = Some h ∧ heap_calls (handlers w) !! h = Some c ∧
      cs_progress on_request h' (client rd0) (messages n) (requests n) (reply n) (progress n) c.
Proof.
  intros kind handlers_of.
  apply (method_serves_each (CallKind0:=kind) accepts_request Hrequest program server registration
    cq name evs _ Hlegal).
  intros n md _. rewrite Hevents. by eapply cs_call_alone.
Qed.

Lemma client_streaming_method_serves_calls_witness :
  let kind := client_streaming_kind (RepT:=Byte.byte) demo_on_request batch_allowed demo_reader in
  let handlers_of := heap_handler_type (CallKind0:=kind) (negb ∘ req_payload) in
  let raw b := ByteBuffer true [[b]] in
  let receive := client_streaming_receive (RepT:=Byte.byte) demo_on_request batch_allowed 0 in
  let settle := client_streaming_settle (RepT:=Byte.byte) (H:=unit) (U:=demo_log) batch_allowed in
  let complete := client_streaming_complete (RepT:=Byte.byte) demo_on_request batch_allowed 0 in
  let evs := [Arrives []; Arrives [("k", "v")]; Happens 1 (receive (Some (raw Byte.x05)));
              Happens 0 (receive (Some (raw Byte.x01))); Happens 1 (receive None); Arrives [];
              Happens 1 (settle (Val Byte.x09)); Happens 0 (receive (Some (raw Byte.x02)));
              Shuts_down; Happens 0 (receive None); Happens 0 (settle (Err (error_not_found "x")));
              Happens 1 complete] in
  ∃ l w1 w hs, Method_listen (HandlerType0:=handlers_of) (Method_init "/s/m" demo_program)
      1 2 3 (HandlerHeap [] []) = (Ret l, w1) ∧
    for_each_in (run_method_event (CallKind0:=kind) (negb ∘ req_payload)) evs (Listening l false w1)
      = (Ret tt, w) ∧
    listener_deleted w = true ∧ NoDup hs ∧
    ∃ h c, hs !! 1 = Some h ∧ heap_calls (handlers w) !! h = Some c ∧
      client (reader (ext (obj c))) = [inl Byte.x05; inr [Val None]] ∧ deleted c = true.
Proof.
  intros kind handlers_of raw receive settle complete evs.
  pose (rd0 := snd (demo_program (fresh_reader demo_reader))).
  destruct (client_streaming_method_serves_calls demo_on_request batch_allowed batch_allowed_accepts
    (negb ∘ req_payload) ltac:(by intros r; simpl; intros ->) demo_program demo_reader rd0
    Future_storage_init tt "/s/m" 1 2 3 evs
    (λ n, match n with 0 => [raw Byte.x01; raw Byte.x02] | 1 => [raw Byte.x05] | _ => [] end)
    (λ n, match n with 0 => [Byte.x01; Byte.x02] | 1 => [Byte.x05] | _ => [] end)
    (λ n, match n with 0 => Err (error_not_found "x") | _ => Val Byte.x09 end)
    (λ n, match n with 0 => 4 | 1 => 4 | _ => 0 end))
    as (l & w1 & w & hs & Hl & Hrun & Hdel & Hnd & Hcalls).
  - reflexivity.
  - exact init_implements.
  - by split; [eexists _, _|].
  - reflexivity.
  - intros reqs r Hr. exact (log_stream_total reqs r _).
  - repeat split; lia.
  - intros [|[|n]]; repeat constructor.
  - intros [|[|n]]; reflexivity.
  - exists l, w1, w, hs. split; [exact Hl|]. split; [exact Hrun|]. split; [exact Hdel|].
    split; [exact Hnd|]. destruct (Hcalls 1 [("k", "v")] eq_refl) as (h & c & Hh & Hc & Hp).
    exists h, c. split; [exact Hh|]. split; [exact Hc|].
    destruct Hp as (Hdeliver & _ & _ & _ & Hd & _).
    split; [|exact Hd]. exact (eq_sym (f_equal snd Hdeliver)).
Defined.

(** ** Bidirectional methods *)

Section Bidirectional.
Context {ReqT RepT H U : Type} `{!Serializer ReqT, !Serializer RepT, !FutureHandler unit H U}.
Context (on_request : ReqT → M U unit).
Context (accepts : list batch → list batch → list grpc_op → bool).
Context (rd : stream_world ReqT H U).
Local Abbreviation call := (stream_world RepT unit (call_world (call_handler (bidir_streaming ReqT H U)))).
Local Abbreviation callback := (M (stream_world ReqT H U) (stream_storage RepT)).

(** [new Bidir_streaming_call_handler]. *)
Definition bd_fresh : call :=
  StreamWorld Stream_storage_init Future_storage_init
    (call_init (Call_handler_init (BidirStreaming false rd None false false false []))) [].

Definition bd_delete : M call unit :=
  zoom client set_client (delete_object (Bidir_destroy on_request)).

#[export] Instance bidir_kind : CallKind call callback (list (string * string)).
Proof.
  refine {| kind_payload := false; call_fresh := bd_fresh;
            call_fill md c := set_client (received md (λ x, x) (client c)) c;
            call_perform := Bidir_perform accepts; call_delete := bd_delete |}.
  by eexists.
Defined.

Context (Haccepts : grpc_accepts_allowed accepts) (program : callback).

(** A call that progressed: the program saw what was received, the sending direction
    is as far as a prefix of its batches, and when both directions have ended and
    nothing is in flight everything was sent and the handler deleted. *)
Definition bd_progress (h' : H) (u0 : U) (evs : list (bidir_event RepT)) (vs : list RepT)
  (c : call) : Prop :=
  let batches := bd_handshake [] :: (bd_message <$> vs) ++ [bd_end] in
  let ses := evs ≫= bd_requests (ReqT:=ReqT) (H:=H) in
  deliver_stream on_request h' (pushed ses) (ending ses) u0 =
    (Ret tt, client (bd_reader (ext (obj (client c))))) ∧
  filter is_control (started (client c)) `prefix_of` batches ∧
  (fin_after false evs = true → inflight (client c) = [] →
   filter is_control (started (client c)) = batches ∧ deleted (client c) = true).

Lemma bd_call_alone md (rd0 : stream_world ReqT H U) h' vs0 (evs : list (bidir_event RepT)) :
  program (bd_fresh_reader rd) = (Ret (bd_returned vs0 false), rd0) →
  attached_to h' rd0 → handler_fields h' = [Fvoid] →
  bd_legal (ReqT:=ReqT) (has_replies vs0) RNot_started false evs →
  (∀ reqs r, r = None ∨ r = Some None →
     ∃ u1, deliver_stream on_request h' reqs r (client rd0) = (Ret tt, u1)) →
  ∃ c, call_alone program md (run_bd_sys on_request accepts <$> evs) call_fresh = (Ret tt, c) ∧
    bd_progress h' (client rd0) evs (vs0 ++ (evs ≫= bd_replies)) c.
Proof.
  intros Hcb Hat Hfields Hlegal Htotal.
  destruct (server_stream h' evs _ RNot_started false Hlegal) as (Hl & _ & _).
  destruct (Htotal (pushed (evs ≫= bd_requests (ReqT:=ReqT) (H:=H))) _ (server_stream_no_error (ReqT:=ReqT) (H':=H) evs))
    as [u1 Hu1].
  destruct (run_attached on_request h' Hfields (evs ≫= bd_requests) rd0 u1 Hat Hl Hu1)
    as (p & rd1 & Hrun & Hrd1).
  destruct (bd_perform_runs (rmd:=md) accepts Haccepts program [] rd rd0 vs0 Hcb)
    as (s1 & Hs1 & Hat1 & Hinv1).
  destruct (run_bd_sys_inv on_request accepts Haccepts [] evs s1 _ vs0 0 false BHandshake
    RNot_started rd0 p rd1 (λ _, Hat1) Hinv1 Hlegal (has_replies_some vs0) Hrun) as (c & k & ph & Hc & Hinv).
  exists c. split.
  - eapply runs_bind; [reflexivity|]. eapply runs_bind; [exact Hs1|].
    unfold runs. by rewrite for_each_in_fmap.
  - destruct (bd_inv_sent _ _ _ _ _ _ _ _ Hinv) as [Hpre Hover].
    split; [|by split]. rewrite (bd_obj _ _ _ _ _ _ _ _ Hinv). simpl. by rewrite Hrd1.
Qed.
End Bidirectional.

(** C11: a bidirectional method of a running server.  Calls arrive, the two directions
    of each progress, more calls arrive and the server shuts down; the events of the
    calls, the arrivals and the shutdown are interleaved in any order.  The events of one
    call are those [bd_legal] takes: all the interleavings of its replies, the end of its
    replies, its receptions and its completions, but for two.  The program ends its
    replies before the metadata was sent with none pushed
    ([bidir_streaming_early_end_lost]); and the status completes while a receive is in
    flight, that is before the client has ended its requests
    ([bidir_early_close_use_after_free]).  Messages parse, and replies end without an
    error.
    Every program saw on its stream the messages of its call, in order, and their
    end once the client sent it; what its call sent is a prefix of the metadata, its
    replies in order and the status; a call whose directions have both ended and that
    has nothing in flight has sent all of it and its handler is deleted; no call
    touches another. *)
Theorem bidir_method_serves_calls {ReqT RepT H U}
  `{!Serializer ReqT, !Serializer RepT, !FutureHandler unit H U}
  (on_request : ReqT → M U unit)
  (accepts : list batch → list batch → list grpc_op → bool)
  (Haccepts : grpc_accepts_allowed accepts)
  (accepts_request : call_request → bool)
  (Hrequest : ∀ r, req_payload r = false → accepts_request r = true)
  (program : M (stream_world ReqT H U) (stream_storage RepT))
  (rd rd0 : stream_world ReqT H U) (vs0 : list RepT) (h' : H)
  (name : string) (server registration cq : nat)
  (evs : list (method_event (I:=list (string * string))))
  (plan : nat → list (bidir_event RepT))
  (Hcb : program (bd_fresh_reader rd) = (Ret (bd_returned vs0 false), rd0))
  (Hat : attached_to h' rd0) (Hfields : handler_fields h' = [Fvoid])
  (Hprogram : ∀ reqs r, r = None ∨ r = Some None →
     ∃ u1, deliver_stream on_request h' reqs r (client rd0) = (Ret tt, u1))
  (Hlegal : method_legal 0 true evs)
  (Hplan : ∀ n, happened n evs = run_bd_sys on_request accepts <$> plan n)
  (Hlegals : ∀ n, bd_legal (ReqT:=ReqT) (has_replies vs0) RNot_started false (plan n)) :
  let kind := bidir_kind on_request accepts rd in
  let handlers_of := heap_handler_type (CallKind0:=kind) accepts_request in
  ∃ l w1 w hs, Method_listen (HandlerType0:=handlers_of) (Method_init name program)
      server registration cq (HandlerHeap [] []) = (Ret l, w1) ∧
    for_each_in (run_method_event (CallKind0:=kind) accepts_request) evs (Listening l false w1)
      = (Ret tt, w) ∧
    listener_deleted w = negb (open_after evs) ∧ NoDup hs ∧
    ∀ n md, arrivals evs !! n = Some md → ∃ h c,
      hs !! n = Some h ∧ heap_calls (handlers w) !! h = Some c ∧
      bd_progress on_request h' (client rd0) (plan n) (vs0 ++ (plan n ≫= bd_replies)) c.
Proof.
  intros kind handlers_of.
  apply (method_serves_each (CallKind0:=kind) accepts_request Hrequest program server registration
    cq name evs _ Hlegal).
  intros n md _. rewrite Hplan. by eapply bd_call_alone.
Qed.

Lemma bidir_method_serves_calls_witness :
  let kind := bidir_kind (RepT:=Byte.byte) bd_demo_on_request batch_allowed bd_demo_reader in
  let handlers_of := heap_handler_type (CallKind0:=kind) (negb ∘ req_payload) in
  let program := bd_demo_program [Byte.x01] false in
  let ev := run_bd_sys (ReqT:=Byte.byte) (RepT:=Byte.byte) bd_demo_on_request batch_allowed in
  let raw := ByteBuffer true [[Byte.x07]] in
  let evs := [Arrives []; Arrives [("k", "v")]; Happens 0 (ev (BD_push Byte.x02));
              Happens 1 (ev (BD_sent 8)); Happens 0 (ev (BD_sent 8));
              Happens 1 (ev (BD_received (Some raw))); Arrives []; Happens 1 (ev BD_finish);
              Happens 1 (ev (BD_sent 2)); Shuts_down; Happens 1 (ev (BD_received None));
              Happens 0 (ev (BD_received None)); Happens 1 (ev (BD_sent 4))] in
  ∃ l w1 w hs, Method_listen (HandlerType0:=handlers_of) (Method_init "/s/m" program)
      1 2 3 (HandlerHeap [] []) = (Ret l, w1) ∧
    for_each_in (run_method_event (CallKind0:=kind) (negb ∘ req_payload)) evs (Listening l false w1)
      = (Ret tt, w) ∧
    listener_deleted w = true ∧ NoDup hs ∧
    ∃ h c, hs !! 1 = Some h ∧ heap_calls (handlers w) !! h = Some c ∧
      client (bd_reader (ext (obj (client c)))) = [inl Byte.x07; inr [Val None]] ∧
      filter is_control (started (client c)) `prefix_of` [bd_handshake []; bd_message Byte.x01; bd_end].
Proof.
  intros kind handlers_of program ev raw evs.
  pose (rd0 := snd (program (bd_fresh_reader bd_demo_reader))).
  destruct (bidir_method_serves_calls bd_demo_on_request batch_allowed batch_allowed_accepts
    (negb ∘ req_payload) ltac:(by intros r; simpl; intros ->) program bd_demo_reader rd0 [Byte.x01]
    tt "/s/m" 1 2 3 evs
    (λ n, match n with
          | 0 => [BD_push Byte.x02; BD_sent 8; BD_received None]
          | 1 => [BD_sent 8; BD_received (Some raw); BD_finish; BD_sent 2; BD_received None; BD_sent 4]
          | _ => [] end))
    as (l & w1 & w & hs & Hl & Hrun & Hdel & Hnd & Hcalls).
  - reflexivity.
  - by split; [eexists _, _|].
  - reflexivity.
  - intros reqs r Hr. exact (log_stream_total reqs r _).
  - repeat split; lia.
  - intros [|[|n]]; reflexivity.
  - intros [|[|n]]; repeat split; first [done | by eexists].
  - exists l, w1, w, hs. split; [exact Hl|]. split; [exact Hrun|]. split; [exact Hdel|].
    split; [exact Hnd|]. destruct (Hcalls 1 [("k", "v")] eq_refl) as (h & c & Hh & Hc & Hp).
    exists h, c. split; [exact Hh|]. split; [exact Hc|].
    destruct Hp as (Hdeliver & Hpre & _). split; [|exact Hpre].
    exact (eq_sym (f_equal snd Hdeliver)).
Defined.
